(* ===== verification/_CoqProject ===== *)
-Q . S2P
Prelude.v
Wire.v
Encoding.v
Bft.v
Formats.v
Roster.v
Round.v
RoundInv.v
Node.v
NodeInv.v
Decide.v
Quorum.v
Gossip.v
GossipInv.v
Receive.v
Replay.v
Tfl.v
TflInv.v
Finality.v
Amount.v
Staking.v
Transparent.v
Network.v
Subsidy.v
SubsidyInv.v
Testnet.v
TestnetInv.v
Transaction.v
Delegation.v
DelegationInv.v
DelegationBlock.v
BlockValue.v
Spends.v
SpendsInv.v
Merkle.v
TxVerifier.v
DelegationRevert.v
DiskFormat.v
Finalize.v
NonFinalized.v
FinalizeInv.v
ChainGrowth.v
NonFinalizedInv.v
Stakes.v
WriteTask.v
PowRoster.v
Difficulty.v
DifficultyInv.v
BlockVerifier.v
BlockVerifierInv.v
Issuance.v
Checkpoint.v
CheckpointInv.v
Queue.v
QueueInv.v
Find.v
FindInv.v
Scenario.v
TflScenario.v
StakeScenario.v
WriteScenario.v
BlockScenario.v
QueueScenario.v
FindScenario.v
CheckpointScenario.v
ChainTip.v
Unmined.v
Mempool.v
MempoolService.v
MempoolInv.v
Template.v
TemplateInv.v
MempoolScenario.v
