(* ===== verification/Prelude.v ===== *)
(** * Crosslink: the consensus core of a hybrid PoW / BFT node

    A verification library for the consensus logic of this repository: the
    Tendermint engine [tenderlink], the trailing finality service of
    [zebra-crosslink] that runs on it, the part of the Zebra state that stakes,
    rewards and finalizes blocks, the verifier of the blocks it gets, and the
    mempool of the transactions that wait for a block.  It is a shallow embedding:
    pure code is a Rocq function, stateful code passes its state, code that can
    fail returns a sum, and code that can panic runs in the monad [outcome]
    below.  Definitions keep the names of the source and evaluate.

    ** The program

    A node follows a PoW chain.  [tenderlink] ([tenderlink/src/lib.rs]) is a
    network of finalizers that agree on BFT blocks; each names the PoW headers it
    finalizes.  The finality service ([zebra-crosslink/zebra-crosslink/src/lib.rs])
    gives the engine its closures: what to propose, what to accept, what to do
    with a decided block.  A decided block is stored, and the PoW block it
    finalizes is sent to the state ([zebra-state]), which moves the PoW blocks up
    to it into the database and answers with the stakes of the finalizers: the
    next roster.  Stake is held in delegation bonds that PoW transactions create,
    retarget, unbond and withdraw, and that every PoW block rewards.  A PoW block
    reaches the state through the block verifier ([zebra-consensus]), which checks
    its header, its subsidy and its transactions.  Transactions wait in the mempool
    ([zebrad]), which follows the tip of the chain, and block templates
    ([zebra-rpc]) are chosen from it.

    ** Files

    Vocabulary
    - [Prelude]: [outcome], machine integers ([arith] panics or wraps, depending
      on the build profile), bytes, readers, sums.

    Formats
    - [Wire]: packets and signed bytes ([tenderlink/src/helpers.rs], [lib.rs]).
    - [Encoding]: CompactSize, vectors, options ([zcash_encoding/src/lib.rs]).
    - [Bft]: BFT blocks, votes, fat pointers, PoW headers
      ([zcash_primitives/src/bft.rs], [block.rs]).
    - [Formats]: round trips of these encodings, and that signed bytes determine
      a vote.

    The BFT engine ([tenderlink/src/lib.rs])
    - [Roster]: the sorted roster and the weighted choice of the proposer.
    - [Round], [RoundInv]: the votes and proposal chunks of one round; counting
      votes and reassembling proposals is correct.
    - [Node], [NodeInv], [Decide]: the Tendermint state machine; its invariant,
      and that a decision has a quorum and a valid certificate.
    - [Quorum]: how far quorums overlap, and who is exposed by conflicting ones.
    - [Gossip], [GossipInv], [Receive]: what is sent to peers is complete, and a
      well-formed packet never aborts a node; the packets that do.
    - [Replay]: the round number in the signed bytes and its consequences.

    The finality service ([zebra-crosslink/src/lib.rs], [service.rs])
    - [Tfl], [TflInv]: the service and its invariant, as a client of the engine:
      [EngineClient] is the interface between the two.
    - [Finality]: proposing, deciding, storing, replaying and answering requests.

    The PoW state
    - [Amount]: amounts and value pools ([zebra-chain/src/amount.rs],
      [value_balance.rs]).
    - [Staking]: staking actions ([zcash_primitives/src/transaction/mod.rs],
      [zebra-consensus/src/transaction.rs]).
    - [Delegation], [DelegationInv], [DelegationBlock], [DelegationRevert]: the
      bonds of a chain ([zebra-state/src/service/check/delegation.rs],
      [non_finalized_state/chain.rs]).
    - [BlockValue]: the value pool change of a block
      ([zebra-chain/src/block.rs], [transaction.rs]).
    - [Spends], [SpendsInv]: outputs, nullifiers and their spends in a chain
      ([check/utxo.rs], [check/nullifier.rs], [non_finalized_state/chain.rs]).
    - [DiskFormat]: how bonds and pools are stored ([disk_format/]).
    - [Finalize], [FinalizeInv]: writing a finalized block to the database and
      asking about bonds ([finalized_state/zebra_db/], [read/delegation.rs]).
    - [NonFinalized], [ChainGrowth], [NonFinalizedInv], [Stakes], [WriteTask],
      [PowRoster]: the set of chains and the task that writes blocks
      ([non_finalized_state.rs], [write.rs]).
    - [Queue], [QueueInv]: blocks that wait for their parents, and the requests
      that queue blocks and send them to the write task
      ([service/queued_blocks.rs], [service.rs]).
    - [Find], [FindInv]: block locators and the blocks that peers are answered
      with ([read/find.rs], [read/block.rs]).
    - [Difficulty], [DifficultyInv]: targets, work and the difficulty adjustment
      ([zebra-chain/src/work/difficulty.rs], [check/difficulty.rs]).

    The block verifier
    - [Transparent], [Network], [Transaction]: addresses and outputs, the
      parameters of a network, transactions and the checks that need no state
      ([zebra-chain/src/transparent/], [parameters/], [transaction.rs],
      [zebra-consensus/src/transaction/check.rs]).
    - [Subsidy], [SubsidyInv]: halvings, subsidies and funding streams
      ([parameters/network/subsidy.rs], [zebra-consensus/src/block/subsidy.rs]).
    - [Testnet], [TestnetInv]: the builder of test networks and the network of
      the prototype ([parameters/network/testnet.rs],
      [zebrad/src/application.rs]).
    - [Merkle]: the transaction trees of a block ([block/merkle.rs]).
    - [TxVerifier]: the transaction verifier ([zebra-consensus/src/transaction.rs]).
    - [BlockVerifier], [BlockVerifierInv], [Issuance]: the block verifier
      ([zebra-consensus/src/block.rs], [block/check.rs]), and what a block that
      it accepts adds to the value pools.
    - [Checkpoint], [CheckpointInv]: the checkpoint verifier and the router
      between the two verifiers ([zebra-consensus/src/checkpoint.rs],
      [checkpoint/], [router.rs]).

    The mempool
    - [ChainTip]: the changes of the tip that readers are told
      ([zebra-state/src/service/chain_tip.rs]).
    - [Unmined]: ids, costs and fees of unmined transactions
      ([zebra-chain/src/transaction/unmined.rs], [unmined/zip317.rs]).
    - [Mempool], [MempoolService], [MempoolInv]: the storage of the mempool, the
      queue of downloads and the service ([zebrad/src/components/mempool.rs],
      [mempool/], [zebra-node-services/src/mempool/]), and what they keep.
    - [Template], [TemplateInv]: the transactions of a block template
      ([zebra-rpc/src/methods/types/get_block_template/zip317.rs]).

    Witnesses
    - [Scenario], [TflScenario], [StakeScenario], [WriteScenario],
      [BlockScenario], [QueueScenario], [FindScenario], [CheckpointScenario],
      [MempoolScenario] run the model on concrete states and apply the theorems to them.

    ** What the theorems show

    Each theorem's comment states its hypotheses; the ones that matter most are
    named here.

    Agreement: the engine decides only complete, validated proposals with a
    quorum of stored precommits, and its certificate verifies and carries as much
    stake as there are votes for the value, the whole quorum when the round holds
    votes for that value only ([votes_ok], which the flush of an amnesiac proposer
    breaks); two conflicting quorums name the members who signed both
    ([decision_sound], [conflicting_quorums_expose], [quorum_overlap]).
    Robustness: every reachable node satisfies its invariant and no packet within
    the format aborts it ([reachable_node_ok], [receive_packet_safe]), given a
    roster whose keys do not accept the all-zero signature ([roster_ok]).
    Finality: the decided blocks form a chain, survive a restart and match what
    the service reports ([crosslink_reachable], [decided_block_extends_chain],
    [decided_block_taken_over], [store_replays_chain], [finality_status]).
    Staking: for blocks that name no bond twice and keep the supply and a positive
    stake ([affordable], [within_supply]), rewards are paid exactly and
    independently of iteration order, the pools equal the bonds, and reverting
    undoes a block ([rewards_paid_exactly], [block_keeps_pools],
    [revert_undoes_block]); what happens to other blocks is shown by
    [empty_bonds_abort], [withdrawn_twice] and [created_and_unbonded_aborts].
    Finalization: for such blocks the database follows the chain, the write task
    never reaches its [unreachable!], and the stakes it reports make a roster that
    elects proposers ([finalized_as_applied], [write_task_safe],
    [crosslink_finalizes], [stakes_make_roster]).  Proof of work: for targets of at
    least 2^12 ([usable]; smaller ones panic) the threshold asked of a block is
    within rounding of the formula of the specification, and a header passes
    exactly when its time and threshold follow the rules
    ([threshold_as_specified], [header_accepted_iff]).  Supply: an accepted block
    adds its subsidy to the value pools and nothing else, but for the staking
    action of its coinbase transaction, pays the funding streams, and the
    subsidies of all blocks add up to the money supply at most
    ([block_issues_subsidy], [coinbase_pays_streams], [issuance_capped]).  Two
    blocks with different transactions and one Merkle root exhibit two pairs of
    nodes of their trees with the same hash ([header_binds_transactions]).  Spends:
    a chain follows a ledger of unspent outputs in which nothing is spent twice,
    and reverting undoes a block ([block_follows_ledger],
    [checked_spends_update], [revert_undoes_spends]).  Checkpoints:
    no assertion of the checkpoint verifier fails, it accepts only the chain of its
    checkpoints, whatever other blocks peers send, and it accepts a complete range
    when no later checkpoint has been reached ([checkpoint_verifier_safe],
    [complete_range_accepted]).  Queues: when a block arrives, all its descendants
    that waited for it are sent, each after its parent, and no request is lost
    ([ready_blocks_sent], [commit_request_handled]).  Peers: an answer is the piece
    of the best chain after the first block the peer knows, wherever the blocks are
    stored, and a locator leads a node on a fork within the reorg limit to the new
    blocks ([find_hashes_next], [locator_leads_on]).  Mempool: a reader of the tip
    misses no block, the mempool holds no two transactions that conflict and stays
    within its limit, a new block takes what it contains and contradicts with it,
    removing a transaction takes its dependents, the fee rule is the one of ZIP 317
    but for Crosslink transactions, and a template fits a block
    ([tip_actions_connected], [mempool_safe], [poll_clears_block],
    [remove_takes_dependents], [mempool_fee_rule], [template_fits]).  Formats
    round-trip.  The theorems and examples whose names end in [_abort(s)],
    [_panic(s)], [_replays_as_prevote] or [_forgotten], with
    [amnesia_decides_unsigned], [zero_signature_recounted], [coinbase_mints_stake],
    [mempool_decides_block], [queued_block_not_asked], [height_not_pruned],
    [mined_parent_blocks_child], [deep_fork_restarts] and [timed_out_never_retried],
    show inputs on which the code does not do what it means to.

    ** Conventions, bounds and fuel

    - A panic aborts the process (the crates build with [panic = "abort"]), so
      [Panic] carries no state.
    - Overflow panics or wraps by [Profile]; theorems that do not fix it hold of
      both builds.
    - A hash map is a [gmap]; where the code iterates one, the order is a
      parameter ([iter], [iter_targets], [iter_stakes]) that lists its elements
      in any order.
    - Loops that are not structural have fuel: forking a chain and finalizing
      past the reorg limit take at most the number of blocks of the chain (with
      less, the model panics; [reorg_loop_ends] and [write_task_safe] show that
      this is enough), reading the store file at most its length, sending queued
      blocks one step more than the queue has blocks ([ready_blocks_sent] shows
      that this is enough), draining checkpoint blocks their number, collecting the
      dependents of a transaction and evicting transactions as many rounds as there
      are entries ([remove_all_spec], [evict_to_limit_enough]), choosing the
      transactions of a template as many as there are candidates and dependents
      ([template_fits]).
    - The index of a transaction in its block is below 2^16: a block has at most
      100,000 bytes.
    - Of a transaction, amounts, spends, nullifiers and the staking action are
      kept, of a proof or a signature only whether it is valid.  The blocks of the
      chain model are the staking actions and the balances of their transactions.
    - The loop of a Merkle tree has the number of its leaves as fuel, which is
      enough ([merkle_root_total], [auth_data_root_total]).

    ** Parameters

    - [Crypto] and [CryptoLaws]: blake3, SHA-256 and Ed25519.  [ToyCrypto] is an
      instance.
    - [Closures] and [EngineClient]: the engine's view of the finality service;
      [Tfl] discharges it.
    - [call]: the PoW state as the finality service sees it, with two assumptions
      on the stakes it answers with: the numbers fit ([stakes_law]; the invariant
      of the write task gives it, [stakes_make_roster]), and no key accepts the
      all-zero signature ([keys_law]; nothing in the code checks it).
    - [ContextChecks]: the checks of a block that do not concern staking; the
      blocks of the chain model carry their work but not the threshold and the
      time of their headers, so the check of [Difficulty] is one of them.
    - [Uint] and [Chrono], with their laws: 256-bit integers and times.
      [DifficultyInv] ends with instances.
    - [TxServices] and [BlockServices]: the state and the mempool as the verifiers
      see them, hashes, and the checks of scripts, proofs, signatures and
      Equihash.  [BlockScenario] has instances.
    - [StateView]: the database, Crosslink and the write task as the queues see
      them.  [QueueScenario] has an instance, with the answer of [Tfl].

    - [MempoolOrder] and [Choice], with their laws: the order of hash maps and the
      random choices; [TxDigests]: hashes and sizes of transactions.
      [MempoolScenario] has instances.

    ** Not modelled

    Sockets, Noise sessions and bandwidth control of [tenderlink] (I/O and
    third-party cryptography); the GUI, the visualiser hooks and the test
    instructions of the service; [tfl_block_sequence]; committing checkpoint
    blocks in [write.rs]; note commitment trees, the address index, scripts and
    proofs, the download tasks and the crawler of the mempool, the peer protocol and the
    RocksDB layer (upstream Zebra); wallets, indexers and light clients, which
    only read the chain. *)

From stdpp Require Import base list gmap sorting.
From coqutil Require Export Byte LittleEndianList.
From Stdlib Require Export ZArith Lia.

#[global] Open Scope Z_scope.

(** ** Rust outcomes

    A Rust function that can panic (index out of range, [unwrap] of [None],
    [assert!], an arithmetic overflow in a build with overflow checks) returns
    an [outcome].  Both crates build with [panic = "abort"] and a panic hook
    that aborts, so a panic ends the process: nothing observes the state after
    it and [Panic] carries no payload. *)

Inductive outcome (A : Type) : Type :=
| Ret (a : A)
| Panic.
Arguments Ret {A} a.
Arguments Panic {A}.

#[global] Instance outcome_ret : MRet outcome := @Ret.
#[global] Instance outcome_bind : MBind outcome :=
  fun A B f m => match m with Ret a => f a | Panic => Panic end.
#[global] Instance outcome_fmap : FMap outcome :=
  fun A B f m => match m with Ret a => Ret (f a) | Panic => Panic end.
#[global] Instance outcome_eq_dec `{EqDecision A} : EqDecision (outcome A).
Proof. solve_decision. Defined.

(** [opt.unwrap()], [opt.expect(..)]. *)
Definition unwrap {A} (o : option A) : outcome A :=
  match o with Some a => Ret a | None => Panic end.

(** [assert!(b)]. *)
Definition assert_ (b : bool) : outcome unit := if b then Ret () else Panic.

(** [v[i]] as an rvalue. *)
Definition index {A} (l : list A) (i : nat) : outcome A := unwrap (l !! i).

(** [v[i] = x]. *)
Definition set_index {A} (l : list A) (i : nat) (x : A) : outcome (list A) :=
  if decide (i < length l)%nat then Ret (<[i:=x]> l) else Panic.

(** [&v[a..b]]. *)
Definition slice {A} (l : list A) (a b : nat) : outcome (list A) :=
  if decide (a ≤ b ≤ length l)%nat then Ret (take (b - a) (drop a l)) else Panic.

(** [v[a..a + src.len()].copy_from_slice(src)]. *)
Definition copy_at {A} (l : list A) (a : nat) (src : list A) : outcome (list A) :=
  if decide (a + length src ≤ length l)%nat
  then Ret (take a l ++ src ++ drop (a + length src) l) else Panic.

(** Sequential iteration [for x in l { s = body(s, x); }]. *)
Fixpoint for_each {A S} (body : S → A → outcome S) (l : list A) (s : S) : outcome S :=
  match l with
  | [] => Ret s
  | x :: l => s' ← body s x; for_each body l s'
  end.

Section outcome_lemmas.
Context {A B : Type}.
Implicit Types (m : outcome A) (f : A → outcome B).

Lemma Ret_inj (a b : A) : Ret a = Ret b → a = b.
Proof. by intros [= ->]. Qed.

Lemma bind_Ret (a : A) f : (Ret a ≫= f) = f a.
Proof. done. Qed.

Lemma bind_Ret_inv m f b : (m ≫= f) = Ret b → ∃ a, m = Ret a ∧ f a = Ret b.
Proof. destruct m; naive_solver. Qed.

Lemma assert_Ret_inv b u : assert_ b = Ret u → b = true.
Proof. by destruct b. Qed.

Lemma unwrap_Ret_inv (o : option A) a : unwrap o = Ret a → o = Some a.
Proof. destruct o; naive_solver. Qed.

Lemma index_Ret (l : list A) i a : l !! i = Some a → index l i = Ret a.
Proof. unfold index. by intros ->. Qed.

Lemma index_Ret_inv (l : list A) i a : index l i = Ret a → l !! i = Some a.
Proof. apply unwrap_Ret_inv. Qed.

Lemma set_index_Ret (l : list A) i x :
  (i < length l)%nat → set_index l i x = Ret (<[i:=x]> l).
Proof. intros. unfold set_index. by rewrite decide_True. Qed.

Lemma set_index_Ret_inv (l l' : list A) i x :
  set_index l i x = Ret l' → (i < length l)%nat ∧ l' = <[i:=x]> l.
Proof. unfold set_index. case_decide; naive_solver. Qed.

Lemma slice_Ret (l : list A) a b :
  (a ≤ b ≤ length l)%nat → slice l a b = Ret (take (b - a) (drop a l)).
Proof. intros. unfold slice. by rewrite decide_True. Qed.

Lemma slice_Ret_inv (l l' : list A) a b :
  slice l a b = Ret l' → (a ≤ b ≤ length l)%nat ∧ l' = take (b - a) (drop a l).
Proof. unfold slice. case_decide; naive_solver. Qed.

Lemma copy_at_Ret (l src : list A) a :
  (a + length src ≤ length l)%nat →
  copy_at l a src = Ret (take a l ++ src ++ drop (a + length src) l).
Proof. intros. unfold copy_at. by rewrite decide_True. Qed.

Lemma copy_at_Ret_inv (l src l' : list A) a :
  copy_at l a src = Ret l' →
  (a + length src ≤ length l)%nat ∧ l' = take a l ++ src ++ drop (a + length src) l.
Proof. unfold copy_at. case_decide; naive_solver. Qed.

Lemma copy_at_length (l src l' : list A) a :
  copy_at l a src = Ret l' → length l' = length l.
Proof.
  intros [? ->]%copy_at_Ret_inv.
  rewrite !length_app, length_take, length_drop. lia.
Qed.
End outcome_lemmas.

Lemma for_each_app {A S} (body : S → A → outcome S) l1 l2 s :
  for_each body (l1 ++ l2) s = (for_each body l1 s ≫= for_each body l2).
Proof.
  revert s. induction l1 as [|x l1 IH]; intros s; [done|]. cbn.
  destruct (body s x); cbn; [apply IH|done].
Qed.

(** An invariant of the loop state is kept by a loop whose body keeps it. *)
Lemma for_each_inv {A S} (P : S → Prop) (body : S → A → outcome S) l s s' :
  (∀ x s1 s2, x ∈ l → P s1 → body s1 x = Ret s2 → P s2) →
  P s → for_each body l s = Ret s' → P s'.
Proof.
  revert s. induction l as [|x l IH]; intros s Hb Hs; cbn; [naive_solver|].
  intros (s1 & Hx & Hl)%bind_Ret_inv. eapply IH; [|by eapply Hb; eauto; set_solver|done].
  intros y ? ? ?. eapply Hb. set_solver.
Qed.

(** A loop whose body never panics on states that satisfy an invariant does not panic. *)
Lemma for_each_total {A S} (P : S → Prop) (body : S → A → outcome S) l s :
  (∀ x s1, x ∈ l → P s1 → ∃ s2, body s1 x = Ret s2 ∧ P s2) →
  P s → ∃ s', for_each body l s = Ret s' ∧ P s'.
Proof.
  revert s. induction l as [|x l IH]; intros s Hb Hs; cbn; [naive_solver|].
  destruct (Hb x s) as (s1 & -> & ?); [set_solver|done|]. cbn.
  apply IH; [|done]. intros y ? ?. apply Hb. set_solver.
Qed.

Lemma filter_all {A} (Q : A → Prop) `{∀ x, Decision (Q x)} l : Forall Q l → filter Q l = l.
Proof. induction 1; [done|]. rewrite filter_cons_True by done. congruence. Qed.

(** ** Machine integers

    An unsigned [w]-bit integer is a [Z] in [[0, 2^w)].  Rust's [+], [-] and
    [*] panic on overflow in a build with [overflow-checks] (the [dev]
    profile) and wrap in one without (the [release] profile): the profile is
    a parameter, so that a theorem which does not mention it holds of both. *)

Class Profile := overflow_checks : bool.

Definition in_range (w z : Z) : bool := (0 <=? z) && (z <? 2 ^ w).

Definition arith {P : Profile} (w z : Z) : outcome Z :=
  if in_range w z then Ret z
  else if overflow_checks then Panic else Ret (z mod 2 ^ w).

Definition is_u (w z : Z) : Prop := 0 ≤ z < 2 ^ w.

Lemma in_range_spec w z : in_range w z = true ↔ is_u w z.
Proof. unfold in_range, is_u. lia. Qed.

Lemma arith_ok `{Profile} w z : is_u w z → arith w z = Ret z.
Proof. intros ?%in_range_spec. unfold arith. by rewrite H0. Qed.

(** ** Heights *)

(** [Height::MAX] and [Sub<HeightDiff> for Height]. *)
Definition HEIGHT_MAX : Z := 2 ^ 31 - 1.
Definition height_sub (h d : Z) : option Z :=
  let res := h - d in
  if in_range 32 res && (res <=? HEIGHT_MAX) then Some res else None.

(** ** Bytes *)

Abbreviation bytes := (list byte).

#[global] Instance byte_eq_dec : EqDecision byte.
Proof. refine (λ x y, Byte.byte_eq_dec x y). Defined.

#[global] Program Instance byte_countable : Countable byte :=
  inj_countable Byte.to_N Byte.of_N _.
Next Obligation. apply Byte.of_to_N. Qed.

(** [u::to_le_bytes] and [u::from_le_bytes] at [n] bytes. *)
Abbreviation to_le n z := (le_split n z).
Abbreviation from_le bs := (le_combine bs).

Abbreviation zeros n := (replicate n (Byte.x00)).

Lemma from_to_le (n : nat) z : is_u (8 * Z.of_nat n) z → from_le (to_le n z) = z.
Proof.
  unfold is_u. intros ?. rewrite le_combine_split, Z.mod_small; [done|].
  by replace (Z.of_nat n * 8) with (8 * Z.of_nat n) by lia.
Qed.

Lemma from_le_range (bs : bytes) : is_u (8 * Z.of_nat (length bs)) (from_le bs).
Proof.
  unfold is_u. pose proof (le_combine_split (length bs) (from_le bs)) as E.
  rewrite split_le_combine in E. rewrite E, Z.mul_comm.
  apply Z.mod_pos_bound. by apply Z.pow_pos_nonneg; lia.
Qed.

(** ** Readers

    [read_from(buf: &mut &[u8]) -> Option<Self>] takes its bytes off the front
    of [buf].  A [Reader] returns the value and what is left of the buffer. *)

Definition Reader (A : Type) : Type := bytes → option (A * bytes).

#[global] Instance Reader_ret : MRet Reader := fun A a buf => Some (a, buf).
#[global] Instance Reader_bind : MBind Reader :=
  fun A B f m buf => '(a, rest) ← m buf; f a rest.

(** A reader that rejects. *)
Definition read_fail {A} : Reader A := fun _ => None.

(** [[u8; N]::read_from], and the fixed width integers read through it. *)
Definition read_bytes (n : nat) : Reader bytes := fun buf =>
  if decide (length buf < n)%nat then None else Some (take n buf, drop n buf).

Definition read_uint (n : nat) : Reader Z :=
  bs ← read_bytes n; mret (from_le bs).

Fixpoint read_list {A} (n : nat) (r : Reader A) : Reader (list A) :=
  match n with
  | O => mret []
  | S n => x ← r; xs ← read_list n r; mret (x :: xs)
  end.

(** What a serialised type promises to the code that embeds it: reading back
    the bytes written for a well-formed value, whatever follows them, gives
    that value and leaves what follows. *)
Class Codec (A : Type) := {
  enc : A → bytes;
  dec : Reader A;
  codec_wf : A → Prop;
  dec_enc : ∀ a rest, codec_wf a → dec (enc a ++ rest) = Some (a, rest) }.

Lemma Reader_bind_eq {A B} (m : Reader A) (f : A → Reader B) buf a rest :
  m buf = Some (a, rest) → (m ≫= f) buf = f a rest.
Proof. intros E. unfold mbind, Reader_bind. by rewrite E. Qed.

Lemma Reader_bind_inv {A B} (m : Reader A) (f : A → Reader B) buf b rest :
  (m ≫= f) buf = Some (b, rest) →
  ∃ a buf', m buf = Some (a, buf') ∧ f a buf' = Some (b, rest).
Proof.
  unfold mbind, Reader_bind. destruct (m buf) as [[a buf']|]; [|done]. eauto.
Qed.

Lemma read_bytes_app n (bs rest : bytes) :
  length bs = n → read_bytes n (bs ++ rest) = Some (bs, rest).
Proof.
  intros <-. unfold read_bytes. rewrite length_app, decide_False by lia.
  by rewrite take_app_length, drop_app_length.
Qed.

Lemma read_bytes_short n (buf : bytes) : (length buf < n)%nat → read_bytes n buf = None.
Proof. intros. unfold read_bytes. by rewrite decide_True. Qed.

Lemma read_bytes_inv n buf bs rest :
  read_bytes n buf = Some (bs, rest) → buf = bs ++ rest ∧ length bs = n.
Proof.
  unfold read_bytes. case_decide; [done|]. intros [= <- <-].
  rewrite take_drop, length_take. split; [done|lia].
Qed.

Lemma read_uint_app n z rest :
  is_u (8 * Z.of_nat n) z → read_uint n (to_le n z ++ rest) = Some (z, rest).
Proof.
  intros Hz. unfold read_uint.
  erewrite Reader_bind_eq; [|apply read_bytes_app, length_le_split].
  by rewrite from_to_le.
Qed.

Lemma read_uint_short n (buf : bytes) : (length buf < n)%nat → read_uint n buf = None.
Proof. intros. unfold read_uint, mbind, Reader_bind. by rewrite read_bytes_short. Qed.

Lemma read_uint_inv n buf z rest :
  read_uint n buf = Some (z, rest) →
  is_u (8 * Z.of_nat n) z ∧ buf = to_le n z ++ rest.
Proof.
  unfold read_uint, mbind, Reader_bind.
  destruct (read_bytes n buf) as [[bs r]|] eqn:E; [|done]. intros [= <- <-].
  apply read_bytes_inv in E as [-> <-].
  split; [apply from_le_range|by rewrite split_le_combine].
Qed.

Lemma read_list_app {A} (r : Reader A) (w : A → bytes) (xs : list A) rest :
  (∀ x rest', x ∈ xs → r (w x ++ rest') = Some (x, rest')) →
  read_list (length xs) r (concat (map w xs) ++ rest) = Some (xs, rest).
Proof.
  induction xs as [|x xs IH]; intros Hr; [done|]. cbn.
  rewrite <- app_assoc. erewrite Reader_bind_eq by (apply Hr; set_solver).
  erewrite Reader_bind_eq by (apply IH; intros; apply Hr; set_solver).
  done.
Qed.

(** ** Sums of stakes and amounts *)

Fixpoint zsum (l : list Z) : Z :=
  match l with [] => 0 | x :: l => x + zsum l end.

Lemma zsum_cons x l : zsum (x :: l) = x + zsum l.
Proof. done. Qed.

Lemma zsum_app l1 l2 : zsum (l1 ++ l2) = zsum l1 + zsum l2.
Proof. induction l1; [done|]. cbn [app]. rewrite !zsum_cons. lia. Qed.

Lemma zsum_insert l i x y :
  l !! i = Some y → zsum (<[i:=x]> l) = zsum l - y + x.
Proof.
  revert i. induction l as [|z l IH]; intros [|i]; [done|done|..].
  - intros [= ->]. cbn. lia.
  - intros Hi. change (<[S i:=x]> (z :: l)) with (z :: <[i:=x]> l).
    rewrite !zsum_cons, (IH i Hi). lia.
Qed.

Lemma zsum_replicate n x : zsum (replicate n x) = Z.of_nat n * x.
Proof. induction n as [|n IH]; cbn [replicate]; [done|]. rewrite zsum_cons, IH. lia. Qed.

Lemma zsum_nonneg l : Forall (λ x, 0 ≤ x) l → 0 ≤ zsum l.
Proof. induction 1; [done|]. rewrite zsum_cons. lia. Qed.

Lemma zsum_perm l1 l2 : l1 ≡ₚ l2 → zsum l1 = zsum l2.
Proof. induction 1; cbn [zsum] in *; lia. Qed.

Lemma zsum_zero l : Forall (λ x, x = 0) l → zsum l = 0.
Proof. induction 1; [done|]. rewrite zsum_cons. lia. Qed.

Lemma zsum_map_le {A} (f g : A → Z) l :
  (∀ x, x ∈ l → f x ≤ g x) → zsum (map f l) ≤ zsum (map g l).
Proof.
  induction l as [|x l IH]; intros Hfg; [done|]. cbn [map]. rewrite !zsum_cons.
  specialize (IH ltac:(set_solver)). specialize (Hfg x ltac:(set_solver)). lia.
Qed.

Lemma zsum_map_nonneg {A} (f : A → Z) l : (∀ x, x ∈ l → 0 ≤ f x) → 0 ≤ zsum (map f l).
Proof.
  intros Hf. apply zsum_nonneg, Forall_map, Forall_forall. intros x Hx. by apply Hf.
Qed.

(** A running sum that does not overflow. *)
Lemma for_each_sum `{Profile} {A} (g : A → Z) l : ∀ acc,
  Forall (λ x, 0 ≤ g x) l → 0 ≤ acc → acc + zsum (map g l) < 2 ^ 64 →
  for_each (λ acc x, arith 64 (acc + g x)) l acc = Ret (acc + zsum (map g l)).
Proof.
  induction l as [|x l IH]; intros acc Hp Ha Hs; cbn [for_each map] in *; [cbn; by rewrite Z.add_0_r|].
  apply Forall_cons in Hp as [Hx Hp]. rewrite zsum_cons in Hs |- *.
  assert (0 ≤ zsum (map g l)) by (apply zsum_map_nonneg; by apply Forall_forall).
  rewrite arith_ok by (unfold is_u; lia). cbn [mbind outcome_bind]. rewrite IH by (done || lia). f_equal. lia.
Qed.

Lemma zsum_map_add {A} (f g : A → Z) l :
  zsum (map (λ x, f x + g x) l) = zsum (map f l) + zsum (map g l).
Proof. induction l as [|x l IH]; [done|]. cbn [map]. rewrite !zsum_cons. lia. Qed.

Lemma zsum_take_le l n : Forall (λ x, 0 ≤ x) l → zsum (take n l) ≤ zsum l.
Proof.
  intros H. rewrite <- (take_drop n l) at 2. rewrite zsum_app.
  pose proof (zsum_nonneg (drop n l) ltac:(by apply Forall_drop)). lia.
Qed.

Lemma zsum_elem_le l x : Forall (λ x, 0 ≤ x) l → x ∈ l → x ≤ zsum l.
Proof.
  induction 1 as [|y l Hy Hl IH]; [set_solver|].
  intros [->|?]%elem_of_cons; rewrite zsum_cons.
  - pose proof (zsum_nonneg l Hl). lia.
  - specialize (IH ltac:(done)). lia.
Qed.

Lemma length_concat_map {A B} (f : A → list B) n (l : list A) :
  Forall (λ x, length (f x) = n) l → length (concat (map f l)) = (length l * n)%nat.
Proof. induction 1 as [|x l Hx _ IH]; [done|]. cbn. rewrite length_app, Hx, IH. done. Qed.

(** ** Automation *)

Create HintDb rust.
Create Rewrite HintDb rust.
Create Rewrite HintDb lens.
#[export] Hint Resolve index_Ret set_index_Ret slice_Ret copy_at_Ret arith_ok : rust.
#[export] Hint Rewrite @bind_Ret : rust.
#[export] Hint Rewrite @length_insert @length_replicate @length_app @length_take
  @length_drop @length_le_split @length_map : lens.

(** Run the outcome monad backwards: turn [... = Ret v] into the chain of
    intermediate results it implies. *)
Ltac inv_ret :=
  repeat match goal with
  | H : (_ ≫= _) = Ret _ |- _ =>
      let a := fresh "r" in let E := fresh "E" in
      apply bind_Ret_inv in H as (a & E & H)
  | H : Ret _ = Ret _ |- _ => apply Ret_inj in H; try subst
  | H : Panic = Ret _ |- _ => discriminate H
  | H : index _ _ = Ret _ |- _ => apply index_Ret_inv in H
  | H : unwrap _ = Ret _ |- _ => apply unwrap_Ret_inv in H
  | H : set_index _ _ _ = Ret _ |- _ => apply set_index_Ret_inv in H as [? H]; try subst
  | H : (let '(_, _) := ?p in _) = Ret _ |- _ => destruct p eqn:?
  end.

(** Discharge a goal about sizes after normalising list lengths. *)
Ltac len := autorewrite with lens in *; cbn [length] in *; lia.
