(* ===== verification/Wire.v ===== *)
(** * Wire: the packet formats of the BFT network layer

    Models the serialisation half of [tenderlink/src/helpers.rs] and of
    [tenderlink/src/lib.rs]: packet headers, peer status, vote packets,
    proposal chunk headers, peer addresses, and the byte strings that votes
    sign.  [write_to(buf)] deposits bytes at the front of [buf] and returns
    how many: it is modelled by the bytes themselves.  [read_from(buf)] is a
    [Reader]. *)

From stdpp Require Import base list.
From S2P Require Import Prelude.

(** ** Constants *)

Definition ASSUMED_SMALLEST_POSSIBLE_UDP_FRAME_WITH_GUARANTEED_DELIVERY : nat := 1400.
Definition UDP_mMTU : nat := ASSUMED_SMALLEST_POSSIBLE_UDP_FRAME_WITH_GUARANTEED_DELIVERY.

Definition CONNECT_MAGIC1_Noise_IK_25519_ChaChaPoly_BLAKE2s : Z := 0x7193c304f8d5.
Definition CONNECT_MAGIC1_Noise_IK_25519_ChaChaPoly_BLAKE2b : Z := 0xbe53b3641ce1.
Definition CONNECT_MAGIC1_PLAIN_TEXT : Z := 0x5bb22856ae53.
Definition CRYPTO_MAGIC : Z := CONNECT_MAGIC1_Noise_IK_25519_ChaChaPoly_BLAKE2s.

Definition crypto_overhead_from_connect_magic1 (magic : Z) : option nat :=
  if magic =? CONNECT_MAGIC1_Noise_IK_25519_ChaChaPoly_BLAKE2s then Some 16%nat
  else if magic =? CONNECT_MAGIC1_Noise_IK_25519_ChaChaPoly_BLAKE2b then Some 16%nat
  else if magic =? CONNECT_MAGIC1_PLAIN_TEXT then Some 0%nat
  else None.

(** The [unwrap] is evaluated at compile time; [CRYPTO_MAGIC] has an entry. *)
Definition STP_HEADER_SIZE : nat :=
  6 + default 0%nat (crypto_overhead_from_connect_magic1 CRYPTO_MAGIC).
Definition STP_PACKLET_HDR : nat := 2.
Definition PATH_MTU : nat := UDP_mMTU - STP_HEADER_SIZE - STP_PACKLET_HDR.

Definition STATUS_PROPOSAL_RNGS_N : nat := 1.
Definition STATUS_VOTE_RNGS_N : nat := 1.
Definition PACKET_HEADER_SIZE : nat := 8 + 8.
Definition PACKET_STATUS_SIZE : nat :=
  8 + 4 + STATUS_PROPOSAL_RNGS_N * 8 + 2 * STATUS_VOTE_RNGS_N * 4.
Definition PROPOSAL_PACKET_EXTRA : nat := PACKET_HEADER_SIZE + PACKET_STATUS_SIZE + 56 + 64.
Definition PROPOSAL_CHUNK_DATA_SIZE : nat := PATH_MTU - PROPOSAL_PACKET_EXTRA.

Definition PACKET_TYPE_PROPOSAL_CHUNK : Z := 7.
Definition PACKET_TYPE_PREVOTE_SIGNATURES : Z := 8.
Definition PACKET_TYPE_PRECOMMIT_SIGNATURES : Z := 9.
Definition PACKET_TYPE_BITS : Z := 7.
Definition PACKET_TYPE_MASK : Z := Z.shiftl 1 PACKET_TYPE_BITS - 1.
Definition PACKET_TAG_STATUS_SHIFT : Z := PACKET_TYPE_BITS.
Definition PACKET_TAG_STATUS_FLAG : Z := Z.shiftl 1 PACKET_TAG_STATUS_SHIFT.
Definition PACKET_TAG_BITS : Z := 8.
Definition PACKET_TAG_MASK : Z := Z.shiftl 1 PACKET_TAG_BITS - 1.

Definition U32_MAX : Z := 2 ^ 32 - 1.
Definition U16_MAX : Z := 2 ^ 16 - 1.

(** [ValueId([u8; 32])], [PubKeyID([u8; 32])] and [TMSig([u8; 64])] are byte
    arrays; their all-zero values are the [NIL]s. *)
Definition ValueId : Type := bytes.
Definition PubKeyID : Type := bytes.
Definition TMSig : Type := bytes.
#[global] Instance ValueId_eq_dec : EqDecision ValueId := list_eq_dec.
#[global] Instance PubKeyID_eq_dec : EqDecision PubKeyID := list_eq_dec.
#[global] Instance TMSig_eq_dec : EqDecision TMSig := list_eq_dec.
Definition ValueId_NIL : ValueId := zeros 32.
Definition PubKeyID_NIL : PubKeyID := zeros 32.
Definition TMSig_NIL : TMSig := zeros 64.

(** ** [PacketHeader] *)
Module PacketHeader.
Record t := mk { tag : Z }.

Definition new_ (tag : Z) : t := mk tag.
Definition type_ (h : t) : Z := Z.land (h.(tag) mod 2 ^ 8) PACKET_TYPE_MASK.
Definition has_status (h : t) : bool :=
  negb (Z.land (h.(tag) mod 2 ^ 8) PACKET_TAG_STATUS_FLAG =? 0).

(** [header.tag |= PACKET_TAG_STATUS_FLAG] in [write_header_and_maybe_status]. *)
Definition add_status (h : t) : t := mk (Z.lor h.(tag) PACKET_TAG_STATUS_FLAG).

Definition write_to (h : t) : bytes := to_le 8 h.(tag) ++ to_le 8 0.
Definition read_from : Reader t := tag ← read_uint 8; _ ← read_uint 8; mret (mk tag).

Definition wf (h : t) : Prop := is_u 64 h.(tag).
End PacketHeader.

(** ** [PacketStatus]: the height and round of the sender and the chunks and
    votes it still needs there, as half-open index ranges *)
Module PacketStatus.
Record t := mk {
  height : Z;
  round : Z;
  need_proposal_chunk_rngs : list (Z * Z);
  need_vote_rngs : list (list (Z * Z)) }.

Definition write_rng (n : nat) (r : Z * Z) : bytes := to_le n r.1 ++ to_le n r.2.
Definition read_rng (n : nat) : Reader (Z * Z) :=
  lo ← read_uint n; hi ← read_uint n; mret (lo, hi).

Definition write_to (p : t) : bytes :=
  to_le 8 p.(height) ++ to_le 4 p.(round)
    ++ concat (map (write_rng 4) p.(need_proposal_chunk_rngs))
    ++ concat (map (λ rs, concat (map (write_rng 2) rs)) p.(need_vote_rngs)).

Definition read_from : Reader t :=
  height ← read_uint 8;
  round ← read_uint 4;
  chunk_rngs ← read_list STATUS_PROPOSAL_RNGS_N (read_rng 4);
  vote_rngs ← read_list 2 (read_list STATUS_VOTE_RNGS_N (read_rng 2));
  mret (mk height round chunk_rngs vote_rngs).

Definition rng_wf (w : Z) (r : Z * Z) : Prop := is_u w r.1 ∧ is_u w r.2.
Definition wf (p : t) : Prop :=
  is_u 64 p.(height) ∧ is_u 32 p.(round) ∧
    length p.(need_proposal_chunk_rngs) = STATUS_PROPOSAL_RNGS_N ∧
    Forall (rng_wf 32) p.(need_proposal_chunk_rngs) ∧
    length p.(need_vote_rngs) = 2%nat ∧
    Forall (λ rs, length rs = STATUS_VOTE_RNGS_N ∧ Forall (rng_wf 16) rs) p.(need_vote_rngs).
End PacketStatus.

(** ** [PubKeySig] and [PacketVotes] *)
Module PubKeySig.
Record t := mk { roster_i : Z; sig : TMSig }.
Definition NIL : t := mk U16_MAX TMSig_NIL.
Definition default_ : t := mk 0 TMSig_NIL.
Definition write_to (v : t) : bytes := to_le 2 v.(roster_i) ++ v.(sig).
Definition wf (v : t) : Prop := is_u 16 v.(roster_i) ∧ length v.(sig) = 64%nat.
#[global] Instance eq_dec : EqDecision t.
Proof. solve_decision. Defined.
End PubKeySig.

Module PacketVotes.
Definition VOTES_N : nat := 18.

Record t := mk {
  no_votes_n : Z;
  yes_votes_n : Z;
  round : Z;
  height : Z;
  value_id : ValueId;
  votes : list PubKeySig.t }.

Section profile.
Context `{Profile}.

Definition votes_n (p : t) : outcome Z := arith 8 (p.(no_votes_n) + p.(yes_votes_n)).

Definition write_to (p : t) : outcome bytes :=
  n ← votes_n p;
  body ← for_each (λ o i, v ← index p.(votes) i; Ret (o ++ PubKeySig.write_to v))
    (seq 0 (Z.to_nat n)) [];
  Ret (to_le 1 p.(no_votes_n) ++ to_le 1 p.(yes_votes_n) ++ to_le 4 p.(round)
       ++ to_le 8 p.(height) ++ p.(value_id) ++ body).

(** The loop of [read_from]: each field is read before the array element
    it is stored to is indexed. *)
Fixpoint read_votes (n i : nat) (vs : list PubKeySig.t) (buf : bytes)
    : outcome (option (list PubKeySig.t * bytes)) :=
  match n with
  | O => Ret (Some (vs, buf))
  | S n =>
      match read_uint 2 buf with
      | None => Ret None
      | Some (ri, buf) =>
          v ← index vs i;
          vs ← set_index vs i (PubKeySig.mk ri (PubKeySig.sig v));
          match read_bytes 64 buf with
          | None => Ret None
          | Some (s, buf) =>
              vs ← set_index vs i (PubKeySig.mk ri s);
              read_votes n (S i) vs buf
          end
      end
  end.

Definition read_hdr : Reader t :=
  no_votes_n ← read_uint 1;
  yes_votes_n ← read_uint 1;
  round ← read_uint 4;
  height ← read_uint 8;
  value_id ← read_bytes 32;
  mret (mk no_votes_n yes_votes_n round height value_id
        (replicate VOTES_N PubKeySig.default_)).

Definition read_from (buf : bytes) : outcome (option (t * bytes)) :=
  match read_hdr buf with
  | None => Ret None
  | Some (p, buf) =>
      n ← votes_n p;
      r ← read_votes (Z.to_nat n) 0 p.(votes) buf;
      Ret (match r with
           | None => None
           | Some (vs, buf) =>
               Some (mk p.(no_votes_n) p.(yes_votes_n) p.(round) p.(height)
                     p.(value_id) vs, buf)
           end)
  end.
End profile.

Definition wf (p : t) : Prop :=
  is_u 8 p.(no_votes_n) ∧ is_u 8 p.(yes_votes_n) ∧
    p.(no_votes_n) + p.(yes_votes_n) ≤ Z.of_nat VOTES_N ∧
    is_u 32 p.(round) ∧ is_u 64 p.(height) ∧ length p.(value_id) = 32%nat ∧
    length p.(votes) = VOTES_N ∧ Forall PubKeySig.wf p.(votes).

(** The packet as the receiver sees it: entries past the count are default. *)
Definition received (p : t) : t :=
  let n := Z.to_nat (p.(no_votes_n) + p.(yes_votes_n)) in
  mk p.(no_votes_n) p.(yes_votes_n) p.(round) p.(height) p.(value_id)
    (take n p.(votes) ++ replicate (VOTES_N - n) PubKeySig.default_).
End PacketVotes.

(** ** [PacketProposalChunkHeader] *)
Module PacketProposalChunkHeader.
Record t := mk {
  chunk_i : Z;
  proposal_size : Z;
  round : Z;
  valid_round : Z; (* i64 *)
  height : Z;
  proposal_id : ValueId }.

Definition SERIALIZED_SIZE : nat := 4 * 4 + 8 + 32.

(** [valid_round] is an [i64]; [try_into().unwrap()] panics past [u32::MAX]. *)
Definition write_to (h : t) : outcome bytes :=
  valid_round ← (if 0 <=? h.(valid_round)
                 then if in_range 32 h.(valid_round) then Ret h.(valid_round) else Panic
                 else Ret U32_MAX);
  Ret (to_le 4 h.(chunk_i) ++ to_le 4 h.(proposal_size) ++ to_le 4 h.(round)
       ++ to_le 4 valid_round ++ to_le 8 h.(height) ++ h.(proposal_id)).

Definition read_from : Reader t :=
  chunk_i ← read_uint 4;
  proposal_size ← read_uint 4;
  round ← read_uint 4;
  v ← read_uint 4;
  height ← read_uint 8;
  proposal_id ← read_bytes 32;
  mret (mk chunk_i proposal_size round (if v =? U32_MAX then -1 else v) height proposal_id).

Definition wf (h : t) : Prop :=
  is_u 32 h.(chunk_i) ∧ is_u 32 h.(proposal_size) ∧ is_u 32 h.(round) ∧
    -1 ≤ h.(valid_round) < U32_MAX ∧ is_u 64 h.(height) ∧ length h.(proposal_id) = 32%nat.
End PacketProposalChunkHeader.

(** ** [STPAddress] *)
Module STPAddress.
Definition MAX_P2P_DISCOVERY_PUBKEY_SIZE : nat := 32.

Record t := mk { ip : bytes; port : Z; magic1 : Z; key : bytes }.

(** [self.magic1 << 16] drops the bits shifted past bit 63. The unused
    [&self.key[..32]] still panics on a short key. *)
Definition write_to (a : t) : outcome bytes :=
  _ ← slice a.(key) 0 MAX_P2P_DISCOVERY_PUBKEY_SIZE;
  let port_and_magic1 := Z.lor a.(port) (Z.shiftl a.(magic1) 16 mod 2 ^ 64) in
  Ret (a.(ip) ++ to_le 8 port_and_magic1 ++ a.(key)).

Definition read_from : Reader t :=
  ip ← read_bytes 16;
  port_and_magic1 ← read_uint 8;
  key ← read_bytes MAX_P2P_DISCOVERY_PUBKEY_SIZE;
  mret (mk ip (port_and_magic1 mod 2 ^ 16) (Z.shiftr port_and_magic1 16) key).

Definition wf (a : t) : Prop :=
  length a.(ip) = 16%nat ∧ is_u 16 a.(port) ∧ is_u 48 a.(magic1) ∧
    length a.(key) = MAX_P2P_DISCOVERY_PUBKEY_SIZE.
End STPAddress.

(** ** The bytes a vote signs

    76 bytes: public key, value id (zero for a nil vote), height, and the
    round with the vote type in its top bit.  Returns the nil and the
    non-nil version, in that order. *)
Definition make_vote_sign_datas `{Profile} (pub_key : PubKeyID) (is_precommit : bool)
    (height round : Z) (value_id : ValueId) : outcome (bytes * bytes) :=
  merged ← arith 32 (round + 0x80000000 * (if is_precommit then 1 else 0));
  sign_data_no ← copy_at (zeros 76) 0 pub_key;
  sign_data_no ← copy_at sign_data_no 64 (to_le 8 height);
  sign_data_no ← copy_at sign_data_no 72 (to_le 4 merged);
  sign_data_yes ← copy_at sign_data_no 32 value_id;
  Ret (sign_data_no, sign_data_yes).

(** ** Proofs *)

#[local] Arguments PacketVotes.VOTES_N : simpl never.

(** One step of a reader on the bytes its writer produced. *)
Ltac read_step :=
  first
  [ erewrite Reader_bind_eq; [|apply read_uint_app; first [assumption | done | lia]]
  | erewrite Reader_bind_eq; [|apply read_bytes_app; first [assumption | done | lia]] ].
Ltac read_back := rewrite <- ?app_assoc; repeat read_step.

#[global] Program Instance PacketHeader_codec : Codec PacketHeader.t :=
  {| enc := PacketHeader.write_to; dec := PacketHeader.read_from; codec_wf := PacketHeader.wf |}.
Next Obligation.
intros [tag] rest Htag. unfold PacketHeader.read_from, PacketHeader.write_to. cbn.
by read_back.
Qed.

(** The type and the status flag survive the trip through the tag byte. *)
Lemma PacketHeader_tag_bits t :
  0 ≤ t < 128 →
  let h := PacketHeader.new_ t in
  PacketHeader.type_ h = t ∧ PacketHeader.has_status h = false ∧
  PacketHeader.type_ (PacketHeader.add_status h) = t ∧
  PacketHeader.has_status (PacketHeader.add_status h) = true.
Proof.
  intros Ht. cbn.
  assert (∀ n : nat, (n < 128)%nat →
    (let h := PacketHeader.new_ (Z.of_nat n) in
    PacketHeader.type_ h = Z.of_nat n ∧ PacketHeader.has_status h = false ∧
    PacketHeader.type_ (PacketHeader.add_status h) = Z.of_nat n ∧
    PacketHeader.has_status (PacketHeader.add_status h) = true)) as Hall.
  { intros n Hn. do 128 (destruct n as [|n]; [vm_compute; tauto|]). lia. }
  specialize (Hall (Z.to_nat t) ltac:(lia)). by rewrite Z2Nat.id in Hall by lia.
Qed.

Lemma PacketStatus_read_rng n (r : Z * Z) rest :
  PacketStatus.rng_wf (8 * Z.of_nat n) r →
  PacketStatus.read_rng n (PacketStatus.write_rng n r ++ rest) = Some (r, rest).
Proof.
  intros [??]. unfold PacketStatus.read_rng, PacketStatus.write_rng. read_back. by destruct r.
Qed.

Lemma PacketStatus_read_rngs n (rs : list (Z * Z)) rest :
  Forall (PacketStatus.rng_wf (8 * Z.of_nat n)) rs →
  read_list (length rs) (PacketStatus.read_rng n)
    (concat (map (PacketStatus.write_rng n) rs) ++ rest) = Some (rs, rest).
Proof.
  intros Hrs. apply read_list_app. intros r rest' Hr.
  apply PacketStatus_read_rng. by eapply Forall_forall in Hrs.
Qed.

#[global] Program Instance PacketStatus_codec : Codec PacketStatus.t :=
  {| enc := PacketStatus.write_to; dec := PacketStatus.read_from; codec_wf := PacketStatus.wf |}.
Next Obligation.
intros [h r crs vrs] rest (Hh & Hr & Hcl & Hc & Hvl & Hv). cbn in *.
unfold PacketStatus.read_from, PacketStatus.write_to. cbn [PacketStatus.height
    PacketStatus.round PacketStatus.need_proposal_chunk_rngs PacketStatus.need_vote_rngs].
read_back. rewrite <- Hcl.
erewrite Reader_bind_eq by exact (PacketStatus_read_rngs 4 crs _ Hc).
erewrite Reader_bind_eq; [done|].
pose proof (read_list_app (read_list STATUS_VOTE_RNGS_N (PacketStatus.read_rng 2))
    (λ rs, concat (map (PacketStatus.write_rng 2) rs)) vrs rest) as Hread.
rewrite Hvl in Hread. apply Hread.
intros rs rest' Hrs. eapply Forall_forall in Hv as [Hl Hrw]; [|done].
rewrite <- Hl. exact (PacketStatus_read_rngs 2 rs rest' Hrw).
Qed.

Lemma PacketProposalChunkHeader_write_length h bs :
  PacketProposalChunkHeader.wf h → PacketProposalChunkHeader.write_to h = Ret bs →
  length bs = PacketProposalChunkHeader.SERIALIZED_SIZE.
Proof.
  intros (? & ? & ? & ? & ? & Hid) Hw. unfold PacketProposalChunkHeader.write_to in Hw.
  inv_ret. autorewrite with lens. by rewrite Hid.
Qed.

(** A chunk header that was written is read back whole: in particular the
    valid round [-1] and every round below [u32::MAX] survive. *)
Lemma PacketProposalChunkHeader_roundtrip h rest :
  PacketProposalChunkHeader.wf h →
  ∃ bs, PacketProposalChunkHeader.write_to h = Ret bs ∧
        PacketProposalChunkHeader.read_from (bs ++ rest) = Some (h, rest).
Proof.
  destruct h as [c ps r vr ht id].
  intros (Hc & Hps & Hr & Hvr & Hht & Hid). cbn in *.
  unfold PacketProposalChunkHeader.write_to, PacketProposalChunkHeader.read_from. cbn.
  unfold U32_MAX, in_range in *. destruct (0 <=? vr) eqn:E.
  - rewrite (proj2 (Z.ltb_lt _ _)) by lia. cbn. eexists; split; [done|].
    assert (is_u 32 vr) by (unfold is_u; lia). read_back.
    by rewrite (proj2 (Z.eqb_neq vr _)) by lia.
  - cbn. eexists; split; [done|].
    assert (is_u 32 4294967295) by (unfold is_u; lia). read_back.
    by replace vr with (-1) by lia.
Qed.

Lemma lor_shift_split port magic pm :
  is_u 16 port → is_u 48 magic → pm = Z.lor port (Z.shiftl magic 16 mod 2 ^ 64) →
  is_u 64 pm ∧ pm mod 2 ^ 16 = port ∧ Z.shiftr pm 16 = magic.
Proof.
  unfold is_u. intros Hp Hm Hpm.
  assert (pm = port + magic * 2 ^ 16) as ->.
  { subst pm. rewrite Z.shiftl_mul_pow2 by lia. rewrite Z.mod_small by lia.
    rewrite <- Z.add_lor_land, <- (Z.mod_small port (2 ^ 16)) at 1 by lia.
    assert (Z.land port (magic * 2 ^ 16) = 0) as E; [|rewrite Z.mod_small by lia; lia].
    rewrite <- Z.shiftl_mul_pow2 by lia. apply Z.bits_inj'. intros n Hn.
    rewrite Z.land_spec, Z.bits_0. destruct (Z.ltb_spec n 16).
    - by rewrite Z.shiftl_spec_low, andb_false_r by lia.
    - rewrite (Z.bits_above_log2 port n); [done|lia|].
      destruct (Z.eq_dec port 0) as [->|]; [cbn; lia|].
      apply Z.lt_le_trans with 16; [|lia]. apply Z.log2_lt_pow2; lia. }
  split; [lia|]. split.
  - rewrite Z.mod_add by lia. by apply Z.mod_small.
  - rewrite Z.shiftr_div_pow2 by lia. rewrite Z.div_add by lia.
    rewrite Z.div_small by lia. done.
Qed.

(** A peer address survives serialisation: the port and the 48-bit connect
    magic share one 64-bit word. *)
Lemma STPAddress_roundtrip a rest :
  STPAddress.wf a →
  ∃ bs, STPAddress.write_to a = Ret bs ∧ STPAddress.read_from (bs ++ rest) = Some (a, rest).
Proof.
  destruct a as [ip port magic key]. intros (Hip & Hp & Hm & Hk). cbn in *.
  destruct (lor_shift_split port magic _ Hp Hm eq_refl) as (Hpm & Elo & Ehi).
  unfold STPAddress.write_to, STPAddress.read_from. cbn [STPAddress.key STPAddress.ip
                                                      STPAddress.port STPAddress.magic1].
  rewrite slice_Ret by (rewrite Hk; lia). cbn [mbind outcome_bind].
  eexists; split; [done|]. read_back. by rewrite Elo, Ehi.
Qed.

(** *** Vote packets *)

Section votes.
Context `{Profile}.

Lemma PacketVotes_write_body (vs : list PubKeySig.t) n o :
  (n ≤ length vs)%nat →
  for_each (λ o i, v ← index vs i; Ret (o ++ PubKeySig.write_to v)) (seq 0 n) o
  = Ret (o ++ concat (map PubKeySig.write_to (take n vs))).
Proof.
  induction n as [|n IH]; intros Hn; [by rewrite app_nil_r|].
  rewrite seq_S, for_each_app, IH by lia. cbn.
  destruct (lookup_lt_is_Some_2 vs n ltac:(lia)) as [v Hv].
  rewrite (index_Ret _ _ _ Hv). cbn.
  rewrite (take_S_r _ _ _ Hv), map_app, concat_app, app_assoc. cbn.
  by rewrite app_nil_r.
Qed.

Lemma PacketVotes_read_votes_app (xs pre suf : list PubKeySig.t) rest :
  Forall PubKeySig.wf xs → (length xs ≤ length suf)%nat →
  PacketVotes.read_votes (length xs) (length pre) (pre ++ suf)
  (concat (map PubKeySig.write_to xs) ++ rest)
  = Ret (Some (pre ++ xs ++ drop (length xs) suf, rest)).
Proof.
  revert pre suf. induction xs as [|x xs IH]; intros pre suf Hxs Hlen; [done|].
  apply Forall_cons in Hxs as [[Hri Hsig] Hxs].
  destruct suf as [|y suf]; [cbn in Hlen; lia|]. cbn in Hlen.
  cbn [length PacketVotes.read_votes map concat]. unfold PubKeySig.write_to at 1.
  rewrite <- !app_assoc, (read_uint_app 2) by done.
  rewrite (index_Ret _ _ y) by (by rewrite lookup_app_r, Nat.sub_diag by lia). cbn [mbind outcome_bind].
  rewrite set_index_Ret by len. cbn [mbind outcome_bind].
  rewrite read_bytes_app by done.
  rewrite set_index_Ret by len. cbn [mbind outcome_bind].
  rewrite list_insert_insert_eq, insert_app_r_alt, Nat.sub_diag by lia. cbn.
  destruct x as [ri sg]. cbn.
  specialize (IH (pre ++ [PubKeySig.mk ri sg]) suf Hxs ltac:(lia)).
  rewrite length_app, Nat.add_comm, <- !app_assoc in IH. cbn in IH. by rewrite IH.
Qed.

(** Every vote a packet declares is delivered to the receiver, in order. *)
Lemma PacketVotes_roundtrip_aux p rest :
  PacketVotes.wf p →
  ∃ bs, PacketVotes.write_to p = Ret bs ∧
  PacketVotes.read_from (bs ++ rest) = Ret (Some (PacketVotes.received p, rest)).
Proof.
  destruct p as [no yes r h id vs]. intros (Hno & Hyes & Hn & Hr & Hh & Hid & Hlen & Hvs).
  cbn in *. unfold PacketVotes.write_to, PacketVotes.read_from, PacketVotes.votes_n,
              PacketVotes.received. cbn.
  assert (Z.to_nat (no + yes) ≤ length vs)%nat.
  { rewrite Hlen. unfold PacketVotes.VOTES_N in *. lia. }
  assert (is_u 8 (no + yes)) by (unfold is_u, PacketVotes.VOTES_N in *; lia).
  rewrite arith_ok by done. cbn [mbind outcome_bind].
  rewrite PacketVotes_write_body by done. cbn [mbind outcome_bind app].
  eexists; split; [done|].
  unfold PacketVotes.read_hdr. read_back. unfold mret, Reader_ret. cbn.
  rewrite arith_ok by done. cbn [mbind outcome_bind].
  pose proof (PacketVotes_read_votes_app (take (Z.to_nat (no + yes)) vs) []
    (replicate PacketVotes.VOTES_N PubKeySig.default_) rest) as Hread.
  rewrite length_take, Nat.min_l in Hread by done. cbn [length app] in Hread.
  rewrite Hread; [|by apply Forall_take|by rewrite length_replicate, <- Hlen].
  cbn [mbind outcome_bind]. by rewrite drop_replicate.
Qed.

Lemma PacketVotes_read_votes_overrun (xs : list PubKeySig.t) pre rest n :
  Forall PubKeySig.wf xs → (length pre < length xs)%nat → n = length xs →
  ∀ i, (i ≤ length pre)%nat →
  PacketVotes.read_votes n i pre (concat (map PubKeySig.write_to xs) ++ rest) = Panic
  ∨ (length xs ≤ length pre - i)%nat.
Proof.
  intros Hxs _ -> i. revert i pre. induction xs as [|x xs IH]; intros i pre Hi; [right; cbn; lia|].
  apply Forall_cons in Hxs as [[Hri Hsig] Hxs].
  cbn [length PacketVotes.read_votes map concat]. unfold PubKeySig.write_to at 1.
  rewrite <- !app_assoc, (read_uint_app 2) by done.
  destruct (decide (i = length pre)) as [->|].
  { left. unfold index. by rewrite lookup_ge_None_2. }
  destruct (lookup_lt_is_Some_2 pre i ltac:(lia)) as [y Hy].
  rewrite (index_Ret _ _ _ Hy). cbn [mbind outcome_bind].
  rewrite set_index_Ret by len. cbn [mbind outcome_bind].
  rewrite read_bytes_app by done.
  rewrite set_index_Ret by len. cbn [mbind outcome_bind].
  rewrite list_insert_insert_eq.
  destruct (IH Hxs (S i) (<[i:=PubKeySig.mk (PubKeySig.roster_i x) (PubKeySig.sig x)]> pre))
    as [->|Hl]; [len|by left|right; len].
Qed.
End votes.
