(* ===== verification/Encoding.v ===== *)
(** * Encoding: the consensus encodings of integers, vectors and options

    Models [librustzcash/components/zcash_encoding/src/lib.rs].  Readers take
    bytes off the front of a stream and fail with an [io::Error]; writers
    append to a stream that does not fail. *)

From stdpp Require Import base list.
From S2P Require Import Prelude.

Definition MAX_COMPACT_SIZE : Z := 0x02000000.

(** A reader that only accepts what the writer produces, and produces only
    values the writer accepts. *)
Definition canonical {A} (r : Reader A) (w : A → bytes) (P : A → Prop) : Prop :=
  ∀ buf a rest, r buf = Some (a, rest) → buf = w a ++ rest ∧ P a.

(** A reader that returns every well-formed value that was written. *)
Definition reads_back {A} (r : Reader A) (w : A → bytes) (P : A → Prop) : Prop :=
  ∀ a rest, P a → r (w a ++ rest) = Some (a, rest).

Module CompactSize.
Definition read : Reader Z :=
  flag ← read_uint 1;
  result ← (if flag <? 253 then mret flag
            else if flag =? 253 then
              n ← read_uint 2; if n <? 253 then read_fail else mret n
            else if flag =? 254 then
              n ← read_uint 4; if n <? 0x10000 then read_fail else mret n
            else
            n ← read_uint 8; if n <? 0x100000000 then read_fail else mret n);
  if MAX_COMPACT_SIZE <? result then read_fail else mret result.

Definition write (size : Z) : bytes :=
  if size <? 253 then to_le 1 size
  else if size <=? 0xFFFF then to_le 1 253 ++ to_le 2 size
  else if size <=? 0xFFFFFFFF then to_le 1 254 ++ to_le 4 size
  else to_le 1 255 ++ to_le 8 size.

Definition serialized_size (size : Z) : Z :=
  if size <? 253 then 1
  else if size <=? 0xFFFF then 3
  else if size <=? 0xFFFFFFFF then 5
  else 9.
End CompactSize.

Module Array.
Definition read {A} (count : nat) (func : Reader A) : Reader (list A) := read_list count func.
Definition write {A} (func : A → bytes) (v : list A) : bytes := concat (map func v).
End Array.

Module Vector.
Definition read {A} (func : Reader A) : Reader (list A) :=
  count ← CompactSize.read; Array.read (Z.to_nat count) func.
Definition write {A} (func : A → bytes) (v : list A) : bytes :=
  CompactSize.write (Z.of_nat (length v)) ++ Array.write func v.
Definition serialized_size_of_u8_vec (v : bytes) : Z :=
  CompactSize.serialized_size (Z.of_nat (length v)) + Z.of_nat (length v).
End Vector.

Module Optional.
Definition read {A} (func : Reader A) : Reader (option A) :=
  b ← read_uint 1;
  if b =? 0 then mret None
  else if b =? 1 then (x ← func; mret (Some x))
  else read_fail.
Definition write {A} (func : A → bytes) (val : option A) : bytes :=
  match val with
  | None => to_le 1 0
  | Some e => to_le 1 1 ++ func e
  end.
End Optional.

(** One byte, as [read_u8] and [write_u8] move it. *)
Definition read_byte : Reader byte := fun buf =>
  match buf with [] => None | b :: buf => Some (b, buf) end.
Definition write_byte (b : byte) : bytes := [b].

(** ** Proofs *)

Lemma reads_back_list {A} (r : Reader A) w P (xs : list A) rest :
  reads_back r w P → Forall P xs →
  read_list (length xs) r (concat (map w xs) ++ rest) = Some (xs, rest).
Proof.
  intros Hr HP. apply read_list_app. intros x rest' Hx. apply Hr.
  by eapply Forall_forall in HP.
Qed.

Lemma canonical_list {A} (r : Reader A) w P n buf xs rest :
  canonical r w P → read_list n r buf = Some (xs, rest) →
  buf = concat (map w xs) ++ rest ∧ length xs = n ∧ Forall P xs.
Proof.
  intros Hr. revert buf xs rest. induction n as [|n IH]; intros buf xs rest; cbn.
  - intros [= <- <-]. done.
  - intros (x & b1 & [-> HP]%Hr & (ys & b2 & (-> & <- & HPs)%IH & [= <- <-])%Reader_bind_inv)%Reader_bind_inv.
    cbn. rewrite <- app_assoc. split; [done|]. split; [done|]. by constructor.
Qed.

Definition compact_ok (n : Z) : Prop := 0 ≤ n ≤ MAX_COMPACT_SIZE.

Lemma CompactSize_reads_back : reads_back CompactSize.read CompactSize.write compact_ok.
Proof.
  intros n rest [Hlo Hhi]. unfold MAX_COMPACT_SIZE in *.
  unfold CompactSize.read, CompactSize.write.
  destruct (n <? 253) eqn:E1.
  { erewrite Reader_bind_eq by (apply (read_uint_app 1); unfold is_u; lia).
    rewrite E1. erewrite Reader_bind_eq by done. unfold MAX_COMPACT_SIZE.
    by rewrite (proj2 (Z.ltb_ge _ _)) by lia. }
  destruct (n <=? 0xFFFF) eqn:E2; [|rewrite (proj2 (Z.leb_le n 0xFFFFFFFF)) by lia];
    rewrite <- app_assoc;
    (erewrite Reader_bind_eq by (apply (read_uint_app 1); unfold is_u; lia)); cbn -[read_uint];
    (erewrite Reader_bind_eq;
      [|erewrite Reader_bind_eq by (apply read_uint_app; unfold is_u; lia);
        rewrite (proj2 (Z.ltb_ge _ _)) by lia; done]);
    unfold MAX_COMPACT_SIZE; by rewrite (proj2 (Z.ltb_ge _ _)) by lia.
Qed.

Lemma CompactSize_canonical : canonical CompactSize.read CompactSize.write compact_ok.
Proof.
  intros buf n rest H. unfold CompactSize.read in H.
  apply Reader_bind_inv in H as (flag & b1 & [Hf ->]%read_uint_inv & H).
  apply Reader_bind_inv in H as (n' & b2 & H1 & H).
  destruct (MAX_COMPACT_SIZE <? n') eqn:Emax; [done|]. injection H as -> ->.
  unfold compact_ok, is_u, MAX_COMPACT_SIZE, CompactSize.write in *. cbn in Hf.
  destruct (flag <? 253) eqn:E1.
  { injection H1 as -> ->. rewrite E1. split; [done|lia]. }
  destruct (flag =? 253) eqn:E2.
  { apply Reader_bind_inv in H1 as (m & b3 & [Hm ->]%read_uint_inv & H1).
    destruct (m <? 253) eqn:E3; [done|]. injection H1 as -> ->.
    unfold is_u in Hm. cbn in Hm. rewrite E3, (proj2 (Z.leb_le n 0xFFFF)) by lia.
    rewrite <- app_assoc. replace flag with 253 by lia. split; [done|lia]. }
  destruct (flag =? 254) eqn:E4.
  { apply Reader_bind_inv in H1 as (m & b3 & [Hm ->]%read_uint_inv & H1).
    destruct (m <? 0x10000) eqn:E3; [done|]. injection H1 as -> ->.
    unfold is_u in Hm. cbn in Hm. rewrite (proj2 (Z.ltb_ge n 253)) by lia.
    rewrite (proj2 (Z.leb_gt n 0xFFFF)), (proj2 (Z.leb_le n 0xFFFFFFFF)) by lia.
    rewrite <- app_assoc. replace flag with 254 by lia. split; [done|lia]. }
  apply Reader_bind_inv in H1 as (m & b3 & [Hm ->]%read_uint_inv & H1).
  destruct (m <? 0x100000000) eqn:E3; [done|]. injection H1 as -> ->. lia.
Qed.

Lemma CompactSize_write_length n :
  0 ≤ n → Z.of_nat (length (CompactSize.write n)) = CompactSize.serialized_size n.
Proof.
  intros ?. unfold CompactSize.write, CompactSize.serialized_size.
  repeat case_match; by autorewrite with lens.
Qed.

Section vectors.
Context {A : Type} (r : Reader A) (w : A → bytes) (P : A → Prop).

Definition vector_ok (v : list A) : Prop :=
  compact_ok (Z.of_nat (length v)) ∧ Forall P v.

Lemma Vector_reads_back :
  reads_back r w P → reads_back (Vector.read r) (Vector.write w) vector_ok.
Proof.
  intros Hr v rest [Hlen Hv]. unfold Vector.read, Vector.write, Array.read, Array.write.
  rewrite <- app_assoc. erewrite Reader_bind_eq by by apply CompactSize_reads_back.
  rewrite Nat2Z.id. by eapply reads_back_list.
Qed.

Lemma Vector_canonical :
  canonical r w P → canonical (Vector.read r) (Vector.write w) vector_ok.
Proof.
  intros Hr buf v rest
    (n & b1 & [-> Hn]%CompactSize_canonical & (-> & Hlen & Hv)%(canonical_list _ w P))%Reader_bind_inv;
    [|done].
  unfold Vector.write, Array.write, vector_ok, compact_ok in *. rewrite <- app_assoc, Hlen.
  rewrite Z2Nat.id by lia. done.
Qed.

Lemma Optional_reads_back :
  reads_back r w P →
  reads_back (Optional.read r) (Optional.write w) (λ o, match o with Some x => P x | None => True end).
Proof.
  intros Hr [x|] rest Hx; unfold Optional.read, Optional.write.
  - rewrite <- app_assoc.
    erewrite Reader_bind_eq by (apply (read_uint_app 1); unfold is_u; lia).
    cbn -[read_uint]. by erewrite Reader_bind_eq by by apply Hr.
  - by erewrite Reader_bind_eq by (apply (read_uint_app 1); unfold is_u; lia).
Qed.
End vectors.

Lemma read_byte_reads_back : reads_back read_byte write_byte (λ _, True).
Proof. by intros b rest _. Qed.

Lemma read_byte_canonical : canonical read_byte write_byte (λ _, True).
Proof. intros [|b buf] a rest; cbn; [done|]. by intros [= -> ->]. Qed.

Lemma concat_write_byte (v : bytes) : concat (map write_byte v) = v.
Proof. induction v as [|b v IH]; cbn; [done|]. by rewrite IH. Qed.

Lemma Vector_write_u8_length (v : bytes) :
  Z.of_nat (length (Vector.write write_byte v)) = Vector.serialized_size_of_u8_vec v.
Proof.
  unfold Vector.write, Array.write, Vector.serialized_size_of_u8_vec.
  rewrite concat_write_byte, length_app, Nat2Z.inj_add, CompactSize_write_length by lia. done.
Qed.
