(* ===== verification/Bft.v ===== *)
(** * Bft: the data structures the BFT layer and the PoW chain share

    Models [librustzcash/zcash_primitives/src/bft.rs] (votes, fat pointers,
    BFT blocks and their hashes) and the header encoding of
    [librustzcash/zcash_primitives/src/block.rs].  Hashing and Ed25519 are
    third-party code: the class [Crypto] takes them as parameters and
    [CryptoLaws] states what the program relies on. *)

From stdpp Require Import base list strings.
From S2P Require Import Prelude Wire Encoding.

(** ** Third-party cryptography *)

Class Crypto := {
  (** [blake3::Hasher::new_derive_key(context).finalize()] *)
  blake3_derive_key : string → bytes;
  (** [blake3::keyed_hash(key, data)] *)
  blake3_keyed_hash : bytes → bytes → bytes;
  (** [sha2::Sha256::digest] *)
  sha256 : bytes → bytes;
  (** [SigningKey::sign] on the 32 secret bytes *)
  ed25519_sign : bytes → bytes → bytes;
  (** [VerificationKeyBytes::from(&SigningKey)] *)
  ed25519_public : bytes → bytes;
  (** [VerificationKey::try_from(pk)] followed by [verify] *)
  ed25519_verify : bytes → bytes → bytes → bool;
  (** [batch::Verifier] over queued (key, signature, message) *)
  ed25519_batch_verify : list (bytes * bytes * bytes) → bool }.

Class CryptoLaws (C : Crypto) : Prop := {
  keyed_hash_length : ∀ k d, length (blake3_keyed_hash k d) = 32%nat;
  sha256_length : ∀ d, length (sha256 d) = 32%nat;
  sign_length : ∀ sk m, length (ed25519_sign sk m) = 64%nat;
  public_length : ∀ sk, length (ed25519_public sk) = 32%nat;
  sign_verify : ∀ sk m, ed25519_verify (ed25519_public sk) m (ed25519_sign sk m) = true;
  (** A batch is accepted exactly when each of its signatures is. *)
  batch_verify_spec : ∀ l,
    ed25519_batch_verify l = forallb (λ '(pk, sig, m), ed25519_verify pk m sig) l }.

(** [TMSig::verify] *)
Definition TMSig_verify `{Crypto} (sig : TMSig) (pub_key : PubKeyID) (signed_data : bytes) : bool :=
  ed25519_verify pub_key signed_data sig.

Record HashKeys := {
  hk_proposer : bytes;
  hk_value_id : bytes;
  hk_connect_contention : bytes;
  hk_proposal_sig : bytes }.

Definition HashKeys_default `{Crypto} : HashKeys := {|
  hk_proposer := blake3_derive_key "BFT Proposer";
  hk_value_id := blake3_derive_key "BFT Value ID";
  hk_connect_contention := blake3_derive_key "BFT Connect Contention";
  hk_proposal_sig := blake3_derive_key "BFT Proposal Signature" |}.

(** [Blake3Hash([u8; 32])] *)
Definition Blake3Hash : Type := bytes.
#[global] Instance Blake3Hash_eq_dec : EqDecision Blake3Hash := list_eq_dec.

(** ** [Vote] *)
Module Vote.
Record t := mk {
  validator_address : PubKeyID;
  value : Blake3Hash;
  height : Z;  (* u64 *)
  typ : bool;  (* true is commit *)
  round : Z }. (* i32 *)

Definition to_bytes (v : t) : bytes :=
  let merged_round_val := Z.land v.(round) 0x7fffffff in
  let merged_round_val :=
  if v.(typ) then Z.lor merged_round_val 0x80000000 else merged_round_val in
  v.(validator_address) ++ v.(value) ++ to_le 8 v.(height) ++ to_le 4 merged_round_val.

(** The argument is a [&[u8; 76]]: every slice below is in range. *)
Definition from_bytes (bs : bytes) : t :=
  let merged_round_val := from_le (take 4 (drop 72 bs)) in
  mk (take 32 bs) (take 32 (drop 32 bs)) (from_le (take 8 (drop 64 bs)))
    (negb (Z.land merged_round_val 0x80000000 =? 0))
    (Z.land merged_round_val 0x7fffffff).

Definition wf (v : t) : Prop :=
  length v.(validator_address) = 32%nat ∧ length v.(value) = 32%nat ∧
    is_u 64 v.(height) ∧ is_u 31 v.(round).
End Vote.

(** ** [FatPointerSignature] and [FatPointerToBftBlock] *)
Module FatPointerSignature.
Record t := mk { pub_key : PubKeyID; vote_signature : bytes }.
Definition to_bytes (s : t) : bytes := s.(pub_key) ++ s.(vote_signature).
Definition from_bytes (bs : bytes) : t := mk (take 32 bs) (take 64 (drop 32 bs)).
Definition wf (s : t) : Prop :=
  length s.(pub_key) = 32%nat ∧ length s.(vote_signature) = 64%nat.
#[global] Instance eq_dec : EqDecision t.
Proof. solve_decision. Defined.
End FatPointerSignature.

Module FatPointerToBftBlock.
Record t := mk {
  vote_for_block_without_finalizer_public_key : bytes; (* [u8; 76 - 32] *)
  signatures : list FatPointerSignature.t }.
#[global] Instance eq_dec : EqDecision t.
Proof. solve_decision. Defined.

Definition to_bytes (p : t) : bytes :=
  p.(vote_for_block_without_finalizer_public_key)
    ++ to_le 2 (Z.of_nat (length p.(signatures)) mod 2 ^ 16)
    ++ concat (map FatPointerSignature.to_bytes p.(signatures)).

(** [chunks_exact(96)]: the tail shorter than a chunk is dropped. *)
Fixpoint chunks_exact (fuel n : nat) (bs : bytes) : list bytes :=
  match fuel with
  | O => []
  | S fuel =>
      if decide (length bs < n)%nat then []
      else take n bs :: chunks_exact fuel n (drop n bs)
  end.

Definition try_from_bytes (bs : bytes) : outcome (option t) :=
  if decide (length bs < 76 - 32 + 2)%nat then Ret None else
  v ← slice bs 0 (76 - 32);
  len_bytes ← slice bs (76 - 32) 2;
  let len := Z.to_nat (from_le len_bytes) in
  if decide (length bs < 76 - 32 + 2 + len * (32 + 64))%nat then Ret None else
  rem ← slice bs (76 - 32 + 2) (length bs);
  Ret (Some (mk v (map FatPointerSignature.from_bytes
                   (chunks_exact (length rem) (32 + 64) rem)))).

Definition from_parts (bft_block_hash : Blake3Hash) (height round : Z)
    (sigs : list FatPointerSignature.t) : t :=
  mk (bft_block_hash ++ to_le 8 height ++ to_le 4 (Z.lor round 0x80000000)) sigs.

Definition null : t := mk (zeros (76 - 32)) [].

Definition get_vote_template (p : t) : Vote.t :=
  Vote.from_bytes (zeros 32 ++ p.(vote_for_block_without_finalizer_public_key)).

Definition inflate (p : t) : list (Vote.t * bytes) :=
  let tmpl := get_vote_template p in
  map (λ s, (Vote.mk (FatPointerSignature.pub_key s) (Vote.value tmpl)
             (Vote.height tmpl) (Vote.typ tmpl) (Vote.round tmpl),
             FatPointerSignature.vote_signature s)) p.(signatures).

Definition validate_signatures `{Crypto} (p : t) : bool :=
  ed25519_batch_verify
    (map (λ '(vote, signature), (Vote.validator_address vote, signature, Vote.to_bytes vote))
   (inflate p)).

Definition points_at_block_hash (p : t) : Blake3Hash :=
  take 32 p.(vote_for_block_without_finalizer_public_key).

Definition zcash_serialize (p : t) : bytes :=
  p.(vote_for_block_without_finalizer_public_key)
    ++ to_le 2 (Z.of_nat (length p.(signatures)) mod 2 ^ 16)
    ++ concat (map FatPointerSignature.to_bytes p.(signatures)).

Definition read_signature : Reader FatPointerSignature.t :=
  bs ← read_bytes (32 + 64); mret (FatPointerSignature.from_bytes bs).

Definition zcash_deserialize : Reader t :=
  v ← read_bytes (76 - 32);
  len ← read_uint 2;
  sigs ← read_list (Z.to_nat len) read_signature;
  mret (mk v sigs).

Definition wf (p : t) : Prop :=
  length p.(vote_for_block_without_finalizer_public_key) = 44%nat ∧
    Z.of_nat (length p.(signatures)) < 2 ^ 16 ∧
    Forall FatPointerSignature.wf p.(signatures).
End FatPointerToBftBlock.

(** ** [BlockHeaderData] *)
Module BlockHeader.
Record t := mk {
  version : Z; (* i32 *)
  prev_block : bytes;
  merkle_root : bytes;
  final_sapling_root : bytes;
  time : Z;
  bits : Z;
  nonce : bytes;
  solution : bytes;
  fat_pointer_to_bft_block : FatPointerToBftBlock.t }.
#[global] Instance eq_dec : EqDecision t.
Proof. solve_decision. Defined.

Definition as_i32 (u : Z) : Z := if u <? 2 ^ 31 then u else u - 2 ^ 32.

Definition read_data : Reader t :=
  version ← read_uint 4;
  prev_block ← read_bytes 32;
  merkle_root ← read_bytes 32;
  final_sapling_root ← read_bytes 32;
  time ← read_uint 4;
  bits ← read_uint 4;
  nonce ← read_bytes 32;
  solution ← Vector.read read_byte;
  fat_pointer_to_bft_block ← FatPointerToBftBlock.zcash_deserialize;
  mret (mk (as_i32 version) prev_block merkle_root final_sapling_root time bits nonce
        solution fat_pointer_to_bft_block).

Definition write_data (d : t) : bytes :=
  to_le 4 (d.(version) mod 2 ^ 32) ++ d.(prev_block) ++ d.(merkle_root)
    ++ d.(final_sapling_root) ++ to_le 4 d.(time) ++ to_le 4 d.(bits) ++ d.(nonce)
    ++ Vector.write write_byte d.(solution)
    ++ FatPointerToBftBlock.zcash_serialize d.(fat_pointer_to_bft_block).

(** [BlockHash::from_header_data]: the [debug_assert_eq!] compares the
    streaming hash with the one-shot hash, which are the same function. *)
Definition from_header_data `{Crypto} (d : t) : bytes := sha256 (sha256 (write_data d)).

Definition wf (d : t) : Prop :=
  - 2 ^ 31 ≤ d.(version) < 2 ^ 31 ∧ length d.(prev_block) = 32%nat ∧
    length d.(merkle_root) = 32%nat ∧
    length d.(final_sapling_root) = 32%nat ∧ is_u 32 d.(time) ∧ is_u 32 d.(bits) ∧
    length d.(nonce) = 32%nat ∧
    Z.of_nat (length d.(solution)) ≤ MAX_COMPACT_SIZE ∧
    FatPointerToBftBlock.wf d.(fat_pointer_to_bft_block).
End BlockHeader.

(** ** [ZcashCrosslinkParameters] *)
Record ZcashCrosslinkParameters := {
  bc_confirmation_depth_sigma : Z;
  finalization_gap_bound : Z }.

Definition PROTOTYPE_PARAMETERS : ZcashCrosslinkParameters :=
  {| bc_confirmation_depth_sigma := 3; finalization_gap_bound := 7 |}.

(** ** [BftBlock] *)
Inductive InvalidBftBlock :=
| IncorrectConfirmationDepth (expected actual : Z).

Module BftBlock.
Record t := mk {
  version : Z;
  height : Z;
  previous_block_fat_ptr : FatPointerToBftBlock.t;
  finalization_candidate_height : Z;
  headers : list BlockHeader.t }.
#[global] Instance eq_dec : EqDecision t.
Proof. solve_decision. Defined.

Definition serialize_headers (hs : list BlockHeader.t) : bytes :=
  concat (map BlockHeader.write_data hs).

(** The bytes once the header count is known to fit a [u32]. *)
Definition serialize_bytes (b : t) : bytes :=
  to_le 4 b.(version) ++ to_le 4 b.(height)
    ++ FatPointerToBftBlock.zcash_serialize b.(previous_block_fat_ptr)
    ++ to_le 4 b.(finalization_candidate_height)
    ++ to_le 4 (Z.of_nat (length b.(headers)))
    ++ serialize_headers b.(headers).

(** [self.headers.len().try_into().unwrap()] panics past [u32::MAX]. *)
Definition zcash_serialize (b : t) : outcome bytes :=
  if in_range 32 (Z.of_nat (length b.(headers)))
  then Ret (serialize_bytes b) else Panic.

Definition zcash_deserialize : Reader t :=
  version ← read_uint 4;
  height ← read_uint 4;
  previous_block_fat_ptr ← FatPointerToBftBlock.zcash_deserialize;
  finalization_candidate_height ← read_uint 4;
  header_count ← read_uint 4;
  if 2048 <? header_count then read_fail else
  headers ← read_list (Z.to_nat header_count) BlockHeader.read_data;
  mret (mk version height previous_block_fat_ptr finalization_candidate_height headers).

(** [BftBlock::zcash_deserialize(block.0.reader())]: what follows the block
    in the buffer is left unread. *)
Definition from_payload (payload : bytes) : option t := fst <$> zcash_deserialize payload.

Definition finalization_candidate (b : t) : outcome BlockHeader.t := unwrap (head b.(headers)).

Definition try_from (params : ZcashCrosslinkParameters) (height : Z)
    (previous_block_fat_ptr : FatPointerToBftBlock.t) (finalization_candidate_height : Z)
    (headers : list BlockHeader.t) : InvalidBftBlock + t :=
  let expected := bc_confirmation_depth_sigma params in
  let actual := Z.of_nat (length headers) in
  if negb (actual =? expected) then inl (IncorrectConfirmationDepth expected actual)
  else inr (mk 1 height previous_block_fat_ptr finalization_candidate_height headers).

Definition blake3_hash `{Crypto} (b : t) : outcome Blake3Hash :=
  bs ← zcash_serialize b;
  Ret (blake3_keyed_hash (hk_value_id HashKeys_default) bs).

Definition previous_block_hash (b : t) : Blake3Hash :=
  FatPointerToBftBlock.points_at_block_hash b.(previous_block_fat_ptr).

Definition wf (b : t) : Prop :=
  is_u 32 b.(version) ∧ is_u 32 b.(height) ∧ FatPointerToBftBlock.wf b.(previous_block_fat_ptr) ∧
    is_u 32 b.(finalization_candidate_height) ∧
    Z.of_nat (length b.(headers)) ≤ 2048 ∧ Forall BlockHeader.wf b.(headers).
End BftBlock.

(** ** [BftBlockAndFatPointerToIt] *)
Module BftBlockAndFatPointerToIt.
Record t := mk { block : BftBlock.t; fat_ptr : FatPointerToBftBlock.t }.

Definition zcash_deserialize : Reader t :=
  block ← BftBlock.zcash_deserialize;
  fat_ptr ← FatPointerToBftBlock.zcash_deserialize;
  mret (mk block fat_ptr).

Definition zcash_serialize (p : t) : outcome bytes :=
  bs ← BftBlock.zcash_serialize p.(block);
  Ret (bs ++ FatPointerToBftBlock.zcash_serialize p.(fat_ptr)).

Definition from_parts `{Crypto} (block : BftBlock.t) (height round : Z)
    (sigs : list FatPointerSignature.t) : outcome t :=
  hash ← BftBlock.blake3_hash block;
  Ret (mk block (FatPointerToBftBlock.from_parts hash height round sigs)).
End BftBlockAndFatPointerToIt.

(** ** Proofs *)

(** *** Votes *)

Lemma land_31_range r : is_u 31 (Z.land r 0x7fffffff).
Proof.
  unfold is_u. change 0x7fffffff with (Z.ones 31). rewrite Z.land_ones by lia.
  apply Z.mod_pos_bound. lia.
Qed.

Lemma land_31_id r : is_u 31 r → Z.land r 0x7fffffff = r.
Proof.
  unfold is_u. intros. change 0x7fffffff with (Z.ones 31). rewrite Z.land_ones by lia.
  apply Z.mod_small. lia.
Qed.

Lemma bit31_testbit i : Z.testbit 0x80000000 i = bool_decide (i = 31).
Proof.
  change 0x80000000 with (2 ^ 31). destruct (decide (i = 31)) as [->|].
  - by rewrite Z.pow2_bits_true, bool_decide_true by lia.
  - by rewrite Z.pow2_bits_false, bool_decide_false by lia.
Qed.

(** Setting the vote-type bit of a 31-bit round adds [2^31]. *)
Lemma lor_bit31 r : is_u 31 r → Z.lor r 0x80000000 = r + 0x80000000.
Proof.
  unfold is_u. intros Hr.
  assert (Z.land r 0x80000000 = 0) as E; [|pose proof (Z.add_lor_land r 0x80000000); lia].
  apply Z.bits_inj'. intros i Hi. rewrite Z.land_spec, (bit31_testbit), Z.bits_0.
  destruct (decide (i = 31)) as [->|]; [|by rewrite bool_decide_false, andb_false_r].
  rewrite (Z.bits_above_log2 r 31); [done|lia|].
  destruct (Z.eq_dec r 0) as [->|]; [done|]. apply Z.log2_lt_pow2; lia.
Qed.

Lemma merged_round_split r (t : bool) :
  is_u 31 r →
  let m := if t then Z.lor r 0x80000000 else r in
  is_u 32 m ∧ Z.land m 0x7fffffff = r ∧ negb (Z.land m 0x80000000 =? 0) = t.
Proof.
  intros Hr m. pose proof (lor_bit31 r Hr) as El. unfold is_u in *.
  assert (Z.land r 0x80000000 = 0) as E0.
  { pose proof (Z.add_lor_land r 0x80000000). lia. }
  destruct t; subst m; (split; [lia|]); split.
  - rewrite Z.land_lor_distr_l, land_31_id by done. by rewrite Z.lor_0_r.
  - by rewrite Z.land_lor_distr_l, E0.
  - by apply land_31_id.
  - by rewrite E0.
Qed.

Lemma Vote_to_bytes_length v : Vote.wf v → length (Vote.to_bytes v) = 76%nat.
Proof.
  intros (Ha & Hv & _). unfold Vote.to_bytes. autorewrite with lens. by rewrite Ha, Hv.
Qed.

Lemma Vote_from_to_bytes v : Vote.wf v → Vote.from_bytes (Vote.to_bytes v) = v.
Proof.
  destruct v as [a x h t r]. intros (Ha & Hx & Hh & Hr). cbn in *.
  unfold Vote.to_bytes, Vote.from_bytes. cbn [Vote.round Vote.typ Vote.validator_address
                                           Vote.value Vote.height].
  rewrite (land_31_id r Hr).
  destruct (merged_round_split r t Hr) as (Hm & Elo & Ehi).
  set (m := if t then Z.lor r 0x80000000 else r) in *. clearbody m.
  assert (∀ n (l k : bytes), length l = n → drop n (l ++ k) = k) as Hdrop
    by (intros n l k <-; apply drop_app_length).
  assert (∀ n (l k : bytes), length l = n → take n (l ++ k) = l) as Htake
    by (intros n l k <-; apply take_app_length).
  rewrite (Htake 32%nat a) by done.
  rewrite (Hdrop 32%nat a), (Htake 32%nat x) by done.
  rewrite (app_assoc a x), (Hdrop 64%nat (a ++ x)) by len.
  rewrite (Htake 8%nat) by len.
  rewrite (app_assoc _ (to_le 8 h)), (Hdrop 72%nat) by len.
  rewrite take_ge by len.
  rewrite (from_to_le 8 h Hh), (from_to_le 4 m Hm). by rewrite Elo, Ehi.
Qed.

Lemma land_split_bit31 m :
  is_u 32 m →
  (if negb (Z.land m 0x80000000 =? 0)
   then Z.lor (Z.land m 0x7fffffff) 0x80000000 else Z.land m 0x7fffffff) = m.
Proof.
  unfold is_u. intros Hm. pose proof (land_31_range m) as Hr.
  assert (Z.lor (Z.land m 0x7fffffff) (Z.land m 0x80000000) = m) as E.
  { rewrite <- Z.land_lor_distr_r. change (Z.lor 0x7fffffff 0x80000000) with (Z.ones 32).
    rewrite Z.land_ones by lia. by apply Z.mod_small. }
  assert (Z.land m 0x80000000 = 0 ∨ Z.land m 0x80000000 = 0x80000000) as [E0|E0].
  { destruct (Z.testbit m 31) eqn:Eb; [right|left]; apply Z.bits_inj'; intros i Hi;
      rewrite Z.land_spec, ?(bit31_testbit), ?Z.bits_0;
      destruct (decide (i = 31)) as [->|];
      rewrite ?bool_decide_true, ?bool_decide_false, ?Eb, ?andb_false_r by done; done. }
  - rewrite E0 in *. cbn. by rewrite Z.lor_0_r in E.
  - rewrite E0 in *. cbn. done.
Qed.

Lemma Vote_to_from_bytes bs : length bs = 76%nat → Vote.to_bytes (Vote.from_bytes bs) = bs.
Proof.
  intros Hlen. unfold Vote.to_bytes, Vote.from_bytes. cbn [Vote.round Vote.typ
                                                        Vote.validator_address Vote.value Vote.height].
  set (m := from_le (take 4 (drop 72 bs))).
  assert (is_u 32 m) as Hm.
  { subst m. pose proof (from_le_range (take 4 (drop 72 bs))) as Hr.
    by rewrite length_take, length_drop, Hlen in Hr. }
  rewrite (land_31_id (Z.land m _)) by apply land_31_range.
  rewrite (land_split_bit31 m Hm).
  assert (∀ n (l : bytes), length l = n → to_le n (from_le l) = l) as Hle
    by (intros n l <-; apply split_le_combine).
  subst m. rewrite (Hle 8%nat), (Hle 4%nat) by len.
  etrans; [|exact (take_drop 32 bs)]. f_equal.
  etrans; [|exact (take_drop 32 (drop 32 bs))]. f_equal. rewrite drop_drop.
  etrans; [|exact (take_drop 8 (drop (32 + 32) bs))]. f_equal. rewrite drop_drop.
  cbn. apply take_ge. len.
Qed.

(** *** What a gossiped vote signs is what a fat pointer checks *)

Lemma copy_at_app {A} (l1 l2 l3 src : list A) n :
  n = length l1 → length src = length l2 →
  copy_at (l1 ++ l2 ++ l3) n src = Ret (l1 ++ src ++ l3).
Proof.
  intros -> Hl. rewrite copy_at_Ret by (rewrite !length_app; lia).
  rewrite take_app_length. do 3 f_equal.
  rewrite Hl, app_assoc, <- length_app. apply drop_app_length.
Qed.

Lemma make_vote_sign_datas_votes `{Profile} pub_key is_precommit height round value_id :
  length pub_key = 32%nat → length value_id = 32%nat → is_u 31 round →
  make_vote_sign_datas pub_key is_precommit height round value_id
  = Ret (Vote.to_bytes (Vote.mk pub_key ValueId_NIL height is_precommit round),
         Vote.to_bytes (Vote.mk pub_key value_id height is_precommit round)).
Proof.
  intros Hpk Hv Hr. unfold make_vote_sign_datas, Vote.to_bytes. cbn [Vote.round Vote.typ
                                                                  Vote.validator_address Vote.value Vote.height].
  rewrite (land_31_id round Hr).
  assert (arith 32 (round + 0x80000000 * (if is_precommit then 1 else 0))
    = Ret (if is_precommit then Z.lor round 0x80000000 else round)) as ->.
  { pose proof (lor_bit31 round Hr). unfold is_u in Hr.
    rewrite arith_ok by (unfold is_u; destruct is_precommit; lia).
    f_equal. destruct is_precommit; lia. }
  set (m := if is_precommit then _ else _). clearbody m. cbn [mbind outcome_bind].
  change (zeros 76) with ([] ++ zeros 32 ++ zeros 32 ++ zeros 8 ++ zeros 4).
  rewrite copy_at_app by done. cbn [mbind outcome_bind app].
  rewrite app_assoc, copy_at_app by len. cbn [mbind outcome_bind].
  rewrite <- app_assoc, !(app_assoc _ _ (_ ++ zeros 4)).
  rewrite <- (app_nil_r (zeros 4)).
  rewrite !(app_assoc (_ ++ _) _ (zeros 4 ++ [])), copy_at_app by len. cbn [mbind outcome_bind].
  rewrite app_nil_r, <- !app_assoc. rewrite copy_at_app by len. done.
Qed.

(** *** Fat pointers *)

Lemma FatPointerSignature_to_bytes_length s :
  FatPointerSignature.wf s → length (FatPointerSignature.to_bytes s) = 96%nat.
Proof. intros [Hp Hs]. unfold FatPointerSignature.to_bytes. rewrite length_app. lia. Qed.

Lemma FatPointerSignature_from_to s :
  FatPointerSignature.wf s →
  FatPointerSignature.from_bytes (FatPointerSignature.to_bytes s) = s.
Proof.
  destruct s as [pk sg]. intros [Hp Hs]. cbn in *.
  unfold FatPointerSignature.from_bytes, FatPointerSignature.to_bytes. cbn.
  rewrite take_app_le, drop_app_ge by lia. rewrite take_ge, Hp, drop_0 by lia.
  by rewrite take_ge by lia.
Qed.

Lemma read_signature_reads_back :
  reads_back FatPointerToBftBlock.read_signature FatPointerSignature.to_bytes
    FatPointerSignature.wf.
Proof.
  intros s rest Hs. unfold FatPointerToBftBlock.read_signature.
  erewrite Reader_bind_eq by (apply read_bytes_app; by apply FatPointerSignature_to_bytes_length).
  by rewrite FatPointerSignature_from_to.
Qed.

Lemma read_signature_canonical :
  canonical FatPointerToBftBlock.read_signature FatPointerSignature.to_bytes
    FatPointerSignature.wf.
Proof.
  intros buf s rest (bs & b1 & [-> Hl]%read_bytes_inv & [= <- ->])%Reader_bind_inv.
  unfold FatPointerSignature.to_bytes, FatPointerSignature.from_bytes, FatPointerSignature.wf.
  cbn. rewrite (take_ge (drop 32 bs)) by len. rewrite take_drop. split; [done|len].
Qed.

Lemma FatPointerToBftBlock_reads_back :
  reads_back FatPointerToBftBlock.zcash_deserialize FatPointerToBftBlock.zcash_serialize
    FatPointerToBftBlock.wf.
Proof.
  intros [v sigs] rest (Hv & Hn & Hsigs). cbn in *.
  unfold FatPointerToBftBlock.zcash_deserialize, FatPointerToBftBlock.zcash_serialize. cbn
                                                                                         [FatPointerToBftBlock.vote_for_block_without_finalizer_public_key
                                                                                         FatPointerToBftBlock.signatures].
  rewrite Z.mod_small by lia. rewrite <- !app_assoc.
  erewrite Reader_bind_eq by (by apply read_bytes_app).
  erewrite Reader_bind_eq by (apply (read_uint_app 2); unfold is_u; lia).
  rewrite Nat2Z.id. erewrite Reader_bind_eq; [done|].
  eapply reads_back_list; [apply read_signature_reads_back|done].
Qed.

Lemma FatPointerToBftBlock_canonical :
  canonical FatPointerToBftBlock.zcash_deserialize FatPointerToBftBlock.zcash_serialize
    FatPointerToBftBlock.wf.
Proof.
  intros buf p rest (v & b1 & [-> Hv]%read_bytes_inv & H)%Reader_bind_inv.
  apply Reader_bind_inv in H as (n & b2 & [Hn ->]%read_uint_inv & H).
  apply Reader_bind_inv in H as (sigs & b3 &
    (-> & Hlen & Hsigs)%(canonical_list _ _ _ _ _ _ _ read_signature_canonical) & [= <- ->]).
  unfold FatPointerToBftBlock.zcash_serialize, FatPointerToBftBlock.wf, is_u in *. cbn in *.
  rewrite Hlen, Z2Nat.id by lia. rewrite Z.mod_small by lia.
  rewrite <- !app_assoc. split; [done|]. split; [done|]. split; [lia|done].
Qed.

Lemma FatPointerToBftBlock_template_to_bytes p pk :
  length (FatPointerToBftBlock.vote_for_block_without_finalizer_public_key p) = 44%nat →
  length pk = 32%nat →
  let tmpl := FatPointerToBftBlock.get_vote_template p in
  Vote.to_bytes (Vote.mk pk (Vote.value tmpl) (Vote.height tmpl) (Vote.typ tmpl) (Vote.round tmpl))
  = pk ++ FatPointerToBftBlock.vote_for_block_without_finalizer_public_key p.
Proof.
  intros Hv Hpk tmpl.
  set (v := FatPointerToBftBlock.vote_for_block_without_finalizer_public_key p) in *.
  rewrite <- (Vote_to_from_bytes (pk ++ v)) by len. f_equal.
  subst tmpl. unfold FatPointerToBftBlock.get_vote_template, Vote.from_bytes.
  cbn [Vote.value Vote.height Vote.typ Vote.round]. fold v.
  rewrite !drop_app_ge by len. rewrite length_replicate, Hpk.
  by rewrite take_app_le, (take_ge pk) by (rewrite Hpk; lia).
Qed.

(** Checking a fat pointer is checking each of its signatures against the
    76 bytes its signer signed. *)
Lemma validate_signatures_eq {C : Crypto} {CL : CryptoLaws C} p :
  length (FatPointerToBftBlock.vote_for_block_without_finalizer_public_key p) = 44%nat →
  Forall (λ s, length (FatPointerSignature.pub_key s) = 32%nat) (FatPointerToBftBlock.signatures p) →
  FatPointerToBftBlock.validate_signatures p
  = forallb (λ s, ed25519_verify (FatPointerSignature.pub_key s)
      (FatPointerSignature.pub_key s
         ++ FatPointerToBftBlock.vote_for_block_without_finalizer_public_key p)
      (FatPointerSignature.vote_signature s)) (FatPointerToBftBlock.signatures p).
Proof.
  intros Hv Hpk. unfold FatPointerToBftBlock.validate_signatures. rewrite batch_verify_spec.
  unfold FatPointerToBftBlock.inflate. rewrite map_map. cbn zeta.
  induction Hpk as [|s l Hs _ IH]; [done|]. cbn [map forallb Vote.validator_address].
  f_equal; [|apply IH]. f_equal. by apply FatPointerToBftBlock_template_to_bytes.
Qed.

(** *** Headers and blocks *)

Lemma as_i32_mod v : - 2 ^ 31 ≤ v < 2 ^ 31 → BlockHeader.as_i32 (v mod 2 ^ 32) = v.
Proof.
  intros Hv. unfold BlockHeader.as_i32.
  destruct (Z.ltb_spec (v mod 2 ^ 32) (2 ^ 31)); Z.div_mod_to_equations; lia.
Qed.

Lemma mod_as_i32 u : is_u 32 u → BlockHeader.as_i32 u mod 2 ^ 32 = u.
Proof.
  unfold is_u, BlockHeader.as_i32. intros Hu.
  destruct (u <? 2 ^ 31); Z.div_mod_to_equations; lia.
Qed.

Lemma solution_reads_back :
  reads_back (Vector.read read_byte) (Vector.write write_byte)
    (λ v, Z.of_nat (length v) ≤ MAX_COMPACT_SIZE).
Proof.
  intros v rest Hv. apply (Vector_reads_back _ _ (λ _, True) read_byte_reads_back).
  split; [split; [lia|done]|]. by apply Forall_true.
Qed.

Lemma BlockHeader_reads_back :
  reads_back BlockHeader.read_data BlockHeader.write_data BlockHeader.wf.
Proof.
  intros [v pb mr sr t b n sol fp] rest (Hv & Hpb & Hmr & Hsr & Ht & Hb & Hn & Hsol & Hfp).
  cbn in *. unfold BlockHeader.read_data, BlockHeader.write_data.
  cbn [BlockHeader.version BlockHeader.prev_block BlockHeader.merkle_root
    BlockHeader.final_sapling_root BlockHeader.time BlockHeader.bits BlockHeader.nonce
    BlockHeader.solution BlockHeader.fat_pointer_to_bft_block].
  assert (is_u 32 (v mod 2 ^ 32)) by (unfold is_u; Z.div_mod_to_equations; lia).
  read_back.
  erewrite Reader_bind_eq by by apply solution_reads_back.
  erewrite Reader_bind_eq by by apply FatPointerToBftBlock_reads_back.
  by rewrite as_i32_mod.
Qed.

(** Read one field of a struct whose reader is canonical. *)
Ltac inv_field :=
  match goal with
  | H : (read_uint _ ≫= _) _ = Some _ |- _ =>
      let Hr := fresh "Hr" in
      apply Reader_bind_inv in H as (? & ? & [Hr ->]%read_uint_inv & H)
  | H : (read_bytes _ ≫= _) _ = Some _ |- _ =>
      let Hl := fresh "Hl" in
      apply Reader_bind_inv in H as (? & ? & [-> Hl]%read_bytes_inv & H)
  end.

Lemma BlockHeader_canonical :
  canonical BlockHeader.read_data BlockHeader.write_data BlockHeader.wf.
Proof.
  intros buf d rest H. unfold BlockHeader.read_data in H. repeat inv_field.
  apply Reader_bind_inv in H as (sol & b1 &
    [-> [[_ Hsol] _]]%(Vector_canonical _ _ _ read_byte_canonical) & H).
  apply Reader_bind_inv in H as (fp & b2 & [-> Hfp]%FatPointerToBftBlock_canonical & [= <- ->]).
  unfold BlockHeader.write_data, BlockHeader.wf. cbn.
  rewrite mod_as_i32 by done. rewrite <- !app_assoc. split; [done|].
  split; [unfold BlockHeader.as_i32, is_u in *; cbn in *; case_match; lia|].
  repeat (split; [done|]). done.
Qed.

Lemma BftBlock_reads_back :
  reads_back BftBlock.zcash_deserialize BftBlock.serialize_bytes BftBlock.wf.
Proof.
  intros [v h fp fch hs] rest (Hv & Hh & Hfp & Hf & Hn & Hhs). cbn in *.
  unfold BftBlock.zcash_deserialize, BftBlock.serialize_bytes, BftBlock.serialize_headers.
  cbn [BftBlock.version BftBlock.height BftBlock.previous_block_fat_ptr
    BftBlock.finalization_candidate_height BftBlock.headers].
  assert (is_u 32 (Z.of_nat (length hs))) by (unfold is_u; lia).
  read_back. erewrite Reader_bind_eq by by apply FatPointerToBftBlock_reads_back.
  read_back. rewrite (proj2 (Z.ltb_ge _ _)) by lia. rewrite Nat2Z.id.
  erewrite Reader_bind_eq; [done|].
  eapply reads_back_list; [apply BlockHeader_reads_back|done].
Qed.

Lemma BftBlock_canonical :
  canonical BftBlock.zcash_deserialize BftBlock.serialize_bytes BftBlock.wf.
Proof.
  intros buf b rest H. unfold BftBlock.zcash_deserialize in H. repeat inv_field.
  apply Reader_bind_inv in H as (fp & b1 & [-> Hfp]%FatPointerToBftBlock_canonical & H).
  repeat inv_field. destruct (2048 <? _) eqn:E; [done|].
  apply Reader_bind_inv in H as (hs & b2 &
    (-> & Hlen & Hhs)%(canonical_list _ _ _ _ _ _ _ BlockHeader_canonical) & [= <- ->]).
  unfold BftBlock.serialize_bytes, BftBlock.serialize_headers, BftBlock.wf, is_u in *. cbn in *.
  rewrite Hlen, Z2Nat.id by lia. rewrite <- !app_assoc. split; [done|].
  repeat (split; [done|]). split; [lia|done].
Qed.

Lemma BftBlock_serialize_ok b :
  BftBlock.wf b → BftBlock.zcash_serialize b = Ret (BftBlock.serialize_bytes b).
Proof.
  intros (_ & _ & _ & _ & Hn & _). unfold BftBlock.zcash_serialize.
  by rewrite (proj2 (in_range_spec _ _)) by (unfold is_u; lia).
Qed.

(** ** A concrete instance of the cryptographic parameters

    Not secure, but it satisfies the laws: the witnesses below run the model
    with it. *)
Module ToyCrypto.
Definition pad (n : nat) (d : bytes) : bytes := take n (d ++ replicate n Byte.x01).

#[global] Instance toy : Crypto := {|
  blake3_derive_key := λ _, replicate 32 Byte.x02;
  blake3_keyed_hash := λ _ d, pad 32 d;
  sha256 := pad 32;
  ed25519_sign := λ _ m, pad 64 (Byte.x01 :: m);
  ed25519_public := pad 32;
  ed25519_verify := λ _ m sig, bool_decide (sig = pad 64 (Byte.x01 :: m));
  ed25519_batch_verify :=
  forallb (λ '(pk, sig, m), bool_decide (sig = pad 64 (Byte.x01 :: m))) |}.

Lemma pad_length n d : length (pad n d) = n.
Proof. unfold pad. len. Qed.

#[global] Instance toy_laws : CryptoLaws toy.
Proof.
  split; intros; try apply pad_length; [by apply bool_decide_true|done].
Qed.
End ToyCrypto.
