(* ===== verification/Formats.v ===== *)
(** * Formats: the theorems on the wire and block formats

    What the codecs of [Wire], [Encoding] and [Bft] promise to the rest of the
    node: every value written is read back, an encoding that is accepted is the
    one the writer produces, and the bytes a member signs determine its vote. *)

From stdpp Require Import base list.
From S2P Require Import Prelude Wire Encoding Bft.

Section formats.
Context {P : Profile}.

(** A vote packet with at most 18 votes is written without a panic, and
    what the receiver reads from it, whatever bytes follow, is the packet
    with the same counts, height, round, value and votes; what follows is
    left unread.  With the header and status it fits one UDP packlet. *)
Theorem votes_packet_roundtrip p rest :
  PacketVotes.wf p →
  ∃ bs, PacketVotes.write_to p = Ret bs ∧
  PacketVotes.read_from (bs ++ rest) = Ret (Some (PacketVotes.received p, rest)) ∧
  (PACKET_HEADER_SIZE + PACKET_STATUS_SIZE + length bs ≤ PATH_MTU)%nat.
Proof.
  intros Hwf. destruct (PacketVotes_roundtrip_aux p rest Hwf) as (bs & Hw & Hr).
  exists bs. split; [done|]. split; [done|].
  enough (length bs ≤ 1234)%nat.
  { change PATH_MTU with 1376%nat.
    change (PACKET_HEADER_SIZE + PACKET_STATUS_SIZE)%nat with 44%nat. lia. }
  destruct p as [no yes r h id vs], Hwf as (Hno & Hyes & Hn & _ & _ & Hid & Hlen & Hvs).
  cbn in Hno, Hyes, Hn, Hid, Hlen, Hvs. unfold PacketVotes.VOTES_N, is_u in *.
  unfold PacketVotes.write_to, PacketVotes.votes_n in Hw. cbn in Hw.
  rewrite arith_ok in Hw by (unfold is_u; lia). cbn [mbind outcome_bind] in Hw.
  rewrite PacketVotes_write_body in Hw by lia. cbn [mbind outcome_bind] in Hw.
  apply Ret_inj in Hw as <-. rewrite !length_app, !length_le_split, Hid.
  rewrite (length_concat_map _ 66); [len|].
  apply Forall_take. eapply Forall_impl; [exact Hvs|]. intros x [_ Hs].
  unfold PubKeySig.write_to. len.
Qed.

(** The 76-byte encoding of a vote is a bijection: every vote with a
    31-bit round is recovered from its bytes, and every 76-byte string is the
    encoding of the vote it decodes to. *)
Theorem vote_encoding_bijective v bs :
  Vote.wf v → length bs = 76%nat →
  length (Vote.to_bytes v) = 76%nat ∧ Vote.from_bytes (Vote.to_bytes v) = v ∧
  Vote.to_bytes (Vote.from_bytes bs) = bs.
Proof.
  intros Hv Hbs. auto using Vote_to_bytes_length, Vote_from_to_bytes, Vote_to_from_bytes.
Qed.

(** The bytes a member signs determine the vote: whether it is a precommit,
    the height, the round (below [2^31]) and the value are the same for equal
    signed bytes, and they are the bytes the fat pointer's checker builds. *)
Theorem signed_bytes_determine_vote pk pc h r id pc' h' r' id' no yes no' :
  Vote.wf (Vote.mk pk id h pc r) → Vote.wf (Vote.mk pk id' h' pc' r') →
  make_vote_sign_datas pk pc h r id = Ret (no, yes) →
  make_vote_sign_datas pk pc' h' r' id' = Ret (no', yes) →
  yes = Vote.to_bytes (Vote.mk pk id h pc r) ∧ pc = pc' ∧ h = h' ∧ r = r' ∧ id = id'.
Proof.
  intros Hv Hv' Hs Hs'. pose proof Hv as (Hpk & Hid & _ & Hr). pose proof Hv' as (_ & Hid' & _ & Hr').
  rewrite make_vote_sign_datas_votes in Hs, Hs' by done. simplify_eq Hs. intros <- <-.
  simplify_eq Hs'. intros _ He. apply (f_equal Vote.from_bytes) in He.
  rewrite !Vote_from_to_bytes in He by done. split; [done|]. by simplify_eq He.
Qed.

(** A fat pointer is read back from its encoding, and an encoding that is
    accepted is the only one of the pointer it decodes to; with
    [validate_signatures] this makes the bytes of a finality certificate
    non-malleable up to the signatures themselves. *)
Theorem fat_pointer_codec :
  (∀ p rest, FatPointerToBftBlock.wf p →
   FatPointerToBftBlock.zcash_deserialize (FatPointerToBftBlock.zcash_serialize p ++ rest)
   = Some (p, rest)) ∧
  (∀ buf p rest, FatPointerToBftBlock.zcash_deserialize buf = Some (p, rest) →
   buf = FatPointerToBftBlock.zcash_serialize p ++ rest ∧ FatPointerToBftBlock.wf p).
Proof. split; [apply FatPointerToBftBlock_reads_back|apply FatPointerToBftBlock_canonical]. Qed.

(** C35: A BFT block, headers with their Equihash solutions and nested fat
    pointers included, is read back from its encoding, serialising it does
    not panic, and an accepted encoding is the only one of its block: equal
    blocks are hashed from equal bytes. *)
Theorem bft_block_codec :
  (∀ b rest, BftBlock.wf b → ∃ bs, BftBlock.zcash_serialize b = Ret bs ∧
   BftBlock.zcash_deserialize (bs ++ rest) = Some (b, rest)) ∧
  (∀ buf b rest, BftBlock.zcash_deserialize buf = Some (b, rest) →
   ∃ bs, BftBlock.zcash_serialize b = Ret bs ∧ buf = bs ++ rest ∧ BftBlock.wf b).
Proof.
  split.
  - intros b rest Hwf. exists (BftBlock.serialize_bytes b).
    split; [by apply BftBlock_serialize_ok|by apply BftBlock_reads_back].
  - intros buf b rest [-> Hwf]%BftBlock_canonical. eauto using BftBlock_serialize_ok.
Qed.

(** [CompactSize] is a canonical encoding of the sizes up to
    [MAX_COMPACT_SIZE]: what is written is read back, and what is accepted is
    the shortest form, of the length [serialized_size] predicts. *)
Theorem compact_size_codec :
  (∀ n rest, 0 ≤ n ≤ MAX_COMPACT_SIZE →
   CompactSize.read (CompactSize.write n ++ rest) = Some (n, rest)) ∧
  (∀ buf n rest, CompactSize.read buf = Some (n, rest) →
   buf = CompactSize.write n ++ rest ∧ 0 ≤ n ≤ MAX_COMPACT_SIZE ∧
   Z.of_nat (length buf - length rest) = CompactSize.serialized_size n).
Proof.
  split; [apply CompactSize_reads_back|]. intros buf n rest [-> Hn]%CompactSize_canonical.
  split; [done|]. split; [done|]. destruct Hn.
  rewrite <- CompactSize_write_length by done. f_equal. len.
Qed.

(** A fat pointer of the right shape is valid exactly when every signature
    it lists verifies, under its own key, for the vote the pointer commits to
    with that key as the voter. *)
Theorem fat_pointer_valid_iff {C : Crypto} {CL : CryptoLaws C} p :
  FatPointerToBftBlock.wf p →
  FatPointerToBftBlock.validate_signatures p = true ↔
  Forall (λ s, ed25519_verify (FatPointerSignature.pub_key s)
           (FatPointerSignature.pub_key s
            ++ FatPointerToBftBlock.vote_for_block_without_finalizer_public_key p)
           (FatPointerSignature.vote_signature s) = true)
  (FatPointerToBftBlock.signatures p).
Proof.
  intros (Hl & _ & Hs). rewrite validate_signatures_eq;
                          [|done|by eapply Forall_impl; [exact Hs|]; intros s []].
  rewrite forallb_forall, Forall_forall. setoid_rewrite list_elem_of_In. done.
Qed.

(** The second decoder of a fat pointer, [try_from_bytes], never returns
    one: a buffer shorter than 46 bytes is refused, any other panics, because
    the length is read from the slice [44..2]. *)
Theorem fat_pointer_try_from_bytes bs :
  FatPointerToBftBlock.try_from_bytes bs
  = if decide (length bs < 46)%nat then Ret None else Panic.
Proof.
  unfold FatPointerToBftBlock.try_from_bytes. change (76 - 32 + 2)%nat with 46%nat.
  case_decide; [done|]. rewrite (slice_Ret bs 0) by lia. cbn [mbind outcome_bind].
  replace (slice bs (76 - 32) 2) with (@Panic bytes); [done|].
  unfold slice. by rewrite decide_False by lia.
Qed.
End formats.
