(* ===== verification/Roster.v ===== *)
(** * Roster: finalizers ordered by stake, and who proposes when

    Models [tenderlink_roster_from_internal] of
    [zebra-crosslink/zebra-crosslink/src/lib.rs], which turns the validators
    reported by the PoW chain into the roster every node must agree on, and
    [proposer_from_height_round], [active_roster_len] and
    [roster_i_from_pub_key] of [tenderlink/src/lib.rs]. *)

From stdpp Require Import base list sorting.
From S2P Require Import Prelude Wire Encoding Bft.

(** [StakeTxId] and [RosterMember] of [zcash_primitives::transaction], as the
    state reports them, with their encoding. *)
Module StakeTxId.
Record t := mk { txid : bytes; zats : Z }.

Definition write_to_vec (x : t) : bytes := x.(txid) ++ to_le 8 x.(zats).
Definition read_from : Reader t :=
  txid ← read_bytes 32; zats ← read_uint 8; mret (mk txid zats).

Definition wf (x : t) : Prop := length x.(txid) = 32%nat ∧ is_u 64 x.(zats).
End StakeTxId.

Module RosterMember.
Record t := mk { pub_key : PubKeyID; voting_power : Z; txids : list StakeTxId.t }.

Definition write_to_vec (v : t) : bytes :=
  v.(pub_key) ++ to_le 8 v.(voting_power) ++ to_le 8 (Z.of_nat (length v.(txids)))
    ++ concat (map StakeTxId.write_to_vec v.(txids)).
(** [Vec::with_capacity(txids_len)] reserves memory before the elements are
    read, and can fail for a length that the data does not have; allocation
    is not part of the model, here the missing data is the error. *)
Definition read_from : Reader t :=
  pub_key ← read_bytes 32;
  voting_power ← read_uint 8;
  txids_len ← read_uint 8;
  txids ← read_list (Z.to_nat txids_len) StakeTxId.read_from;
  mret (mk pub_key voting_power txids).

Definition wf (v : t) : Prop :=
  length v.(pub_key) = 32%nat ∧ is_u 64 v.(voting_power) ∧
    Z.of_nat (length v.(txids)) < 2 ^ 64 ∧ Forall StakeTxId.wf v.(txids).
End RosterMember.

Lemma StakeTxId_reads_back : reads_back StakeTxId.read_from StakeTxId.write_to_vec StakeTxId.wf.
Proof.
  intros [x z] rest [Hx Hz]. cbn in *. unfold StakeTxId.read_from, StakeTxId.write_to_vec. cbn.
  by read_back.
Qed.

Lemma RosterMember_reads_back :
  reads_back RosterMember.read_from RosterMember.write_to_vec RosterMember.wf.
Proof.
  intros [pk vp txs] rest (Hpk & Hvp & Hn & Htx). cbn in *.
  assert (is_u 64 (Z.of_nat (length txs))) by (unfold is_u; lia).
  unfold RosterMember.read_from, RosterMember.write_to_vec. cbn. read_back. rewrite Nat2Z.id.
  by erewrite Reader_bind_eq by (eapply reads_back_list; [apply StakeTxId_reads_back|done]).
Qed.

Module SortedRosterMember.
Record t := mk { pub_key : PubKeyID; stake : Z; cumulative_stake : Z }.
#[global] Instance eq_dec : EqDecision t.
Proof. solve_decision. Defined.
End SortedRosterMember.
Import SortedRosterMember.

Definition ROSTER_MAX_N : nat := 100.
Definition active_roster_len (roster : list SortedRosterMember.t) : nat :=
  Nat.min ROSTER_MAX_N (length roster).
Definition active_roster (roster : list SortedRosterMember.t) : list SortedRosterMember.t :=
  take (active_roster_len roster) roster.

(** [iter().position(p)] *)
Fixpoint position {A} (p : A → bool) (l : list A) : option nat :=
  match l with
  | [] => None
  | x :: l => if p x then Some 0%nat else S <$> position p l
  end.

Definition roster_i_from_pub_key (roster : list SortedRosterMember.t) (pub_key : PubKeyID)
    : option nat :=
  position (λ m, bool_decide (m.(SortedRosterMember.pub_key) = pub_key)) roster.

(** ** Building the roster *)

(** The order of byte arrays, compared from the first byte. *)
Fixpoint bytes_cmp (a b : bytes) : comparison :=
  match a, b with
  | [], [] => Eq
  | [], _ => Lt
  | _, [] => Gt
  | x :: a, y :: b =>
      match Z.compare (byte.unsigned x) (byte.unsigned y) with
      | Eq => bytes_cmp a b
      | c => c
      end
  end.

(** [Reverse((stake, pub_key))]: [m1] sorts before or with [m2] when its key is
    at least as large. *)
Definition key_cmp (m1 m2 : SortedRosterMember.t) : comparison :=
  match Z.compare m1.(stake) m2.(stake) with
  | Eq => bytes_cmp m1.(SortedRosterMember.pub_key) m2.(SortedRosterMember.pub_key)
  | c => c
  end.
Definition sorts_before (m1 m2 : SortedRosterMember.t) : bool :=
  match key_cmp m1 m2 with Lt => false | _ => true end.

(** [sort_by_key] is a stable sort. *)
Fixpoint insert_member (m : SortedRosterMember.t) (l : list SortedRosterMember.t) :=
  match l with
  | [] => [m]
  | m' :: l' => if sorts_before m m' then m :: l else m' :: insert_member m l'
  end.
Definition sort_by_key (l : list SortedRosterMember.t) : list SortedRosterMember.t :=
  foldr insert_member [] l.

Section build.
Context `{Profile}.

Fixpoint accumulate (cumulative : Z) (l : list SortedRosterMember.t)
    : outcome (list SortedRosterMember.t) :=
  match l with
  | [] => Ret []
  | m :: l =>
      c ← arith 64 (cumulative + m.(stake));
      rest ← accumulate c l;
      Ret (mk m.(SortedRosterMember.pub_key) m.(stake) c :: rest)
  end.

Definition tenderlink_roster_from_internal (vals : list RosterMember.t)
    : outcome (list SortedRosterMember.t) :=
  accumulate 0
    (sort_by_key
   (map (λ v, mk v.(RosterMember.pub_key) v.(RosterMember.voting_power) 0) vals)).
End build.

(** ** Choosing the proposer *)

(** [slice::partition_point] on a slice partitioned by the predicate: the
    length of the prefix that satisfies it. *)
Fixpoint partition_point {A} (p : A → bool) (l : list A) : nat :=
  match l with
  | [] => 0
  | x :: l => if p x then S (partition_point p l) else 0
  end.

Section proposer.
Context `{Crypto}.

Definition proposer_from_height_round (hash_keys : HashKeys)
    (roster : list SortedRosterMember.t) (height round : Z)
    : outcome (option nat * PubKeyID) :=
  if decide (length roster = 0)%nat then Ret (None, PubKeyID_NIL) else
  let hash := blake3_keyed_hash (hk_proposer hash_keys) (to_le 8 height ++ to_le 4 round) in
  hash8 ← slice hash 0 8;
  let hash_stake := from_le hash8 in
  let last_included_i := (active_roster_len roster - 1)%nat in
  last ← index roster last_included_i;
  let total_included_stake := last.(cumulative_stake) in
  if total_included_stake =? 0 then Ret (None, PubKeyID_NIL) else
  let proposer_stake := hash_stake mod total_included_stake in
  let roster_i := partition_point (λ m, m.(cumulative_stake) <=? proposer_stake) roster in
  m ← index roster roster_i;
  Ret (Some roster_i, m.(SortedRosterMember.pub_key)).
End proposer.

(** ** The roster invariant: stakes are descending and each member carries the
    total stake up to and including its own *)

Definition stakes (roster : list SortedRosterMember.t) : list Z := map stake roster.

Record roster_wf (roster : list SortedRosterMember.t) : Prop := {
  rw_nonneg : Forall (λ s, 0 ≤ s) (stakes roster);
  rw_cumulative : ∀ i m, roster !! i = Some m →
    m.(cumulative_stake) = zsum (take (S i) (stakes roster));
  rw_total : zsum (stakes roster) < 2 ^ 64 }.

(** ** Proofs *)

Lemma position_spec {A} (p : A → bool) l i :
  position p l = Some i →
  (∃ x, l !! i = Some x ∧ p x = true) ∧ ∀ j x, (j < i)%nat → l !! j = Some x → p x = false.
Proof.
  revert i. induction l as [|x l IH]; intros i; cbn; [done|].
  destruct (p x) eqn:Ex.
  - intros [= <-]. split; [by exists x|]. lia.
  - intros (i' & [(y & Hy & Hpy) Hlt]%IH & ->)%fmap_Some. split; [by exists y|].
    intros [|j] z Hj; cbn; [by intros [= <-]|]. apply Hlt. lia.
Qed.

Lemma roster_i_from_pub_key_spec roster pk i :
  roster_i_from_pub_key roster pk = Some i →
  ∃ m, roster !! i = Some m ∧ m.(SortedRosterMember.pub_key) = pk.
Proof. intros [(m & Hm & Hp) _]%position_spec. exists m. by apply bool_decide_eq_true in Hp. Qed.

Lemma bytes_cmp_eq a b : bytes_cmp a b = Eq → a = b.
Proof.
  revert b. induction a as [|x a IH]; intros [|y b]; cbn; try done.
  destruct (Z.compare_spec (byte.unsigned x) (byte.unsigned y)) as [E| |]; [|done..].
  intros ->%IH. f_equal. by apply byte.unsigned_inj.
Qed.

Lemma bytes_cmp_antisym a b : bytes_cmp b a = CompOpp (bytes_cmp a b).
Proof.
  revert b. induction a as [|x a IH]; intros [|y b]; cbn; try done.
  rewrite Z.compare_antisym. destruct (Z.compare (byte.unsigned x) (byte.unsigned y)); cbn; auto.
Qed.

Lemma bytes_cmp_lt_trans a b c : bytes_cmp a b = Lt → bytes_cmp b c = Lt → bytes_cmp a c = Lt.
Proof.
  revert b c. induction a as [|x a IH]; intros [|y b] [|z c]; cbn; try done.
  destruct (Z.compare_spec (byte.unsigned x) (byte.unsigned y)),
    (Z.compare_spec (byte.unsigned y) (byte.unsigned z)),
    (Z.compare_spec (byte.unsigned x) (byte.unsigned z)); try done; try lia; eauto.
Qed.

Lemma key_cmp_antisym m1 m2 : key_cmp m2 m1 = CompOpp (key_cmp m1 m2).
Proof.
  unfold key_cmp. rewrite Z.compare_antisym.
  destruct (Z.compare (stake m1) (stake m2)); cbn; auto using bytes_cmp_antisym.
Qed.

Lemma key_cmp_lt_trans m1 m2 m3 :
  key_cmp m1 m2 = Lt → key_cmp m2 m3 = Lt → key_cmp m1 m3 = Lt.
Proof.
  unfold key_cmp.
  destruct (Z.compare_spec (stake m1) (stake m2)), (Z.compare_spec (stake m2) (stake m3)),
    (Z.compare_spec (stake m1) (stake m3)); try done; try lia; eauto using bytes_cmp_lt_trans.
Qed.

Lemma key_cmp_eq m1 m2 :
  key_cmp m1 m2 = Eq →
  stake m1 = stake m2 ∧ SortedRosterMember.pub_key m1 = SortedRosterMember.pub_key m2.
Proof.
  unfold key_cmp. destruct (Z.compare_spec (stake m1) (stake m2)); [|done..].
  by intros ->%bytes_cmp_eq.
Qed.

(** [sorts_before] on members that were not accumulated yet is a total order:
    equal keys mean equal members. *)
Definition fresh (m : SortedRosterMember.t) : Prop := m.(cumulative_stake) = 0.

Definition before (m1 m2 : SortedRosterMember.t) : Prop := sorts_before m1 m2 = true.
#[global] Instance before_dec m1 m2 : Decision (before m1 m2).
Proof. unfold before. apply _. Defined.

Lemma before_cases m1 m2 : before m1 m2 ↔ key_cmp m1 m2 ≠ Lt.
Proof. unfold before, sorts_before. destruct (key_cmp m1 m2); naive_solver. Qed.

Lemma before_trans m1 m2 m3 : before m1 m2 → before m2 m3 → before m1 m3.
Proof.
  rewrite !before_cases. intros H12 H23 H13.
  destruct (key_cmp m2 m1) eqn:E.
  - apply key_cmp_eq in E as [Es Ep]. apply H23.
    unfold key_cmp in *. by rewrite Es, Ep.
  - apply H23. eauto using key_cmp_lt_trans.
  - apply H12. rewrite key_cmp_antisym, E. done.
Qed.

Lemma before_total m1 m2 : ¬ before m1 m2 → before m2 m1.
Proof. rewrite !before_cases, (key_cmp_antisym m1 m2). by destruct (key_cmp m1 m2); naive_solver. Qed.

Lemma before_antisym m1 m2 : fresh m1 → fresh m2 → before m1 m2 → before m2 m1 → m1 = m2.
Proof.
  rewrite !before_cases, (key_cmp_antisym m1 m2). intros F1 F2.
  destruct (key_cmp m1 m2) eqn:E; [|naive_solver..]. intros _ _.
  apply key_cmp_eq in E as [Es Ep]. destruct m1, m2; unfold fresh in *; cbn in *. congruence.
Qed.

Lemma insert_member_perm m l : insert_member m l ≡ₚ m :: l.
Proof.
  induction l as [|x l IH]; cbn; [done|]. case_match; [done|].
  etrans; [apply perm_skip, IH|apply perm_swap].
Qed.

Lemma sort_by_key_perm l : sort_by_key l ≡ₚ l.
Proof.
  induction l as [|x l IH]; cbn; [done|].
  etrans; [apply insert_member_perm|by apply perm_skip].
Qed.

Lemma insert_member_sorted m l : StronglySorted before l → StronglySorted before (insert_member m l).
Proof.
  induction 1 as [|x l Hl IH Hx]; cbn; [repeat constructor|].
  destruct (sorts_before m x) eqn:E.
  - constructor; [by constructor|]. constructor; [done|].
    eapply Forall_impl; [exact Hx|]. intros y. by apply before_trans.
  - constructor; [done|]. eapply Permutation_Forall; [symmetry; apply insert_member_perm|].
    constructor; [|done]. apply before_total. unfold before. congruence.
Qed.

Lemma sort_by_key_sorted l : StronglySorted before (sort_by_key l).
Proof. induction l; cbn; [constructor|]. by apply insert_member_sorted. Qed.

(** Two sorted arrangements of the same fresh members are the same list. *)
Lemma sorted_perm_unique l1 l2 :
  Forall fresh l1 → StronglySorted before l1 → StronglySorted before l2 → l1 ≡ₚ l2 → l1 = l2.
Proof.
  revert l2. induction l1 as [|x l1 IH]; intros l2 Hf S1 S2 Hp.
  { by apply Permutation_nil in Hp. }
  destruct l2 as [|y l2]; [by symmetry in Hp; apply Permutation_nil in Hp|].
  inversion_clear S1 as [|? ? S1' F1]. inversion_clear S2 as [|? ? S2' F2].
  assert (x = y) as <-.
  { assert (x ∈ y :: l2) as Hx by (rewrite <- Hp; left).
    assert (y ∈ x :: l1) as Hy by (rewrite Hp; left).
    apply elem_of_cons in Hx as [?|Hx]; [done|]. apply elem_of_cons in Hy as [?|Hy]; [done|].
    apply Forall_cons in Hf as [Hfx Hf]. eapply Forall_forall in Hf; [|exact Hy].
    eapply Forall_forall in F1; [|exact Hy]. eapply Forall_forall in F2; [|exact Hx].
    by apply before_antisym. }
  f_equal. apply IH; [by inversion Hf|done|done|]. by apply Permutation_cons_inv in Hp.
Qed.

Section build_proofs.
Context `{Profile}.

Lemma accumulate_spec c l :
  Forall (λ s, 0 ≤ s) (stakes l) → 0 ≤ c → c + zsum (stakes l) < 2 ^ 64 →
  ∃ l', accumulate c l = Ret l' ∧ stakes l' = stakes l ∧
  map SortedRosterMember.pub_key l' = map SortedRosterMember.pub_key l ∧
  ∀ i m, l' !! i = Some m → m.(cumulative_stake) = c + zsum (take (S i) (stakes l)).
Proof.
  revert c. induction l as [|x l IH]; intros c Hpos Hc Hsum; [by exists []|].
  unfold stakes in Hpos, Hsum. cbn in Hpos, Hsum. apply Forall_cons in Hpos as [Hx Hpos].
  pose proof (zsum_nonneg _ Hpos). cbn.
  rewrite arith_ok by (unfold is_u; lia). cbn.
  destruct (IH (c + stake x) Hpos ltac:(lia) ltac:(unfold stakes; lia)) as (l' & -> & Es & Ep & Hc').
  cbn. eexists; split; [done|]. unfold stakes in *. cbn. rewrite Es, Ep. do 2 (split; [done|]).
  intros [|i] m; cbn; [intros [= <-]; cbn; rewrite take_0; cbn; lia|].
  intros ->%Hc'. cbn. lia.
Qed.
End build_proofs.

Lemma partition_point_le {A} (p : A → bool) l : (partition_point p l ≤ length l)%nat.
Proof. induction l; cbn; [lia|]. case_match; lia. Qed.

Lemma partition_point_spec {A} (p : A → bool) l i :
  (∀ j x, (j < i)%nat → l !! j = Some x → p x = true) →
  (∀ x, l !! i = Some x → p x = false) → (i ≤ length l)%nat → partition_point p l = i.
Proof.
  revert i. induction l as [|x l IH]; intros i Hlt Hi Hlen; cbn in *; [lia|].
  destruct i as [|i].
  - by rewrite (Hi x) by done.
  - rewrite (Hlt 0%nat x) by (done || lia). f_equal.
    apply IH; [|done|lia]. intros j y Hj. apply (Hlt (S j)). lia.
Qed.

Lemma zsum_take_S (l : list Z) i s : l !! i = Some s → zsum (take (S i) l) = zsum (take i l) + s.
Proof. intros Hs. rewrite (take_S_r _ _ _ Hs), zsum_app. cbn. lia. Qed.

Lemma zsum_take_mono (l : list Z) i j :
  Forall (λ x, 0 ≤ x) l → (i ≤ j)%nat → zsum (take i l) ≤ zsum (take j l).
Proof.
  intros Hl Hij. replace (take i l) with (take i (take j l)) by (by rewrite take_take, Nat.min_l).
  by apply zsum_take_le, Forall_take.
Qed.

(** With prefix sums for cumulative stakes, a stake coordinate selects the
    member whose stake interval holds it. *)
Lemma partition_point_stake roster x i m :
  roster_wf roster → roster !! i = Some m →
  zsum (take i (stakes roster)) ≤ x < zsum (take (S i) (stakes roster)) →
  partition_point (λ m, m.(cumulative_stake) <=? x) roster = i.
Proof.
  intros [Hpos Hcum _] Hm Hx. apply partition_point_spec.
  - intros j y Hj Hy. rewrite (Hcum _ _ Hy).
    pose proof (zsum_take_mono (stakes roster) (S j) i Hpos ltac:(lia)). lia.
  - intros y Hy. rewrite (Hcum _ _ Hy). lia.
  - apply lookup_lt_Some in Hm. lia.
Qed.

(** Every coordinate below a prefix total lies in the interval of some member. *)
Lemma stake_interval (l : list Z) n x :
  Forall (λ s, 0 ≤ s) l → 0 ≤ x < zsum (take n l) →
  ∃ i s, (i < n)%nat ∧ l !! i = Some s ∧ 0 < s ∧
    zsum (take i l) ≤ x < zsum (take (S i) l).
Proof.
  intros Hl. induction n as [|n IH]; intros Hx; [rewrite take_0 in Hx; cbn in Hx; lia|].
  destruct (decide (x < zsum (take n l))) as [Hlt|Hge].
  { destruct IH as (i & s & ? & ?); [lia|]. exists i, s. split; [lia|done]. }
  destruct (l !! n) as [s|] eqn:Es.
  - exists n, s. pose proof (zsum_take_S _ _ _ Es). split; [lia|]. split; [done|]. split; lia.
  - apply lookup_ge_None in Es. rewrite !take_ge in * by lia. lia.
Qed.

Lemma stakes_lookup roster i m : roster !! i = Some m → stakes roster !! i = Some m.(stake).
Proof. intros Hm. unfold stakes. by rewrite list_lookup_fmap, Hm. Qed.

Section build_theorems.
Context `{Profile}.

Definition members (vals : list RosterMember.t) : list SortedRosterMember.t :=
  map (λ v, mk v.(RosterMember.pub_key) v.(RosterMember.voting_power) 0) vals.

Lemma members_fresh vals : Forall fresh (members vals).
Proof. apply Forall_map, Forall_true. done. Qed.

(** Two nodes that learn about the same validators in different orders
    compute exactly the same roster. *)
Theorem roster_order_independent vals1 vals2 :
  vals1 ≡ₚ vals2 →
  tenderlink_roster_from_internal vals1 = tenderlink_roster_from_internal vals2.
Proof.
  intros Hp. unfold tenderlink_roster_from_internal. fold (members vals1) (members vals2).
  f_equal. apply sorted_perm_unique.
  - eapply Permutation_Forall; [symmetry; apply sort_by_key_perm|apply members_fresh].
  - apply sort_by_key_sorted.
  - apply sort_by_key_sorted.
  - rewrite sort_by_key_perm. etrans; [by apply Permutation_map|].
    symmetry. apply sort_by_key_perm.
Qed.

Lemma roster_built vals :
  Forall (λ v, 0 ≤ v.(RosterMember.voting_power)) vals →
  zsum (map RosterMember.voting_power vals) < 2 ^ 64 →
  ∃ roster, tenderlink_roster_from_internal vals = Ret roster ∧ roster_wf roster ∧
  map (λ m, (m.(SortedRosterMember.pub_key), m.(stake))) roster
  ≡ₚ map (λ v, (v.(RosterMember.pub_key), v.(RosterMember.voting_power))) vals ∧
  Sorted (λ a b, b ≤ a) (stakes roster).
Proof.
  intros Hpos Hsum. unfold tenderlink_roster_from_internal. fold (members vals).
  pose proof (sort_by_key_perm (members vals)) as Hperm.
  assert (stakes (sort_by_key (members vals)) ≡ₚ map RosterMember.voting_power vals) as Hst.
  { unfold stakes. etrans; [apply Permutation_map, Hperm|]. unfold members. by rewrite map_map. }
  destruct (accumulate_spec 0 (sort_by_key (members vals))) as (r & Hr & Es & Ep & Hc).
  { eapply Permutation_Forall; [symmetry; apply Hst|]. by apply Forall_map. }
  { done. }
  { by rewrite (zsum_perm _ _ Hst). }
  exists r. split; [done|].
  assert (zsum (stakes r) < 2 ^ 64) by (by rewrite Es, (zsum_perm _ _ Hst)).
  split; [split; rewrite ?Es in *; try done|split].
  - eapply Permutation_Forall; [symmetry; apply Hst|]. by apply Forall_map.
  - assert (map (λ m, (m.(SortedRosterMember.pub_key), m.(stake))) r
      = map (λ m, (m.(SortedRosterMember.pub_key), m.(stake))) (sort_by_key (members vals))) as ->.
    { clear -Es Ep. revert Es Ep. generalize (sort_by_key (members vals)). unfold stakes.
      induction r as [|x r IH]; intros [|y l]; cbn; try done. intros [= ? ?] [= ? ?].
      f_equal; [congruence|]. by apply IH. }
    etrans; [apply Permutation_map, Hperm|]. unfold members. by rewrite map_map.
  - rewrite Es. apply StronglySorted_Sorted.
    pose proof (sort_by_key_sorted (members vals)) as Hs. unfold stakes.
    clear -Hs. induction Hs as [|x l Hl IH Hx]; cbn; constructor; [done|].
    apply Forall_map. eapply Forall_impl; [exact Hx|]. intros y. cbn.
    rewrite before_cases. unfold key_cmp.
    destruct (Z.compare_spec (stake x) (stake y)); naive_solver lia.
Qed.

(** With voting powers whose total fits a [u64], building the roster does
    not panic; the result has the same members, in descending order of
    stake, and carries the running total of the stakes. *)
Theorem roster_from_internal_wf vals :
  Forall (λ v, 0 ≤ v.(RosterMember.voting_power)) vals →
  zsum (map RosterMember.voting_power vals) < 2 ^ 64 →
  ∃ roster, tenderlink_roster_from_internal vals = Ret roster ∧ roster_wf roster ∧
  map (λ m, (m.(SortedRosterMember.pub_key), m.(stake))) roster
  ≡ₚ map (λ v, (v.(RosterMember.pub_key), v.(RosterMember.voting_power))) vals ∧
  Sorted (λ a b, b ≤ a) (stakes roster).
Proof. apply roster_built. Qed.
End build_theorems.

Section proposer_theorems.
Context {C : Crypto} {CL : CryptoLaws C}.

Lemma proposer_lookup keys roster height round :
  roster_wf roster → 0 < zsum (stakes (active_roster roster)) →
  ∃ i m x, proposer_from_height_round keys roster height round
  = Ret (Some i, m.(SortedRosterMember.pub_key)) ∧
  (i < active_roster_len roster)%nat ∧ roster !! i = Some m ∧ 0 < m.(stake) ∧
  x = from_le (take 8 (blake3_keyed_hash (hk_proposer keys) (to_le 8 height ++ to_le 4 round)))
  mod zsum (stakes (active_roster roster)) ∧
  m.(cumulative_stake) - m.(stake) ≤ x < m.(cumulative_stake).
Proof.
  intros Hwf Htot. pose proof Hwf as [Hpos Hcum _].
  assert (length roster ≠ 0)%nat as Hne.
  { intros E. unfold active_roster in Htot. apply nil_length_inv in E as ->. cbn in Htot. lia. }
  assert (stakes (active_roster roster) = take (active_roster_len roster) (stakes roster)) as Eact.
  { unfold active_roster, stakes. by rewrite fmap_take. }
  unfold proposer_from_height_round. rewrite decide_False by done.
  rewrite slice_Ret by (rewrite keyed_hash_length; lia). rewrite drop_0. cbn [mbind outcome_bind].
  assert (active_roster_len roster - 1 < length roster)%nat as Hlast.
  { unfold active_roster_len, ROSTER_MAX_N. lia. }
  destruct (lookup_lt_is_Some_2 _ _ Hlast) as [lastm Hl].
  rewrite (index_Ret _ _ _ Hl). cbn [mbind outcome_bind].
  rewrite (Hcum _ _ Hl).
  replace (S (active_roster_len roster - 1)) with (active_roster_len roster)
    by (unfold active_roster_len, ROSTER_MAX_N in *; lia).
  rewrite <- Eact, (proj2 (Z.eqb_neq _ _)) by lia.
  set (x := from_le _ mod _).
  assert (0 ≤ x < zsum (stakes (active_roster roster))) as Hx by (apply Z.mod_pos_bound; lia).
  rewrite Eact in Hx.
  destruct (stake_interval _ _ _ Hpos Hx) as (i & s & Hi & Hs & Hspos & Hint).
  destruct (roster !! i) as [m|] eqn:Hm; [|unfold stakes in Hs; rewrite list_lookup_fmap, Hm in Hs; done].
  pose proof (stakes_lookup _ _ _ Hm) as Hs'. rewrite Hs in Hs'. injection Hs' as ->.
  rewrite (partition_point_stake roster x i m Hwf Hm Hint), (index_Ret _ _ _ Hm).
  exists i, m, x. rewrite (Hcum _ _ Hm). pose proof (zsum_take_S _ _ _ Hs). cbn in *.
  do 5 (split; [done|]). lia.
Qed.

Lemma proposer_total keys roster height round :
  roster_wf roster → ∃ r, proposer_from_height_round keys roster height round = Ret r.
Proof.
  intros Hwf. destruct (decide (0 < zsum (stakes (active_roster roster)))) as [Hpos|Hz].
  { destruct (proposer_lookup keys roster height round Hwf Hpos) as (i & m & x & -> & _). eauto. }
  destruct Hwf as [Hpos Hcum _]. unfold proposer_from_height_round.
  case_decide as Hne; [by eauto|]. rewrite slice_Ret by (rewrite keyed_hash_length; lia).
  cbn [mbind outcome_bind].
  destruct (lookup_lt_is_Some_2 roster (active_roster_len roster - 1)) as [lastm Hl].
  { unfold active_roster_len, ROSTER_MAX_N. lia. }
  rewrite (index_Ret _ _ _ Hl). cbn [mbind outcome_bind]. rewrite (Hcum _ _ Hl).
  replace (S (active_roster_len roster - 1)) with (active_roster_len roster)
    by (unfold active_roster_len, ROSTER_MAX_N in *; lia).
  assert (stakes (active_roster roster) = take (active_roster_len roster) (stakes roster)) as Eact.
  { unfold active_roster, stakes. by rewrite fmap_take. }
  rewrite <- Eact. rewrite (proj2 (Z.eqb_eq _ _)); [by eauto|].
  assert (0 ≤ zsum (stakes (active_roster roster))); [|lia].
  rewrite Eact. by apply zsum_nonneg, Forall_take.
Qed.

(** On a well-formed roster with active stake, the proposer of every
    height and round is a member of the active roster with positive stake,
    and it is exactly the member whose stake interval holds the hash
    coordinate: each member proposes for as many coordinates as it has
    stake. *)
Theorem proposer_is_active keys roster height round :
  roster_wf roster → 0 < zsum (stakes (active_roster roster)) →
  ∃ i m x, proposer_from_height_round keys roster height round
  = Ret (Some i, m.(SortedRosterMember.pub_key)) ∧
  (i < active_roster_len roster)%nat ∧ roster !! i = Some m ∧ 0 < m.(stake) ∧
  x = from_le (take 8 (blake3_keyed_hash (hk_proposer keys) (to_le 8 height ++ to_le 4 round)))
  mod zsum (stakes (active_roster roster)) ∧
  m.(cumulative_stake) - m.(stake) ≤ x < m.(cumulative_stake).
Proof. apply proposer_lookup. Qed.
End proposer_theorems.
