(* ===== verification/Round.v ===== *)
(** * Round: what a node stores about one round of voting

    Models [ConsensusCounts], [RoundData], [Timeout] and the two handlers that
    [TMState::check_and_incorporate_msg] dispatches to
    ([tenderlink/src/lib.rs]): a proposal chunk and a vote.  The stores are
    parallel to the roster: entry [i] of [msg_val_sigs] holds the prevote and
    the precommit of roster member [i]. *)

From stdpp Require Import base list.
From S2P Require Import Prelude Wire Encoding Bft Roster.
Import SortedRosterMember.

Inductive TMStep := Propose | Prevote | Precommit.
#[global] Instance TMStep_eq_dec : EqDecision TMStep.
Proof. solve_decision. Defined.

Inductive TMStatus := Indeterminate | Pass | Fail_.
#[global] Instance TMStatus_eq_dec : EqDecision TMStatus.
Proof. solve_decision. Defined.

Inductive TMStatusReason := ReasonNone | NeedsBlock (hash : bytes).

(** ** Block values and their chunks *)
Definition BlockValue : Type := bytes.
#[global] Instance BlockValue_eq_dec : EqDecision BlockValue := list_eq_dec.

Definition div_ceil (a b : nat) : nat := (a / b + (if decide (a mod b = 0) then 0 else 1))%nat.

Definition id_from_value `{Crypto} (v : BlockValue) (keys : HashKeys) : ValueId :=
  blake3_keyed_hash (hk_value_id keys) v.
Definition chunks_n (v : BlockValue) : nat := div_ceil (length v) PROPOSAL_CHUNK_DATA_SIZE.
Definition chunk_o_size `{Profile} (v : BlockValue) (chunk_i : nat) : outcome (nat * nat) :=
  o ← arith 64 (Z.of_nat chunk_i * Z.of_nat PROPOSAL_CHUNK_DATA_SIZE);
  rem ← arith 64 (Z.of_nat (length v) - o);
  Ret (Z.to_nat o, Z.to_nat (Z.min (Z.of_nat PROPOSAL_CHUNK_DATA_SIZE) rem)).

(** ** Stake-weighted vote counts *)
Module ConsensusCounts.
Record t := mk {
  anys : Z;
  prevotes : Z;
  nil_prevotes : Z;
  yes_prevotes : Z;
  precommits : Z;
  yes_precommits : Z }.
Definition ZERO : t := mk 0 0 0 0 0 0.
#[global] Instance eq_dec : EqDecision t.
Proof. solve_decision. Defined.

Definition lift2 `{Profile} (op : Z → Z → Z) (a b : t) : outcome t :=
  x1 ← arith 64 (op a.(anys) b.(anys));
  x2 ← arith 64 (op a.(prevotes) b.(prevotes));
  x3 ← arith 64 (op a.(nil_prevotes) b.(nil_prevotes));
  x4 ← arith 64 (op a.(yes_prevotes) b.(yes_prevotes));
  x5 ← arith 64 (op a.(precommits) b.(precommits));
  x6 ← arith 64 (op a.(yes_precommits) b.(yes_precommits));
  Ret (mk x1 x2 x3 x4 x5 x6).
Definition add `{Profile} : t → t → outcome t := lift2 Z.add.
Definition sub `{Profile} : t → t → outcome t := lift2 Z.sub.
End ConsensusCounts.

(** A member's two votes, each a value id and a signature; index 0 is the
    prevote and index 1 the precommit. *)
Record VoteSlots := { slot_prevote : ValueId * TMSig; slot_precommit : ValueId * TMSig }.
#[global] Instance VoteSlots_eq_dec : EqDecision VoteSlots.
Proof. solve_decision. Defined.
Definition slots_nil : VoteSlots :=
  {| slot_prevote := (ValueId_NIL, TMSig_NIL); slot_precommit := (ValueId_NIL, TMSig_NIL) |}.
Definition get_slot (s : VoteSlots) (is_precommit : bool) : ValueId * TMSig :=
  if is_precommit then s.(slot_precommit) else s.(slot_prevote).
Definition set_slot (s : VoteSlots) (is_precommit : bool) (v : ValueId * TMSig) : VoteSlots :=
  if is_precommit then {| slot_prevote := s.(slot_prevote); slot_precommit := v |}
  else {| slot_prevote := v; slot_precommit := s.(slot_precommit) |}.

Definition b2z (b : bool) : Z := if b then 1 else 0.

(** [ConsensusCounts::from(&(slots, stake))] *)
Definition counts_from (val : VoteSlots) (stake : Z) : ConsensusCounts.t :=
  let sig0 := bool_decide (val.(slot_prevote).2 ≠ TMSig_NIL) in
  let sig1 := bool_decide (val.(slot_precommit).2 ≠ TMSig_NIL) in
  let yes0 := bool_decide (val.(slot_prevote).1 ≠ ValueId_NIL) in
  let yes1 := bool_decide (val.(slot_precommit).1 ≠ ValueId_NIL) in
  ConsensusCounts.mk
    (b2z (sig0 || sig1) * stake)
    (b2z sig0 * stake)
    (b2z (sig0 && negb yes0) * stake)
    (b2z (sig0 && yes0) * stake)
    (b2z sig1 * stake)
    (b2z (sig1 && yes1) * stake).

(** ** Timeouts, in milliseconds *)
Module Timeout.
Record t := mk { time : Z; height : Z; round : Z; step : TMStep }.
Definition new (now height round : Z) (step : TMStep) : t :=
  let timeout := match step with
                 | Propose => 5000 + round * 1000
                 | Prevote => 5000 + round * 1000
                 | Precommit => 5000 + round * 1000
                 end in
  mk (now + timeout) height round step.
End Timeout.

(** ** [RoundData] *)
Module RoundData.
Record t := mk {
  height : Z;
  round : Z;
  proposal : BlockValue;
  proposal_valid_round : Z;
  proposal_sigs : list TMSig;
  proposal_sigs_n : Z;
  proposal_id : ValueId;
  proposal_checked_validity : TMStatus * TMStatusReason;
  proposal_is_faulty : bool;
  msg_val_sigs : list VoteSlots;
  roster : list SortedRosterMember.t;
  counts : ConsensusCounts.t;
  active_timeout : option Timeout.t;
  timeout_triggered : bool * bool }.

Definition EMPTY : t := mk 0 0 [] (-1) [] 0 ValueId_NIL (Indeterminate, ReasonNone) false
  [] [] ConsensusCounts.ZERO None (false, false).

Definition with_proposal_store (rd : t) (p : BlockValue) (sigs : list TMSig) : t :=
  mk rd.(height) rd.(round) p rd.(proposal_valid_round) sigs rd.(proposal_sigs_n)
    rd.(proposal_id) rd.(proposal_checked_validity) rd.(proposal_is_faulty) rd.(msg_val_sigs)
    rd.(roster) rd.(counts) rd.(active_timeout) rd.(timeout_triggered).
Definition with_chunk (rd : t) (p : BlockValue) (sigs : list TMSig) (n vr : Z) : t :=
  mk rd.(height) rd.(round) p vr sigs n
    rd.(proposal_id) rd.(proposal_checked_validity) rd.(proposal_is_faulty) rd.(msg_val_sigs)
    rd.(roster) rd.(counts) rd.(active_timeout) rd.(timeout_triggered).
Definition with_id (rd : t) (id : ValueId) : t :=
  mk rd.(height) rd.(round) rd.(proposal) rd.(proposal_valid_round) rd.(proposal_sigs)
    rd.(proposal_sigs_n) id rd.(proposal_checked_validity) rd.(proposal_is_faulty)
    rd.(msg_val_sigs) rd.(roster) rd.(counts) rd.(active_timeout) rd.(timeout_triggered).
Definition with_validity (rd : t) (v : TMStatus * TMStatusReason) : t :=
  mk rd.(height) rd.(round) rd.(proposal) rd.(proposal_valid_round) rd.(proposal_sigs)
    rd.(proposal_sigs_n) rd.(proposal_id) v rd.(proposal_is_faulty)
    rd.(msg_val_sigs) rd.(roster) rd.(counts) rd.(active_timeout) rd.(timeout_triggered).
Definition with_faulty (rd : t) : t :=
  mk rd.(height) rd.(round) rd.(proposal) rd.(proposal_valid_round) rd.(proposal_sigs)
    rd.(proposal_sigs_n) rd.(proposal_id) rd.(proposal_checked_validity) true
    rd.(msg_val_sigs) rd.(roster) rd.(counts) rd.(active_timeout) rd.(timeout_triggered).
Definition with_votes (rd : t) (vs : list VoteSlots) (c : ConsensusCounts.t) : t :=
  mk rd.(height) rd.(round) rd.(proposal) rd.(proposal_valid_round) rd.(proposal_sigs)
    rd.(proposal_sigs_n) rd.(proposal_id) rd.(proposal_checked_validity)
    rd.(proposal_is_faulty) vs rd.(roster) c rd.(active_timeout) rd.(timeout_triggered).
Definition with_timeout (rd : t) (tr : bool * bool) (to : option Timeout.t) : t :=
  mk rd.(height) rd.(round) rd.(proposal) rd.(proposal_valid_round) rd.(proposal_sigs)
    rd.(proposal_sigs_n) rd.(proposal_id) rd.(proposal_checked_validity)
    rd.(proposal_is_faulty) rd.(msg_val_sigs) rd.(roster) rd.(counts) to tr.

Definition has_full_proposal (rd : t) : bool :=
  (0 <? rd.(proposal_sigs_n)) &&
    (rd.(proposal_sigs_n) =? Z.of_nat (length rd.(proposal_sigs))).

Definition has_enough_info_to_determine_validity (rd : t) : bool :=
  rd.(proposal_is_faulty) || has_full_proposal rd.

Definition flush_for_amnesiac_proposer (rd : t) (value_id : ValueId) (valid_round : Z)
    (ros : list SortedRosterMember.t) (proposal_size : Z) : t :=
  let p := zeros (Z.to_nat proposal_size) in
  mk rd.(height) rd.(round) p valid_round (replicate (chunks_n p) TMSig_NIL) 0
    value_id (Indeterminate, ReasonNone) false
    (replicate (active_roster_len ros) slots_nil) (active_roster ros)
    ConsensusCounts.ZERO rd.(active_timeout) rd.(timeout_triggered).

(** The record [TMState::insert_round] inserts. *)
Definition fresh_round (h r : Z) (ros : list SortedRosterMember.t) : t :=
  mk h r [] (-1) [] 0 ValueId_NIL (Indeterminate, ReasonNone) false
    (replicate (active_roster_len ros) slots_nil) ros ConsensusCounts.ZERO None (false, false).
End RoundData.

(** ** Handlers *)
Section handlers.
Context `{Profile} `{Crypto}.
Import RoundData.

(** Recompute the counts of a vote store from scratch. *)
Definition recount (ros : list SortedRosterMember.t) (vs : list VoteSlots)
    : outcome ConsensusCounts.t :=
  for_each (λ c '(i, v), m ← index ros i; ConsensusCounts.add c (counts_from v m.(stake)))
    (zip (seq 0 (length vs)) vs) ConsensusCounts.ZERO.

(** A stored vote on a value other than the proposal is dropped. *)
Definition scrub_slot (value_id : ValueId) (v : ValueId * TMSig) : ValueId * TMSig :=
  if decide (v.1 ≠ ValueId_NIL ∧ v.1 ≠ value_id) then (ValueId_NIL, TMSig_NIL) else v.
Definition scrub (value_id : ValueId) (s : VoteSlots) : VoteSlots :=
  {| slot_prevote := scrub_slot value_id s.(slot_prevote);
     slot_precommit := scrub_slot value_id s.(slot_precommit) |}.
Definition has_stray (value_id : ValueId) (s : VoteSlots) : bool :=
  bool_decide (s.(slot_prevote).1 ≠ ValueId_NIL ∧ s.(slot_prevote).1 ≠ value_id)
    || bool_decide (s.(slot_precommit).1 ≠ ValueId_NIL ∧ s.(slot_precommit).1 ≠ value_id).

(** "first time we've seen any proposal chunks" *)
Definition adopt_proposal_id (rd : t) (value_id : ValueId)
    (ros : list SortedRosterMember.t) : outcome t :=
  if decide (rd.(proposal_id) = ValueId_NIL) then
    let rd := with_id rd value_id in
    let prev_sig_had_fault := existsb (has_stray value_id) rd.(msg_val_sigs) in
    let vs := map (scrub value_id) rd.(msg_val_sigs) in
    if prev_sig_had_fault then
      c ← recount ros vs; Ret (with_votes rd vs c)
    else Ret (with_votes rd vs rd.(counts))
  else Ret rd.

(** "have they previously proposed a different value?": [None] when the chunk
    is ignored. *)
Definition prepare_proposal_store (rd : t) (is_prev_seen_round is_my_proposal : bool)
    (size : Z) (value_id : ValueId) (valid_round : Z) (ros : list SortedRosterMember.t)
    : option t :=
  if is_prev_seen_round && (0 <? rd.(proposal_sigs_n)) then
    if is_my_proposal &&
      (negb (Z.of_nat (length rd.(proposal)) =? size)
     || bool_decide (rd.(proposal_id) ≠ value_id)
     || negb (rd.(proposal_valid_round) =? valid_round))
    then Some (flush_for_amnesiac_proposer rd value_id valid_round ros size)
  else if negb (Z.of_nat (length rd.(proposal)) =? size) then None
  else if bool_decide (rd.(proposal_id) ≠ value_id) then None
  else if negb (rd.(proposal_valid_round) =? valid_round) then None
  else Some rd
  else
  let p := zeros (Z.to_nat size) in
  Some (with_proposal_store rd p (replicate (chunks_n p) TMSig_NIL)).

(** "Preliminary checks now finished": store the chunk in its place. *)
Definition store_chunk (keys : HashKeys) (rd : t) (is_my_proposal : bool) (chunk_i : nat)
    (value_id : ValueId) (valid_round : Z) (ros : list SortedRosterMember.t) (size : Z)
    (signed_data : bytes) (sig : TMSig) : outcome (t * TMStatus) :=
  '(chunk_o, chunk_size) ← chunk_o_size rd.(proposal) chunk_i;
  chunk_data ← slice signed_data PacketProposalChunkHeader.SERIALIZED_SIZE
           (PacketProposalChunkHeader.SERIALIZED_SIZE + chunk_size);
  cur ← index rd.(proposal_sigs) chunk_i;
  if decide (cur = TMSig_NIL) then
    p ← copy_at rd.(proposal) chunk_o chunk_data;
    sigs ← set_index rd.(proposal_sigs) chunk_i sig;
    n ← arith 64 (rd.(proposal_sigs_n) + 1);
    rd ← adopt_proposal_id (with_chunk rd p sigs n valid_round) value_id ros;
    if rd.(proposal_sigs_n) =? Z.of_nat (length rd.(proposal_sigs)) then
      if decide (rd.(proposal_id) ≠ id_from_value rd.(proposal) keys)
      then Ret (with_faulty rd, Fail_)
    else Ret (rd, Pass)
  else Ret (rd, Pass)
  else if decide (cur ≠ sig) then
    if is_my_proposal
    then Ret (flush_for_amnesiac_proposer rd value_id valid_round ros size, Pass)
  else Ret (with_faulty rd, Fail_)
  else Ret (rd, Pass).

(** [PACKET_TYPE_PROPOSAL_CHUNK] *)
Definition incorporate_proposal_chunk (keys : HashKeys) (rd : t)
    (is_prev_seen_round is_my_proposal : bool) (chunk_i : nat) (value_id : ValueId)
    (valid_round : Z) (ros : list SortedRosterMember.t) (signed_data : bytes) (sig : TMSig)
    : outcome (t * TMStatus) :=
  match PacketProposalChunkHeader.read_from signed_data with
  | None => Ret (rd, Fail_)
  | Some (hdr, _) =>
      let size := PacketProposalChunkHeader.proposal_size hdr in
      match prepare_proposal_store rd is_prev_seen_round is_my_proposal size value_id
          valid_round ros with
      | None => Ret (rd, Fail_)
      | Some rd => store_chunk keys rd is_my_proposal chunk_i value_id valid_round ros size
             signed_data sig
      end
  end.

(** The part of the vote arm after the check of the value: refuse a second,
    different vote, or store the vote and update the counts. *)
Definition store_vote (rd : t) (is_precommit : bool) (value_id : ValueId)
    (ros : list SortedRosterMember.t) (roster_i : nat) (sig : TMSig) (status : TMStatus)
    : outcome (t * TMStatus) :=
  slots ← index rd.(msg_val_sigs) roster_i;
  let old_val_sig := get_slot slots is_precommit in
  let new_val_sig := (value_id, sig) in
  if decide (old_val_sig.2 ≠ TMSig_NIL ∧ new_val_sig ≠ old_val_sig) then Ret (rd, Fail_)
  else
  m ← index ros roster_i;
  let old_cs := counts_from slots m.(stake) in
  let slots' := set_slot slots is_precommit new_val_sig in
  vs ← set_index rd.(msg_val_sigs) roster_i slots';
  let new_cs := counts_from slots' m.(stake) in
  d ← ConsensusCounts.sub new_cs old_cs;
  c ← ConsensusCounts.add rd.(counts) d;
  Ret (with_votes rd vs c, status).

(** [PACKET_TYPE_PREVOTE_SIGNATURES | PACKET_TYPE_PRECOMMIT_SIGNATURES].  The
    recount under [debug_assertions] only prints a message when it differs
    from the counts, and is left out. *)
Definition incorporate_vote (rd : t) (is_precommit : bool) (value_id : ValueId)
    (ros : list SortedRosterMember.t) (roster_i : nat) (sig : TMSig)
    : outcome (t * TMStatus) :=
  if decide (value_id = ValueId_NIL)
  then store_vote rd is_precommit value_id ros roster_i sig Pass
  else if rd.(proposal_sigs_n) =? 0
  then store_vote rd is_precommit value_id ros roster_i sig Indeterminate
  else if decide (rd.(proposal_id) ≠ value_id) then Ret (rd, Fail_)
  else store_vote rd is_precommit value_id ros roster_i sig Pass.
End handlers.
