(* ===== verification/RoundInv.v ===== *)
(** * RoundInv: what the record of a round promises

    [stake_where] is the specification of the counters of a round: the stake
    of the members whose stored votes satisfy a predicate.  The code keeps the
    counters incrementally ([incorporate_vote]) and recomputes them when a
    proposal invalidates stored votes ([adopt_proposal_id]); [round_ok] states
    that both agree with the specification, and every handler keeps it. *)

From stdpp Require Import base list sets.
From S2P Require Import Prelude Wire Encoding Bft Roster Round.
Import SortedRosterMember RoundData.

#[global] Arguments ValueId_NIL : simpl never.
#[global] Arguments TMSig_NIL : simpl never.
#[global] Arguments active_roster_len : simpl never.

(** ** The specification of the counters *)

Definition voted (v : ValueId * TMSig) : bool := bool_decide (v.2 ≠ TMSig_NIL).
Definition yes (v : ValueId * TMSig) : bool := bool_decide (v.1 ≠ ValueId_NIL).

Definition p_any (s : VoteSlots) : bool := voted s.(slot_prevote) || voted s.(slot_precommit).
Definition p_prevote (s : VoteSlots) : bool := voted s.(slot_prevote).
Definition p_nil_prevote (s : VoteSlots) : bool :=
  voted s.(slot_prevote) && negb (yes s.(slot_prevote)).
Definition p_yes_prevote (s : VoteSlots) : bool :=
  voted s.(slot_prevote) && yes s.(slot_prevote).
Definition p_precommit (s : VoteSlots) : bool := voted s.(slot_precommit).
Definition p_yes_precommit (s : VoteSlots) : bool :=
  voted s.(slot_precommit) && yes s.(slot_precommit).

(** The stake of the members whose votes satisfy [p]. *)
Definition stake_where (p : VoteSlots → bool) (ros : list SortedRosterMember.t)
    (vs : list VoteSlots) : Z :=
  zsum (zip_with (λ v m, if p v then m.(stake) else 0) vs ros).

Definition counts_of (ros : list SortedRosterMember.t) (vs : list VoteSlots)
    : ConsensusCounts.t :=
  ConsensusCounts.mk (stake_where p_any ros vs) (stake_where p_prevote ros vs)
    (stake_where p_nil_prevote ros vs) (stake_where p_yes_prevote ros vs)
    (stake_where p_precommit ros vs) (stake_where p_yes_precommit ros vs).

#[global] Arguments counts_of : simpl never.

(** A stake-bounded roster: what the arithmetic of the counters needs. *)
Definition stake_bounded (ros : list SortedRosterMember.t) : Prop :=
  Forall (λ s, 0 ≤ s) (stakes ros) ∧ zsum (stakes ros) < 2 ^ 64.

Lemma roster_wf_bounded ros : roster_wf ros → stake_bounded ros.
Proof. by intros [? _ ?]. Qed.

Section tally.
Context (ros : list SortedRosterMember.t) (Hros : stake_bounded ros).

Lemma stake_where_nil p : stake_where p ros [] = 0.
Proof. done. Qed.

Lemma stake_where_range p vs : 0 ≤ stake_where p ros vs ≤ zsum (stakes ros).
Proof.
  destruct Hros as [Hpos _]. clear Hros. revert vs. unfold stake_where, stakes in *.
  induction ros as [|m r IH]; intros [|v vs]; cbn in *; [lia|lia|..];
    apply Forall_cons in Hpos as [Hm Hr].
  - pose proof (zsum_nonneg _ Hr). lia.
  - specialize (IH Hr vs). destruct (p v); lia.
Qed.

Lemma stake_where_insert p vs i old new m :
  vs !! i = Some old → ros !! i = Some m →
  stake_where p ros (<[i:=new]> vs)
  = stake_where p ros vs - (if p old then m.(stake) else 0) + (if p new then m.(stake) else 0).
Proof.
  clear Hros. unfold stake_where. revert i ros.
  induction vs as [|v vs IH]; intros [|i] [|m' r]; try done.
  - intros [= ->] [= ->]. cbn. lia.
  - intros Ho Hm. change (<[S i:=new]> (v :: vs)) with (v :: <[i:=new]> vs).
    cbn [zip_with]. rewrite !zsum_cons, (IH _ _ Ho Hm). lia.
Qed.

Lemma stake_where_all_false p vs :
  Forall (λ v, p v = false) vs → stake_where p ros vs = 0.
Proof.
  clear Hros. unfold stake_where. revert ros.
  induction vs as [|v vs IH]; intros [|m r]; cbn; try done.
  intros [Hv Hvs]%Forall_cons. rewrite Hv, IH by done. done.
Qed.

Lemma stake_where_mono p q vs :
  Forall (λ v, p v = true → q v = true) vs → stake_where p ros vs ≤ stake_where q ros vs.
Proof.
  destruct Hros as [Hpos _]. clear Hros. revert vs. unfold stake_where, stakes in *.
  induction ros as [|m r IH]; intros [|v vs]; cbn in *; [lia..|].
  intros [Hv Hvs]%Forall_cons. apply Forall_cons in Hpos as [Hm Hr].
  specialize (IH Hr vs Hvs). destruct (p v), (q v); naive_solver lia.
Qed.

Lemma stake_where_snoc p vs v m :
  ros !! length vs = Some m →
  stake_where p ros (vs ++ [v]) = stake_where p ros vs + (if p v then m.(stake) else 0).
Proof.
  clear Hros. unfold stake_where. revert ros.
  induction vs as [|x vs IH]; intros [|m' r]; cbn; try done.
  - intros [= ->]. lia.
  - intros Hm. rewrite (IH _ Hm). lia.
Qed.
End tally.

(** The counters one member contributes. *)
Lemma counts_from_eq v st :
  counts_from v st = ConsensusCounts.mk
    (if p_any v then st else 0) (if p_prevote v then st else 0)
    (if p_nil_prevote v then st else 0) (if p_yes_prevote v then st else 0)
    (if p_precommit v then st else 0) (if p_yes_precommit v then st else 0).
Proof.
  unfold counts_from, p_any, p_prevote, p_nil_prevote, p_yes_prevote, p_precommit,
    p_yes_precommit, voted, yes.
  repeat case_bool_decide; cbn; f_equal; lia.
Qed.

Lemma counts_add_exact `{Profile} a b :
  (∀ π, π ∈ [ConsensusCounts.anys; ConsensusCounts.prevotes; ConsensusCounts.nil_prevotes;
             ConsensusCounts.yes_prevotes; ConsensusCounts.precommits;
             ConsensusCounts.yes_precommits] → is_u 64 (π a + π b)) →
  ConsensusCounts.add a b = Ret (ConsensusCounts.mk
    (ConsensusCounts.anys a + ConsensusCounts.anys b)
    (ConsensusCounts.prevotes a + ConsensusCounts.prevotes b)
    (ConsensusCounts.nil_prevotes a + ConsensusCounts.nil_prevotes b)
    (ConsensusCounts.yes_prevotes a + ConsensusCounts.yes_prevotes b)
    (ConsensusCounts.precommits a + ConsensusCounts.precommits b)
    (ConsensusCounts.yes_precommits a + ConsensusCounts.yes_precommits b)).
Proof.
  intros Hr. unfold ConsensusCounts.add, ConsensusCounts.lift2.
  rewrite !arith_ok; [done|..]; apply Hr; set_solver.
Qed.

Section counts.
Context `{Profile} (ros : list SortedRosterMember.t) (Hros : stake_bounded ros).

Lemma counts_of_nil : counts_of ros [] = ConsensusCounts.ZERO.
Proof. done. Qed.

Lemma counts_of_fresh n : counts_of ros (replicate n slots_nil) = ConsensusCounts.ZERO.
Proof.
  unfold counts_of. rewrite !stake_where_all_false; [done|..];
                      by apply Forall_replicate.
Qed.

(** Recomputing the counters from scratch never overflows and gives the
    specification. *)
Lemma recount_spec vs :
  (length vs ≤ length ros)%nat → recount ros vs = Ret (counts_of ros vs).
Proof.
  unfold recount. induction vs as [|v vs IH] using rev_ind; intros Hlen; [done|].
  rewrite length_app in Hlen. cbn in Hlen.
  rewrite length_app, seq_app, zip_with_app by (by rewrite length_seq). cbn [seq zip_with].
  rewrite for_each_app, IH by lia. cbn.
  destruct (lookup_lt_is_Some_2 ros (length vs)) as [m Hm]; [lia|].
  rewrite (index_Ret _ _ _ Hm). cbn. rewrite counts_from_eq.
  rewrite counts_add_exact; cbn.
  - unfold counts_of. do 2 f_equal; symmetry; by apply stake_where_snoc.
  - intros π Hπ. pose proof (stake_where_range ros Hros) as Hrng. destruct Hros as [_ Htot].
    assert (∀ p, is_u 64 (stake_where p ros vs + (if p v then stake m else 0))) as Hu.
    { intros p. rewrite <- (stake_where_snoc ros p vs v m Hm). specialize (Hrng p (vs ++ [v])).
      unfold is_u. lia. }
    repeat (apply elem_of_cons in Hπ as [->|Hπ]; [apply Hu|]). by apply elem_of_nil in Hπ.
Qed.
End counts.

(** ** The proposal store *)

(** How many chunks of the proposal have arrived. *)
Definition filled (sigs : list TMSig) : Z :=
  zsum (map (λ s, b2z (bool_decide (s ≠ TMSig_NIL))) sigs).

#[global] Arguments filled : simpl never.
#[global] Arguments recount : simpl never.
#[global] Arguments chunks_n : simpl never.

Lemma filled_replicate n : filled (replicate n TMSig_NIL) = 0.
Proof. apply zsum_zero, Forall_map, Forall_replicate. done. Qed.

Lemma filled_insert sigs i sig :
  sigs !! i = Some TMSig_NIL → sig ≠ TMSig_NIL → filled (<[i:=sig]> sigs) = filled sigs + 1.
Proof.
  intros Hi Hs. unfold filled. set (f := λ s, b2z _).
  change (zsum (f <$> <[i:=sig]> sigs) = zsum (f <$> sigs) + 1).
  rewrite list_fmap_insert, (zsum_insert _ _ _ 0) by (by rewrite list_lookup_fmap, Hi).
  subst f. cbn beta. rewrite bool_decide_true by done. cbn [b2z]. lia.
Qed.

Lemma filled_range sigs : 0 ≤ filled sigs ≤ Z.of_nat (length sigs).
Proof.
  unfold filled. induction sigs as [|s l IH]; [done|]. cbn [map length]. rewrite zsum_cons.
  case_bool_decide; cbn [b2z]; lia.
Qed.

Lemma filled_all sigs :
  filled sigs = Z.of_nat (length sigs) → Forall (λ s, s ≠ TMSig_NIL) sigs.
Proof.
  unfold filled. induction sigs as [|s l IH]; [done|]. cbn [map length]. rewrite zsum_cons.
  pose proof (filled_range l) as Hr. unfold filled in Hr.
  case_bool_decide; cbn [b2z]; intros; [|lia]. constructor; [done|]. apply IH. lia.
Qed.

Lemma filled_complete sigs :
  Forall (λ s, s ≠ TMSig_NIL) sigs → filled sigs = Z.of_nat (length sigs).
Proof.
  unfold filled. induction 1 as [|s l Hs _ IH]; [done|]. cbn [map length].
  rewrite zsum_cons, IH, bool_decide_true by done. cbn [b2z]. lia.
Qed.

Lemma filled_zero sigs i s : filled sigs = 0 → sigs !! i = Some s → s = TMSig_NIL.
Proof.
  revert i. induction sigs as [|x l IH]; [done|]. intros i Hfl.
  unfold filled in Hfl, IH. cbn [map] in Hfl. rewrite zsum_cons in Hfl.
  pose proof (filled_range l) as Hr. unfold filled in Hr.
  case_bool_decide as Hx; cbn [b2z] in Hfl; [lia|].
  destruct i as [|i]; cbn; [|apply IH; lia]. intros [= ->].
  by destruct (decide (s = TMSig_NIL)).
Qed.

Lemma div_ceil_spec a b :
  (0 < b)%nat → (a ≤ div_ceil a b * b)%nat ∧ (div_ceil a b * b < a + b)%nat.
Proof.
  intros Hb. unfold div_ceil. pose proof (Nat.div_mod_eq a b).
  pose proof (Nat.mod_upper_bound a b ltac:(lia)). case_decide; nia.
Qed.

Lemma chunks_n_spec v :
  (length v ≤ chunks_n v * PROPOSAL_CHUNK_DATA_SIZE)%nat ∧
  (chunks_n v * PROPOSAL_CHUNK_DATA_SIZE < length v + PROPOSAL_CHUNK_DATA_SIZE)%nat.
Proof. apply div_ceil_spec. vm_compute. lia. Qed.

Lemma chunks_n_le v : (chunks_n v ≤ length v)%nat.
Proof.
  destruct (chunks_n_spec v) as [_ Hlt].
  assert (1 ≤ PROPOSAL_CHUNK_DATA_SIZE)%nat by (vm_compute; lia). nia.
Qed.

(** Where chunk [i] starts and how long it is, as natural numbers. *)
Definition chunk_off (i : nat) : nat := i * PROPOSAL_CHUNK_DATA_SIZE.
Definition chunk_len (v : BlockValue) (i : nat) : nat :=
  Nat.min PROPOSAL_CHUNK_DATA_SIZE (length v - chunk_off i).

#[global] Opaque PROPOSAL_CHUNK_DATA_SIZE.

Lemma chunk_o_size_Ret `{Profile} v i :
  (i < chunks_n v)%nat → Z.of_nat (length v) < 2 ^ 32 →
  chunk_o_size v i = Ret (chunk_off i, chunk_len v i) ∧
  (chunk_off i + chunk_len v i ≤ length v)%nat ∧ (0 < chunk_len v i)%nat.
Proof.
  intros Hi Hlen. destruct (chunks_n_spec v) as [_ Hlt].
  assert (chunk_off i < length v)%nat.
  { unfold chunk_off. assert (S i * PROPOSAL_CHUNK_DATA_SIZE ≤ chunks_n v * PROPOSAL_CHUNK_DATA_SIZE)%nat
                        by (apply Nat.mul_le_mono_r; lia). lia. }
  assert (0 < PROPOSAL_CHUNK_DATA_SIZE)%nat by (vm_compute; lia).
  unfold chunk_o_size. rewrite <- Nat2Z.inj_mul. fold (chunk_off i).
  rewrite !arith_ok; [|unfold is_u; lia..]. cbn [mbind outcome_bind].
  rewrite arith_ok by (unfold is_u; lia). cbn [mbind outcome_bind].
  unfold chunk_len. rewrite Nat2Z.id. split; [|split]; [|lia..].
  do 2 f_equal. lia.
Qed.

(** ** The invariant of a round *)

(** The stores of a round are consistent with each other and with the roster. *)
Record store_ok (ros : list SortedRosterMember.t) (rd : RoundData.t) : Prop := {
  so_len : length rd.(msg_val_sigs) = active_roster_len ros;
  so_counts : rd.(counts) = counts_of ros rd.(msg_val_sigs);
  so_sigs : length rd.(proposal_sigs) = chunks_n rd.(proposal);
  so_n : rd.(proposal_sigs_n) = filled rd.(proposal_sigs);
  so_size : Z.of_nat (length rd.(proposal)) < 2 ^ 32 }.

(** Between messages, a complete proposal is also either marked faulty or the
    preimage of its id. *)
Definition id_ok `{Crypto} (keys : HashKeys) (rd : RoundData.t) : Prop :=
  has_full_proposal rd = true → rd.(proposal_is_faulty) = false →
    rd.(proposal_id) = id_from_value rd.(proposal) keys.

(** A value whose validity check passed is complete and the preimage of its id. *)
Definition pass_ok `{Crypto} (keys : HashKeys) (rd : RoundData.t) : Prop :=
  rd.(proposal_checked_validity).1 = Pass →
    has_full_proposal rd = true ∧ rd.(proposal_id) = id_from_value rd.(proposal) keys.

Record round_ok `{Crypto} (keys : HashKeys) (ros : list SortedRosterMember.t) (rd : RoundData.t)
    : Prop := {
  ro_store : store_ok ros rd;
  ro_full : id_ok keys rd;
  ro_pass : pass_ok keys rd }.

(** A vote for a value other than the proposal is never stored next to it. *)
Definition slot_on (id : ValueId) (v : ValueId * TMSig) : Prop := v.1 = ValueId_NIL ∨ v.1 = id.
Definition slots_on (id : ValueId) (s : VoteSlots) : Prop :=
  slot_on id s.(slot_prevote) ∧ slot_on id s.(slot_precommit).
Definition votes_ok (rd : RoundData.t) : Prop :=
  if rd.(proposal_sigs_n) =? 0 then rd.(proposal_id) = ValueId_NIL
  else Forall (slots_on rd.(proposal_id)) rd.(msg_val_sigs).

Lemma scrub_on id s : slots_on id (scrub id s).
Proof.
  assert (∀ v, slot_on id (scrub_slot id v)) as Hs; [|by split; apply Hs].
  intros v. unfold slot_on, scrub_slot. case_decide as Hd; [by left|].
  destruct (decide (v.1 = ValueId_NIL)), (decide (v.1 = id)); naive_solver.
Qed.

Lemma scrub_id id s : has_stray id s = false → scrub id s = s.
Proof.
  destruct s as [p c]. unfold has_stray, scrub, scrub_slot. cbn.
  rewrite orb_false_iff, !bool_decide_eq_false. intros [? ?]. by rewrite !decide_False.
Qed.

Section round.
Context `{Profile} `{Crypto} (keys : HashKeys) (ros : list SortedRosterMember.t).
Context (Hros : stake_bounded ros).
Implicit Types (rd : RoundData.t).

Lemma fresh_round_ok h r : round_ok keys ros (fresh_round h r ros).
Proof.
  split; [split| |]; cbn; try done; [apply length_replicate|by rewrite counts_of_fresh].
Qed.

Lemma fresh_round_votes_ok h r : votes_ok (fresh_round h r ros).
Proof. done. Qed.

Lemma flush_ok rd id vr size :
  is_u 32 size → round_ok keys ros (flush_for_amnesiac_proposer rd id vr ros size).
Proof.
  intros Hsize. unfold is_u in Hsize. split; [split| |]; cbn.
  - apply length_replicate.
  - by rewrite counts_of_fresh.
  - apply length_replicate.
  - by rewrite filled_replicate.
  - rewrite length_replicate. lia.
  - done.
  - done.
Qed.

Lemma prepare_ok rd seen mine size id vr rd' :
  is_u 32 size → round_ok keys ros rd → (seen = false → rd.(proposal_sigs_n) = 0) →
  prepare_proposal_store rd seen mine size id vr ros = Some rd' →
  round_ok keys ros rd' ∧ Z.of_nat (length rd'.(proposal)) = size.
Proof.
  intros Hsize Hok Hseen. unfold prepare_proposal_store.
  destruct (seen && (0 <? proposal_sigs_n rd)) eqn:Eseen.
  - case_match; [intros [= <-]; split; [by apply flush_ok|]|].
    { cbn. rewrite length_replicate. unfold is_u in Hsize. lia. }
    destruct (Z.eqb_spec (Z.of_nat (length (proposal rd))) size); [|done]. cbn.
    repeat (case_match; try done). intros [= <-]. done.
  - intros [= <-]. destruct Hok as [[? ? ? Hn ?] Hfull Hpass].
    pose proof (filled_range (proposal_sigs rd)).
    assert (proposal_sigs_n rd = 0) as Hn0.
    { destruct seen; [cbn in Eseen; lia|auto]. }
    unfold is_u in Hsize. split; [split; [split| |]; cbn|]; try done.
    + apply length_replicate.
    + by rewrite filled_replicate.
    + rewrite length_replicate. lia.
    + unfold id_ok, has_full_proposal. cbn. by rewrite Hn0.
    + intros Hp. destruct (Hpass Hp) as [Hfp _]. unfold has_full_proposal in Hfp. lia.
    + cbn. rewrite length_replicate. lia.
Qed.

(** Learning the proposal's id drops the stray votes and keeps the counters
    exact. *)
Definition adopted rd (id : ValueId) : RoundData.t :=
  if decide (rd.(proposal_id) = ValueId_NIL)
  then with_votes (with_id rd id) (map (scrub id) rd.(msg_val_sigs))
   (counts_of ros (map (scrub id) rd.(msg_val_sigs)))
  else rd.

Lemma adopt_spec rd id :
  store_ok ros rd → adopt_proposal_id rd id ros = Ret (adopted rd id).
Proof.
  intros [Hlen Hc _ _ _]. unfold adopt_proposal_id, adopted. case_decide; [|done]. cbn.
  destruct (existsb _ _) eqn:E.
  - rewrite recount_spec; [done|done|]. rewrite length_map, Hlen.
    unfold active_roster_len. lia.
  - assert (map (scrub id) (msg_val_sigs rd) = msg_val_sigs rd) as Hs.
    { rewrite <- (map_id (msg_val_sigs rd)) at 2. apply map_ext_in. intros s Hs.
      apply scrub_id. destruct (has_stray id s) eqn:Es; [|done].
      enough (existsb (has_stray id) (msg_val_sigs rd) = true) by congruence.
      apply existsb_exists. eauto. }
    by rewrite Hs, Hc.
Qed.

Lemma adopted_ok rd id : store_ok ros rd → store_ok ros (adopted rd id).
Proof.
  intros [? ? ? ? ?]. unfold adopted. case_decide; split; cbn; try done. by rewrite length_map.
Qed.

(** Overwriting an empty vote, or a vote with itself, never takes stake out
    of a counter. *)
Lemma set_slot_grows slots pc id sig :
  (get_slot slots pc).2 = TMSig_NIL ∨ get_slot slots pc = (id, sig) →
  Forall (λ p, p slots = true → p (set_slot slots pc (id, sig)) = true)
  [p_any; p_prevote; p_nil_prevote; p_yes_prevote; p_precommit; p_yes_precommit].
Proof.
  destruct slots as [[pv ps] [cv cs]]. unfold get_slot, set_slot.
  intros Hold; destruct pc; cbn in Hold; (destruct Hold as [-> | [= -> ->]]; [|by repeat constructor]);
    repeat (apply Forall_cons; split; [|try apply Forall_nil; try done]);
    unfold p_any, p_prevote, p_nil_prevote, p_yes_prevote, p_precommit, p_yes_precommit, voted, yes;
    cbn [slot_prevote slot_precommit fst snd]; repeat case_bool_decide; done.
Qed.

Lemma counts_step vs i old new m :
  vs !! i = Some old → ros !! i = Some m →
  Forall (λ p, p old = true → p new = true)
  [p_any; p_prevote; p_nil_prevote; p_yes_prevote; p_precommit; p_yes_precommit] →
  (d ← ConsensusCounts.sub (counts_from new m.(stake)) (counts_from old m.(stake));
   ConsensusCounts.add (counts_of ros vs) d) = Ret (counts_of ros (<[i:=new]> vs)).
Proof.
  intros Ho Hm Hmono. rewrite !counts_from_eq.
  assert (stake m ∈ stakes ros) as Hst.
  { unfold stakes. apply list_elem_of_fmap. exists m. split; [done|]. by eapply list_elem_of_lookup_2. }
  destruct Hros as [Hpos Htot]. pose proof (zsum_elem_le _ _ Hpos Hst).
  assert (0 ≤ stake m) by (eapply Forall_forall in Hpos; [|exact Hst]; done).
  repeat (apply Forall_cons in Hmono as [? Hmono]).
  unfold ConsensusCounts.sub, ConsensusCounts.lift2. cbn.
  assert (∀ p, (p old = true → p new = true) →
    arith 64 ((if p new then stake m else 0) - (if p old then stake m else 0))
    = Ret ((if p new then stake m else 0) - (if p old then stake m else 0))) as Hsub.
  { intros p Hp. apply arith_ok. unfold is_u. destruct (p old), (p new); naive_solver lia. }
  rewrite !Hsub by done. cbn. rewrite counts_add_exact; cbn.
  - unfold counts_of. cbn. f_equal. f_equal;
                                      rewrite (stake_where_insert _ _ _ _ old new m) by done; lia.
  - intros π Hπ.
    assert (∀ p, is_u 64 (stake_where p ros vs + ((if p new then stake m else 0)
      - (if p old then stake m else 0)))) as Hu.
    { intros p. pose proof (stake_where_range ros ltac:(done) p (<[i:=new]> vs)) as Hr.
      rewrite (stake_where_insert _ _ _ _ old new m) in Hr by done. unfold is_u. lia. }
    repeat (apply elem_of_cons in Hπ as [->|Hπ]; [apply Hu|]). by apply elem_of_nil in Hπ.
Qed.

(** Whether the vote handler ignores a vote: it is for a value other than the
    known proposal, or the member already voted differently. *)
Definition voted_differently rd pc (id : ValueId) (i : nat) (sig : TMSig) : Prop :=
  ∃ slots, rd.(msg_val_sigs) !! i = Some slots ∧
    (get_slot slots pc).2 ≠ TMSig_NIL ∧ get_slot slots pc ≠ (id, sig).
Definition vote_rejected rd pc (id : ValueId) (i : nat) (sig : TMSig) : Prop :=
  (id ≠ ValueId_NIL ∧ rd.(proposal_sigs_n) ≠ 0 ∧ rd.(proposal_id) ≠ id) ∨
    voted_differently rd pc id i sig.

(** The round with a vote stored and its counters exact. *)
Definition vote_stored rd pc (id : ValueId) (i : nat) (sig : TMSig) rd' : Prop :=
  ∃ slots, rd.(msg_val_sigs) !! i = Some slots ∧
    ((get_slot slots pc).2 = TMSig_NIL ∨ get_slot slots pc = (id, sig)) ∧
    let vs := <[i := set_slot slots pc (id, sig)]> rd.(msg_val_sigs) in
  rd' = with_votes rd vs (counts_of ros vs).

Lemma store_vote_cases rd pc id i sig st :
  round_ok keys ros rd → (i < active_roster_len ros)%nat →
  (voted_differently rd pc id i sig ∧ store_vote rd pc id ros i sig st = Ret (rd, Fail_)) ∨
  (¬ voted_differently rd pc id i sig ∧ ∃ rd',
   store_vote rd pc id ros i sig st = Ret (rd', st) ∧ vote_stored rd pc id i sig rd').
Proof.
  intros [[Hlen Hc _ _ _] _ _] Hi. unfold store_vote, voted_differently, vote_stored.
  destruct (lookup_lt_is_Some_2 rd.(msg_val_sigs) i) as [slots Hs]; [lia|].
  destruct (lookup_lt_is_Some_2 ros i) as [m Hm]; [unfold active_roster_len in Hi; lia|].
  rewrite (index_Ret _ _ _ Hs). cbn [mbind outcome_bind].
  case_decide as Hd; [left; naive_solver|right]. split; [naive_solver|].
  assert ((get_slot slots pc).2 = TMSig_NIL ∨ get_slot slots pc = (id, sig)) as Hold.
  { destruct (decide ((get_slot slots pc).2 = TMSig_NIL)),
      (decide ((id, sig) = get_slot slots pc)); naive_solver. }
  rewrite (index_Ret _ _ _ Hm). cbn [mbind outcome_bind]. rewrite set_index_Ret by lia.
  cbn [mbind outcome_bind]. rewrite Hc.
  pose proof (counts_step _ i slots (set_slot slots pc (id, sig)) m Hs Hm
    (set_slot_grows _ _ _ _ Hold)) as Hst.
  apply bind_Ret_inv in Hst as (d & -> & Hadd). cbn [mbind outcome_bind].
  rewrite Hadd. cbn. naive_solver.
Qed.

Lemma incorporate_vote_cases rd pc id i sig :
  round_ok keys ros rd → (i < active_roster_len ros)%nat →
  (vote_rejected rd pc id i sig ∧ incorporate_vote rd pc id ros i sig = Ret (rd, Fail_)) ∨
  (¬ vote_rejected rd pc id i sig ∧ ∃ rd',
   incorporate_vote rd pc id ros i sig
   = Ret (rd', if decide (id ≠ ValueId_NIL ∧ rd.(proposal_sigs_n) = 0)
           then Indeterminate else Pass) ∧
   vote_stored rd pc id i sig rd').
Proof.
  intros Hok Hi. unfold incorporate_vote, vote_rejected.
  destruct (decide (id = ValueId_NIL)) as [Hid|Hid];
    [|destruct (Z.eqb_spec (proposal_sigs_n rd) 0) as [Hn|Hn];
    [|destruct (decide (proposal_id rd ≠ id)) as [Hp|Hp]; [left; tauto|]]].
  - rewrite (decide_False (P := _ ∧ _)) by tauto.
    destruct (store_vote_cases rd pc id i sig Pass Hok Hi) as [[? ?]|[? ?]]; tauto.
  - rewrite (decide_True (P := _ ∧ _)) by tauto.
    destruct (store_vote_cases rd pc id i sig Indeterminate Hok Hi) as [[? ?]|[? ?]]; tauto.
  - rewrite (decide_False (P := _ ∧ _)) by tauto.
    destruct (store_vote_cases rd pc id i sig Pass Hok Hi) as [[? ?]|[? ?]]; tauto.
Qed.

Lemma vote_stored_ok rd pc id i sig rd' :
  round_ok keys ros rd → vote_stored rd pc id i sig rd' → round_ok keys ros rd'.
Proof.
  intros [[? ? ? ? ?] Hf Hp] (slots & _ & _ & ->).
  split; [split| |]; cbn; try done. by rewrite length_insert.
Qed.

Lemma vote_stored_votes_ok rd pc id i sig rd' :
  ¬ vote_rejected rd pc id i sig → votes_ok rd → vote_stored rd pc id i sig rd' → votes_ok rd'.
Proof.
  intros Hrej Hv (slots & Hs & _ & ->). unfold votes_ok in *. cbn.
  destruct (Z.eqb_spec (proposal_sigs_n rd) 0) as [|Hn]; [done|].
  apply Forall_insert; [done|]. eapply Forall_lookup in Hv; [|exact Hs].
  assert (slot_on (proposal_id rd) (id, sig)).
  { unfold vote_rejected in Hrej. unfold slot_on. cbn.
    destruct (decide (id = ValueId_NIL)), (decide (proposal_id rd = id)); naive_solver. }
  destruct slots, pc; unfold slots_on in *; cbn in *; naive_solver.
Qed.

(** The round after a chunk went into an empty place. *)
Definition placed rd (chunk_i : nat) (vr : Z) (data : bytes) (sig : TMSig) : RoundData.t :=
  with_chunk rd
    (take (chunk_off chunk_i) rd.(proposal) ++ data
   ++ drop (chunk_off chunk_i + length data) rd.(proposal))
  (<[chunk_i:=sig]> rd.(proposal_sigs)) (rd.(proposal_sigs_n) + 1) vr.
Definition chunk_placed rd i (id : ValueId) vr data sig : RoundData.t :=
  adopted (placed rd i vr data sig) id.

Lemma placed_ok rd i vr data sig :
  store_ok ros rd → rd.(proposal_sigs) !! i = Some TMSig_NIL → sig ≠ TMSig_NIL →
  (chunk_off i + length data ≤ length rd.(proposal))%nat →
  store_ok ros (placed rd i vr data sig).
Proof.
  intros [? ? Hs Hn ?] Hi Hsig Hlen.
  assert (length (take (chunk_off i) (proposal rd) ++ data
    ++ drop (chunk_off i + length data) (proposal rd)) = length (proposal rd)) as Hl by len.
  split; cbn; try done.
  - rewrite length_insert, Hs. unfold chunks_n. by rewrite Hl.
  - rewrite filled_insert by done. lia.
  - by rewrite Hl.
Qed.

(** What the chunk handler does to a prepared store. *)
Inductive chunk_result rd (mine : bool) (i : nat) (id : ValueId) (vr size : Z) (data : bytes)
  (sig : TMSig) : RoundData.t → TMStatus → Prop :=
| chunk_ok rd' :
  rd.(proposal_sigs) !! i = Some TMSig_NIL → rd' = chunk_placed rd i id vr data sig →
  id_ok keys rd' → chunk_result rd mine i id vr size data sig rd' Pass
| chunk_bad_id rd' :
  rd.(proposal_sigs) !! i = Some TMSig_NIL → rd' = chunk_placed rd i id vr data sig →
  rd'.(proposal_sigs_n) = Z.of_nat (length rd'.(proposal_sigs)) →
  rd'.(proposal_id) ≠ id_from_value rd'.(proposal) keys →
  chunk_result rd mine i id vr size data sig (with_faulty rd') Fail_
| chunk_again : rd.(proposal_sigs) !! i = Some sig →
  chunk_result rd mine i id vr size data sig rd Pass
| chunk_equivocation cur : mine = false → rd.(proposal_sigs) !! i = Some cur →
  cur ≠ TMSig_NIL → cur ≠ sig →
  chunk_result rd mine i id vr size data sig (with_faulty rd) Fail_
| chunk_amnesia cur : mine = true → rd.(proposal_sigs) !! i = Some cur →
  cur ≠ TMSig_NIL → cur ≠ sig →
  chunk_result rd mine i id vr size data sig
  (flush_for_amnesiac_proposer rd id vr ros size) Pass.

Lemma store_chunk_spec rd mine i id vr size signed_data sig :
  store_ok ros rd → sig ≠ TMSig_NIL → (i < chunks_n rd.(proposal))%nat →
  (PacketProposalChunkHeader.SERIALIZED_SIZE + chunk_len rd.(proposal) i
   ≤ length signed_data)%nat →
  ∃ rd' st, store_chunk keys rd mine i id vr ros size signed_data sig = Ret (rd', st) ∧
  chunk_result rd mine i id vr size
  (take (chunk_len rd.(proposal) i)
   (drop PacketProposalChunkHeader.SERIALIZED_SIZE signed_data)) sig rd' st.
Proof.
  intros Hok Hsig Hi Hlen. pose proof Hok as [? ? Hs Hn Hsz].
  destruct (chunk_o_size_Ret rd.(proposal) i Hi Hsz) as (Ho & Hend & _).
  unfold store_chunk. rewrite Ho. cbn [mbind outcome_bind].
  rewrite slice_Ret by lia. cbn [mbind outcome_bind].
  replace (_ + chunk_len (proposal rd) i - _)%nat with (chunk_len (proposal rd) i) by lia.
  set (data := take _ _).
  assert (length data = chunk_len (proposal rd) i) as Hd by (subst data; len).
  destruct (lookup_lt_is_Some_2 rd.(proposal_sigs) i) as [cur Hcur]; [lia|].
  rewrite (index_Ret _ _ _ Hcur). cbn [mbind outcome_bind].
  case_decide as Hnil; [subst cur|case_decide as Hsame].
  - rewrite copy_at_Ret by lia. cbn [mbind outcome_bind].
    rewrite set_index_Ret by lia. cbn [mbind outcome_bind].
    pose proof (placed_ok rd i vr data sig Hok Hcur Hsig ltac:(lia)) as Hok'.
    pose proof (filled_range rd.(proposal_sigs)). pose proof (chunks_n_le rd.(proposal)).
    rewrite arith_ok by (unfold is_u; lia). cbn [mbind outcome_bind].
    fold (placed rd i vr data sig). rewrite adopt_spec by done. cbn [mbind outcome_bind].
    fold (chunk_placed rd i id vr data sig). set (rd' := chunk_placed _ _ _ _ _ _).
    destruct (Z.eqb_spec (proposal_sigs_n rd') (Z.of_nat (length (proposal_sigs rd')))) as [E|E].
    + case_decide as Hid; eexists _, _; (split; [done|]); [by eapply chunk_bad_id|].
      eapply chunk_ok; [done|done|]. intros _ _. by destruct (decide (proposal_id rd' = id_from_value (proposal rd') keys)).
    + eexists _, _. split; [done|]. eapply chunk_ok; [done|done|].
      unfold id_ok, has_full_proposal. lia.
  - destruct mine; eexists _, _; (split; [done|]);
      [by eapply chunk_amnesia|by eapply chunk_equivocation].
  - eexists _, _. split; [done|]. assert (cur = sig) as -> by (by destruct (decide (cur = sig))).
    by apply chunk_again.
Qed.

Lemma chunk_result_ok rd mine i id vr size data sig rd' st :
  round_ok keys ros rd → sig ≠ TMSig_NIL → is_u 32 size →
  (chunk_off i + length data ≤ length rd.(proposal))%nat →
  chunk_result rd mine i id vr size data sig rd' st → round_ok keys ros rd'.
Proof.
  intros [Hst Hid Hpass] Hsig Hsize Hlen Hres.
  assert (proposal_sigs rd !! i = Some TMSig_NIL → (proposal_checked_validity rd).1 ≠ Pass) as Hnp.
  { intros Hnil [Hfull _]%Hpass. unfold has_full_proposal in Hfull. destruct Hst as [_ _ _ Hn _].
    assert (Forall (λ s, s ≠ TMSig_NIL) (proposal_sigs rd)) as Hall by (apply filled_all; lia).
    by eapply Forall_lookup in Hall. }
  assert (∀ vr data sig, (chunk_placed rd i id vr data sig).(proposal_checked_validity)
    = proposal_checked_validity rd) as Hval by (intros; unfold chunk_placed, adopted; by case_decide).
  destruct Hres; subst.
  - split; [by apply adopted_ok, placed_ok|done|]. intros Hp. rewrite Hval in Hp. by apply Hnp in Hp.
  - pose proof (adopted_ok _ id (placed_ok rd i vr data sig Hst ltac:(done) Hsig Hlen)) as [].
    split; [by split|by intros _ [=]|]. intros Hp. cbn in Hp. rewrite Hval in Hp. by apply Hnp in Hp.
  - done.
  - destruct Hst. split; [by split|by intros _ [=]|done].
  - by apply flush_ok.
Qed.

(** The same without knowing that the chunk fits: when the handler returns,
    the chunk did fit. *)
Lemma store_chunk_inv rd mine i id vr size signed_data sig rd' st :
  round_ok keys ros rd → sig ≠ TMSig_NIL → is_u 32 size →
  store_chunk keys rd mine i id vr ros size signed_data sig = Ret (rd', st) →
  round_ok keys ros rd' ∧ ∃ data, chunk_result rd mine i id vr size data sig rd' st.
Proof.
  intros Hok Hsig Hsize Hsc. pose proof Hok as [Hst _ _]. pose proof Hst as [_ _ Hs _ Hsz].
  assert ((i < chunks_n rd.(proposal))%nat ∧
    (PacketProposalChunkHeader.SERIALIZED_SIZE + chunk_len rd.(proposal) i
    ≤ length signed_data)%nat) as [Hi Hlen].
  { pose proof Hsc as Hsc'. unfold store_chunk in Hsc'. inv_ret.
    apply slice_Ret_inv in E0 as [? ->]. apply lookup_lt_Some in E1. rewrite Hs in E1.
    destruct (chunk_o_size_Ret rd.(proposal) i E1 Hsz) as (Ho & _).
    rewrite Ho in E. simplify_eq. lia. }
  destruct (store_chunk_spec rd mine i id vr size signed_data sig Hst Hsig Hi Hlen)
    as (rd1 & st1 & Hsc1 & Hres). rewrite Hsc in Hsc1. simplify_eq. split; [|eauto].
  eapply chunk_result_ok; [done|done|done| |done].
  destruct (chunk_o_size_Ret rd.(proposal) i Hi Hsz) as (_ & ? & _). len.
Qed.

Lemma adopted_votes_ok rd id :
  0 < rd.(proposal_sigs_n) →
  rd.(proposal_id) = ValueId_NIL ∨ Forall (slots_on rd.(proposal_id)) rd.(msg_val_sigs) →
  votes_ok (adopted rd id).
Proof.
  intros Hn Hv. unfold adopted. case_decide; unfold votes_ok; cbn;
                                  rewrite (proj2 (Z.eqb_neq _ _)) by lia.
  - apply Forall_map, Forall_true. intros s. apply scrub_on.
  - naive_solver.
Qed.

(** What a chunk may be placed next to: no votes for another value. *)
Definition placeable rd : Prop :=
  rd.(proposal_id) = ValueId_NIL ∨ Forall (slots_on rd.(proposal_id)) rd.(msg_val_sigs).

Lemma prepare_placeable rd seen mine size id vr rd' :
  votes_ok rd → (seen = false → rd.(proposal_sigs_n) = 0) → 0 ≤ rd.(proposal_sigs_n) →
  prepare_proposal_store rd seen mine size id vr ros = Some rd' →
  placeable rd' ∧ (votes_ok rd' ∨ Forall (λ s, s = TMSig_NIL) rd'.(proposal_sigs)).
Proof.
  unfold votes_ok at 1. intros Hv Hseen Hn. unfold prepare_proposal_store.
  destruct (seen && (0 <? proposal_sigs_n rd)) eqn:Eseen.
  - assert ((proposal_sigs_n rd =? 0) = false) as Hn0 by lia. rewrite Hn0 in Hv.
    case_match; [intros [= <-]; split; right; cbn; apply Forall_replicate; [by split; left|done]|].
    repeat (case_match; try done). intros [= <-]. unfold placeable, votes_ok. rewrite Hn0. auto.
  - intros [= <-]. assert (proposal_sigs_n rd = 0) as Hn0.
    { destruct seen; [cbn in Eseen; lia|auto]. }
    rewrite Hn0 in Hv. split; [by left|right]. cbn. by apply Forall_replicate.
Qed.

Lemma chunk_result_votes_ok rd i id vr size data sig rd' st mine :
  store_ok ros rd → placeable rd → sig ≠ TMSig_NIL →
  (votes_ok rd ∨ Forall (λ s, s = TMSig_NIL) rd.(proposal_sigs)) →
  (mine = true → rd.(proposal_sigs) !! i = Some TMSig_NIL ∨ rd.(proposal_sigs) !! i = Some sig) →
  chunk_result rd mine i id vr size data sig rd' st → votes_ok rd'.
Proof.
  intros Hst Hpl Hsig Hor Hmine.
  assert (votes_ok (chunk_placed rd i id vr data sig)) as Hp.
  { pose proof (filled_range (proposal_sigs rd)). destruct Hst as [_ _ _ Hn _].
    apply adopted_votes_ok; cbn; [lia|done]. }
  assert (∀ cur, proposal_sigs rd !! i = Some cur → cur ≠ TMSig_NIL → votes_ok rd) as Hcur.
  { intros cur Hc Hne. destruct Hor as [|Hnil]; [done|].
    eapply Forall_lookup in Hnil; [|exact Hc]. done. }
  intros []; subst; try done; try (by eapply Hcur). naive_solver.
Qed.

(** Whether a chunk fits the proposal its header announces. *)
Definition chunk_fits (hdr : PacketProposalChunkHeader.t) (i : nat) (signed_data : bytes) : Prop :=
  let size := Z.to_nat (PacketProposalChunkHeader.proposal_size hdr) in
  (i < div_ceil size PROPOSAL_CHUNK_DATA_SIZE)%nat ∧
    (PacketProposalChunkHeader.SERIALIZED_SIZE
   + Nat.min PROPOSAL_CHUNK_DATA_SIZE (size - chunk_off i) ≤ length signed_data)%nat.

Lemma read_from_size signed_data hdr rest :
  PacketProposalChunkHeader.read_from signed_data = Some (hdr, rest) →
  is_u 32 (PacketProposalChunkHeader.proposal_size hdr).
Proof.
  unfold PacketProposalChunkHeader.read_from. intros Hr.
  repeat (apply Reader_bind_inv in Hr as (? & ? & ?Hx & Hr)).
  cbv [mret Reader_ret] in Hr. injection Hr as <- <-. cbn.
  apply read_uint_inv in Hx0 as [? _]. done.
Qed.

(** The chunk handler in full: the store is prepared, or the chunk is ignored. *)
Lemma incorporate_proposal_chunk_cases rd seen mine i id vr signed_data sig hdr rest :
  round_ok keys ros rd → sig ≠ TMSig_NIL → (seen = false → rd.(proposal_sigs_n) = 0) →
  PacketProposalChunkHeader.read_from signed_data = Some (hdr, rest) →
  chunk_fits hdr i signed_data →
  let size := PacketProposalChunkHeader.proposal_size hdr in
  (prepare_proposal_store rd seen mine size id vr ros = None ∧
   incorporate_proposal_chunk keys rd seen mine i id vr ros signed_data sig = Ret (rd, Fail_)) ∨
  (∃ rd0 rd' st, prepare_proposal_store rd seen mine size id vr ros = Some rd0 ∧
   round_ok keys ros rd0 ∧ Z.of_nat (length rd0.(proposal)) = size ∧
   incorporate_proposal_chunk keys rd seen mine i id vr ros signed_data sig = Ret (rd', st) ∧
   round_ok keys ros rd' ∧
   chunk_result rd0 mine i id vr size
   (take (chunk_len rd0.(proposal) i)
    (drop PacketProposalChunkHeader.SERIALIZED_SIZE signed_data)) sig rd' st).
Proof.
  intros Hok Hsig Hseen Hr [Hi Hlen] size. unfold incorporate_proposal_chunk. rewrite Hr.
  pose proof (read_from_size _ _ _ Hr) as Hsize. fold size in Hsize |- *.
  destruct (prepare_proposal_store _ _ _ _ _ _ _) as [rd0|] eqn:Hprep; [right|by left].
  destruct (prepare_ok _ _ _ _ _ _ _ Hsize Hok Hseen Hprep) as [Hok0 Hlen0].
  assert (Z.to_nat size = length (proposal rd0)) as Hnat by lia.
  fold size in Hi, Hlen. rewrite Hnat in Hi, Hlen. pose proof Hok0 as [Hst0 _ _].
  destruct (store_chunk_spec rd0 mine i id vr size signed_data sig Hst0 Hsig Hi Hlen)
    as (rd' & st & Hsc & Hres).
  exists rd0, rd', st. do 4 (split; [done|]). split; [|done].
  eapply chunk_result_ok; [done|done|done| |done].
  destruct (chunk_o_size_Ret rd0.(proposal) i Hi ltac:(apply Hst0)) as (_ & Hend & _).
  fold (chunk_len (proposal rd0) i) in Hlen. len.
Qed.
End round.

(** ** Reassembling a proposal from its chunks *)

(** The places that are filled hold the bytes of [v]. *)
Definition agrees (v : BlockValue) (rd : RoundData.t) : Prop :=
  length rd.(proposal) = length v ∧
    ∀ i s j, rd.(proposal_sigs) !! i = Some s → s ≠ TMSig_NIL →
    (chunk_off i ≤ j < chunk_off (S i))%nat → rd.(proposal) !! j = v !! j.

Lemma agrees_full v rd :
  agrees v rd → length rd.(proposal_sigs) = chunks_n rd.(proposal) →
  Forall (λ s, s ≠ TMSig_NIL) rd.(proposal_sigs) → rd.(proposal) = v.
Proof.
  intros [Hlen Hag] Hn Hall. apply list_eq. intros j.
  destruct (decide (j < length v)%nat) as [Hj|Hj].
  - assert (0 < PROPOSAL_CHUNK_DATA_SIZE)%nat as HD by (vm_compute; lia).
    set (i := (j / PROPOSAL_CHUNK_DATA_SIZE)%nat).
    pose proof (Nat.div_mod_eq j PROPOSAL_CHUNK_DATA_SIZE) as Hdm. fold i in Hdm.
    pose proof (Nat.mod_upper_bound j PROPOSAL_CHUNK_DATA_SIZE ltac:(lia)).
    assert (i < length rd.(proposal_sigs))%nat as Hi.
    { rewrite Hn. destruct (chunks_n_spec (proposal rd)) as [Hle _].
      destruct (decide (i < chunks_n (proposal rd))%nat); [done|].
      assert (chunks_n (proposal rd) * PROPOSAL_CHUNK_DATA_SIZE ≤ i * PROPOSAL_CHUNK_DATA_SIZE)%nat
        by (apply Nat.mul_le_mono_r; lia). lia. }
    destruct (lookup_lt_is_Some_2 _ _ Hi) as [s Hs].
    eapply Hag; [done|by eapply Forall_lookup in Hall|]. unfold chunk_off. lia.
  - rewrite !lookup_ge_None_2; [done|lia..].
Qed.

(** The bytes of chunk [i] of [v]. *)
Definition chunk_of (v : BlockValue) (i : nat) : bytes :=
  take (chunk_len v i) (drop (chunk_off i) v).

Lemma lookup_splice {A} (l d : list A) o j :
  (o + length d ≤ length l)%nat →
  (take o l ++ d ++ drop (o + length d) l) !! j
  = if decide (o ≤ j < o + length d)%nat then d !! (j - o)%nat else l !! j.
Proof.
  intros Hl. assert (length (take o l) = o) as Ho by (rewrite length_take; lia).
  case_decide as Hj.
  - rewrite lookup_app_r by lia. rewrite lookup_app_l by lia. by rewrite Ho.
  - destruct (decide (j < o)%nat).
    + rewrite lookup_app_l by lia. by rewrite lookup_take, decide_True by lia.
    + rewrite !lookup_app_r by lia. rewrite lookup_drop. f_equal. lia.
Qed.

Section reassembly.
Context `{Profile} `{Crypto} (keys : HashKeys) (ros : list SortedRosterMember.t).
Context (Hros : stake_bounded ros).

Lemma adopted_proposal rd id :
  (adopted ros rd id).(proposal) = rd.(proposal) ∧
  (adopted ros rd id).(proposal_sigs) = rd.(proposal_sigs) ∧
  (adopted ros rd id).(proposal_sigs_n) = rd.(proposal_sigs_n) ∧
  (adopted ros rd id).(proposal_valid_round) = rd.(proposal_valid_round) ∧
  (adopted ros rd id).(proposal_is_faulty) = rd.(proposal_is_faulty) ∧
  (rd.(proposal_id) = ValueId_NIL ∨ rd.(proposal_id) = id →
   (adopted ros rd id).(proposal_id) = id).
Proof. unfold adopted. case_decide; cbn; naive_solver. Qed.

Lemma placed_agrees v rd i vr sig :
  agrees v rd → (i < chunks_n v)%nat → Z.of_nat (length v) < 2 ^ 32 →
  agrees v (placed rd i vr (chunk_of v i) sig).
Proof.
  intros [Hlen Hag] Hi Hsz.
  destruct (chunk_o_size_Ret v i Hi Hsz) as (_ & Hend & _).
  assert (length (chunk_of v i) = chunk_len v i) as Hc by (unfold chunk_of; len).
  unfold agrees, placed. cbn [proposal proposal_sigs with_chunk].
  split; [len|]. intros k s j Hk Hs Hj.
  etrans; [apply lookup_splice; lia|]. rewrite Hc. case_decide as Hd.
  - unfold chunk_of. rewrite lookup_take, decide_True, lookup_drop by lia. f_equal. lia.
  - destruct (decide (k = i)) as [->|Hne].
    + assert (length v ≤ j)%nat by (unfold chunk_len, chunk_off in *; lia).
      etrans; [apply lookup_ge_None_2; lia|]. symmetry. apply lookup_ge_None_2. lia.
    + rewrite list_lookup_insert_ne in Hk by done. by eapply Hag.
Qed.

(** The signed bytes of chunk [i] of [v], as a proposer sends them. *)
Definition signed_chunk (h r : Z) (v : BlockValue) (id : ValueId) (vr : Z) (i : nat) : outcome bytes :=
  hdr ← PacketProposalChunkHeader.write_to
    (PacketProposalChunkHeader.mk (Z.of_nat i mod 2 ^ 32) (Z.of_nat (length v)) r vr h id);
  Ret (hdr ++ chunk_of v i).

(** Receiving one chunk, as the handler sees it. *)
Definition receive_chunk (h r : Z) (v : BlockValue) (id : ValueId) (vr : Z) (sg : nat → TMSig)
    (rd : RoundData.t) (i : nat) : outcome RoundData.t :=
  signed_data ← signed_chunk h r v id vr i;
  '(rd, _) ← incorporate_proposal_chunk keys rd true false i id vr ros signed_data (sg i);
  Ret rd.

(** What is known after some chunks of [v] arrived. *)
Record receiving (v : BlockValue) (vr : Z) (sg : nat → TMSig) (rd : RoundData.t) : Prop := {
  rcv_ok : round_ok keys ros rd;
  rcv_sound : rd.(proposal_is_faulty) = false;
  rcv_empty : rd.(proposal_sigs_n) = 0 → rd.(proposal_id) = ValueId_NIL;
  rcv_some : 0 < rd.(proposal_sigs_n) →
  rd.(proposal_id) = id_from_value v keys ∧ rd.(proposal_valid_round) = vr ∧ agrees v rd;
  rcv_sigs : ∀ i s, rd.(proposal_sigs) !! i = Some s → s = TMSig_NIL ∨ s = sg i }.

Lemma signed_chunk_reads h r v id vr i :
  is_u 64 h → is_u 32 r → Z.of_nat (length v) < 2 ^ 32 → length id = 32%nat →
  -1 ≤ vr < U32_MAX →
  ∃ bs hdr, signed_chunk h r v id vr i = Ret bs ∧
  PacketProposalChunkHeader.read_from bs = Some (hdr, chunk_of v i) ∧
  PacketProposalChunkHeader.proposal_size hdr = Z.of_nat (length v) ∧
  drop PacketProposalChunkHeader.SERIALIZED_SIZE bs = chunk_of v i ∧
  length bs = (PacketProposalChunkHeader.SERIALIZED_SIZE + length (chunk_of v i))%nat.
Proof.
  intros Hh Hr Hv Hid Hvr. unfold signed_chunk.
  set (hdr := PacketProposalChunkHeader.mk _ _ _ _ _ _).
  assert (PacketProposalChunkHeader.wf hdr) as Hwf.
  { unfold PacketProposalChunkHeader.wf, is_u, U32_MAX in *. cbn.
    pose proof (Z.mod_pos_bound (Z.of_nat i) (2 ^ 32) ltac:(lia)). repeat split; lia. }
  destruct (PacketProposalChunkHeader_roundtrip hdr (chunk_of v i) Hwf) as (bs & Hw & Hrd).
  rewrite Hw. cbn [mbind outcome_bind]. exists (bs ++ chunk_of v i), hdr.
  assert (length bs = PacketProposalChunkHeader.SERIALIZED_SIZE) as Hl
    by (by eapply PacketProposalChunkHeader_write_length).
  do 3 (split; [done|]). rewrite <- Hl. split; [apply drop_app_length|apply length_app].
Qed.

(** The store prepared for a chunk of [v] agrees with [v]. *)
Record prepared (v : BlockValue) (vr : Z) (sg : nat → TMSig) (rd rd0 : RoundData.t) : Prop := {
  pr_ok : round_ok keys ros rd0;
  pr_agrees : agrees v rd0;
  pr_id : rd0.(proposal_id) = ValueId_NIL ∨ rd0.(proposal_id) = id_from_value v keys;
  pr_sound : rd0.(proposal_is_faulty) = false;
  pr_sigs : ∀ i s, rd0.(proposal_sigs) !! i = Some s → s = TMSig_NIL ∨ s = sg i;
  pr_mono : ∀ i s, rd.(proposal_sigs) !! i = Some s → s ≠ TMSig_NIL →
      rd0.(proposal_sigs) !! i = Some s;
  pr_same : rd0 = rd ∨ Forall (λ s, s = TMSig_NIL) rd0.(proposal_sigs) }.

Lemma receiving_prepare v vr sg rd :
  receiving v vr sg rd → Z.of_nat (length v) < 2 ^ 32 →
  ∃ rd0, prepare_proposal_store rd true false (Z.of_nat (length v)) (id_from_value v keys) vr ros
  = Some rd0 ∧ prepared v vr sg rd rd0.
Proof.
  intros [Hok Hf He Hs Hsig] Hv. pose proof Hok as [Hst _ _].
  assert (∀ rd0, prepare_proposal_store rd true false (Z.of_nat (length v)) (id_from_value v keys)
    vr ros = Some rd0 → round_ok keys ros rd0) as Hprep.
  { intros rd0 Hp. eapply (prepare_ok keys) in Hp as [? _]; [done| |done|done]. unfold is_u. lia. }
  unfold prepare_proposal_store in *.
  pose proof (filled_range (proposal_sigs rd)) as Hrng. pose proof Hst as [? ? Hsn Hn ?]. cbn [andb].
  destruct (Z.ltb_spec 0 (proposal_sigs_n rd)) as [Hpos|Hpos].
  - clear Hprep. destruct (Hs Hpos) as (Hpid & Hvr & Hag). pose proof Hag as [Hl _].
    rewrite Hl, Z.eqb_refl, Hpid, Hvr, Z.eqb_refl, bool_decide_false by naive_solver. cbn.
    exists rd. split; [done|]. split; naive_solver.
  - rewrite Nat2Z.id.
    assert (proposal_sigs_n rd = 0) as Hn0 by lia.
    eexists. split; [done|]. split; cbn.
    + apply Hprep. cbn [andb]. by rewrite Nat2Z.id.
    + split; cbn; [apply length_replicate|]. by intros i s j (-> & _)%lookup_replicate.
    + naive_solver.
    + done.
    + intros i s (-> & _)%lookup_replicate. by left.
    + intros i s Hi Hne. exfalso. eapply Hne, filled_zero; [|done]. lia.
    + right. by apply Forall_replicate.
Qed.

Section placing.
Context (v : BlockValue) (vr : Z) (sg : nat → TMSig) (rd rd0 : RoundData.t) (i : nat).
Context (Hp : prepared v vr sg rd rd0) (Hv : Z.of_nat (length v) < 2 ^ 32).
Context (Hi : (i < chunks_n v)%nat) (Hsg : sg i ≠ TMSig_NIL).
Context (Hnil : rd0.(proposal_sigs) !! i = Some TMSig_NIL).
Let rd' := chunk_placed ros rd0 i (id_from_value v keys) vr (chunk_of v i) (sg i).

Lemma chunk_of_fits :
  length (chunk_of v i) = chunk_len v i ∧
  (chunk_off i + length (chunk_of v i) ≤ length rd0.(proposal))%nat.
Proof.
  destruct (chunk_o_size_Ret v i Hi Hv) as (_ & ? & _). destruct Hp as [_ [-> _] _ _ _ _ _].
  assert (length (chunk_of v i) = chunk_len v i) by (unfold chunk_of; len). lia.
Qed.

Lemma chunk_placed_store : store_ok ros (placed rd0 i vr (chunk_of v i) (sg i)).
Proof. apply placed_ok; [apply Hp.(pr_ok _ _ _ _ _)|done|done|apply chunk_of_fits]. Qed.

(** A complete proposal assembled from the chunks of [v] is [v]. *)
Lemma chunk_placed_id :
  rd'.(proposal_sigs_n) = Z.of_nat (length rd'.(proposal_sigs)) →
  rd'.(proposal_id) = id_from_value rd'.(proposal) keys.
Proof.
  destruct (adopted_proposal (placed rd0 i vr (chunk_of v i) (sg i)) (id_from_value v keys))
    as (Ep & Es & En & _ & _ & Eid). destruct Hp as [_ Hag Hid _ _ _ _].
  subst rd'. unfold chunk_placed. rewrite Ep, Es, En, (Eid Hid). intros Hfull. f_equal.
  pose proof chunk_placed_store as [_ _ Hs1 Hn1 _].
  symmetry. apply agrees_full; [by apply placed_agrees|done|]. apply filled_all. lia.
Qed.

Lemma chunk_placed_receiving :
  id_ok keys rd' → receiving v vr sg rd' ∧ rd'.(proposal_sigs) !! i = Some (sg i) ∧
  0 < rd'.(proposal_sigs_n) ∧
  ∀ k s, rd.(proposal_sigs) !! k = Some s → s ≠ TMSig_NIL → rd'.(proposal_sigs) !! k = Some s.
Proof.
  destruct (adopted_proposal (placed rd0 i vr (chunk_of v i) (sg i)) (id_from_value v keys))
    as (Ep & Es & En & Ev & Ef & Eid). destruct Hp as [Hok0 Hag Hid Hf Hss Hmono _]. pose proof Hok0 as [[? ? ? Hn0 ?] _ _].
  pose proof (filled_range (proposal_sigs rd0)).
  fold rd' in Ep, Es, En, Ev, Ef, Eid. intros Hidok. split; [split|split; [|split]].
  - eapply (chunk_result_ok keys ros rd0 false i _ vr 0); [done|exact Hsg|done| |].
    + apply chunk_of_fits.
    + by eapply chunk_ok.
  - subst rd'. unfold chunk_placed. by rewrite Ef.
  - subst rd'. unfold chunk_placed. rewrite En. cbn. lia.
  - intros _. unfold agrees. subst rd'. unfold chunk_placed. rewrite (Eid Hid), Ev, Ep, Es.
    split; [done|]. split; [done|]. by apply placed_agrees.
  - subst rd'. unfold chunk_placed. rewrite Es. cbn.
    intros k s [(<- & <- & _)|(? & ?)]%list_lookup_insert_Some; eauto.
  - subst rd'. unfold chunk_placed. rewrite Es. cbn.
    apply list_lookup_insert_eq. by eapply lookup_lt_Some.
  - subst rd'. unfold chunk_placed. rewrite En. cbn. lia.
  - subst rd'. unfold chunk_placed. rewrite Es. cbn. intros k s Hk Hne.
    specialize (Hmono k s Hk Hne). rewrite list_lookup_insert_ne; [done|]. intros ->. congruence.
Qed.
End placing.

Lemma receive_chunk_step h r v vr sg rd i :
  is_u 64 h → is_u 32 r → Z.of_nat (length v) < 2 ^ 32 → -1 ≤ vr < U32_MAX →
  length (id_from_value v keys) = 32%nat → (i < chunks_n v)%nat → sg i ≠ TMSig_NIL →
  receiving v vr sg rd →
  ∃ rd', receive_chunk h r v (id_from_value v keys) vr sg rd i = Ret rd' ∧
  receiving v vr sg rd' ∧ rd'.(proposal_sigs) !! i = Some (sg i) ∧
  0 < rd'.(proposal_sigs_n) ∧
  (∀ k s, rd.(proposal_sigs) !! k = Some s → s ≠ TMSig_NIL → rd'.(proposal_sigs) !! k = Some s).
Proof.
  intros Hh Hr Hv Hvr Hidl Hi Hsg Hrcv.
  destruct (signed_chunk_reads h r v (id_from_value v keys) vr i Hh Hr Hv Hidl Hvr)
    as (bs & hdr & Hsc & Hread & Hsize & Hdrop & Hlen).
  destruct (receiving_prepare v vr sg rd Hrcv Hv) as (rd0 & Hprep & Hp).
  unfold receive_chunk. rewrite Hsc. cbn [mbind outcome_bind].
  unfold incorporate_proposal_chunk. rewrite Hread, Hsize, Hprep.
  destruct (chunk_of_fits v vr sg rd rd0 i Hp Hv Hi) as [Hcol Hfit].
  pose proof Hp as [[Hst0 _ _] [Hl0 _] _ _ Hsig0 _ Hsame0].
  assert (chunks_n (proposal rd0) = chunks_n v) as Hcn by (unfold chunks_n; by rewrite Hl0).
  assert (chunk_len (proposal rd0) i = chunk_len v i) as Hcl by (unfold chunk_len; by rewrite Hl0).
  destruct (store_chunk_spec keys ros Hros rd0 false i (id_from_value v keys) vr (Z.of_nat (length v))
    bs (sg i) Hst0 Hsg ltac:(lia) ltac:(lia)) as (rd' & st & -> & Hres).
  cbn [mbind outcome_bind]. exists rd'. split; [done|].
  rewrite Hcl, Hdrop, take_ge in Hres by lia.
  inversion Hres as [rd1 Hnil -> Hidok|rd1 Hnil -> Hfull Hbad|Hsame|cur _ Hcur Hc1 Hc2|];
    subst; clear Hres.
  - by apply (chunk_placed_receiving v vr sg rd rd0 i).
  - exfalso. by apply Hbad, (chunk_placed_id v vr sg rd rd0 i).
  - destruct Hsame0 as [->|Hall]; [|by eapply Forall_lookup in Hall].
    split; [done|]. split; [done|]. split; [|done]. destruct Hst0 as [_ _ _ -> _].
    pose proof (filled_range (proposal_sigs rd)).
    destruct (decide (filled (proposal_sigs rd) = 0)) as [Hz|]; [|lia].
    by pose proof (filled_zero _ _ _ Hz Hsame).
  - exfalso. destruct (Hsig0 _ _ Hcur); congruence.
  - done.
Qed.

Lemma receive_chunks h r v vr sg idxs rd :
  is_u 64 h → is_u 32 r → Z.of_nat (length v) < 2 ^ 32 → -1 ≤ vr < U32_MAX →
  length (id_from_value v keys) = 32%nat →
  Forall (λ i, (i < chunks_n v)%nat ∧ sg i ≠ TMSig_NIL) idxs → receiving v vr sg rd →
  ∃ rd', for_each (receive_chunk h r v (id_from_value v keys) vr sg) idxs rd = Ret rd' ∧
  receiving v vr sg rd' ∧ (idxs ≠ [] → 0 < rd'.(proposal_sigs_n)) ∧
  (∀ i, i ∈ idxs → rd'.(proposal_sigs) !! i = Some (sg i)) ∧
  (∀ k s, rd.(proposal_sigs) !! k = Some s → s ≠ TMSig_NIL → rd'.(proposal_sigs) !! k = Some s).
Proof.
  intros Hh Hr Hv Hvr Hidl Hidxs. revert rd.
  induction Hidxs as [|i idxs [Hi Hsg] _ IH]; intros rd Hrcv.
  { exists rd. split; [done|]. split; [done|]. split; [done|]. split; [|done]. by intros i ?%elem_of_nil. }
  destruct (receive_chunk_step h r v vr sg rd i Hh Hr Hv Hvr Hidl Hi Hsg Hrcv)
    as (rd1 & Hstep & Hrcv1 & Hi1 & Hn1 & Hm1).
  destruct (IH rd1 Hrcv1) as (rd' & Hrun & Hrcv' & Hn' & Hin' & Hm').
  exists rd'. cbn [for_each]. rewrite Hstep. cbn [mbind outcome_bind].
  do 2 (split; [done|]). split; [|split].
  - intros _. pose proof (Hm' _ _ Hi1 Hsg) as Hk.
    destruct Hrcv' as [[[_ _ _ Hn _] _ _] _ _ _ _]. rewrite Hn.
    pose proof (filled_range (proposal_sigs rd')).
    destruct (decide (filled (proposal_sigs rd') = 0)) as [Hz|]; [|lia].
    by pose proof (filled_zero _ _ _ Hz Hk).
  - intros k [->|Hk]%elem_of_cons; eauto.
  - eauto.
Qed.
End reassembly.

(** ** What the handlers of a round guarantee *)

Section round_theorems.
Context {P : Profile} {C : Crypto} (keys : HashKeys) (ros : list SortedRosterMember.t).

(** C4: On a consistent round a vote from an active member never panics the
    vote handler, whatever the vote: no counter over- or underflows.  The
    vote is ignored exactly when it names a value other than the known
    proposal or the member already cast a different vote; otherwise it is
    stored and every counter equals the stake whose stored votes it counts. *)
Theorem incorporate_vote_correct rd pc id i sig :
  stake_bounded ros → round_ok keys ros rd → (i < active_roster_len ros)%nat →
  ∃ rd' st, incorporate_vote rd pc id ros i sig = Ret (rd', st) ∧ round_ok keys ros rd' ∧
  (st = Fail_ ↔ vote_rejected rd pc id i sig) ∧
  (st = Fail_ → rd' = rd) ∧
  (st ≠ Fail_ → vote_stored ros rd pc id i sig rd') ∧
  (votes_ok rd → votes_ok rd').
Proof.
  intros Hros Hok Hi.
  destruct (incorporate_vote_cases keys ros Hros rd pc id i sig Hok Hi)
    as [(Hrej & ->)|(Hrej & rd' & -> & Hst)].
  - exists rd, Fail_. naive_solver.
  - eexists _, _. split; [done|]. split; [by eapply vote_stored_ok|].
    split; [by case_decide|]. split; [by case_decide|]. split; [done|].
    intros. by eapply vote_stored_votes_ok.
Qed.

(** A vote that is stored is never replaced: whatever vote message comes
    later, a signed vote of any member is still there unchanged. *)
Theorem incorporate_vote_keeps rd pc id i sig rd' st j pc' slots :
  incorporate_vote rd pc id ros i sig = Ret (rd', st) →
  rd.(msg_val_sigs) !! j = Some slots → (get_slot slots pc').2 ≠ TMSig_NIL →
  ∃ slots', rd'.(msg_val_sigs) !! j = Some slots' ∧ get_slot slots' pc' = get_slot slots pc'.
Proof.
  intros Hinc Hj Hsig. assert (∀ st', store_vote rd pc id ros i sig st' = Ret (rd', st) →
                         ∃ slots', rd'.(msg_val_sigs) !! j = Some slots' ∧ get_slot slots' pc' = get_slot slots pc')
                         as Hstore.
  { intros st'. unfold store_vote. intros Hs. inv_ret. cbn zeta in Hs.
    case_decide as Hd; inv_ret; [simplify_eq; eauto|].
    cbn in Hs. inv_ret. simplify_eq. cbn. destruct (decide (j = i)) as [->|Hne].
    - rewrite Hj in E. injection E as <-.
      exists (set_slot slots pc (id, sig)). rewrite list_lookup_insert_eq by done. split; [done|].
      destruct (decide (pc = pc')) as [<-|Hpc].
      + assert (get_slot slots pc = (id, sig)) as ->; [|by destruct pc].
        destruct (decide ((id, sig) = get_slot slots pc)); naive_solver.
      + by destruct pc, pc'.
    - exists slots. by rewrite list_lookup_insert_ne. }
  unfold incorporate_vote in Hinc. repeat case_match; simplify_eq; eauto.
Qed.

(** A chunk of the proposal that fits the size its header announces never
    panics the chunk handler, and the round stays consistent: the number of
    chunks counted is the number stored, and a complete proposal is either
    marked faulty or hashes to its id. *)
Theorem incorporate_proposal_chunk_safe rd seen mine i id vr signed_data sig hdr rest :
  stake_bounded ros → round_ok keys ros rd → sig ≠ TMSig_NIL →
  (seen = false → rd.(proposal_sigs_n) = 0) →
  PacketProposalChunkHeader.read_from signed_data = Some (hdr, rest) →
  chunk_fits hdr i signed_data →
  ∃ rd' st,
  incorporate_proposal_chunk keys rd seen mine i id vr ros signed_data sig = Ret (rd', st) ∧
  round_ok keys ros rd'.
Proof.
  intros Hros Hok Hsig Hseen Hr Hfit.
  destruct (incorporate_proposal_chunk_cases keys ros Hros rd seen mine i id vr signed_data sig
    hdr rest Hok Hsig Hseen Hr Hfit) as [[_ ->]|(? & ? & ? & _ & _ & _ & -> & ? & _)]; eauto.
Qed.

(** C5: The chunks of a value [v] sent by one proposer, arriving in any order
    and any number of times, reassemble to exactly [v] with its id and valid
    round, once each chunk arrived at least once, and the round is not marked
    faulty. *)
Theorem proposal_reassembled h r v vr sg idxs rd :
  stake_bounded ros → is_u 64 h → is_u 32 r → 0 < Z.of_nat (length v) < 2 ^ 32 →
  -1 ≤ vr < U32_MAX → length (id_from_value v keys) = 32%nat →
  (∀ i, i ∈ idxs ↔ (i < chunks_n v)%nat) → (∀ i, sg i ≠ TMSig_NIL) →
  receiving keys ros v vr sg rd →
  ∃ rd', for_each (receive_chunk keys ros h r v (id_from_value v keys) vr sg) idxs rd = Ret rd' ∧
  round_ok keys ros rd' ∧ has_full_proposal rd' = true ∧ rd'.(proposal) = v ∧
  rd'.(proposal_id) = id_from_value v keys ∧ rd'.(proposal_valid_round) = vr ∧
  rd'.(proposal_is_faulty) = false.
Proof.
  intros Hros Hh Hr Hv Hvr Hidl Hcov Hsg Hrcv.
  assert (Forall (λ i, (i < chunks_n v)%nat ∧ sg i ≠ TMSig_NIL) idxs) as Hall0.
  { apply Forall_forall. intros k Hk. split; [by apply Hcov|done]. }
  destruct (receive_chunks keys ros Hros h r v vr sg idxs rd Hh Hr (proj2 Hv) Hvr Hidl Hall0 Hrcv)
    as (rd' & Hrun & Hrcv' & Hn & Hin & _).
  exists rd'. split; [done|]. destruct Hrcv' as [Hok Hf _ Hsome _].
  assert (0 < chunks_n v)%nat as Hc0 by (destruct (chunks_n_spec v); lia).
  assert (0 < rd'.(proposal_sigs_n)) as Hpos.
  { apply Hn. intros ->. apply Hcov in Hc0. by apply elem_of_nil in Hc0. }
  destruct (Hsome Hpos) as (Hid & Hvr' & Hag). pose proof Hok as [[_ _ Hs Hn' _] _ _].
  assert (length (proposal_sigs rd') = chunks_n v) as Hsn.
  { rewrite Hs. unfold chunks_n. by destruct Hag as [-> _]. }
  assert (Forall (λ s, s ≠ TMSig_NIL) (proposal_sigs rd')) as Hall.
  { apply Forall_lookup. intros k s Hk. rewrite (Hin k) in Hk; [naive_solver|].
    apply Hcov. rewrite <- Hsn. by eapply lookup_lt_Some. }
  split; [done|]. split; [|split; [by apply agrees_full|done]].
  unfold has_full_proposal. rewrite Hn'. rewrite filled_complete by done. lia.
Qed.
End round_theorems.
