(* ===== verification/Node.v ===== *)
(** * Node: the Tendermint state machine of one node

    Models [TMState] of [tenderlink/src/lib.rs]: receiving a signed message
    ([check_and_incorporate_msg]), sending one's own ([broadcast]), starting a
    round ([start_round]) and reacting to what has accumulated
    ([bft_update]).

    The closures the node calls into the finality layer
    ([propose_closure], [validate_closure], [push_block_closure]) are fields
    of [Closures] over an abstract environment state [E].  [now] is the
    monotonic clock in milliseconds. *)

From stdpp Require Import base list.
From S2P Require Import Prelude Wire Encoding Bft Roster Round.
Import SortedRosterMember.

(** ** State *)
Module TMState.
Record t := mk {
  hash_keys : HashKeys;
  my_signing_key : bytes;
  my_pub_key : PubKeyID;
  round : Z;
  step : TMStep;
  height : Z;
  valid_value_round : option BlockValue * Z;
  locked_value_round : option BlockValue * Z;
  rounds_data : list RoundData.t;
  recent_commit_round_cache : list RoundData.t }.

Definition init `{Crypto} (signing_key : bytes) (pub_key : PubKeyID) : t :=
  mk HashKeys_default signing_key pub_key 0 Propose 0 (None, -1) (None, -1) [] [].

Definition with_rounds (s : t) (rs : list RoundData.t) : t :=
  mk s.(hash_keys) s.(my_signing_key) s.(my_pub_key) s.(round) s.(step) s.(height)
    s.(valid_value_round) s.(locked_value_round) rs s.(recent_commit_round_cache).
Definition with_step (s : t) (st : TMStep) : t :=
  mk s.(hash_keys) s.(my_signing_key) s.(my_pub_key) s.(round) st s.(height)
    s.(valid_value_round) s.(locked_value_round) s.(rounds_data)
    s.(recent_commit_round_cache).
Definition with_round (s : t) (r : Z) : t :=
  mk s.(hash_keys) s.(my_signing_key) s.(my_pub_key) r s.(step) s.(height)
    s.(valid_value_round) s.(locked_value_round) s.(rounds_data)
    s.(recent_commit_round_cache).
Definition with_locked (s : t) (l : option BlockValue * Z) : t :=
  mk s.(hash_keys) s.(my_signing_key) s.(my_pub_key) s.(round) s.(step) s.(height)
    s.(valid_value_round) l s.(rounds_data) s.(recent_commit_round_cache).
Definition with_valid (s : t) (v : option BlockValue * Z) : t :=
  mk s.(hash_keys) s.(my_signing_key) s.(my_pub_key) s.(round) s.(step) s.(height)
    v s.(locked_value_round) s.(rounds_data) s.(recent_commit_round_cache).
Definition decided (s : t) (h : Z) (rs cache : list RoundData.t) : t :=
  mk s.(hash_keys) s.(my_signing_key) s.(my_pub_key) s.(round) s.(step) h
    (None, -1) (None, -1) rs cache.
End TMState.
Import TMState.

(** ** Searching the rounds, which are sorted by height and then round *)

Definition key_lt (rd : RoundData.t) (h r : Z) : bool :=
  (RoundData.height rd <? h) || ((RoundData.height rd =? h) && (RoundData.round rd <? r)).
Definition key_eq (rd : RoundData.t) (h r : Z) : bool :=
  (RoundData.height rd =? h) && (RoundData.round rd =? r).

(** [binary_search_by_key]: [inl i] is [Ok(i)], [inr i] is [Err(i)]. *)
Definition binary_search (rds : list RoundData.t) (h r : Z) : nat + nat :=
  let i := partition_point (λ rd, key_lt rd h r) rds in
  match rds !! i with
  | Some rd => if key_eq rd h r then inl i else inr i
  | None => inr i
  end.

Section node.
Context `{Profile} `{Crypto}.

Definition insert_round (s : t) (insert_i : nat) (r : Z) (ros : list SortedRosterMember.t)
    : t :=
  with_rounds s (take insert_i s.(rounds_data)
                 ++ [RoundData.fresh_round s.(height) r ros]
                 ++ drop insert_i s.(rounds_data)).

(** The round a message belongs to, inserted when it is new: whether it was
    there before, its index, and the state that holds it. *)
Definition find_or_insert_round (s : t) (h r : Z) (ros : list SortedRosterMember.t)
    : bool * nat * t :=
  match binary_search s.(rounds_data) h r with
  | inl i => (true, i, s)
  | inr i => (false, i, insert_round s i r ros)
  end.

(** The [match packet_type] on the round a message belongs to. *)
Definition handle_msg (keys : HashKeys) (rd : RoundData.t)
    (is_prev_seen_round is_my_proposal : bool) (chunk_i : nat) (value_id : ValueId)
    (valid_round : Z) (ros : list SortedRosterMember.t) (roster_i : nat) (packet_type : Z)
    (signed_data : bytes) (sig : TMSig) : outcome (RoundData.t * TMStatus) :=
  if packet_type =? PACKET_TYPE_PROPOSAL_CHUNK then
    incorporate_proposal_chunk keys rd is_prev_seen_round is_my_proposal chunk_i value_id
      valid_round ros signed_data sig
  else if (packet_type =? PACKET_TYPE_PREVOTE_SIGNATURES)
    || (packet_type =? PACKET_TYPE_PRECOMMIT_SIGNATURES) then
    incorporate_vote rd (packet_type =? PACKET_TYPE_PRECOMMIT_SIGNATURES) value_id ros
      roster_i sig
  else Ret (rd, Fail_).

Definition check_and_incorporate_msg (s : t) (height round : Z) (chunk_i : nat)
    (value_id : ValueId) (valid_round : Z) (ros : list SortedRosterMember.t) (roster_i : nat)
    (packet_type : Z) (signed_data : bytes) (sig : TMSig) : outcome (t * TMStatus) :=
  if negb (height =? s.(TMState.height)) then Ret (s, Fail_) else
  if decide (active_roster_len ros ≤ roster_i)%nat then Ret (s, Fail_) else
  from ← index ros roster_i;
  let from_pub_key := from.(SortedRosterMember.pub_key) in
  if negb (TMSig_verify sig from_pub_key signed_data) then Ret (s, Fail_) else
  let '(is_prev_seen_round, round_i, s) := find_or_insert_round s height round ros in
  rd ← index s.(rounds_data) round_i;
  let is_my_proposal := bool_decide (from_pub_key = s.(my_pub_key)) in
  '(rd, status) ←
    handle_msg s.(hash_keys) rd is_prev_seen_round is_my_proposal chunk_i value_id valid_round
    ros roster_i packet_type signed_data sig;
  rds ← set_index s.(rounds_data) round_i rd;
  Ret (with_rounds s rds, status).

(** ** Sending *)

Inductive TMMsgData :=
| MProposal (v : BlockValue) (valid_round : Z)
| MPrevote (id : ValueId)
| MPrecommit (id : ValueId).

(** One iteration of the proposal loop: the chunk is signed and stored as if
    it had been received. *)
Definition broadcast_chunk (ros : list SortedRosterMember.t) (roster_i : nat)
    (height round : Z) (proposal : BlockValue) (valid_round : Z) (s : t) (chunk_i : nat)
    : outcome t :=
  let id := id_from_value proposal s.(hash_keys) in
  hdr ← PacketProposalChunkHeader.write_to
    (PacketProposalChunkHeader.mk (Z.of_nat chunk_i mod 2 ^ 32)
       (Z.of_nat (length proposal)) round valid_round height id);
  '(chunk_o, chunk_size) ← chunk_o_size proposal chunk_i;
  data ← slice proposal chunk_o (chunk_o + chunk_size);
  let buf := hdr ++ data in
  let sig := ed25519_sign s.(my_signing_key) buf in
  '(s, _) ← check_and_incorporate_msg s height round chunk_i id valid_round ros roster_i
        PACKET_TYPE_PROPOSAL_CHUNK buf sig;
  Ret s.

Definition broadcast_vote (s : t) (ros : list SortedRosterMember.t) (roster_i : nat)
    (height round : Z) (is_precommit : bool) (value_id : ValueId) : outcome (t * TMStep) :=
  m ← index ros roster_i;
  '(_, signed_data) ← make_vote_sign_datas m.(SortedRosterMember.pub_key) is_precommit
                  height round value_id;
  let sig := ed25519_sign s.(my_signing_key) signed_data in
  '(s, _) ← check_and_incorporate_msg s height round 0 value_id (-2) ros roster_i
        (PACKET_TYPE_PREVOTE_SIGNATURES + b2z is_precommit) signed_data sig;
  Ret (s, if is_precommit then Precommit else Prevote).

Definition broadcast (s : t) (ros : list SortedRosterMember.t) (round_i : nat)
    (msg : TMMsgData) : outcome (t * TMStep) :=
  rd ← index s.(rounds_data) round_i;
  let height := RoundData.height rd in
  let round := RoundData.round rd in
  match roster_i_from_pub_key (active_roster ros) s.(my_pub_key) with
  | None => Ret (s, s.(step))
  | Some roster_i =>
      match msg with
      | MProposal proposal valid_round =>
          _ ← assert_ (in_range 32 (Z.of_nat (length proposal)));
          s ← for_each (broadcast_chunk ros roster_i height round proposal valid_round)
            (seq 0 (chunks_n proposal)) s;
          Ret (s, Propose)
      | MPrevote id => broadcast_vote s ros roster_i height round false id
      | MPrecommit id => broadcast_vote s ros roster_i height round true id
      end
  end.

(** [self.step = self.broadcast(roster, i, msg)] *)
Definition broadcast_step (s : t) (ros : list SortedRosterMember.t) (i : nat)
    (msg : TMMsgData) : outcome t :=
  '(s, st) ← broadcast s ros i msg; Ret (with_step s st).

(** Replace the round at an index. *)
Definition put_round (s : t) (i : nat) (rd : RoundData.t) : outcome t :=
  rds ← set_index s.(rounds_data) i rd; Ret (with_rounds s rds).
End node.

(** ** The closures into the finality layer *)
Record Closures (E : Type) := {
  propose_closure : E → outcome (E * option BlockValue);
  validate_closure : E → BlockValue → outcome (E * (TMStatus * TMStatusReason));
  push_block_closure : E → BlockValue → FatPointerToBftBlock.t → list TMSig →
                       outcome (E * list SortedRosterMember.t) }.
Arguments propose_closure {E}.
Arguments validate_closure {E}.
Arguments push_block_closure {E}.

Section rounds.
Context `{Profile} `{Crypto} {E : Type} (cl : Closures E).

Definition start_round (env : E) (s : t) (ros : list SortedRosterMember.t) (now round : Z)
    : outcome (E * t) :=
  let s := with_round s round in
  let '(_, round_i, s) := find_or_insert_round s s.(height) round ros in
  '(_, proposer) ← proposer_from_height_round s.(hash_keys) ros s.(height) round;
  '(env, s) ←
    (if decide (proposer = s.(my_pub_key)) then
   '(env, proposal) ←
     (match s.(valid_value_round).1 with
    | Some v => Ret (env, Some v)
    | None => propose_closure cl env
    end);
   match proposal with
   | Some v =>
       s ← broadcast_step s ros round_i (MProposal v s.(valid_value_round).2);
       Ret (env, s)
   | None => Ret (env, with_step s Propose)
   end
   else Ret (env, with_step s Propose));
  rd ← index s.(rounds_data) round_i;
  s ← put_round s round_i
    (RoundData.with_timeout rd (RoundData.timeout_triggered rd)
     (Some (Timeout.new now s.(height) s.(TMState.round) Propose)));
  Ret (env, s).

(** [RoundData::proposal_is_valid], with its cache, on round [i]. *)
Definition proposal_is_valid (env : E) (s : t) (i : nat) : outcome (E * t * TMStatus) :=
  rd ← index s.(rounds_data) i;
  if decide ((RoundData.proposal_checked_validity rd).1 = Indeterminate) then
    '(env, rd) ←
      (if RoundData.proposal_is_faulty rd
     then Ret (env, RoundData.with_validity rd (Fail_, ReasonNone))
     else if RoundData.has_full_proposal rd then
       '(env, v) ← validate_closure cl env (RoundData.proposal rd);
       Ret (env, RoundData.with_validity rd v)
     else Ret (env, rd));
    s ← put_round s i rd;
    Ret (env, s, (RoundData.proposal_checked_validity rd).1)
  else Ret (env, s, (RoundData.proposal_checked_validity rd).1).

Definition f_from_n (n : Z) : outcome Z := d ← arith 64 (n - 1); Ret (d / 3).

Definition total_active_stake (ros : list SortedRosterMember.t) : outcome Z :=
  for_each (λ acc m, arith 64 (acc + m.(stake))) (active_roster ros) 0.

(** [(big_threshold, small_threshold)] *)
Definition thresholds (total : Z) : outcome (Z * Z) :=
  f ← f_from_n total;
  if f =? 0 then Ret (total, total)
  else Ret (2 * f + 1, f + 1).

Definition round_data_to_fat_pointer (rd : RoundData.t) (ros : list SortedRosterMember.t)
    : outcome FatPointerToBftBlock.t :=
  merged ← arith 32 (RoundData.round rd + 0x80000000);
  sigs ← for_each (λ acc '(roster_i, slots),
                   let '(value_id, commit_signature) := slots.(slot_precommit) in
                   if decide (value_id = RoundData.proposal_id rd ∧ commit_signature ≠ TMSig_NIL)
                   then m ← index ros roster_i;
                   Ret (acc ++ [FatPointerSignature.mk m.(SortedRosterMember.pub_key)
                                commit_signature])
                   else Ret acc)
     (zip (seq 0 (length (RoundData.msg_val_sigs rd))) (RoundData.msg_val_sigs rd)) [];
  Ret (FatPointerToBftBlock.mk
       (RoundData.proposal_id rd ++ to_le 8 (RoundData.height rd) ++ to_le 4 merged) sigs).

(** What an iteration of the loop of [bft_update] reads before it acts. *)
Record Ctx := {
  c_now : Z;
  c_big : Z;
  c_small : Z;
  c_i : nat;
  c_on_roster : bool;
  c_counts : ConsensusCounts.t;
  c_enough : bool;
  c_current : bool }.

(** What the loop threads: the environment, the node and its roster. *)
Definition Loop : Type := E * t * list SortedRosterMember.t.

Definition prevote_on (env : E) (s : t) (ros : list SortedRosterMember.t) (i : nat)
    (accept : RoundData.t → bool) : outcome Loop :=
  '(env, s, status) ← proposal_is_valid env s i;
  rd ← index s.(rounds_data) i;
  s ← broadcast_step s ros i
    (MPrevote (if bool_decide (status = Pass) && accept rd
             then RoundData.proposal_id rd else ValueId_NIL));
  Ret (env, s, ros).

(** line 22: receive first proposal this height: prevote *)
Definition cond_22 (c : Ctx) (l : Loop) : outcome Loop :=
  let '(env, s, ros) := l in
  rd ← index s.(rounds_data) c.(c_i);
  if c.(c_on_roster) && c.(c_current) && c.(c_enough)
    && (RoundData.proposal_valid_round rd =? -1) && bool_decide (s.(step) = Propose)
  then prevote_on env s ros c.(c_i)
   (λ rd, (s.(locked_value_round).2 =? -1)
    || bool_decide (s.(locked_value_round).1 = Some (RoundData.proposal rd)))
  else Ret l.

(** line 28: received 2f+1 prevotes: prevote *)
Definition cond_28 (c : Ctx) (l : Loop) : outcome Loop :=
  let '(env, s, ros) := l in
  rd ← index s.(rounds_data) c.(c_i);
  let vr := RoundData.proposal_valid_round rd in
  if c.(c_on_roster) && c.(c_current) && c.(c_enough)
    && (c.(c_big) <=? ConsensusCounts.yes_prevotes c.(c_counts))
    && bool_decide (s.(step) = Propose) && (0 <=? vr) && (vr <? s.(round))
  then prevote_on env s ros c.(c_i)
   (λ rd, (s.(locked_value_round).2 <=? RoundData.proposal_valid_round rd)
    || bool_decide (s.(locked_value_round).1 = Some (RoundData.proposal rd)))
  else Ret l.

(** line 34: last orders on prevote period *)
Definition cond_34 (c : Ctx) (l : Loop) : outcome Loop :=
  let '(env, s, ros) := l in
  rd ← index s.(rounds_data) c.(c_i);
  if c.(c_on_roster) && c.(c_current)
    && (c.(c_big) <=? ConsensusCounts.prevotes c.(c_counts))
    && bool_decide (s.(step) = Prevote) && negb (RoundData.timeout_triggered rd).1
  then
    s ← put_round s c.(c_i)
      (RoundData.with_timeout rd (true, (RoundData.timeout_triggered rd).2)
         (Some (Timeout.new c.(c_now) s.(height) s.(round) Prevote)));
    Ret (env, s, ros)
  else Ret l.

(** line 36: seen 2f+1 valid prevotes: lock, valid, precommit.  The validity
    check runs before the test of the step. *)
Definition cond_36 (c : Ctx) (l : Loop) : outcome Loop :=
  let '(env, s, ros) := l in
  if c.(c_on_roster) && c.(c_current) && c.(c_enough)
    && (c.(c_big) <=? ConsensusCounts.yes_prevotes c.(c_counts))
  then
    '(env, s, status) ← proposal_is_valid env s c.(c_i);
    if bool_decide (status = Pass)
      && (bool_decide (s.(step) = Prevote) || bool_decide (s.(step) = Precommit))
    then
      s ← (if decide (s.(step) = Prevote) then
           rd ← index s.(rounds_data) c.(c_i);
           broadcast_step (with_locked s (Some (RoundData.proposal rd), s.(round))) ros
             c.(c_i) (MPrecommit (RoundData.proposal_id rd))
           else Ret s);
      rd ← index s.(rounds_data) c.(c_i);
      Ret (env, with_valid s (Some (RoundData.proposal rd), s.(round)), ros)
    else Ret (env, s, ros)
  else Ret l.

(** line 44: seen 2f+1 nil prevotes: precommit nil *)
Definition cond_44 (c : Ctx) (l : Loop) : outcome Loop :=
  let '(env, s, ros) := l in
  if c.(c_on_roster) && c.(c_current)
    && (c.(c_big) <=? ConsensusCounts.nil_prevotes c.(c_counts))
    && bool_decide (s.(step) = Prevote)
  then s ← broadcast_step s ros c.(c_i) (MPrecommit ValueId_NIL); Ret (env, s, ros)
  else Ret l.

(** line 47: last orders on precommit period *)
Definition cond_47 (c : Ctx) (l : Loop) : outcome Loop :=
  let '(env, s, ros) := l in
  rd ← index s.(rounds_data) c.(c_i);
  if c.(c_on_roster) && c.(c_current)
    && (c.(c_big) <=? ConsensusCounts.precommits c.(c_counts))
    && negb (RoundData.timeout_triggered rd).2
  then
    s ← put_round s c.(c_i)
      (RoundData.with_timeout rd ((RoundData.timeout_triggered rd).1, true)
         (Some (Timeout.new c.(c_now) s.(height) s.(round) Precommit)));
    Ret (env, s, ros)
  else Ret l.

(** line 49: value decided *)
Definition decide_value (c : Ctx) (env : E) (s : t) (ros : list SortedRosterMember.t)
    : outcome Loop :=
  rd ← index s.(rounds_data) c.(c_i);
  fp ← round_data_to_fat_pointer rd ros;
  '(env, ros) ← push_block_closure cl env (RoundData.proposal rd) fp
            (RoundData.proposal_sigs rd);
  h ← arith 64 (s.(height) + 1);
  let rds := filter (λ r, RoundData.height r < h) s.(rounds_data) in
  let s := decided s h rds (s.(recent_commit_round_cache) ++ [rd]) in
  '(env, s) ← start_round env s ros c.(c_now) 0;
  Ret (env, s, ros).

Definition cond_49 (c : Ctx) (l : Loop) : outcome Loop :=
  let '(env, s, ros) := l in
  rd ← index s.(rounds_data) c.(c_i);
  if (s.(height) =? RoundData.height rd) && c.(c_enough)
    && (c.(c_big) <=? ConsensusCounts.yes_precommits c.(c_counts))
  then
    '(env, s, status) ← proposal_is_valid env s c.(c_i);
    if decide (status = Pass) then decide_value c env s ros else Ret (env, s, ros)
  else Ret l.

(** line 55: round catchup *)
Definition cond_55 (c : Ctx) (l : Loop) : outcome Loop :=
  let '(env, s, ros) := l in
  rd ← index s.(rounds_data) c.(c_i);
  if c.(c_on_roster) && (s.(height) =? RoundData.height rd)
    && (s.(round) <? RoundData.round rd)
    && (c.(c_small) <=? ConsensusCounts.anys c.(c_counts))
  then '(env, s) ← start_round env s ros c.(c_now) (RoundData.round rd); Ret (env, s, ros)
  else Ret l.

(** timeouts *)
Definition handle_timeout (c : Ctx) (l : Loop) : outcome Loop :=
  let '(env, s, ros) := l in
  rd ← index s.(rounds_data) c.(c_i);
  match RoundData.active_timeout rd with
  | None => Ret l
  | Some to =>
      if (Timeout.time to <=? c.(c_now)) && (s.(height) =? Timeout.height to)
        && (s.(round) =? Timeout.round to) && c.(c_on_roster)
      then
        match Timeout.step to with
        | Propose =>
            if decide (s.(step) = Propose) then
              s ← broadcast_step s ros c.(c_i) (MPrevote ValueId_NIL); Ret (env, s, ros)
            else Ret l
        | Prevote =>
            if decide (s.(step) = Prevote) then
              s ← broadcast_step s ros c.(c_i) (MPrecommit ValueId_NIL); Ret (env, s, ros)
            else Ret l
        | Precommit =>
            r ← arith 32 (s.(round) + 1);
            '(env, s) ← start_round env s ros c.(c_now) r; Ret (env, s, ros)
        end
      else Ret l
  end.

(** One iteration of the loop. *)
Definition bft_update_round (now big small : Z) (l : Loop) (i : nat) : outcome Loop :=
  let '(env, s, ros) := l in
  rd ← index s.(rounds_data) i;
  let c := {| c_now := now; c_big := big; c_small := small; c_i := i;
              c_on_roster := bool_decide (is_Some
                                          (roster_i_from_pub_key (active_roster ros) s.(my_pub_key)));
              c_counts := RoundData.counts rd;
              c_enough := RoundData.has_enough_info_to_determine_validity rd;
              c_current := (s.(height) =? RoundData.height rd)
                     && (s.(round) =? RoundData.round rd) |} in
  l ← cond_22 c l;
  l ← cond_28 c l;
  l ← cond_34 c l;
  l ← cond_36 c l;
  l ← cond_44 c l;
  l ← cond_47 c l;
  l ← cond_49 c l;
  l ← cond_55 c l;
  handle_timeout c l.

Definition current_height_start_i (s : t) : nat :=
  match binary_search s.(rounds_data) s.(height) 0 with
  | inl i => i
  | inr _ => 0
  end.

Definition bft_update (now : Z) (env : E) (s : t) (ros : list SortedRosterMember.t)
    : outcome Loop :=
  total ← total_active_stake ros;
  '(big, small) ← thresholds total;
  let start := current_height_start_i s in
  for_each (bft_update_round now big small)
    (seq start (length s.(rounds_data) - start)) (env, s, ros).
End rounds.
