(* ===== verification/NodeInv.v ===== *)
(** * NodeInv: what a node's state promises

    The rounds are sorted by height and round, none is ahead of the node's
    height, every round of the current height is consistent with the current
    roster ([RoundInv.round_ok]) and every stored vote carries a signature of
    the member it is stored for.  Receiving a message, broadcasting, starting
    a round and the whole of [bft_update] keep this. *)

From stdpp Require Import base list sets sorting.
From S2P Require Import Prelude Wire Encoding Bft Roster Round RoundInv Node.
Import SortedRosterMember TMState.

(** ** Sorted rounds *)

Definition rd_lt (a b : RoundData.t) : Prop :=
  key_lt a (RoundData.height b) (RoundData.round b) = true.

Lemma key_lt_spec rd h r :
  key_lt rd h r = true ↔
  RoundData.height rd < h ∨ (RoundData.height rd = h ∧ RoundData.round rd < r).
Proof. unfold key_lt. lia. Qed.

Lemma rd_lt_trans a b c : rd_lt a b → rd_lt b c → rd_lt a c.
Proof. unfold rd_lt. rewrite !key_lt_spec. lia. Qed.

Lemma partition_point_prefix {A} (p : A → bool) l :
  Forall (λ x, p x = true) (take (partition_point p l) l) ∧
  ∀ x, l !! partition_point p l = Some x → p x = false.
Proof.
  induction l as [|x l [IH1 IH2]]; cbn; [by split; [constructor|]|].
  destruct (p x) eqn:E; cbn; [by split; [constructor|]|].
  split; [constructor|naive_solver].
Qed.

(** The search finds the round with the key, or the place where inserting it
    keeps the rounds sorted. *)
Lemma binary_search_spec rds h r :
  StronglySorted rd_lt rds →
  match binary_search rds h r with
  | inl i => ∃ rd, rds !! i = Some rd ∧ RoundData.height rd = h ∧ RoundData.round rd = r
  | inr i => (i ≤ length rds)%nat ∧
      Forall (λ rd, key_lt rd h r = true) (take i rds) ∧
      Forall (λ rd, key_lt rd h r = false ∧ key_eq rd h r = false) (drop i rds)
  end.
Proof.
  intros Hs. unfold binary_search. set (i := partition_point _ rds).
  destruct (partition_point_prefix (λ rd, key_lt rd h r) rds) as [Hpre Hi]. fold i in Hpre, Hi.
  pose proof (partition_point_le (λ rd, key_lt rd h r) rds) as Hle. fold i in Hle.
  destruct (rds !! i) as [rd|] eqn:Erd.
  - specialize (Hi rd eq_refl). destruct (key_eq rd h r) eqn:Ek.
    { unfold key_eq in Ek. exists rd. split; [done|]. lia. }
    split; [done|]. split; [done|]. rewrite (drop_S _ _ _ Erd). constructor; [done|].
    rewrite <- (take_drop_middle _ _ _ Erd) in Hs. apply StronglySorted_app in Hs as (_ & _ & Hs).
    inversion_clear Hs as [|? ? _ Hrd]. eapply Forall_impl; [exact Hrd|]. cbn.
    intros y Hy. unfold rd_lt in Hy. rewrite key_lt_spec in Hy. unfold key_lt, key_eq in *. lia.
  - apply lookup_ge_None in Erd. rewrite drop_ge by done. done.
Qed.

Lemma sorted_insert rds i rd :
  StronglySorted rd_lt rds → Forall (λ x, rd_lt x rd) (take i rds) →
  Forall (λ x, rd_lt rd x) (drop i rds) →
  StronglySorted rd_lt (take i rds ++ [rd] ++ drop i rds).
Proof.
  intros Hs Ht Hd. rewrite <- (take_drop i rds) in Hs.
  apply StronglySorted_app in Hs as (Hx & H1 & H2).
  apply StronglySorted_app. split; [|split; [done|by constructor]].
  intros x y Hxin [->|Hy]%elem_of_cons; [by eapply Forall_forall in Ht|]. eauto.
Qed.

(** Replacing a round by one with the same key keeps the rounds sorted. *)
Lemma sorted_replace rds i rd rd' :
  StronglySorted rd_lt rds → rds !! i = Some rd →
  RoundData.height rd' = RoundData.height rd → RoundData.round rd' = RoundData.round rd →
  StronglySorted rd_lt (<[i:=rd']> rds).
Proof.
  intros Hs Hi Hh Hr. revert i Hi. induction Hs as [|x l Hl IH Hx]; intros [|i]; cbn; try done.
  - intros [= ->]. constructor; [done|]. eapply Forall_impl; [exact Hx|]. cbn.
    intros y. unfold rd_lt. rewrite !key_lt_spec. lia.
  - intros Hi. constructor; [by apply IH|]. apply Forall_insert; [done|].
    eapply Forall_lookup in Hx; [|exact Hi]. unfold rd_lt in *. by rewrite Hh, Hr.
Qed.

(** ** Signed votes *)

(** The bytes a vote signs. *)
Definition vote_data (pk : PubKeyID) (pc : bool) (h r : Z) (id : ValueId) : bytes :=
  pk ++ id ++ to_le 8 h ++ to_le 4 ((r + 0x80000000 * b2z pc) mod 2 ^ 32).

Lemma arith_mod `{Profile} w z x : 0 ≤ w → arith w z = Ret x → x = z mod 2 ^ w.
Proof.
  unfold arith. intros Hw. destruct (in_range w z) eqn:E.
  - intros [= <-]. unfold in_range in E. symmetry. apply Z.mod_small. lia.
  - by case_match; intros [= <-].
Qed.

Lemma make_vote_sign_datas_Ret `{Profile} pk pc h r id no yes :
  length pk = 32%nat → length id = 32%nat →
  make_vote_sign_datas pk pc h r id = Ret (no, yes) →
  no = vote_data pk pc h r ValueId_NIL ∧ yes = vote_data pk pc h r id.
Proof.
  intros Hpk Hid. unfold make_vote_sign_datas, vote_data. intros Hm. inv_ret.
  apply arith_mod in E; [|lia].
  replace (if pc then 1 else 0) with (b2z pc) in E by (by destruct pc). rewrite <- E. clear E.
  change (zeros 76) with ([] ++ zeros 32 ++ zeros 32 ++ zeros 8 ++ zeros 4) in E0.
  rewrite copy_at_app in E0 by done. cbn [app] in E0. inv_ret.
  rewrite app_assoc, copy_at_app in E1 by len. inv_ret.
  rewrite <- app_assoc, !(app_assoc _ _ (_ ++ zeros 4)) in E2.
  rewrite <- (app_nil_r (zeros 4)) in E2.
  rewrite !(app_assoc (_ ++ _) _ (zeros 4 ++ [])), copy_at_app in E2 by len. inv_ret.
  rewrite app_nil_r, <- !app_assoc in E3. rewrite copy_at_app in E3 by len. inv_ret.
  injection Hm as <- <-. rewrite ?app_nil_r, <- ?app_assoc. done.
Qed.

Section node_inv.
Context {P : Profile} {C : Crypto}.

(** What the node relies on about its roster: stakes that fit, 32-byte keys,
    and no key for which the all-zero signature, which the code uses as
    "no signature", would be valid. *)
Record roster_ok (ros : list SortedRosterMember.t) : Prop := {
  rk_stakes : roster_wf ros;
  rk_keys : Forall (λ m, length m.(SortedRosterMember.pub_key) = 32%nat) ros;
  rk_nil : Forall (λ m, ∀ d, TMSig_verify TMSig_NIL m.(SortedRosterMember.pub_key) d = false) ros }.

Definition vote_signed (pk : PubKeyID) (h r : Z) (pc : bool) (v : ValueId * TMSig) : Prop :=
  v.2 ≠ TMSig_NIL → TMSig_verify v.2 pk (vote_data pk pc h r v.1) = true.

Definition votes_signed (ros : list SortedRosterMember.t) (rd : RoundData.t) : Prop :=
  ∀ i slots m pc, RoundData.msg_val_sigs rd !! i = Some slots → ros !! i = Some m →
    vote_signed m.(SortedRosterMember.pub_key) (RoundData.height rd) (RoundData.round rd) pc
    (get_slot slots pc).

Record rd_inv (keys : HashKeys) (ros : list SortedRosterMember.t) (rd : RoundData.t) : Prop := {
  ri_round : round_ok keys ros rd;
  ri_id : length (RoundData.proposal_id rd) = 32%nat;
  ri_signed : votes_signed ros rd }.

Record node_ok (ros : list SortedRosterMember.t) (s : t) : Prop := {
  no_sorted : StronglySorted rd_lt s.(rounds_data);
  no_heights : Forall (λ rd, RoundData.height rd ≤ s.(height)) s.(rounds_data);
  no_ids : Forall (λ rd, length (RoundData.proposal_id rd) = 32%nat) s.(rounds_data);
  no_rounds : Forall (λ rd, RoundData.height rd = s.(height) → rd_inv s.(hash_keys) ros rd)
          s.(rounds_data) }.

(** Two states that differ at most in their rounds. *)
Definition same_node (s s' : t) : Prop := s' = with_rounds s s'.(rounds_data).

Lemma same_node_refl s : same_node s s.
Proof. by destruct s. Qed.

Lemma same_node_trans s1 s2 s3 : same_node s1 s2 → same_node s2 s3 → same_node s1 s3.
Proof. unfold same_node. intros H1 H2. rewrite H2, H1. done. Qed.

Lemma same_node_fields s s' : same_node s s' →
  s'.(hash_keys) = s.(hash_keys) ∧ s'.(height) = s.(height) ∧ s'.(round) = s.(round) ∧
  s'.(step) = s.(step) ∧ s'.(my_pub_key) = s.(my_pub_key) ∧
  s'.(locked_value_round) = s.(locked_value_round) ∧
  s'.(valid_value_round) = s.(valid_value_round) ∧
  s'.(recent_commit_round_cache) = s.(recent_commit_round_cache).
Proof. intros ->. done. Qed.

Lemma votes_signed_nil ros rd n :
  RoundData.msg_val_sigs rd = replicate n slots_nil → votes_signed ros rd.
Proof.
  intros Hr i slots m pc Hi _. rewrite Hr in Hi. apply lookup_replicate in Hi as [-> _].
  by destruct pc; intros [].
Qed.

Lemma fresh_round_inv keys ros h r :
  stake_bounded ros → rd_inv keys ros (RoundData.fresh_round h r ros).
Proof.
  intros. split; [by apply fresh_round_ok|done|by eapply votes_signed_nil].
Qed.

Section on_roster.
Context (ros : list SortedRosterMember.t) (Hros : roster_ok ros).

Lemma roster_bounded : stake_bounded ros.
Proof. apply roster_wf_bounded, Hros. Qed.

(** Inserting the round a message belongs to. *)
Lemma find_or_insert_round_inv s r seen i s' :
  node_ok ros s → find_or_insert_round s s.(height) r ros = (seen, i, s') →
  node_ok ros s' ∧ same_node s s' ∧
  ∃ rd, s'.(rounds_data) !! i = Some rd ∧ RoundData.height rd = s.(height) ∧
  RoundData.round rd = r ∧ (seen = false → rd = RoundData.fresh_round s.(height) r ros) ∧
  (∀ rd0, rd0 ∈ s.(rounds_data) → rd0 ∈ s'.(rounds_data)).
Proof.
  intros Hok Hf. unfold find_or_insert_round in Hf. pose proof Hok as [Hs Hh Hid Hr].
  pose proof (binary_search_spec _ s.(height) r Hs) as Hb.
  destruct (binary_search _ _ _) as [j|j]; simplify_eq.
  - destruct Hb as (rd & Hi & Eh & Er). split; [done|]. split; [apply same_node_refl|].
    exists rd. naive_solver.
  - destruct Hb as (Hj & Hlt & Hgt).
    set (rd := RoundData.fresh_round s.(height) r ros). split; [split|split; [done|exists rd]].
    + cbn. apply sorted_insert; [done|done|]. eapply Forall_impl; [exact Hgt|].
      intros x [Hx1 Hx2]. unfold rd_lt. apply key_lt_spec. cbn. unfold key_lt, key_eq in *. lia.
    + cbn. apply Forall_app. split; [by apply Forall_take|]. constructor; [cbn; lia|by apply Forall_drop].
    + cbn. apply Forall_app. split; [by apply Forall_take|]. constructor; [done|by apply Forall_drop].
    + cbn. apply Forall_app. split; [by apply Forall_take|].
      constructor; [intros _; apply fresh_round_inv, roster_bounded|by apply Forall_drop].
    + cbn. split; [|split; [done|split; [done|split; [done|]]]].
      * rewrite lookup_app_r by len. by replace (_ - _)%nat with 0%nat by len.
      * intros rd0. rewrite <- (take_drop i s.(rounds_data)) at 1. set_solver.
Qed.

Lemma put_round_inv s i rd rd' :
  node_ok ros s → s.(rounds_data) !! i = Some rd →
  RoundData.height rd' = RoundData.height rd → RoundData.round rd' = RoundData.round rd →
  length (RoundData.proposal_id rd') = 32%nat →
  (RoundData.height rd' = s.(height) → rd_inv s.(hash_keys) ros rd') →
  node_ok ros (with_rounds s (<[i:=rd']> s.(rounds_data))).
Proof.
  intros [Hs Hh Hids Hr] Hi Eh Er Hid Hinv. split; cbn.
  - by eapply sorted_replace.
  - apply Forall_insert; [done|]. rewrite Eh. by eapply Forall_lookup in Hh.
  - by apply Forall_insert.
  - by apply Forall_insert.
Qed.

(** *** Receiving a message *)

(** The part of the invariant that does not concern the proposal store. *)
Definition votes_inv (h r : Z) (rd : RoundData.t) : Prop :=
  RoundData.height rd = h ∧ RoundData.round rd = r ∧
    length (RoundData.proposal_id rd) = 32%nat ∧ votes_signed ros rd.

Lemma prepare_votes_inv h r rd seen mine size id vr rd' :
  votes_inv h r rd → length id = 32%nat →
  prepare_proposal_store rd seen mine size id vr ros = Some rd' → votes_inv h r rd'.
Proof.
  intros (? & ? & ? & Hs) Hid. unfold prepare_proposal_store.
  destruct (seen && _); [|by intros [= <-]].
  case_match; [intros [= <-]; repeat (split; [done|])|repeat (case_match; try done); by intros [= <-]].
  by eapply votes_signed_nil.
Qed.

Lemma scrub_signed id pk h r pc slots :
  vote_signed pk h r pc (get_slot slots pc) → vote_signed pk h r pc (get_slot (scrub id slots) pc).
Proof.
  destruct slots as [p c], pc; unfold scrub, scrub_slot; cbn; case_decide; try done; by intros _ [].
Qed.

Lemma adopted_votes_inv h r rd id :
  votes_inv h r rd → length id = 32%nat → votes_inv h r (adopted ros rd id).
Proof.
  intros (? & ? & ? & Hs) Hid. unfold adopted. case_decide; [|done].
  repeat (split; [done|]). intros i slots m pc Hi Hm. cbn in Hi.
  apply list_lookup_fmap_Some in Hi as (slots0 & -> & Hi).
  apply scrub_signed. by eapply Hs.
Qed.

Lemma chunk_result_votes_inv h r keys rd mine i id vr size data sig rd' st :
  votes_inv h r rd → length id = 32%nat →
  chunk_result keys ros rd mine i id vr size data sig rd' st → votes_inv h r rd'.
Proof.
  intros Hv Hid [].
  - subst. by apply adopted_votes_inv.
  - subst. exact (adopted_votes_inv h r (placed rd i vr data sig) id Hv Hid).
  - done.
  - done.
  - destruct Hv as (? & ? & _). repeat (split; [done|]). by eapply votes_signed_nil.
Qed.

Lemma vote_stored_votes_inv h r rd pc id i sig rd' m :
  votes_inv h r rd → ros !! i = Some m →
  TMSig_verify sig m.(SortedRosterMember.pub_key)
  (vote_data m.(SortedRosterMember.pub_key) pc h r id) = true →
  vote_stored ros rd pc id i sig rd' → votes_inv h r rd'.
Proof.
  intros (Eh & Er & ? & Hs) Hm Hver (slots & Hi & _ & ->). repeat (split; [done|]).
  intros j slots' m' pc' Hj Hm'. cbn in Hj |- *.
  apply list_lookup_insert_Some in Hj as [(<- & <- & _)|(Hne & Hj)]; [|by eapply Hs].
  rewrite Hm in Hm'. injection Hm' as <-. rewrite Eh, Er.
  destruct (decide (pc' = pc)) as [->|Hpc].
  - replace (get_slot (set_slot slots pc (id, sig)) pc) with (id, sig) by (by destruct pc).
    by intros _.
  - replace (get_slot (set_slot slots pc (id, sig)) pc') with (get_slot slots pc')
      by (by destruct pc, pc'). rewrite <- Eh, <- Er. by eapply Hs.
Qed.

(** What the callers of [check_and_incorporate_msg] pass for a vote: a
    32-byte value id and the bytes that vote signs. *)
Definition msg_typed (h r : Z) (id : ValueId) (roster_i : nat) (packet_type : Z)
    (signed_data : bytes) : Prop :=
  length id = 32%nat ∧
    ∀ m pc, ros !! roster_i = Some m → packet_type = PACKET_TYPE_PREVOTE_SIGNATURES + b2z pc →
    signed_data = vote_data m.(SortedRosterMember.pub_key) pc h r id.

Lemma rd_inv_split keys rd :
  rd_inv keys ros rd ↔ round_ok keys ros rd ∧
  votes_inv (RoundData.height rd) (RoundData.round rd) rd.
Proof.
  split; [intros [? ? ?]; split; [done|by split]|intros (? & _ & _ & ? & ?); by split].
Qed.

Lemma handle_msg_inv keys rd seen mine chunk_i id vr i pt data sig rd' st m :
  rd_inv keys ros rd → (seen = false → RoundData.proposal_sigs_n rd = 0) →
  (i < active_roster_len ros)%nat → ros !! i = Some m → sig ≠ TMSig_NIL →
  TMSig_verify sig m.(SortedRosterMember.pub_key) data = true →
  msg_typed (RoundData.height rd) (RoundData.round rd) id i pt data →
  handle_msg keys rd seen mine chunk_i id vr ros i pt data sig = Ret (rd', st) →
  rd_inv keys ros rd' ∧ RoundData.height rd' = RoundData.height rd ∧
  RoundData.round rd' = RoundData.round rd.
Proof.
  rewrite !rd_inv_split. intros [Hok Hv] Hseen Hi Hm Hsig Hver [Hid Hty] Hh.
  enough (round_ok keys ros rd' ∧ votes_inv (RoundData.height rd) (RoundData.round rd) rd')
    as (? & Eh & Er & ?).
  { rewrite Eh, Er. split; [split; [done|by split]|done]. }
  pose proof roster_bounded as Hb. unfold handle_msg in Hh.
  destruct (pt =? PACKET_TYPE_PROPOSAL_CHUNK); [|destruct ((pt =? _) || _) eqn:Ept].
  - unfold incorporate_proposal_chunk in Hh.
    destruct (PacketProposalChunkHeader.read_from data) as [[hdr rest]|] eqn:Er; [|naive_solver].
    destruct (prepare_proposal_store _ _ _ _ _ _ _) as [rd0|] eqn:Ep; [|naive_solver].
    pose proof (read_from_size _ _ _ Er) as Hsize.
    destruct (prepare_ok _ _ _ _ _ _ _ _ _ Hsize Hok Hseen Ep) as [Hok0 _].
    destruct (store_chunk_inv _ _ Hb _ _ _ _ _ _ _ _ _ _ Hok0 Hsig Hsize Hh) as [? [d Hres]].
    split; [done|]. eapply chunk_result_votes_inv; [|done|done].
    by eapply prepare_votes_inv.
  - destruct (incorporate_vote_cases keys ros Hb rd (pt =? PACKET_TYPE_PRECOMMIT_SIGNATURES)
      id i sig Hok Hi) as [[_ E]|(Hrej & rd1 & E & Hst)]; rewrite E in Hh; [naive_solver|].
    simplify_eq. split; [by eapply vote_stored_ok|].
    eapply vote_stored_votes_inv; [done|done| |done].
    rewrite <- (Hty m (pt =? PACKET_TYPE_PRECOMMIT_SIGNATURES)); [done|done|].
    unfold PACKET_TYPE_PREVOTE_SIGNATURES, PACKET_TYPE_PRECOMMIT_SIGNATURES, b2z in *.
    destruct (Z.eqb_spec pt 9); lia.
  - naive_solver.
Qed.

Lemma check_and_incorporate_msg_inv s h r chunk_i id vr i pt data sig s' st :
  node_ok ros s → msg_typed h r id i pt data →
  check_and_incorporate_msg s h r chunk_i id vr ros i pt data sig = Ret (s', st) →
  node_ok ros s' ∧ same_node s s'.
Proof.
  intros Hok Hty Hc. unfold check_and_incorporate_msg in Hc.
  destruct (Z.eqb_spec h s.(height)) as [->|]; cbn [negb] in Hc; [|simplify_eq; auto using same_node_refl].
  case_decide as Hi; [simplify_eq; auto using same_node_refl|].
  inv_ret. cbn zeta in Hc.
  destruct (TMSig_verify sig _ data) eqn:Ever; cbn [negb] in Hc; [|simplify_eq; auto using same_node_refl].
  destruct (find_or_insert_round s s.(height) r ros) as [[seen ri] s1] eqn:Ef.
  destruct (find_or_insert_round_inv s r seen ri s1 Hok Ef)
    as (Hok1 & Hsame & rd & Hrd & Eh & Er & Hseen & _).
  inv_ret. rewrite Hrd in E0. injection E0 as <-. simplify_eq.
  pose proof (same_node_fields _ _ Hsame) as (Ek & Ehh & _).
  assert (sig ≠ TMSig_NIL) as Hsig.
  { intros ->. destruct Hros as [_ _ Hnil]. eapply Forall_lookup in Hnil; [|exact E]. by rewrite Hnil in Ever. }
  pose proof Hok1 as [_ _ _ Hr1]. eapply Forall_lookup in Hr1; [|exact Hrd].
  destruct (handle_msg_inv s1.(hash_keys) rd seen _ chunk_i id vr i pt data sig _ st _
    (Hr1 ltac:(by rewrite Eh, Ehh)) ltac:(by intros ->%Hseen) ltac:(lia) E Hsig Ever
    ltac:(by rewrite Eh) E1) as (Hinv' & Eh' & Er').
  split.
  - eapply put_round_inv; [done|done|done|done|apply Hinv'|]. intros _. exact Hinv'.
  - rewrite Hsame. done.
Qed.

(** *** Broadcasting *)

Context {CL : CryptoLaws C}.

Lemma broadcast_chunk_inv i h r v vr s ci s' :
  node_ok ros s → broadcast_chunk ros i h r v vr s ci = Ret s' →
  node_ok ros s' ∧ same_node s s'.
Proof.
  intros Hok Hb. unfold broadcast_chunk in Hb. inv_ret.
  eapply check_and_incorporate_msg_inv; [done| |done]. split; [apply keyed_hash_length|].
  intros m pc _ Hpt. destruct pc; vm_compute in Hpt; lia.
Qed.

Lemma broadcast_vote_inv s i h r pc id s' st :
  node_ok ros s → length id = 32%nat → broadcast_vote s ros i h r pc id = Ret (s', st) →
  node_ok ros s' ∧ same_node s s' ∧ st = if pc then Precommit else Prevote.
Proof.
  intros Hok Hid Hb. unfold broadcast_vote in Hb. inv_ret. simplify_eq.
  enough (node_ok ros s' ∧ same_node s s') by naive_solver.
  eapply check_and_incorporate_msg_inv; [done| |done]. split; [done|].
  intros m pc' Hm Hpt. rewrite Hm in E. injection E as <-.
  assert (pc' = pc) as -> by (destruct pc, pc'; vm_compute in Hpt; lia).
  eapply make_vote_sign_datas_Ret; [|done|done].
  destruct Hros as [_ Hk _]. by eapply Forall_lookup in Hk.
Qed.

Definition msg_id (m : TMMsgData) : ValueId :=
  match m with MProposal _ _ => ValueId_NIL | MPrevote id | MPrecommit id => id end.

Lemma broadcast_inv s i msg s' st :
  node_ok ros s → length (msg_id msg) = 32%nat → broadcast s ros i msg = Ret (s', st) →
  node_ok ros s' ∧ same_node s s'.
Proof.
  intros Hok Hid Hb. unfold broadcast in Hb. inv_ret. cbn zeta in Hb.
  destruct (roster_i_from_pub_key _ _) as [ri|]; [|simplify_eq; auto using same_node_refl].
  destruct msg as [v vr|id|id]; [|by edestruct broadcast_vote_inv as (? & ? & _)..].
  inv_ret. simplify_eq.
  eapply (for_each_inv (λ x, node_ok ros x ∧ same_node s x)); [| |exact E1].
  - intros ci s1 s2 _ [Hok1 Hsame1] Hc.
    destruct (broadcast_chunk_inv _ _ _ _ _ _ _ _ Hok1 Hc) as [? ?].
    eauto using same_node_trans.
  - auto using same_node_refl.
Qed.
End on_roster.
End node_inv.

(** ** The update loop *)

(** What the finality layer promises to the node: an invariant of its own state
    that each closure keeps, and that the roster it answers with when a block
    is decided is one a node can use. *)
Class EngineClient {C : Crypto} {E : Type} (cl : Closures E) := {
  env_ok : E → Prop;
  client_propose env env' v :
    env_ok env → propose_closure cl env = Ret (env', v) → env_ok env';
  client_validate env v env' st :
    env_ok env → validate_closure cl env v = Ret (env', st) → env_ok env';
  client_push env v fp sigs env' ros' :
    env_ok env → push_block_closure cl env v fp sigs = Ret (env', ros') →
    env_ok env' ∧ roster_ok ros' }.

Section update_inv.
Context {P : Profile} {C : Crypto} {CL : CryptoLaws C} {E : Type} (cl : Closures E).
Context {EC : EngineClient cl}.

Lemma node_ok_frame ros s s' :
  node_ok ros s → s'.(rounds_data) = s.(rounds_data) → s'.(height) = s.(height) →
  s'.(hash_keys) = s.(hash_keys) → node_ok ros s'.
Proof. intros [? ? ? ?] Hr Hh Hk. split; by rewrite ?Hr, ?Hh, ?Hk. Qed.

(** Changing only the cached validity or the timeouts of a round. *)
Definition same_votes (rd rd' : RoundData.t) : Prop :=
  rd' = RoundData.with_timeout
    (RoundData.with_validity rd (RoundData.proposal_checked_validity rd'))
    (RoundData.timeout_triggered rd') (RoundData.active_timeout rd').

Lemma same_votes_inv keys ros rd rd' :
  same_votes rd rd' → (round_ok keys ros rd → pass_ok keys rd') →
  rd_inv keys ros rd → rd_inv keys ros rd'.
Proof.
  intros Hsv Hp [Hok ? ?]. specialize (Hp Hok). rewrite Hsv in Hp |- *. destruct Hok as [[] ? ?].
  split; [split; [by split|done|done]|done|done].
Qed.

Lemma put_same_votes ros s i rd rd' s' :
  node_ok ros s → s.(rounds_data) !! i = Some rd → same_votes rd rd' →
  (round_ok s.(hash_keys) ros rd → pass_ok s.(hash_keys) rd') →
  put_round s i rd' = Ret s' → node_ok ros s' ∧ same_node s s'.
Proof.
  intros Hok Hi Hsv Hpass Hp. unfold put_round in Hp. inv_ret. split; [|done].
  pose proof Hok as [_ _ Hid Hr]. eapply Forall_lookup in Hr; [|exact Hi].
  eapply Forall_lookup in Hid; [|exact Hi].
  eapply put_round_inv; [done|done|by rewrite Hsv..|].
  intros Hh. eapply same_votes_inv; [done|done|]. apply Hr. by rewrite Hsv in Hh.
Qed.

Lemma broadcast_step_inv ros s i msg s' :
  roster_ok ros → node_ok ros s → length (msg_id msg) = 32%nat →
  broadcast_step s ros i msg = Ret s' → node_ok ros s' ∧ s'.(height) = s.(height).
Proof.
  intros Hros Hok Hid Hb. unfold broadcast_step in Hb. inv_ret.
  destruct (broadcast_inv ros Hros s i msg _ _ Hok Hid E0) as [Hok' Hs].
  split; [by eapply node_ok_frame|]. by rewrite Hs.
Qed.

Lemma start_round_inv ros env s now r env' s' :
  roster_ok ros → node_ok ros s → start_round cl env s ros now r = Ret (env', s') →
  node_ok ros s' ∧ s'.(height) = s.(height).
Proof.
  intros Hros Hok Hsr. unfold start_round in Hsr. cbn zeta in Hsr.
  destruct (find_or_insert_round _ _ _ _) as [[seen i] s1] eqn:Ef.
  assert (node_ok ros (with_round s r)) as Hok0 by (by eapply node_ok_frame).
  destruct (find_or_insert_round_inv ros Hros (with_round s r) r seen i s1 Hok0 Ef) as (Hok1 & Hs1 & _).
  inv_ret. assert (s1.(height) = s.(height)) as Hh1 by (by rewrite Hs1).
  assert (node_ok ros t0 ∧ t0.(height) = s.(height)) as [Hok2 Hh2].
  { rewrite <- Hh1. case_decide.
    - apply bind_Ret_inv in E1 as ([env1 [v|]] & _ & E1); inv_ret; simplify_eq;
        [by eapply (broadcast_step_inv ros s1 i (MProposal v _))|split; [by eapply node_ok_frame|done]].
    - simplify_eq. split; [by eapply node_ok_frame|done]. }
  simplify_eq.
  edestruct put_same_votes as [? Hs3]; [exact Hok2|done|..|done|]; [done|by intros []|].
  split; [done|]. by rewrite Hs3.
Qed.

Lemma proposal_is_valid_inv ros env s i env' s' st :
  node_ok ros s → proposal_is_valid cl env s i = Ret (env', s', st) →
  node_ok ros s' ∧ same_node s s'.
Proof.
  intros Hok Hp. unfold proposal_is_valid in Hp. inv_ret.
  case_decide; [|simplify_eq; auto using same_node_refl]. inv_ret. simplify_eq.
  eapply put_same_votes; [done|done|..|done].
  - repeat case_match; inv_ret; simplify_eq; by match goal with rd : RoundData.t |- _ => destruct rd end.
  - intros [_ Hid Hpass]. destruct (RoundData.proposal_is_faulty _) eqn:Ef; [by simplify_eq|].
    destruct (RoundData.has_full_proposal _) eqn:Efull; inv_ret; simplify_eq; [|done].
    intros _. split; [done|]. by apply Hid.
Qed.

(** The closures only ever see a state of the client that satisfies its
    invariant. *)
Lemma start_round_env env s ros now r env' s' :
  env_ok env → start_round cl env s ros now r = Ret (env', s') → env_ok env'.
Proof.
  intros He Hs. unfold start_round in Hs. cbn zeta in Hs.
  destruct (find_or_insert_round _ _ _ _) as [[seen i] s1]. inv_ret. simplify_eq.
  case_decide; [|by simplify_eq].
  apply bind_Ret_inv in E1 as ([env1 v] & Hv & E1).
  assert (env_ok env1).
  { destruct (valid_value_round s1).1; [by simplify_eq|by eapply client_propose]. }
  destruct v; inv_ret; by simplify_eq.
Qed.

Lemma proposal_is_valid_env env s i env' s' st :
  env_ok env → proposal_is_valid cl env s i = Ret (env', s', st) → env_ok env'.
Proof.
  intros He Hp. unfold proposal_is_valid in Hp. inv_ret.
  case_decide; [|by simplify_eq]. inv_ret. simplify_eq.
  repeat case_match; inv_ret; simplify_eq; [done| |done]. by eapply client_validate.
Qed.

(** The state the loop threads; [k] heights can still be decided. *)
Definition loop_ok (k : Z) (l : Loop (E := E)) : Prop :=
  let '(env, s, ros) := l in
  roster_ok ros ∧ node_ok ros s ∧ 0 ≤ s.(height) < 2 ^ 64 - k ∧ env_ok env.

Lemma prevote_on_inv k env s ros i accept l :
  loop_ok k (env, s, ros) → prevote_on cl env s ros i accept = Ret l → loop_ok k l.
Proof.
  intros (Hros & Hok & Hk) Hp. unfold prevote_on in Hp. inv_ret.
  destruct (proposal_is_valid_inv _ _ _ _ _ _ _ Hok E0) as [Hok1 Hs1].
  edestruct broadcast_step_inv as [? Hh2]; [exact Hros|exact Hok1| |done|].
  - cbn. case_match; [|done]. pose proof Hok1 as [_ _ Hid _]. by eapply Forall_lookup in Hid.
  - split; [done|]. split; [done|]. rewrite Hh2, Hs1. split; [apply Hk|].
    eapply proposal_is_valid_env; [apply Hk|done].
Qed.

Lemma cond_22_inv k c l l' : loop_ok k l → cond_22 cl c l = Ret l' → loop_ok k l'.
Proof.
  destruct l as [[env s] ros]. intros Hl Hc. unfold cond_22 in Hc. inv_ret.
  case_match; [by eapply prevote_on_inv|by simplify_eq].
Qed.

Lemma cond_28_inv k c l l' : loop_ok k l → cond_28 cl c l = Ret l' → loop_ok k l'.
Proof.
  destruct l as [[env s] ros]. intros Hl Hc. unfold cond_28 in Hc. inv_ret. cbn zeta in Hc.
  case_match; [by eapply prevote_on_inv|by simplify_eq].
Qed.

Lemma cond_34_inv k c (l l' : Loop (E := E)) : loop_ok k l → cond_34 c l = Ret l' → loop_ok k l'.
Proof.
  destruct l as [[env s] ros]. intros Hl Hc. unfold cond_34 in Hc. inv_ret.
  case_match; [|by simplify_eq]. inv_ret. destruct Hl as (? & Hok & ?).
  edestruct put_same_votes as [? Hs]; [exact Hok|done|..|done|]; [done|by intros []|].
  split; [done|]. split; [done|]. by rewrite Hs.
Qed.

Lemma cond_47_inv k c (l l' : Loop (E := E)) : loop_ok k l → cond_47 c l = Ret l' → loop_ok k l'.
Proof.
  destruct l as [[env s] ros]. intros Hl Hc. unfold cond_47 in Hc. inv_ret.
  case_match; [|by simplify_eq]. inv_ret. destruct Hl as (? & Hok & ?).
  edestruct put_same_votes as [? Hs]; [exact Hok|done|..|done|]; [done|by intros []|].
  split; [done|]. split; [done|]. by rewrite Hs.
Qed.

Lemma broadcast_loop_inv k env s ros i msg s' :
  loop_ok k (env, s, ros) → length (msg_id msg) = 32%nat →
  broadcast_step s ros i msg = Ret s' → loop_ok k (env, s', ros).
Proof.
  intros (Hros & Hok & ?) Hid Hb. destruct (broadcast_step_inv _ _ _ _ _ Hros Hok Hid Hb) as [? Hh].
  split; [done|]. split; [done|]. by rewrite Hh.
Qed.

Lemma start_round_loop_inv k env s ros now r env' s' :
  loop_ok k (env, s, ros) → start_round cl env s ros now r = Ret (env', s') →
  loop_ok k (env', s', ros).
Proof.
  intros (Hros & Hok & Hk & He) Hs. destruct (start_round_inv _ _ _ _ _ _ _ Hros Hok Hs) as [? Hh].
  split; [done|]. split; [done|]. rewrite Hh. split; [done|by eapply start_round_env].
Qed.

Lemma cond_36_inv k c l l' : loop_ok k l → cond_36 cl c l = Ret l' → loop_ok k l'.
Proof.
  destruct l as [[env s] ros]. intros Hl Hc. unfold cond_36 in Hc.
  case_match; [|by simplify_eq]. inv_ret. pose proof Hl as (Hros & Hok & Hk).
  destruct (proposal_is_valid_inv _ _ _ _ _ _ _ Hok E0) as [Hok1 Hs1].
  assert (loop_ok k (e, t1, ros)) as Hl1.
  { split; [done|]. split; [done|]. rewrite Hs1. split; [apply Hk|].
    eapply proposal_is_valid_env; [apply Hk|done]. }
  case_match; [|by simplify_eq]. inv_ret.
  match goal with |- loop_ok k (_, with_valid ?s2 _, _) =>
    assert (loop_ok k (e, s2, ros)) as (? & ? & ?) end.
  { case_decide; inv_ret; [|done].
    match goal with Hb : broadcast_step _ _ _ _ = _ |- _ =>
      eapply (broadcast_loop_inv k e); [| |exact Hb] end.
    - destruct Hl1 as (? & ? & ?). split; [done|]. split; [by eapply node_ok_frame|done].
    - cbn. pose proof Hok1 as [_ _ Hid _]. by eapply Forall_lookup in Hid. }
  split; [done|]. split; [by eapply node_ok_frame|done].
Qed.

Lemma cond_44_inv k c (l l' : Loop (E := E)) : loop_ok k l → cond_44 c l = Ret l' → loop_ok k l'.
Proof.
  destruct l as [[env s] ros]. intros Hl Hc. unfold cond_44 in Hc.
  case_match; [|by simplify_eq]. inv_ret. by eapply (broadcast_loop_inv k env s ros _ (MPrecommit ValueId_NIL)).
Qed.

Lemma cond_55_inv k c l l' : loop_ok k l → cond_55 cl c l = Ret l' → loop_ok k l'.
Proof.
  destruct l as [[env s] ros]. intros Hl Hc. unfold cond_55 in Hc. inv_ret.
  case_match; [|by simplify_eq]. inv_ret. by eapply start_round_loop_inv.
Qed.

Lemma handle_timeout_inv k c l l' : loop_ok k l → handle_timeout cl c l = Ret l' → loop_ok k l'.
Proof.
  destruct l as [[env s] ros]. intros Hl Hc. unfold handle_timeout in Hc. inv_ret.
  case_match; [|by simplify_eq]. case_match; [|by simplify_eq].
  repeat (case_match; try (simplify_eq; done)); inv_ret.
  - by eapply (broadcast_loop_inv k env s ros _ (MPrevote ValueId_NIL)).
  - by eapply (broadcast_loop_inv k env s ros _ (MPrecommit ValueId_NIL)).
  - by eapply start_round_loop_inv.
Qed.

Lemma loop_ok_mono k k' l : k' ≤ k → loop_ok k l → loop_ok k' l.
Proof. destruct l as [[env s] ros]. unfold loop_ok. intros ? (? & ? & ? & ?). do 2 (split; [done|]). split; [lia|done]. Qed.

(** A decision moves to the next height, for which nothing is stored yet. *)
Lemma decide_value_inv k c env s ros l :
  loop_ok (1 + k) (env, s, ros) → 0 ≤ k →
  decide_value cl c env s ros = Ret l → loop_ok k l.
Proof.
  intros (Hros & Hok & Hk & He) Hk0 Hd. unfold decide_value in Hd. inv_ret.
  rewrite arith_ok in E3 by (unfold is_u; lia). injection E3 as <-.
  match goal with Hp : push_block_closure _ _ _ _ _ = _ |- _ =>
    destruct (client_push _ _ _ _ _ _ He Hp) as [He' Hros'] end.
  eapply start_round_loop_inv; [|done].
  split; [done|]. split; [|split; [cbn; lia|done]].
  pose proof Hok as [Hs Hh Hid Hr].
  assert (filter (λ rd, RoundData.height rd < s.(height) + 1) s.(rounds_data) = s.(rounds_data)) as Hf.
  { apply filter_all. eapply Forall_impl; [exact Hh|]. cbn. lia. }
  split; cbn; rewrite Hf; [done| |done|].
  - eapply Forall_impl; [exact Hh|]. cbn. lia.
  - eapply Forall_impl; [exact Hh|]. cbn. lia.
Qed.

Lemma cond_49_inv k c l l' :
  0 ≤ k → loop_ok (1 + k) l → cond_49 cl c l = Ret l' → loop_ok k l'.
Proof.
  destruct l as [[env s] ros]. intros Hk0 Hl Hc. unfold cond_49 in Hc. inv_ret.
  assert (loop_ok k (env, s, ros)) as Hlk by (eapply loop_ok_mono; [|exact Hl]; lia).
  case_match; [|by simplify_eq]. inv_ret. pose proof Hl as (Hros & Hok & Hk).
  destruct (proposal_is_valid_inv _ _ _ _ _ _ _ Hok E1) as [Hok1 Hs1].
  assert (env_ok e) by (eapply proposal_is_valid_env; [apply Hk|done]).
  case_decide.
  - eapply decide_value_inv; [split; [done|split; [done|]]|done|done]. rewrite Hs1. split; [apply Hk|done].
  - simplify_eq. destruct Hlk as (? & ? & ? & ?). split; [done|]. split; [done|].
    rewrite Hs1. by split.
Qed.

(** Carry [Hl : loop_ok _ _] over the first condition of the chain [Hu]. *)
Ltac next_cond lem Hu Hl :=
  let l1 := fresh "l" in let Hc := fresh "Hc" in
  apply bind_Ret_inv in Hu as (l1 & Hc & Hu);
  eapply (lem _ _ _ Hl) in Hc; clear Hl; rename Hc into Hl.

Lemma bft_update_round_inv k now big small l i l' :
  0 ≤ k → loop_ok (1 + k) l → bft_update_round cl now big small l i = Ret l' → loop_ok k l'.
Proof.
  destruct l as [[env s] ros]. intros Hk Hl Hu. unfold bft_update_round in Hu.
  apply bind_Ret_inv in Hu as (rd & _ & Hu). cbn zeta in Hu.
  next_cond (cond_22_inv (1 + k)) Hu Hl. next_cond (cond_28_inv (1 + k)) Hu Hl.
  next_cond (cond_34_inv (1 + k)) Hu Hl. next_cond (cond_36_inv (1 + k)) Hu Hl.
  next_cond (cond_44_inv (1 + k)) Hu Hl. next_cond (cond_47_inv (1 + k)) Hu Hl.
  next_cond (λ c l l', cond_49_inv k c l l' Hk) Hu Hl. next_cond (cond_55_inv k) Hu Hl.
  by eapply handle_timeout_inv.
Qed.

Lemma bft_update_rounds_inv now big small js l l' :
  loop_ok (Z.of_nat (length js)) l →
  for_each (bft_update_round cl now big small) js l = Ret l' → loop_ok 0 l'.
Proof.
  revert l. induction js as [|i js IH]; intros l Hl; cbn [for_each]; [by intros [= <-]|].
  intros (l1 & Hi & Hrest)%bind_Ret_inv. eapply IH; [|exact Hrest].
  eapply bft_update_round_inv; [| |exact Hi]; [lia|].
  eapply loop_ok_mono; [|exact Hl]. cbn [length]. lia.
Qed.

Lemma bft_update_inv now env s ros l' :
  loop_ok (Z.of_nat (length s.(rounds_data))) (env, s, ros) →
  bft_update cl now env s ros = Ret l' → loop_ok 0 l'.
Proof.
  intros Hl Hu. unfold bft_update in Hu. inv_ret. cbn zeta in Hu.
  eapply bft_update_rounds_inv; [|exact Hu]. rewrite length_seq.
  eapply loop_ok_mono; [|exact Hl]. lia.
Qed.
End update_inv.
