(* ===== verification/Decide.v ===== *)
(** * Decide: quorums, decisions and the fat pointers they leave behind

    What a decision (line 49 of the Tendermint pseudo code, [cond_49])
    guarantees about the certificate that [round_data_to_fat_pointer] hands to
    the finality layer, and that the whole of [bft_update] keeps the invariant
    of the node.  The thresholds are in [Quorum]. *)

From stdpp Require Import base list sets sorting.
From S2P Require Import Prelude Wire Encoding Bft Roster Round RoundInv Node NodeInv.
Import SortedRosterMember TMState.

(** ** The certificate of a round *)

(** Whether a member's precommit goes into the certificate for [id]. *)
Definition precommit_for (id : ValueId) (s : VoteSlots) : bool :=
  bool_decide (s.(slot_precommit).1 = id ∧ s.(slot_precommit).2 ≠ TMSig_NIL).

Definition certificate (id : ValueId) (ros : list SortedRosterMember.t) (vs : list VoteSlots)
    : list FatPointerSignature.t :=
  concat (zip_with (λ v m,
    if precommit_for id v
    then [FatPointerSignature.mk m.(SortedRosterMember.pub_key) (slot_precommit v).2]
    else []) vs ros).

(** The stake of the roster members whose key signs a fat pointer: what a
    verifier who knows the roster can credit it with. *)
Definition signer_stake (ros : list SortedRosterMember.t) (fp : FatPointerToBftBlock.t) : Z :=
  zsum (map (λ m, if bool_decide (m.(SortedRosterMember.pub_key)
                      ∈ map FatPointerSignature.pub_key (FatPointerToBftBlock.signatures fp))
                  then m.(stake) else 0) ros).

Lemma elem_of_certificate id ros vs sg :
  sg ∈ certificate id ros vs ↔
  ∃ i v m, vs !! i = Some v ∧ ros !! i = Some m ∧ precommit_for id v = true ∧
    sg = FatPointerSignature.mk m.(SortedRosterMember.pub_key) (slot_precommit v).2.
Proof.
  unfold certificate. revert ros. induction vs as [|v vs IH]; intros [|m ros]; cbn.
  1-3: split; [by intros ?%elem_of_nil|intros (? & ? & ? & ? & ? & _); naive_solver].
  rewrite elem_of_app, IH. split.
  - intros [Hin|(i & v' & m' & ? & ? & ?)].
    + destruct (precommit_for id v) eqn:E; [|by apply elem_of_nil in Hin].
      apply list_elem_of_singleton in Hin as ->. exists 0%nat, v, m. done.
    + exists (S i), v', m'. done.
  - intros ([|i] & v' & m' & Hv & Hm & Hp & ->); cbn in Hv, Hm.
    + simplify_eq. left. rewrite Hp. by apply list_elem_of_singleton.
    + right. exists i, v', m'. done.
Qed.

Section certificates.
Context {P : Profile}.

Lemma fat_pointer_loop (id : ValueId) ros vs : ∀ o acc,
  (o + length vs ≤ length ros)%nat →
  for_each (λ (acc : list FatPointerSignature.t) '(roster_i, slots),
            let '(value_id, commit_signature) := slots.(slot_precommit) in
            if decide (value_id = id ∧ commit_signature ≠ TMSig_NIL)
            then m ← index ros roster_i;
            Ret (acc ++ [FatPointerSignature.mk m.(SortedRosterMember.pub_key) commit_signature])
            else Ret acc)
  (zip (seq o (length vs)) vs) acc
  = Ret (acc ++ certificate id (drop o ros) vs).
Proof.
  induction vs as [|v vs IH]; intros o acc Hlen.
  { cbn. unfold certificate. by rewrite app_nil_r. }
  cbn [length] in Hlen. destruct (lookup_lt_is_Some_2 ros o) as [m Hm]; [lia|].
  rewrite (drop_S _ _ _ Hm). cbn [length seq zip_with for_each].
  unfold certificate. cbn [zip_with concat]. fold (certificate id (drop (S o) ros) vs).
  unfold precommit_for. destruct (slot_precommit v) as [vid sg]. cbn [fst snd].
  case_decide as Hd.
  - rewrite (index_Ret _ _ _ Hm), bool_decide_true by done. cbn [mbind outcome_bind].
    rewrite IH by lia. by rewrite <- app_assoc.
  - rewrite bool_decide_false by done. cbn [mbind outcome_bind]. rewrite IH by lia. done.
Qed.

Lemma round_data_to_fat_pointer_Ret rd ros fp :
  (length (RoundData.msg_val_sigs rd) ≤ length ros)%nat →
  round_data_to_fat_pointer rd ros = Ret fp →
  fp = FatPointerToBftBlock.mk
  (RoundData.proposal_id rd ++ to_le 8 (RoundData.height rd)
   ++ to_le 4 ((RoundData.round rd + 0x80000000) mod 2 ^ 32))
  (certificate (RoundData.proposal_id rd) ros (RoundData.msg_val_sigs rd)).
Proof.
  intros Hlen Hfp. unfold round_data_to_fat_pointer in Hfp.
  apply bind_Ret_inv in Hfp as (merged & Hm & Hfp). apply arith_mod in Hm as ->; [|lia].
  rewrite (fat_pointer_loop _ ros _ 0 []) in Hfp by lia. cbn [mbind outcome_bind app] in Hfp.
  rewrite drop_0 in Hfp. by injection Hfp as <-.
Qed.
End certificates.

(** The certificate carries all the stake that is stored as precommitting the value. *)
Lemma certificate_stake_for ros id vs :
  stake_bounded ros → (length vs ≤ length ros)%nat →
  stake_where (precommit_for id) ros vs
  ≤ zsum (map (λ m, if bool_decide (m.(SortedRosterMember.pub_key)
        ∈ map FatPointerSignature.pub_key (certificate id ros vs)) then m.(stake) else 0) ros).
Proof.
  intros [Hpos _] Hlen. unfold stake_where.
  set (K := map FatPointerSignature.pub_key (certificate id ros vs)).
  assert (∀ i v m, vs !! i = Some v → ros !! i = Some m → precommit_for id v = true →
    m.(SortedRosterMember.pub_key) ∈ K) as HK.
  { intros i v m Hv Hm Hp. unfold K. apply list_elem_of_fmap.
    exists (FatPointerSignature.mk m.(SortedRosterMember.pub_key) (slot_precommit v).2). split; [done|].
    apply elem_of_certificate. by exists i, v, m. }
  clearbody K. revert ros Hpos Hlen HK.
  induction vs as [|v vs IH]; intros [|m ros] Hpos Hlen HK; cbn in *; try lia.
  - apply (zsum_map_nonneg (λ m, if bool_decide (pub_key m ∈ K) then stake m else 0) (m :: ros)).
    intros x Hx. eapply Forall_forall in Hpos; [|apply (list_elem_of_fmap_2 stake (m :: ros)), Hx].
    cbn in Hpos. by case_bool_decide.
  - apply Forall_cons in Hpos as [Hm Hpos].
    specialize (IH ros Hpos ltac:(lia) (λ i v' m' Hv, HK (S i) v' m' Hv)).
    specialize (HK 0%nat v m eq_refl eq_refl).
    destruct (precommit_for id v); [rewrite bool_decide_true by auto|case_bool_decide]; lia.
Qed.

(** Stake that is selected by one condition is selected by a weaker one. *)
Lemma stake_where_mono2 (p q : VoteSlots → bool) ros vs vs' :
  stake_bounded ros → Forall2 (λ v v', p v = true → q v' = true) vs vs' →
  stake_where p ros vs ≤ stake_where q ros vs'.
Proof.
  intros [Hpos _] Hv. unfold stake_where. revert ros Hpos.
  induction Hv as [|v v' vs vs' Hvv _ IH]; intros [|m ros] Hpos; cbn; try lia.
  apply Forall_cons in Hpos as [Hm Hpos]. specialize (IH ros Hpos). cbn in Hm.
  destruct (p v); [rewrite Hvv by done; lia|]. destruct (q v'); lia.
Qed.

(** With votes only for the proposal, the precommit counter counts precommits for it. *)
Lemma yes_precommits_for id ros vs :
  stake_bounded ros → Forall (slots_on id) vs → stake_where p_yes_precommit ros vs ≤ stake_where (precommit_for id) ros vs.
Proof.
  intros Hb Hon. apply stake_where_mono2; [done|]. apply Forall2_same_length_lookup_2; [done|].
  intros i v v' Hv Hv' Hp. rewrite Hv in Hv'. injection Hv' as <-. eapply Forall_lookup in Hon as [_ Hon]; [|exact Hv].
  unfold p_yes_precommit, voted, yes in Hp. unfold precommit_for.
  apply andb_true_iff in Hp as [Hs Hy]. apply bool_decide_eq_true in Hs, Hy.
  apply bool_decide_eq_true. by destruct Hon.
Qed.

(** ** Votes accumulate during an update

    Within one iteration of the update loop, the node's own votes are the only
    change to a round: its proposal stays and no vote disappears. *)

Record grows (rd rd' : RoundData.t) : Prop := {
  g_height : RoundData.height rd' = RoundData.height rd;
  g_round : RoundData.round rd' = RoundData.round rd;
  g_proposal : RoundData.proposal rd' = RoundData.proposal rd;
  g_sigs : RoundData.proposal_sigs rd' = RoundData.proposal_sigs rd;
  g_n : RoundData.proposal_sigs_n rd' = RoundData.proposal_sigs_n rd;
  g_id : RoundData.proposal_id rd' = RoundData.proposal_id rd;
  g_votes : Forall2 (λ v v', ∀ pc, (get_slot v pc).2 ≠ TMSig_NIL → get_slot v' pc = get_slot v pc)
              (RoundData.msg_val_sigs rd) (RoundData.msg_val_sigs rd');
  g_votes_ok : votes_ok rd → votes_ok rd' }.

#[global] Instance grows_preorder : PreOrder grows.
Proof.
  split.
  - intros rd. split; try done. by apply Forall2_same_length_lookup_2; [|naive_solver].
  - intros a b c [? ? ? ? ? ? Hab ?] [? ? ? ? ? ? Hbc ?]. split; try congruence; [|auto].
    eapply Forall2_trans; [|exact Hab|exact Hbc]. cbn. intros x y z Hxy Hyz pc Hx.
    rewrite Hyz; [by apply Hxy|]. by rewrite Hxy.
Qed.

Lemma grows_precommits id ros rd rd' :
  stake_bounded ros → grows rd rd' →
  stake_where (precommit_for id) ros (RoundData.msg_val_sigs rd)
  ≤ stake_where (precommit_for id) ros (RoundData.msg_val_sigs rd').
Proof.
  intros Hb [_ _ _ _ _ _ Hv _]. apply stake_where_mono2; [done|]. eapply Forall2_impl; [exact Hv|].
  intros v v' Hvv [Hid Hs]%bool_decide_eq_true. apply bool_decide_eq_true. specialize (Hvv true Hs). cbn in Hvv. by rewrite Hvv.
Qed.

Lemma same_votes_grows rd rd' : same_votes rd rd' → grows rd rd'.
Proof. intros Hs. rewrite Hs. split; try done. cbn. by apply Forall2_same_length_lookup_2; [|naive_solver]. Qed.

Lemma vote_stored_grows ros rd pc id i sig rd' :
  ¬ vote_rejected rd pc id i sig → vote_stored ros rd pc id i sig rd' → grows rd rd'.
Proof.
  intros Hrej Hst. pose proof Hst as (slots & Hs & Hold & Hrd'). cbn zeta in Hrd'.
  assert (votes_ok rd → votes_ok rd') by (intros; by eapply vote_stored_votes_ok). subst rd'.
  split; try done.
  - cbn. apply Forall2_same_length_lookup_2; [by rewrite length_insert|].
    intros j v v' Hv Hv' pc' Hsig.
    apply list_lookup_insert_Some in Hv' as [(<- & <- & _)|(_ & Hv')]; [|by simplify_eq].
    simplify_eq. destruct (decide (pc' = pc)) as [->|Hpc]; [|by destruct pc, pc'].
    destruct Hold as [|Hold]; [done|]. rewrite Hold. by destruct pc.
Qed.

Definition keeps (i : nat) (rd0 : RoundData.t) (s : t) : Prop :=
  ∃ rd, s.(rounds_data) !! i = Some rd ∧ grows rd0 rd.

Lemma keeps_replace i rd0 s j rd rd' :
  keeps i rd0 s → s.(rounds_data) !! j = Some rd → grows rd rd' →
  keeps i rd0 (with_rounds s (<[j:=rd']> s.(rounds_data))).
Proof.
  intros (rd1 & Hi & Hg) Hj Hg'. unfold keeps. cbn. destruct (decide (i = j)) as [->|Hne].
  - exists rd'. rewrite list_lookup_insert_eq by (by eapply lookup_lt_Some). split; [done|].
    simplify_eq. by etrans.
  - exists rd1. by rewrite list_lookup_insert_ne.
Qed.

Section keeping.
Context {P : Profile} {C : Crypto} (ros : list SortedRosterMember.t) (Hros : roster_ok ros).

Lemma binary_search_found rds rd :
  StronglySorted rd_lt rds → rd ∈ rds →
  ∃ i, binary_search rds (RoundData.height rd) (RoundData.round rd) = inl i.
Proof.
  intros Hs Hin. pose proof (binary_search_spec rds (RoundData.height rd) (RoundData.round rd) Hs) as Hb.
  destruct (binary_search _ _ _) as [i|i]; [by exists i|]. destruct Hb as (_ & Ht & Hd).
  rewrite <- (take_drop i rds) in Hin. apply elem_of_app in Hin as [Hin|Hin].
  - eapply Forall_forall in Ht; [|exact Hin]. apply key_lt_spec in Ht. lia.
  - eapply Forall_forall in Hd as [_ Hd]; [|exact Hin]. unfold key_eq in Hd. lia.
Qed.

(** A vote message for a round the node knows only adds votes to it. *)
Lemma vote_msg_keeps i rd0 s rd pc id ri data sig s' st :
  node_ok ros s → keeps i rd0 s → rd ∈ s.(rounds_data) →
  check_and_incorporate_msg s (RoundData.height rd) (RoundData.round rd) 0 id (-2) ros ri
  (PACKET_TYPE_PREVOTE_SIGNATURES + b2z pc) data sig = Ret (s', st) →
  keeps i rd0 s'.
Proof.
  intros Hok Hk Hin Hc. unfold check_and_incorporate_msg in Hc.
  destruct (Z.eqb_spec (RoundData.height rd) s.(height)) as [Eh|]; cbn [negb] in Hc; [|by simplify_eq].
  case_decide as Hi; [by simplify_eq|]. inv_ret. cbn zeta in Hc.
  destruct (TMSig_verify sig _ data) eqn:Ever; cbn [negb] in Hc; [|by simplify_eq].
  unfold find_or_insert_round in Hc. pose proof Hok as [Hs _ _ Hr].
  destruct (binary_search_found _ _ Hs Hin) as [j Hj]. rewrite Hj in Hc.
  pose proof (binary_search_spec s.(rounds_data) (RoundData.height rd) (RoundData.round rd) Hs) as Hb.
  rewrite Hj in Hb. destruct Hb as (rdj & Hrdj & Ehj & _).
  eapply Forall_lookup in Hr; [|exact Hrdj]. destruct (Hr ltac:(congruence)) as [Hrok _ _].
  inv_ret. rewrite Hrdj in E0. injection E0 as <-. simplify_eq.
  eapply keeps_replace; [done|done|].
  unfold handle_msg in E1. replace (_ =? PACKET_TYPE_PROPOSAL_CHUNK) with false in E1 by (by destruct pc).
  replace (_ || _) with true in E1 by (by destruct pc).
  match type of E1 with incorporate_vote rdj ?b _ _ _ _ = _ =>
    destruct (incorporate_vote_cases s.(hash_keys) ros (roster_bounded ros Hros) rdj b id ri sig Hrok)
    as [(_ & E2)|(Hrej & rd2 & E2 & Hst)] end; [lia|rewrite E2 in E1; by simplify_eq|].
  rewrite E2 in E1. simplify_eq. by eapply vote_stored_grows.
Qed.
End keeping.

Section update_keeps.
Context {P : Profile} {C : Crypto} {CL : CryptoLaws C} {E : Type} (cl : Closures E).
Context {EC : EngineClient cl}.

Lemma broadcast_step_keeps ros i rd0 s j msg s' :
  roster_ok ros → node_ok ros s → length (msg_id msg) = 32%nat →
  (∀ v vr, msg ≠ MProposal v vr) → keeps i rd0 s → broadcast_step s ros j msg = Ret s' →
  keeps i rd0 s' ∧ s'.(height) = s.(height) ∧ s'.(hash_keys) = s.(hash_keys).
Proof.
  intros Hros Hok Hid Hmsg Hk Hb. unfold broadcast_step in Hb. inv_ret.
  destruct (broadcast_inv ros Hros s j msg _ _ Hok Hid E0) as [_ Hs].
  split; [|by rewrite Hs]. unfold broadcast in E0. inv_ret. cbn zeta in E0.
  destruct (roster_i_from_pub_key _ _) as [ri|]; [|by simplify_eq].
  apply list_elem_of_lookup_2 in E1.
  destruct msg as [v vr|id|id]; [by destruct (Hmsg v vr)|..];
    unfold broadcast_vote in E0; inv_ret; simplify_eq.
  - exact (vote_msg_keeps ros Hros i rd0 s _ false _ _ _ _ _ _ Hok Hk E1 E4).
  - exact (vote_msg_keeps ros Hros i rd0 s _ true _ _ _ _ _ _ Hok Hk E1 E4).
Qed.

Lemma put_same_votes_keeps i rd0 s j rd rd' s' :
  s.(rounds_data) !! j = Some rd → same_votes rd rd' → keeps i rd0 s →
  put_round s j rd' = Ret s' → keeps i rd0 s'.
Proof.
  intros Hj Hsv Hk Hp. unfold put_round in Hp. inv_ret.
  eapply keeps_replace; [done|done|]. by apply same_votes_grows.
Qed.

Lemma proposal_is_valid_keeps i rd0 env s j env' s' st :
  keeps i rd0 s → proposal_is_valid cl env s j = Ret (env', s', st) →
  keeps i rd0 s' ∧
  ∃ rd, s'.(rounds_data) !! j = Some rd ∧ st = (RoundData.proposal_checked_validity rd).1.
Proof.
  intros Hk Hp. unfold proposal_is_valid in Hp. inv_ret.
  case_decide; [|simplify_eq; by eauto]. inv_ret. simplify_eq. split.
  - eapply put_same_votes_keeps; [done| |done|done].
    repeat case_match; inv_ret; simplify_eq; by match goal with rd : RoundData.t |- _ => destruct rd end.
  - unfold put_round in *. inv_ret. cbn. eexists. split; [|done]. by apply list_lookup_insert_eq.
Qed.

(** What holds throughout an iteration until a value is decided. *)
Definition during (i : nat) (rd0 : RoundData.t) (ros0 : list SortedRosterMember.t) (h : Z)
    (keys : HashKeys) (l : Loop (E := E)) : Prop :=
  let '(_, s, ros) := l in
  ros = ros0 ∧ s.(height) = h ∧ s.(hash_keys) = keys ∧ keeps i rd0 s.

Section conditions.
Context (k : Z) (i : nat) (rd0 : RoundData.t) (ros0 : list SortedRosterMember.t) (h : Z)
  (keys : HashKeys).
Let D := during i rd0 ros0 h keys.

Lemma broadcast_loop_keeps env s ros j msg s' :
  loop_ok cl k (env, s, ros) → D (env, s, ros) → length (msg_id msg) = 32%nat →
  (∀ v vr, msg ≠ MProposal v vr) → broadcast_step s ros j msg = Ret s' → D (env, s', ros).
Proof.
  intros (Hros & Hok & _) (-> & <- & <- & Hk) Hid Hmsg Hb.
  destruct (broadcast_step_keeps ros0 i rd0 s j msg s' Hros Hok Hid Hmsg Hk Hb) as (? & ? & ?).
  done.
Qed.

Lemma proposal_is_valid_loop env s ros j env' s' st :
  loop_ok cl k (env, s, ros) → D (env, s, ros) → proposal_is_valid cl env s j = Ret (env', s', st) →
  loop_ok cl k (env', s', ros) ∧ D (env', s', ros).
Proof.
  intros (Hros & Hok & Hh & He) (-> & <- & <- & Hk) Hp.
  destruct (proposal_is_valid_inv _ _ _ _ _ _ _ _ Hok Hp) as [? Hs].
  destruct (proposal_is_valid_keeps _ _ _ _ _ _ _ _ Hk Hp) as [? _].
  split; [|split; [done|]; by rewrite Hs]. do 2 (split; [done|]). rewrite Hs.
  split; [done|by eapply proposal_is_valid_env].
Qed.

Lemma prevote_on_keeps env s ros j accept l :
  loop_ok cl k (env, s, ros) → D (env, s, ros) → prevote_on cl env s ros j accept = Ret l → D l.
Proof.
  intros Hl Hd Hp. unfold prevote_on in Hp. inv_ret.
  destruct (proposal_is_valid_loop _ _ _ _ _ _ _ Hl Hd E0) as [Hl1 Hd1].
  eapply broadcast_loop_keeps; [..|exact E2]; [exact Hl1|exact Hd1| |done].
  cbn. case_match; [|done]. destruct Hl1 as (_ & [_ _ Hid _] & _). by eapply Forall_lookup in Hid.
Qed.

Lemma cond_22_keeps c l l' : loop_ok cl k l → D l → cond_22 cl c l = Ret l' → D l'.
Proof.
  destruct l as [[env s] ros]. intros Hl Hd Hc. unfold cond_22 in Hc. inv_ret.
  case_match; [by eapply prevote_on_keeps|by simplify_eq].
Qed.

Lemma cond_28_keeps c l l' : loop_ok cl k l → D l → cond_28 cl c l = Ret l' → D l'.
Proof.
  destruct l as [[env s] ros]. intros Hl Hd Hc. unfold cond_28 in Hc. inv_ret. cbn zeta in Hc.
  case_match; [by eapply prevote_on_keeps|by simplify_eq].
Qed.

Lemma put_loop_keeps (env : E) s ros j rd rd' s' :
  D (env, s, ros) → s.(rounds_data) !! j = Some rd → same_votes rd rd' →
  put_round s j rd' = Ret s' → D (env, s', ros).
Proof.
  intros (-> & <- & <- & Hk) Hj Hsv Hp. pose proof (put_same_votes_keeps _ _ _ _ _ _ _ Hj Hsv Hk Hp).
  unfold put_round in Hp. inv_ret. done.
Qed.

Lemma cond_34_keeps c l l' : loop_ok cl k l → D l → cond_34 c l = Ret l' → D l'.
Proof.
  destruct l as [[env s] ros]. intros Hl Hd Hc. unfold cond_34 in Hc. inv_ret.
  case_match; [|by simplify_eq]. inv_ret. eapply put_loop_keeps; [done|done| |done]. done.
Qed.

Lemma cond_47_keeps c l l' : loop_ok cl k l → D l → cond_47 c l = Ret l' → D l'.
Proof.
  destruct l as [[env s] ros]. intros Hl Hd Hc. unfold cond_47 in Hc. inv_ret.
  case_match; [|by simplify_eq]. inv_ret. eapply put_loop_keeps; [done|done| |done]. done.
Qed.

Lemma cond_36_keeps c l l' : loop_ok cl k l → D l → cond_36 cl c l = Ret l' → D l'.
Proof.
  destruct l as [[env s] ros]. intros Hl Hd Hc. unfold cond_36 in Hc.
  case_match; [|by simplify_eq]. inv_ret.
  destruct (proposal_is_valid_loop _ _ _ _ _ _ _ Hl Hd E0) as [Hl1 Hd1].
  case_match; [|by simplify_eq]. inv_ret.
  match goal with |- D (_, with_valid ?s2 _, _) => enough (D (e, s2, ros)) by done end.
  case_decide; inv_ret; [|done].
  match goal with Hb : broadcast_step _ _ _ _ = _ |- _ =>
    eapply (broadcast_loop_keeps e); [..|exact Hb] end; [|exact Hd1| |done].
  - destruct Hl1 as (? & ? & ?). split; [done|]. split; [by eapply node_ok_frame|done].
  - cbn. destruct Hl1 as (_ & [_ _ Hid _] & _). by eapply Forall_lookup in Hid.
Qed.

Lemma cond_44_keeps c l l' : loop_ok cl k l → D l → cond_44 c l = Ret l' → D l'.
Proof.
  destruct l as [[env s] ros]. intros Hl Hd Hc. unfold cond_44 in Hc.
  case_match; [|by simplify_eq]. inv_ret.
  by eapply (broadcast_loop_keeps env s ros _ (MPrecommit ValueId_NIL)).
Qed.
End conditions.

(** *** The certificate of a decided round verifies *)

Lemma certificate_valid keys ros rd fp :
  roster_ok ros → rd_inv keys ros rd → round_data_to_fat_pointer rd ros = Ret fp →
  FatPointerToBftBlock.validate_signatures fp = true ∧
  FatPointerToBftBlock.points_at_block_hash fp = RoundData.proposal_id rd.
Proof.
  intros Hros [[[Hlen _ _ _ _] _ _] Hid Hsig] Hfp.
  apply round_data_to_fat_pointer_Ret in Hfp as ->; [|rewrite Hlen; unfold active_roster_len; lia].
  split; [|unfold FatPointerToBftBlock.points_at_block_hash; cbn -[take];
    rewrite take_app_le, take_ge by lia; done].
  set (fp := FatPointerToBftBlock.mk _ _).
  destruct Hros as [_ Hk _].
  rewrite validate_signatures_eq.
  - apply forallb_forall. intros fs Hin. apply list_elem_of_In, elem_of_certificate in Hin
                                           as (i & v & m & Hv & Hm & Hp & ->).
    specialize (Hsig i v m true Hv Hm). unfold precommit_for in Hp.
    apply bool_decide_eq_true in Hp as [Hpid Hne].
    unfold vote_signed in Hsig. cbn [get_slot] in Hsig. specialize (Hsig Hne).
    rewrite Hpid in Hsig. exact Hsig.
  - subst fp. cbn [FatPointerToBftBlock.vote_for_block_without_finalizer_public_key]. len.
  - apply Forall_forall. intros fs (i & v & m & _ & Hm & _ & ->)%elem_of_certificate.
    by eapply Forall_lookup in Hk.
Qed.

Lemma decide_value_height c env s ros env' s' ros' :
  loop_ok cl 1 (env, s, ros) → decide_value cl c env s ros = Ret (env', s', ros') →
  ∃ rd fp env2, s.(rounds_data) !! c.(c_i) = Some rd ∧
  round_data_to_fat_pointer rd ros = Ret fp ∧
  push_block_closure cl env (RoundData.proposal rd) fp (RoundData.proposal_sigs rd)
  = Ret (env2, ros') ∧
  s'.(height) = s.(height) + 1.
Proof.
  intros Hl Hd. pose proof Hl as (Hros & Hok & Hh & _).
  assert (loop_ok cl 0 (env', s', ros')) as (Hros' & _ & _) by (by eapply (decide_value_inv cl 0)).
  pose proof Hd as Hd'. unfold decide_value in Hd. inv_ret. simplify_eq.
  rewrite arith_ok in E3 by (unfold is_u; lia). injection E3 as <-.
  exists r, r0, e. do 3 (split; [done|]).
  eapply start_round_inv in E4 as [_ Hh']; [exact Hh'|done|].
  pose proof Hok as [Hs Hhs Hids Hr]. cbn [rounds_data decided].
  rewrite filter_all by (eapply Forall_impl; [exact Hhs|]; cbn; lia).
  split; cbn; [done| |done|]; (eapply Forall_impl; [exact Hhs|]; cbn; lia).
Qed.

(** What a decision delivers to the finality layer: the complete proposal of
    the round, and a fat pointer to it.  The signatures of the pointer are those of
    all the stored precommits for the proposal; they are the counted precommits, and
    so carry the quorum, if no vote for another value is stored in the round. *)
Definition decision (rd : RoundData.t) (keys : HashKeys) (ros : list SortedRosterMember.t)
    (big : Z) (ros' : list SortedRosterMember.t) : Prop :=
  ∃ env1 env2 fp, env_ok env1 ∧
    push_block_closure cl env1 (RoundData.proposal rd) fp (RoundData.proposal_sigs rd)
    = Ret (env2, ros') ∧
    RoundData.has_full_proposal rd = true ∧
    RoundData.proposal_id rd = id_from_value (RoundData.proposal rd) keys ∧
    FatPointerToBftBlock.points_at_block_hash fp = RoundData.proposal_id rd ∧
    FatPointerToBftBlock.validate_signatures fp = true ∧
    big ≤ ConsensusCounts.yes_precommits (RoundData.counts rd) ∧
    stake_where (precommit_for (RoundData.proposal_id rd)) ros (RoundData.msg_val_sigs rd) ≤ signer_stake ros fp ∧
    (votes_ok rd → big ≤ signer_stake ros fp).

Lemma cond_49_decides c env s ros rd0 env' s' ros' :
  loop_ok cl 1 (env, s, ros) → keeps c.(c_i) rd0 s →
  rd_inv s.(hash_keys) ros rd0 → c.(c_counts) = RoundData.counts rd0 →
  cond_49 cl c (env, s, ros) = Ret (env', s', ros') →
  (s'.(height) = s.(height)) ∨
  (s'.(height) = s.(height) + 1 ∧ RoundData.height rd0 = s.(height) ∧
   decision rd0 s.(hash_keys) ros c.(c_big) ros').
Proof.
  intros Hl Hk Hinv0 Hcts Hc. unfold cond_49 in Hc. inv_ret.
  destruct (_ && _) eqn:Econd in Hc; [|left; by simplify_eq]. inv_ret.
  pose proof Hl as (Hros & Hok & Hh & He).
  destruct (proposal_is_valid_inv _ _ _ _ _ _ _ _ Hok E1) as [Hok1 Hs1].
  assert (env_ok e) as He1 by (by eapply proposal_is_valid_env).
  destruct (proposal_is_valid_keeps _ _ _ _ _ _ _ _ Hk E1) as [(rd & Hrd & Hg) (rd' & Hrd' & Hst)].
  rewrite Hrd in Hrd'. injection Hrd' as <-.
  case_decide as Hpass; [|left; simplify_eq; by rewrite Hs1].
  apply decide_value_height in Hc as (rd1 & fp & env2 & Hrd1 & Hfp & Hpush & Hh');
    [|split; [done|]; split; [done|]; rewrite Hs1; done].
  rewrite Hrd in Hrd1. injection Hrd1 as <-. right.
  destruct Hk as (rdk & Hrdk & Hgk). rewrite Hrdk in E0. injection E0 as <-.
  assert (RoundData.height rd0 = s.(height)) as Hht.
  { rewrite <- (g_height _ _ Hgk). lia. }
  pose proof (no_rounds _ _ Hok1) as Hr1. eapply Forall_lookup in Hr1; [|exact Hrd].
  assert (rd_inv s.(hash_keys) ros rd) as Hinv.
  { replace s.(hash_keys) with t1.(hash_keys) by (by rewrite Hs1). apply Hr1.
    rewrite (g_height _ _ Hg), Hht, Hs1. done. }
  destruct (certificate_valid _ _ _ _ Hros Hinv Hfp) as [Hval Hpt].
  destruct Hinv as [[[Hlen _ _ _ _] _ Hpassok] _ _]. specialize (Hpassok ltac:(congruence)) as [Hfull Hidh].
  split; [rewrite Hs1 in Hh'; exact Hh'|]. split; [done|]. pose proof Hg as [? ? Ep Es En Eid ? Hvok].
  exists e, env2, fp. rewrite <- Ep, <- Es, <- Eid.
  split; [done|]. split; [done|]. split; [by unfold RoundData.has_full_proposal in *; rewrite <- En, <- Es|].
  do 3 (split; [done|]). destruct Hinv0 as [[[_ Hc0 _ _ _] _ _] _ _].
  assert (c_big c ≤ ConsensusCounts.yes_precommits (RoundData.counts rd0)) as Hq by (rewrite <- Hcts; lia).
  pose proof (roster_wf_bounded _ (rk_stakes _ Hros)) as Hb.
  apply round_data_to_fat_pointer_Ret in Hfp as Efp; [|rewrite Hlen; unfold active_roster_len; lia].
  assert (stake_where (precommit_for (RoundData.proposal_id rd0)) ros (RoundData.msg_val_sigs rd0) ≤ signer_stake ros fp) as Hfor.
  { etrans; [by apply grows_precommits|]. rewrite Efp, <- Eid.
    apply certificate_stake_for; [done|]. rewrite Hlen; unfold active_roster_len; lia. }
  rewrite Eid. split; [done|]. split; [done|]. intros Hv. etrans; [exact Hq|]. rewrite Hc0. cbn [ConsensusCounts.yes_precommits counts_of].
  etrans; [|exact Hfor]. apply yes_precommits_for; [done|].
  unfold votes_ok in Hv. unfold RoundData.has_full_proposal in Hfull.
  by rewrite (proj2 (Z.eqb_neq (RoundData.proposal_sigs_n rd0) 0)) in Hv by lia.
Qed.

(** Carry [loop_ok] and [during] over the first condition of the chain [Hu]. *)
Ltac pass_cond inv keep Hu Hl Hd :=
  let l1 := fresh "l" in let Hc := fresh "Hc" in let Hl1 := fresh "Hl1" in
  apply bind_Ret_inv in Hu as (l1 & Hc & Hu);
  pose proof (inv _ _ _ Hl Hc) as Hl1; eapply (keep _ _ _ Hl Hd) in Hc;
  clear Hl Hd; rename Hc into Hd; rename Hl1 into Hl.

Lemma bft_update_round_split now big small env s ros i rd l' :
  loop_ok cl 1 (env, s, ros) → s.(rounds_data) !! i = Some rd →
  bft_update_round cl now big small (env, s, ros) i = Ret l' →
  ∃ c l1 l2 l3, c.(c_i) = i ∧ c.(c_big) = big ∧ c.(c_counts) = RoundData.counts rd ∧
  loop_ok cl 1 l1 ∧ during i rd ros s.(height) s.(hash_keys) l1 ∧
  cond_49 cl c l1 = Ret l2 ∧ loop_ok cl 0 l2 ∧ cond_55 cl c l2 = Ret l3 ∧
  handle_timeout cl c l3 = Ret l'.
Proof.
  intros Hl Hrd Hu. unfold bft_update_round in Hu. rewrite (index_Ret _ _ _ Hrd) in Hu.
  cbn [mbind outcome_bind] in Hu. cbn zeta in Hu.
  assert (during i rd ros s.(height) s.(hash_keys) (env, s, ros)) as Hd.
  { repeat (split; [done|]). by exists rd. }
  match type of Hu with context [cond_22 _ ?c _] => exists c end.
  pass_cond (cond_22_inv cl 1) (cond_22_keeps 1 i rd ros s.(height) s.(hash_keys)) Hu Hl Hd.
  pass_cond (cond_28_inv cl 1) (cond_28_keeps 1 i rd ros s.(height) s.(hash_keys)) Hu Hl Hd.
  pass_cond (cond_34_inv cl 1) (cond_34_keeps 1 i rd ros s.(height) s.(hash_keys)) Hu Hl Hd.
  pass_cond (cond_36_inv cl 1) (cond_36_keeps 1 i rd ros s.(height) s.(hash_keys)) Hu Hl Hd.
  pass_cond (cond_44_inv cl 1) (cond_44_keeps 1 i rd ros s.(height) s.(hash_keys)) Hu Hl Hd.
  pass_cond (cond_47_inv cl 1) (cond_47_keeps 1 i rd ros s.(height) s.(hash_keys)) Hu Hl Hd.
  apply bind_Ret_inv in Hu as (l49 & Hc49 & Hu). apply bind_Ret_inv in Hu as (l55 & Hc55 & Hu).
  eexists _, l49, l55. do 3 (split; [done|]). split; [exact Hl|]. split; [exact Hd|].
  split; [done|]. split; [|done]. by eapply (cond_49_inv cl 0).
Qed.

Definition l_height (l : Loop (E := E)) : Z := l.1.2.(height).
Definition l_roster (l : Loop (E := E)) : list SortedRosterMember.t := l.2.

Lemma cond_55_height k c l l' :
  loop_ok cl k l → cond_55 cl c l = Ret l' → l_height l' = l_height l ∧ l_roster l' = l_roster l.
Proof.
  destruct l as [[env s] ros]. intros (Hros & Hok & _) Hc. unfold cond_55 in Hc. inv_ret.
  case_match; [|by simplify_eq]. inv_ret. split; [|done]. by eapply (start_round_inv cl ros).
Qed.

Lemma handle_timeout_height k c l l' :
  loop_ok cl k l → handle_timeout cl c l = Ret l' → l_height l' = l_height l ∧ l_roster l' = l_roster l.
Proof.
  destruct l as [[env s] ros]. intros (Hros & Hok & _) Hc. unfold handle_timeout in Hc. inv_ret.
  case_match; [|by simplify_eq]. case_match; [|by simplify_eq].
  repeat (case_match; try (simplify_eq; done)); inv_ret; (split; [|done]).
  - by eapply (broadcast_step_inv ros s _ (MPrevote ValueId_NIL)).
  - by eapply (broadcast_step_inv ros s _ (MPrecommit ValueId_NIL)).
  - by eapply (start_round_inv cl ros).
Qed.

(** C1: In a node that satisfies its invariant (as every reachable node does), one
    iteration of the update loop, with the thresholds that the update computes from the
    roster, either stays at its height or decides exactly one value, and then only the
    complete proposal of that round whose id is its hash, when the counted precommits
    reach the quorum.  The fat pointer handed to the finality layer points at that value,
    all its signatures verify, and it is signed by at least the stake of the stored
    precommits for it.  If in addition the round stores no vote for another value
    ([votes_ok], which the flush of a node's own proposal can break), the signers hold at
    least the quorum of stake. *)
Theorem decision_sound now total big small env s ros i rd env' s' ros' :
  loop_ok cl 1 (env, s, ros) → s.(rounds_data) !! i = Some rd →
  total_active_stake ros = Ret total → thresholds total = Ret (big, small) →
  bft_update_round cl now big small (env, s, ros) i = Ret (env', s', ros') →
  (s'.(height) = s.(height)) ∨
  (s'.(height) = s.(height) + 1 ∧ RoundData.height rd = s.(height) ∧
   decision rd s.(hash_keys) ros big ros').
Proof.
  intros Hl Hrd _ _ Hu. pose proof Hl as (_ & Hok & _).
  destruct (bft_update_round_split _ _ _ _ _ _ _ _ _ Hl Hrd Hu)
    as (c & [[env1 s1] ros1] & [[env2 s2] ros2] & [[env3 s3] ros3] & Hci & Hcb & Hcc & Hl1 & Hd & H49 & Hl2 & H55 & Hto).
  destruct (cond_55_height _ _ _ _ Hl2 H55) as [Eh3 Er3].
  destruct (handle_timeout_height _ _ _ _ (cond_55_inv cl 0 _ _ _ Hl2 H55) Hto) as [Eh4 Er4].
  unfold l_height, l_roster in *. cbn [fst snd] in *. rewrite Eh4, Eh3, Er4, Er3.
  destruct Hd as (-> & Eh1 & Ek1 & Hk). rewrite <- Eh1, <- Ek1, <- Hcb.
  destruct (decide (RoundData.height rd = s.(height))) as [Hht|Hht].
  - eapply cond_49_decides; [exact Hl1|by rewrite Hci| |exact Hcc|exact H49].
    rewrite Ek1. pose proof (no_rounds _ _ Hok) as Hr. eapply Forall_lookup in Hr; [|exact Hrd]. auto.
  - left. unfold cond_49 in H49. inv_ret. destruct Hk as (rdk & Hrdk & Hg).
    rewrite Hci, Hrdk in E0. injection E0 as <-.
    rewrite (proj2 (Z.eqb_neq _ _)) in H49; [cbn [andb] in H49; by simplify_eq|].
    rewrite (g_height _ _ Hg). congruence.
Qed.

(** The whole update keeps the invariant of the node: sorted rounds,
    exact counters, verified votes.  It is kept across decisions, where the
    roster changes, and so is the invariant of the finality layer. *)
Theorem bft_update_invariant now env s ros env' s' ros' :
  env_ok env → roster_ok ros → node_ok ros s →
  0 ≤ s.(height) < 2 ^ 64 - Z.of_nat (length s.(rounds_data)) →
  bft_update cl now env s ros = Ret (env', s', ros') →
  env_ok env' ∧ roster_ok ros' ∧ node_ok ros' s'.
Proof.
  intros He Hros Hok Hh Hu. apply (bft_update_inv cl) in Hu as (? & ? & _ & ?); done.
Qed.
End update_keeps.
