(* ===== verification/Quorum.v ===== *)
(** * Quorum: what the thresholds of [bft_update] buy

    The exact size of the overlap of two quorums, what two conflicting
    certificates prove about the members who signed both, and two places where
    the code departs from the Tendermint algorithm it cites. *)

From stdpp Require Import base list sets sorting.
From S2P Require Import Prelude Wire Encoding Bft Roster Round RoundInv Node NodeInv Decide.
Import SortedRosterMember TMState.

Section thresholds.
Context {P : Profile}.

Lemma thresholds_eq total :
  4 ≤ total < 2 ^ 64 →
  thresholds total = Ret (2 * ((total - 1) / 3) + 1, (total - 1) / 3 + 1).
Proof.
  intros Ht. unfold thresholds, f_from_n. rewrite arith_ok by (unfold is_u; lia).
  cbn [mbind outcome_bind]. rewrite (proj2 (Z.eqb_neq _ _)); [done|].
  assert (1 ≤ (total - 1) / 3) by (apply Z.div_le_lower_bound; lia). lia.
Qed.

Lemma thresholds_small total : 1 ≤ total ≤ 3 → thresholds total = Ret (total, total).
Proof.
  intros Ht. unfold thresholds, f_from_n. rewrite arith_ok by (unfold is_u; lia).
  cbn [mbind outcome_bind]. rewrite (Z.div_small (total - 1) 3) by lia. done.
Qed.

(** With total stake [n >= 4] and [f = (n-1)/3], the thresholds are
    [2f+1] and [f+1], and two quorums share at least [f + 1 - ((n-1) mod 3)]
    stake: [f+1], one more than the tolerated faulty stake, exactly when
    [n = 3f+1]; only [f-1] when [n = 3f+3]. *)
Theorem quorum_overlap total :
  4 ≤ total < 2 ^ 64 →
  ∃ big small f, thresholds total = Ret (big, small) ∧ f = (total - 1) / 3 ∧
  big = 2 * f + 1 ∧ small = f + 1 ∧ 0 < small ≤ big ∧ big ≤ total ∧
  2 * big - total = f + 1 - (total - 1) mod 3.
Proof.
  intros Ht. eexists _, _, ((total - 1) / 3). split; [by apply thresholds_eq|].
  pose proof (Z.div_mod (total - 1) 3 ltac:(lia)).
  pose proof (Z.mod_pos_bound (total - 1) 3 ltac:(lia)). lia.
Qed.

(** An update with no active stake subtracts one from zero: with overflow
    checks the node aborts, without them the quorum becomes about two thirds
    of [u64::MAX] and nothing is ever decided. *)
Theorem thresholds_empty_roster :
  thresholds 0 = if overflow_checks then Panic
           else Ret (12297829382473034411, 6148914691236517206).
Proof. unfold thresholds, f_from_n, arith. by destruct overflow_checks. Qed.
End thresholds.

(** ** Two quorums and who is in both *)

Definition precommitted (vs : list VoteSlots) (i : nat) : bool :=
  match vs !! i with Some v => p_yes_precommit v | None => false end.

(** Roster indices of the members that precommitted a value in both stores. *)
Definition double_signers (vs1 vs2 : list VoteSlots) : list nat :=
  filter (λ i, precommitted vs1 i && precommitted vs2 i = true) (seq 0 (length vs1)).

Definition stake_of (ros : list SortedRosterMember.t) (i : nat) : Z :=
  match ros !! i with Some m => m.(stake) | None => 0 end.

Lemma zsum_filter {A} (Q : A → Prop) `{∀ x, Decision (Q x)} (g : A → Z) l :
  zsum (map g (filter Q l)) = zsum (map (λ x, if decide (Q x) then g x else 0) l).
Proof.
  induction l as [|x l IH]; [done|]. rewrite filter_cons. cbn [map]. rewrite zsum_cons.
  case_decide; cbn [map]; rewrite ?zsum_cons, IH; lia.
Qed.

Lemma stake_where_seq p ros vs :
  (length vs ≤ length ros)%nat →
  stake_where p ros vs
  = zsum (map (λ i, if match vs !! i with Some v => p v | None => false end
                    then stake_of ros i else 0) (seq 0 (length vs))).
Proof.
  revert ros. induction vs as [|v vs IH]; intros [|m ros] Hlen; cbn in Hlen; try lia; try done.
  unfold stake_where. cbn [zip_with length seq map]. rewrite !zsum_cons, <- seq_shift, map_map.
  unfold stake_where in IH. by rewrite (IH ros) by lia.
Qed.

Lemma active_stake_seq ros n :
  (n ≤ length ros)%nat → zsum (stakes (take n ros)) = zsum (map (stake_of ros) (seq 0 n)).
Proof.
  revert ros. induction n as [|n IH]; intros [|m ros] Hlen; cbn in Hlen; try lia; try done.
  cbn [take seq map]. rewrite <- seq_shift, map_map.
  change (stakes (m :: take n ros)) with (stake m :: stakes (take n ros)).
  rewrite !zsum_cons, (IH ros) by lia. done.
Qed.

Lemma double_signers_stake ros vs1 vs2 :
  stake_bounded ros → length vs1 = length vs2 → (length vs1 ≤ length ros)%nat →
  stake_where p_yes_precommit ros vs1 + stake_where p_yes_precommit ros vs2
    - zsum (stakes (take (length vs1) ros))
  ≤ zsum (map (stake_of ros) (double_signers vs1 vs2)).
Proof.
  intros [Hpos _] H12 Hlen. unfold double_signers. rewrite zsum_filter.
  rewrite active_stake_seq, !stake_where_seq, <- H12 by lia.
  enough (zsum (map (λ i, (if precommitted vs1 i then stake_of ros i else 0)
      + (if precommitted vs2 i then stake_of ros i else 0)) (seq 0 (length vs1)))
    ≤ zsum (map (λ i, (if decide (precommitted vs1 i && precommitted vs2 i = true)
        then stake_of ros i else 0) + stake_of ros i) (seq 0 (length vs1)))) as Hs.
  { rewrite !zsum_map_add in Hs. unfold precommitted in *. lia. }
  apply zsum_map_le. intros i _.
  assert (0 ≤ stake_of ros i).
  { unfold stake_of. destruct (ros !! i) eqn:E; [|done].
    eapply Forall_lookup in Hpos; [exact Hpos|]. by apply stakes_lookup. }
  destruct (precommitted vs1 i), (precommitted vs2 i); cbn; try case_decide; try done; lia.
Qed.

Section accountability.
Context {P : Profile} {C : Crypto} {CL : CryptoLaws C}.

(** Evidence against member [i]: two valid precommit signatures for different
    values at the same height and round. *)
Definition equivocated (ros : list SortedRosterMember.t) (h r : Z) (id1 id2 : ValueId) (i : nat)
    : Prop :=
  ∃ m sig1 sig2, ros !! i = Some m ∧ id1 ≠ id2 ∧
    TMSig_verify sig1 m.(SortedRosterMember.pub_key)
    (vote_data m.(SortedRosterMember.pub_key) true h r id1) = true ∧
    TMSig_verify sig2 m.(SortedRosterMember.pub_key)
    (vote_data m.(SortedRosterMember.pub_key) true h r id2) = true.

Lemma precommitted_signed keys ros rd i m :
  rd_inv keys ros rd → Forall (slots_on (RoundData.proposal_id rd)) (RoundData.msg_val_sigs rd) →
  ros !! i = Some m → precommitted (RoundData.msg_val_sigs rd) i = true →
  ∃ sig, TMSig_verify sig m.(SortedRosterMember.pub_key)
  (vote_data m.(SortedRosterMember.pub_key) true (RoundData.height rd) (RoundData.round rd)
   (RoundData.proposal_id rd)) = true.
Proof.
  intros [_ _ Hs] Hon Hm Hp. unfold precommitted in Hp.
  destruct (RoundData.msg_val_sigs rd !! i) as [v|] eqn:Hv; [|done].
  unfold p_yes_precommit, voted, yes in Hp. apply andb_true_iff in Hp as [Hsig Hyes].
  apply bool_decide_eq_true in Hsig, Hyes. eapply Forall_lookup in Hon as [_ Hon]; [|exact Hv].
  destruct Hon as [Hon|Hon]; [done|]. rewrite <- Hon.
  exists (slot_precommit v).2. by apply (Hs i v m true Hv Hm).
Qed.

(** Two nodes that both see [big] stake of precommits for different values. *)
Lemma conflicting_precommits keys1 keys2 ros rd1 rd2 big :
  roster_ok ros → rd_inv keys1 ros rd1 → rd_inv keys2 ros rd2 →
  votes_ok rd1 → votes_ok rd2 →
  RoundData.proposal_sigs_n rd1 ≠ 0 → RoundData.proposal_sigs_n rd2 ≠ 0 →
  RoundData.height rd1 = RoundData.height rd2 → RoundData.round rd1 = RoundData.round rd2 →
  RoundData.proposal_id rd1 ≠ RoundData.proposal_id rd2 →
  big ≤ ConsensusCounts.yes_precommits (RoundData.counts rd1) →
  big ≤ ConsensusCounts.yes_precommits (RoundData.counts rd2) →
  ∃ guilty : list nat, NoDup guilty ∧
  Forall (equivocated ros (RoundData.height rd1) (RoundData.round rd1)
          (RoundData.proposal_id rd1) (RoundData.proposal_id rd2)) guilty ∧
  2 * big - zsum (stakes (active_roster ros)) ≤ zsum (map (stake_of ros) guilty).
Proof.
  intros Hros Hi1 Hi2 Hv1 Hv2 Hn1 Hn2 Hh Hr Hne Hq1 Hq2.
  unfold votes_ok in Hv1, Hv2. rewrite (proj2 (Z.eqb_neq _ _)) in Hv1 by done.
  rewrite (proj2 (Z.eqb_neq _ _)) in Hv2 by done.
  pose proof Hi1 as [[[Hl1 Hc1 _ _ _] _ _] _ _]. pose proof Hi2 as [[[Hl2 Hc2 _ _ _] _ _] _ _].
  assert (active_roster_len ros ≤ length ros)%nat by (unfold active_roster_len; lia).
  exists (double_signers (RoundData.msg_val_sigs rd1) (RoundData.msg_val_sigs rd2)). split; [|split].
  - apply NoDup_filter, NoDup_seq.
  - apply Forall_forall. unfold double_signers.
    intros i [[Hp1 Hp2]%andb_true_iff Hin]%list_elem_of_filter.
    apply elem_of_seq in Hin. destruct (lookup_lt_is_Some_2 ros i) as [m Hm]; [lia|].
    destruct (precommitted_signed _ _ _ _ _ Hi1 Hv1 Hm Hp1) as [sig1 H1].
    destruct (precommitted_signed _ _ _ _ _ Hi2 Hv2 Hm Hp2) as [sig2 H2].
    exists m, sig1, sig2. rewrite Hh, Hr. rewrite Hh, Hr in H1. done.
  - pose proof (double_signers_stake ros (RoundData.msg_val_sigs rd1) (RoundData.msg_val_sigs rd2)
      (roster_bounded ros Hros) ltac:(lia) ltac:(lia)) as Hs.
    rewrite Hc1 in Hq1. rewrite Hc2 in Hq2. unfold counts_of in Hq1, Hq2.
    cbn [ConsensusCounts.yes_precommits] in Hq1, Hq2.
    unfold active_roster. rewrite <- Hl1. lia.
Qed.

Lemma total_active_stake_eq ros :
  roster_ok ros → total_active_stake ros = Ret (zsum (stakes (active_roster ros))).
Proof.
  intros [[Hn _ Ht] _ _]. unfold total_active_stake, stakes, active_roster in *.
  rewrite <- (take_drop (active_roster_len ros) ros), map_app in Hn, Ht. apply Forall_app in Hn as [Hn Hd].
  rewrite zsum_app in Ht. pose proof (zsum_nonneg _ Hd).
  rewrite (for_each_sum stake); [f_equal; lia|exact (proj1 (Forall_map _ _ _) Hn)|done|lia].
Qed.

(** C3: If two nodes with the same roster both see a quorum of precommits for
    different values in the same round, the members who signed both values
    can be named, each with two valid conflicting signatures, and they hold
    at least [f + 1 - (n - 1) mod 3] of the total stake [n], with
    [f = (n - 1) / 3]. *)
Theorem conflicting_quorums_expose keys1 keys2 ros rd1 rd2 total big small :
  roster_ok ros → rd_inv keys1 ros rd1 → rd_inv keys2 ros rd2 →
  votes_ok rd1 → votes_ok rd2 →
  RoundData.proposal_sigs_n rd1 ≠ 0 → RoundData.proposal_sigs_n rd2 ≠ 0 →
  RoundData.height rd1 = RoundData.height rd2 → RoundData.round rd1 = RoundData.round rd2 →
  RoundData.proposal_id rd1 ≠ RoundData.proposal_id rd2 →
  total_active_stake ros = Ret total → 4 ≤ total < 2 ^ 64 → thresholds total = Ret (big, small) →
  big ≤ ConsensusCounts.yes_precommits (RoundData.counts rd1) →
  big ≤ ConsensusCounts.yes_precommits (RoundData.counts rd2) →
  ∃ guilty : list nat, NoDup guilty ∧
  Forall (equivocated ros (RoundData.height rd1) (RoundData.round rd1)
          (RoundData.proposal_id rd1) (RoundData.proposal_id rd2)) guilty ∧
  (total - 1) / 3 + 1 - (total - 1) mod 3 ≤ zsum (map (stake_of ros) guilty).
Proof.
  intros Hros Hi1 Hi2 Hv1 Hv2 Hn1 Hn2 Hh Hr Hne Htot Ht Hth Hq1 Hq2.
  destruct (conflicting_precommits keys1 keys2 ros rd1 rd2 big) as (guilty & ? & ? & Hs); try done.
  exists guilty. split; [done|]. split; [done|].
  rewrite (total_active_stake_eq ros Hros) in Htot. injection Htot as Htot.
  rewrite (thresholds_eq total Ht) in Hth. injection Hth as <- _.
  pose proof (Z.div_mod (total - 1) 3 ltac:(lia)). lia.
Qed.
End accountability.
