(* ===== verification/Gossip.v ===== *)
(** * Gossip: what a node sends to a peer and what it does with a packet

    Models the networking part of [entry_point] of [tenderlink/src/lib.rs]
    above the encrypted transport: [gen_mostly_empty_rngs],
    [write_header_and_maybe_status], [send_round_data_to_peer] and the body of
    the receive loop.  A message is the byte string handed to or received from
    the transport.  The self-checks under [cfg(debug_assertions)] are on
    exactly in the profile with overflow checks. *)

From stdpp Require Import base list.
From S2P Require Import Prelude Wire Encoding Bft Roster Round Node.
Import SortedRosterMember TMState.

(** ** Ranges of missing items *)

(** The loop state: the ranges pushed so far, the current range and the
    number of consecutive fills after it. *)
Record RngState := { rs_rngs : list (nat * nat); rs_lo : nat; rs_hi : nat; rs_filled : nat }.

Definition rng_step (f : nat → bool) (st : RngState) (i : nat) : RngState :=
  if f i then
    {| rs_rngs := st.(rs_rngs); rs_lo := st.(rs_lo); rs_hi := S i; rs_filled := 0 |}
  else if decide (st.(rs_lo) = st.(rs_hi)) then
    {| rs_rngs := st.(rs_rngs); rs_lo := S i; rs_hi := S i; rs_filled := st.(rs_filled) |}
  else if decide (1 < S st.(rs_filled))%nat then
    {| rs_rngs := st.(rs_rngs) ++ [(st.(rs_lo), st.(rs_hi))]; rs_lo := S i; rs_hi := S i;
       rs_filled := 0 |}
  else
    {| rs_rngs := st.(rs_rngs); rs_lo := st.(rs_lo); rs_hi := st.(rs_hi);
       rs_filled := S st.(rs_filled) |}.

Definition gen_mostly_empty_rngs (n : nat) (f : nat → bool) : list (nat * nat) :=
  let st := foldl (rng_step f) {| rs_rngs := []; rs_lo := 0; rs_hi := 0; rs_filled := 0 |}
              (seq 0 n) in
  if decide (st.(rs_lo) ≠ st.(rs_hi)) then st.(rs_rngs) ++ [(st.(rs_lo), st.(rs_hi))]
  else st.(rs_rngs).

(** ** Peers *)
Module Peer.
Record t := mk {
  latest_status_request_height : option Z;
  latest_status : option PacketStatus.t;
  index_counter : Z }.
Definition default_ : t := mk None None 0.
Definition bump `{Profile} (p : t) : outcome t :=
  c ← arith 64 (p.(index_counter) + 1);
  Ret (mk p.(latest_status_request_height) p.(latest_status) c).
End Peer.

Section send.
Context `{Profile} `{Crypto}.

(** [rng[k].try_into().unwrap()] into [w] bits. *)
Definition try_rng (w : Z) (r : nat * nat) : outcome (Z * Z) :=
  if in_range w (Z.of_nat r.1) && in_range w (Z.of_nat r.2)
  then Ret (Z.of_nat r.1, Z.of_nat r.2) else Panic.

(** The random pick of one range per slot. *)
Fixpoint pick_rngs (w : Z) (rngs : list (nat * nat)) (random_i : Z) (slots : nat)
    : outcome (list (Z * Z)) :=
  match slots with
  | O => Ret []
  | S slots =>
      r ← index rngs (Z.to_nat (random_i mod Z.of_nat (length rngs)));
      r ← try_rng w r;
      rest ← pick_rngs w rngs ((random_i + 1610612741) mod 2 ^ 64) slots;
      Ret (r :: rest)
  end.

Definition pick_or (w : Z) (rngs : list (nat * nat)) (random_i : Z) (dflt : list (Z * Z))
    : outcome (list (Z * Z)) :=
  if decide (length rngs = 0)%nat then Ret dflt
  else pick_rngs w rngs random_i (length dflt).

(** Whether the vote of member [i] is missing in a round. *)
Definition vote_missing (rd : RoundData.t) (is_precommit : bool) (i : nat) : bool :=
  match RoundData.msg_val_sigs rd !! i with
  | Some v => bool_decide ((get_slot v is_precommit).2 = TMSig_NIL)
  | None => true
  end.
Definition chunk_missing (rd : RoundData.t) (i : nat) : bool :=
  match RoundData.proposal_sigs rd !! i with
  | Some s => bool_decide (s = TMSig_NIL)
  | None => true
  end.

Definition make_status (s : t) (ros : list SortedRosterMember.t) (peer_random : Z)
    : outcome PacketStatus.t :=
  let votes0 := [(0, Z.of_nat (active_roster_len ros) mod 2 ^ 16)] in
  match binary_search s.(rounds_data) s.(height) s.(round) with
  | inr _ => Ret (PacketStatus.mk s.(height) s.(round) [(0, 0)] [votes0; votes0])
  | inl i =>
      rd ← index s.(rounds_data) i;
      chunk_rngs ← pick_or 32 (gen_mostly_empty_rngs (length (RoundData.proposal_sigs rd))
                               (chunk_missing rd)) peer_random [(0, 0)];
      (* [round_data.msg_val_sigs[i]] for every active index *)
      _ ← assert_ (bool_decide (active_roster_len ros ≤ length (RoundData.msg_val_sigs rd))%nat);
      pre ← pick_or 16 (gen_mostly_empty_rngs (active_roster_len ros) (vote_missing rd false))
        peer_random votes0;
      com ← pick_or 16 (gen_mostly_empty_rngs (active_roster_len ros) (vote_missing rd true))
        peer_random votes0;
      Ret (PacketStatus.mk s.(height) s.(round) chunk_rngs [pre; com])
  end.

Definition write_header_and_maybe_status (header : PacketHeader.t) (include_status : bool)
    (s : t) (ros : list SortedRosterMember.t) (peer_random : Z) : outcome bytes :=
  if include_status then
    status ← make_status s ros peer_random;
    Ret (PacketHeader.write_to (PacketHeader.add_status header) ++ PacketStatus.write_to status)
  else Ret (PacketHeader.write_to header).

(** *** Chunks *)

(** What one call sends: the peer with its counter, and the messages so far. *)
Definition Out : Type := Peer.t * list bytes.

Definition send_chunk (s : t) (ros : list SortedRosterMember.t) (rd : RoundData.t)
    (proposer_pub_key : PubKeyID) (out : Out) (chunk_i : nat) : outcome Out :=
  let '(peer, msgs) := out in
  sig ← index (RoundData.proposal_sigs rd) chunk_i;
  if decide (sig = TMSig_NIL) then Ret out else
  head ← write_header_and_maybe_status (PacketHeader.new_ PACKET_TYPE_PROPOSAL_CHUNK) true s ros
     peer.(Peer.index_counter);
  peer ← Peer.bump peer;
  hdr ← PacketProposalChunkHeader.write_to
    (PacketProposalChunkHeader.mk (Z.of_nat chunk_i mod 2 ^ 32)
       (Z.of_nat (length (RoundData.proposal rd))) (RoundData.round rd)
       (RoundData.proposal_valid_round rd) (RoundData.height rd)
       (RoundData.proposal_id rd));
  '(chunk_o, chunk_size) ← chunk_o_size (RoundData.proposal rd) chunk_i;
  data ← slice (RoundData.proposal rd) chunk_o (chunk_o + chunk_size);
  if overflow_checks && negb (TMSig_verify sig proposer_pub_key (hdr ++ data))
  then Ret (peer, msgs)
  else Ret (peer, msgs ++ [head ++ hdr ++ data ++ sig]).

(** *** Votes *)

Definition empty_votes : list PubKeySig.t := replicate PacketVotes.VOTES_N PubKeySig.NIL.

Definition with_counts (p : PacketVotes.t) (no yes : Z) (vs : list PubKeySig.t) : PacketVotes.t :=
  PacketVotes.mk no yes (PacketVotes.round p) (PacketVotes.height p) (PacketVotes.value_id p) vs.
Definition with_value (p : PacketVotes.t) (id : ValueId) : PacketVotes.t :=
  PacketVotes.mk (PacketVotes.no_votes_n p) (PacketVotes.yes_votes_n p) (PacketVotes.round p)
    (PacketVotes.height p) id (PacketVotes.votes p).

(** The self-check of the votes about to be sent only prints, but computes
    what each vote signs; it stops at the first index not in the roster. *)
Fixpoint dbg_check_votes (roster : list SortedRosterMember.t) (is_precommit : bool)
    (p : PacketVotes.t) (n i : nat) : outcome unit :=
  match n with
  | O => Ret ()
  | S n =>
      v ← index (PacketVotes.votes p) i;
      match roster !! Z.to_nat (PubKeySig.roster_i v) with
      | None => Ret ()
      | Some m =>
          _ ← make_vote_sign_datas m.(SortedRosterMember.pub_key) is_precommit
            (PacketVotes.height p) (PacketVotes.round p) (PacketVotes.value_id p);
          dbg_check_votes roster is_precommit p n (S i)
      end
  end.

Definition emit_votes (s : t) (ros rd_ros : list SortedRosterMember.t) (is_precommit : bool)
    (out : Out) (p : PacketVotes.t) : outcome Out :=
  let '(peer, msgs) := out in
  let header := PacketHeader.new_ (PACKET_TYPE_PREVOTE_SIGNATURES + b2z is_precommit) in
  n ← PacketVotes.votes_n p;
  _ ← (if overflow_checks then dbg_check_votes rd_ros is_precommit p (Z.to_nat n) 0
       else Ret ());
  head ← write_header_and_maybe_status header true s ros peer.(Peer.index_counter);
  peer ← Peer.bump peer;
  body ← PacketVotes.write_to p;
  Ret (peer, msgs ++ [head ++ body]).

(** Put a vote into the packet: nos from the front, yeses from the back. *)
Definition add_vote (p : PacketVotes.t) (value_id : ValueId) (v : PubKeySig.t)
    : outcome PacketVotes.t :=
  if decide (value_id = ValueId_NIL) then
    vs ← set_index (PacketVotes.votes p) (Z.to_nat (PacketVotes.no_votes_n p)) v;
    no ← arith 8 (PacketVotes.no_votes_n p + 1);
    Ret (with_counts p no (PacketVotes.yes_votes_n p) vs)
  else
  yes ← arith 8 (PacketVotes.yes_votes_n p + 1);
  o ← arith 64 (Z.of_nat (length (PacketVotes.votes p)) - yes);
  vs ← set_index (PacketVotes.votes p) (Z.to_nat o) v;
  Ret (with_counts p (PacketVotes.no_votes_n p) yes vs).

(** One stored vote: the packet under construction, and the packets that
    became full. *)
Definition pack_vote (is_precommit : bool) (st : PacketVotes.t * list PacketVotes.t)
    (e : nat * VoteSlots) : outcome (PacketVotes.t * list PacketVotes.t) :=
  let '(p, full) := st in
  let '(roster_i, slots) := e in
  let '(value_id, sig) := get_slot slots is_precommit in
  if decide (sig = TMSig_NIL) then Ret st else
  _ ← assert_ (in_range 16 (Z.of_nat roster_i));
  let p := if decide (PacketVotes.value_id p = ValueId_NIL) then with_value p value_id else p in
  if decide (value_id ≠ ValueId_NIL ∧ value_id ≠ PacketVotes.value_id p) then Ret (p, full) else
  p ← add_vote p value_id (PubKeySig.mk (Z.of_nat roster_i) sig);
  n ← PacketVotes.votes_n p;
  if n =? Z.of_nat (length (PacketVotes.votes p))
  then Ret (with_counts p 0 0 empty_votes, full ++ [p])
  else Ret (p, full).

(** "move items from end to fill gap" *)
Definition close_gap (p : PacketVotes.t) : outcome PacketVotes.t :=
  n ← PacketVotes.votes_n p;
  gap ← arith 64 (Z.of_nat (length (PacketVotes.votes p)) - n);
  vs ← for_each (λ vs gap_i,
                 v ← index vs (length vs - 1 - gap_i);
                 set_index vs (Z.to_nat (PacketVotes.no_votes_n p) + gap_i) v)
   (seq 0 (Z.to_nat gap)) (PacketVotes.votes p);
  Ret (with_counts p (PacketVotes.no_votes_n p) (PacketVotes.yes_votes_n p) vs).

(** All packets of one kind of votes of a round. *)
Definition pack_votes (rd : RoundData.t) (is_precommit : bool) : outcome (list PacketVotes.t) :=
  '(p, full) ← for_each (pack_vote is_precommit)
    (zip (seq 0 (length (RoundData.msg_val_sigs rd))) (RoundData.msg_val_sigs rd))
    (PacketVotes.mk 0 0 (RoundData.round rd) (RoundData.height rd) (RoundData.proposal_id rd)
   empty_votes, []);
  n ← PacketVotes.votes_n p;
  if 0 <? n then p ← close_gap p; Ret (full ++ [p]) else Ret full.

Definition send_votes (s : t) (ros : list SortedRosterMember.t) (rd : RoundData.t) (out : Out)
    (is_precommit : bool) : outcome Out :=
  let c := RoundData.counts rd in
  if (if is_precommit then ConsensusCounts.precommits c else ConsensusCounts.prevotes c) =? 0
  then Ret out
  else
  packets ← pack_votes rd is_precommit;
  for_each (emit_votes s ros (RoundData.roster rd) is_precommit) packets out.

Definition send_round_data_to_peer (s : t) (should_send_prevotes : bool) (rd : RoundData.t)
    (ros : list SortedRosterMember.t) (out : Out) : outcome Out :=
  let '(peer, msgs) := out in
  head ← write_header_and_maybe_status (PacketHeader.new_ 0) true s ros peer.(Peer.index_counter);
  peer ← Peer.bump peer;
  let out := (peer, msgs ++ [head]) in
  _ ← assert_ (in_range 32 (Z.of_nat (length (RoundData.proposal rd))));
  '(_, proposer_pub_key) ← proposer_from_height_round s.(hash_keys) (RoundData.roster rd)
                       (RoundData.height rd) (RoundData.round rd);
  out ← (if 0 <? RoundData.proposal_sigs_n rd
         then for_each (send_chunk s ros rd proposer_pub_key)
          (seq 0 (length (RoundData.proposal_sigs rd))) out
         else Ret out);
  for_each (send_votes s ros rd) (if should_send_prevotes then [false; true] else [true]) out.

(** What the tick sends to one peer: the votes of a decided height the peer
    asked for, or all rounds of the current height, latest first. *)
Definition send_to_peer (s : t) (ros : list SortedRosterMember.t) (out : Out) : outcome Out :=
  let '(peer, msgs) := out in
  match peer.(Peer.latest_status_request_height) with
  | Some h =>
      if h <? s.(height) then
        rd ← index s.(recent_commit_round_cache) (Z.to_nat h);
        send_round_data_to_peer s false rd ros
          (Peer.mk None peer.(Peer.latest_status) peer.(Peer.index_counter), msgs)
      else
      match binary_search s.(rounds_data) s.(height) 0 with
      | inl i => for_each (λ out rd, send_round_data_to_peer s true rd ros out)
               (reverse (drop i s.(rounds_data))) out
      | inr _ => Ret out
      end
  | None =>
      match binary_search s.(rounds_data) s.(height) 0 with
      | inl i => for_each (λ out rd, send_round_data_to_peer s true rd ros out)
             (reverse (drop i s.(rounds_data))) out
      | inr _ => Ret out
      end
  end.
End send.

(** ** Receiving *)
Section receive.
Context `{Profile} `{Crypto}.

(** The header, the status if its flag is set, and the rest of the message. *)
Definition read_header_and_maybe_status (msg : bytes)
    : option (PacketHeader.t * option PacketStatus.t * bytes) :=
  '(header, buf) ← PacketHeader.read_from msg;
  if PacketHeader.has_status header then
    '(status, buf) ← PacketStatus.read_from buf;
    Some (header, Some status, buf)
  else Some (header, None, buf).

Definition receive_proposal_chunk (s : t) (ros : list SortedRosterMember.t) (msg body : bytes)
    : outcome t :=
  match PacketProposalChunkHeader.read_from body with
  | None => Ret s
  | Some (hdr, _) =>
      let read_o := (length msg - length body)%nat in
      let chunk_i := PacketProposalChunkHeader.chunk_i hdr in
      o ← arith 64 (chunk_i * Z.of_nat PROPOSAL_CHUNK_DATA_SIZE);
      rem ← arith 64 (PacketProposalChunkHeader.proposal_size hdr - o);
      let chunk_size := Z.to_nat (Z.min (Z.of_nat PROPOSAL_CHUNK_DATA_SIZE) rem) in
      let packet_size := (chunk_size + PROPOSAL_PACKET_EXTRA)%nat in
      if decide (length msg = packet_size) then
        '(roster_i, _) ← proposer_from_height_round s.(hash_keys) ros
                       (PacketProposalChunkHeader.height hdr)
                       (PacketProposalChunkHeader.round hdr);
        match roster_i with
        | None => Ret s
        | Some roster_i =>
            let sig_o := (read_o + PacketProposalChunkHeader.SERIALIZED_SIZE + chunk_size)%nat in
            signed_data ← slice msg read_o sig_o;
            sig ← slice msg sig_o (sig_o + 64);
            '(s, _) ← check_and_incorporate_msg s (PacketProposalChunkHeader.height hdr)
                    (PacketProposalChunkHeader.round hdr) (Z.to_nat chunk_i)
                    (PacketProposalChunkHeader.proposal_id hdr)
                    (PacketProposalChunkHeader.valid_round hdr) ros roster_i
                    PACKET_TYPE_PROPOSAL_CHUNK signed_data sig;
            Ret s
        end
      else Ret s
  end.

Definition receive_vote (ros : list SortedRosterMember.t) (packet_type : Z) (p : PacketVotes.t)
    (s : t) (vote_i : nat) : outcome t :=
  v ← index (PacketVotes.votes p) vote_i;
  let roster_i := Z.to_nat (PubKeySig.roster_i v) in
  match ros !! roster_i with
  | None => Ret s
  | Some m =>
      let is_precommit := negb (packet_type - PACKET_TYPE_PREVOTE_SIGNATURES =? 0) in
      '(no, yes) ← make_vote_sign_datas m.(SortedRosterMember.pub_key) is_precommit
               (PacketVotes.height p) (PacketVotes.round p) (PacketVotes.value_id p);
      let is_yes := PacketVotes.no_votes_n p <=? Z.of_nat vote_i in
      '(s, _) ← check_and_incorporate_msg s (PacketVotes.height p) (PacketVotes.round p) 0
            (if is_yes then PacketVotes.value_id p else ValueId_NIL) (-2) ros roster_i
            packet_type (if is_yes then yes else no) (PubKeySig.sig v);
      Ret s
  end.

Definition receive_votes (s : t) (ros : list SortedRosterMember.t) (packet_type : Z) (body : bytes)
    : outcome t :=
  r ← PacketVotes.read_from body;
  match r with
  | None => Ret s
  | Some (p, _) =>
      n ← PacketVotes.votes_n p;
      for_each (receive_vote ros packet_type p) (seq 0 (Z.to_nat n)) s
  end.

(** The body of the receive loop for a packet of a known peer. *)
Definition receive_packet (peer : Peer.t) (s : t) (ros : list SortedRosterMember.t) (msg : bytes)
    : outcome (Peer.t * t) :=
  if decide (length msg = 0)%nat then Ret (peer, s) else
  match read_header_and_maybe_status msg with
  | None => Ret (peer, s)
  | Some (header, status, body) =>
      let packet_type := PacketHeader.type_ header in
      let peer := match status with
                  | Some st => Peer.mk (Some (PacketStatus.height st)) (Some st)
                           peer.(Peer.index_counter)
                  | None => peer
                  end in
      s ← (if packet_type =? PACKET_TYPE_PROPOSAL_CHUNK
           then receive_proposal_chunk s ros msg body
           else if (packet_type =? PACKET_TYPE_PREVOTE_SIGNATURES)
           || (packet_type =? PACKET_TYPE_PRECOMMIT_SIGNATURES)
           then receive_votes s ros packet_type body
           else Ret s);
      Ret (peer, s)
  end.
End receive.
