(* ===== verification/Receive.v ===== *)
(** * Receive: no packet corrupts a node, and which packets abort it

    The receive loop against the invariant of the node: every packet that does
    not abort the process keeps the invariant, every packet within the limits
    of the format is handled without a panic, and the packets outside them
    that abort the process. *)

From stdpp Require Import base list sets sorting relations.
From S2P Require Import Prelude Wire Encoding Bft Roster Round RoundInv Node NodeInv Decide Gossip.
Import SortedRosterMember TMState.

Lemma chunk_header_fields buf hdr rest :
  PacketProposalChunkHeader.read_from buf = Some (hdr, rest) →
  length (PacketProposalChunkHeader.proposal_id hdr) = 32%nat ∧
  is_u 32 (PacketProposalChunkHeader.chunk_i hdr) ∧
  is_u 32 (PacketProposalChunkHeader.proposal_size hdr) ∧
  length buf = (PacketProposalChunkHeader.SERIALIZED_SIZE + length rest)%nat ∧
  ∀ n, (PacketProposalChunkHeader.SERIALIZED_SIZE ≤ n)%nat → ∃ rest',
    PacketProposalChunkHeader.read_from (take n buf) = Some (hdr, rest').
Proof.
  unfold PacketProposalChunkHeader.read_from. intros Hr.
  apply Reader_bind_inv in Hr as (c & b1 & H1%read_uint_inv & Hr).
  apply Reader_bind_inv in Hr as (ps & b2 & H2%read_uint_inv & Hr).
  apply Reader_bind_inv in Hr as (r & b3 & H3%read_uint_inv & Hr).
  apply Reader_bind_inv in Hr as (v & b4 & H4%read_uint_inv & Hr).
  apply Reader_bind_inv in Hr as (h & b5 & H5%read_uint_inv & Hr).
  apply Reader_bind_inv in Hr as (id & b6 & H6%read_bytes_inv & Hr).
  cbv [mret Reader_ret] in Hr. injection Hr as <- <-.
  destruct H1 as [? ->], H2 as [? ->], H3 as [? ->], H4 as [? ->], H5 as [? ->], H6 as [-> Hid].
  cbn [PacketProposalChunkHeader.proposal_id PacketProposalChunkHeader.chunk_i
    PacketProposalChunkHeader.proposal_size].
  split; [done|]. split; [done|]. split; [done|]. split.
  { unfold PacketProposalChunkHeader.SERIALIZED_SIZE. len. }
  intros n Hn. unfold PacketProposalChunkHeader.SERIALIZED_SIZE in Hn.
  exists (take (n - 56) b6).
  replace (take n _) with (to_le 4 c ++ to_le 4 ps ++ to_le 4 r ++ to_le 4 v ++ to_le 8 h ++ id ++ take (n - 56) b6).
  { by read_back. }
  rewrite !app_assoc. rewrite (take_app_ge _ b6) by len. f_equal. f_equal. len.
Qed.

Lemma votes_header_fields buf p rest :
  PacketVotes.read_hdr buf = Some (p, rest) →
  length (PacketVotes.value_id p) = 32%nat ∧ length (PacketVotes.votes p) = PacketVotes.VOTES_N ∧
  is_u 8 (PacketVotes.no_votes_n p) ∧ is_u 8 (PacketVotes.yes_votes_n p) ∧
  is_u 64 (PacketVotes.height p) ∧ is_u 32 (PacketVotes.round p).
Proof.
  unfold PacketVotes.read_hdr. intros Hr.
  apply Reader_bind_inv in Hr as (a & b1 & [H1 _]%read_uint_inv & Hr).
  apply Reader_bind_inv in Hr as (b & b2 & [H2 _]%read_uint_inv & Hr).
  apply Reader_bind_inv in Hr as (c & b3 & [H3 _]%read_uint_inv & Hr).
  apply Reader_bind_inv in Hr as (d & b4 & [H4 _]%read_uint_inv & Hr).
  apply Reader_bind_inv in Hr as (e & b5 & [_ H5]%read_bytes_inv & Hr).
  cbv [mret Reader_ret] in Hr. by injection Hr as <- <-.
Qed.

(** What reading the header and the status takes off the front of a message. *)
Lemma packet_header_prefix buf h rest :
  PacketHeader.read_from buf = Some (h, rest) → ∃ pre, buf = pre ++ rest ∧ length pre = PACKET_HEADER_SIZE.
Proof.
  unfold PacketHeader.read_from. intros Hr.
  apply Reader_bind_inv in Hr as (a & b1 & [_ ->]%read_uint_inv & Hr).
  apply Reader_bind_inv in Hr as (b & b2 & [_ ->]%read_uint_inv & Hr).
  cbv [mret Reader_ret] in Hr. injection Hr as <- <-.
  exists (to_le 8 a ++ to_le 8 b). split; [by rewrite <- app_assoc|by rewrite length_app, !length_le_split].
Qed.

Lemma read_rng_prefix n buf r rest :
  PacketStatus.read_rng n buf = Some (r, rest) → ∃ pre, buf = pre ++ rest ∧ length pre = (n + n)%nat.
Proof.
  unfold PacketStatus.read_rng. intros Hr.
  apply Reader_bind_inv in Hr as (a & b1 & [_ ->]%read_uint_inv & Hr).
  apply Reader_bind_inv in Hr as (b & b2 & [_ ->]%read_uint_inv & Hr).
  cbv [mret Reader_ret] in Hr. injection Hr as <- <-.
  exists (to_le n a ++ to_le n b). split; [by rewrite <- app_assoc|len].
Qed.

Lemma read_list_prefix {A} k n (rd : Reader A) buf xs rest :
  (∀ b x r, rd b = Some (x, r) → ∃ pre, b = pre ++ r ∧ length pre = k) →
  read_list n rd buf = Some (xs, rest) → ∃ pre, buf = pre ++ rest ∧ length pre = (n * k)%nat.
Proof.
  intros Hrd. revert buf xs rest. induction n as [|n IH]; intros buf xs rest; cbn [read_list].
  { cbv [mret Reader_ret]. intros [= _ ->]. by exists []. }
  intros (x & b1 & (pre1 & -> & H1)%Hrd & Hr)%Reader_bind_inv.
  apply Reader_bind_inv in Hr as (ys & b2 & (pre2 & -> & H2)%IH & Hr).
  cbv [mret Reader_ret] in Hr. injection Hr as _ <-.
  exists (pre1 ++ pre2). split; [by rewrite <- app_assoc|]. rewrite length_app, H1, H2. done.
Qed.

Lemma packet_status_prefix buf st rest :
  PacketStatus.read_from buf = Some (st, rest) → ∃ pre, buf = pre ++ rest ∧ length pre = PACKET_STATUS_SIZE.
Proof.
  unfold PacketStatus.read_from. intros Hr.
  apply Reader_bind_inv in Hr as (a & b1 & [_ ->]%read_uint_inv & Hr).
  apply Reader_bind_inv in Hr as (b & b2 & [_ ->]%read_uint_inv & Hr).
  apply Reader_bind_inv in Hr as (cs & b3 & Hc & Hr).
  apply (read_list_prefix 8) in Hc as (pc & -> & Hpc); [|intros ? ? ?; apply read_rng_prefix].
  apply Reader_bind_inv in Hr as (vs & b4 & Hv & Hr).
  apply (read_list_prefix 4) in Hv as (pv & -> & Hpv).
  2:{ intros ? ? ? Hl. apply (read_list_prefix 4) in Hl; [|intros ? ? ?; apply read_rng_prefix]. exact Hl. }
  cbv [mret Reader_ret] in Hr. injection Hr as <- <-.
  exists (to_le 8 a ++ to_le 4 b ++ pc ++ pv). split; [by rewrite <- !app_assoc|].
  rewrite !length_app, Hpc, Hpv, !length_le_split. done.
Qed.

Lemma read_header_prefix msg h st body :
  read_header_and_maybe_status msg = Some (h, st, body) →
  ∃ pre, msg = pre ++ body ∧
    (length pre = PACKET_HEADER_SIZE ∨ length pre = PACKET_HEADER_SIZE + PACKET_STATUS_SIZE)%nat.
Proof.
  unfold read_header_and_maybe_status.
  destruct (PacketHeader.read_from msg) as [[h0 b0]|] eqn:Eh; [|done]. cbn.
  apply packet_header_prefix in Eh as (p1 & -> & H1).
  destruct (PacketHeader.has_status h0); cbn.
  - destruct (PacketStatus.read_from b0) as [[st0 b1]|] eqn:Es; [|done]. cbn. intros [= <- <- <-].
    apply packet_status_prefix in Es as (p2 & -> & H2). exists (p1 ++ p2).
    split; [by rewrite <- app_assoc|]. right. by rewrite length_app, H1, H2.
  - intros [= <- <- <-]. exists p1. auto.
Qed.

Section receive_inv.
Context {P : Profile} {C : Crypto} {CL : CryptoLaws C}.
Context (ros : list SortedRosterMember.t) (Hros : roster_ok ros).

Lemma member_key_length i m : ros !! i = Some m → length m.(SortedRosterMember.pub_key) = 32%nat.
Proof. intros Hm. destruct Hros as [_ Hk _]. by eapply Forall_lookup in Hk. Qed.

(** What [receive_vote] passes on is a vote with the bytes it signs. *)
Lemma receive_vote_typed p pt vote_i i m no yes :
  length (PacketVotes.value_id p) = 32%nat →
  (pt = PACKET_TYPE_PREVOTE_SIGNATURES ∨ pt = PACKET_TYPE_PRECOMMIT_SIGNATURES) →
  ros !! i = Some m →
  make_vote_sign_datas m.(SortedRosterMember.pub_key)
  (negb (pt - PACKET_TYPE_PREVOTE_SIGNATURES =? 0)) (PacketVotes.height p)
  (PacketVotes.round p) (PacketVotes.value_id p) = Ret (no, yes) →
  let is_yes := PacketVotes.no_votes_n p <=? Z.of_nat vote_i in
  msg_typed ros (PacketVotes.height p) (PacketVotes.round p)
  (if is_yes then PacketVotes.value_id p else ValueId_NIL) i pt (if is_yes then yes else no).
Proof.
  intros Hid Hpt Hm Hsd is_yes.
  destruct (make_vote_sign_datas_Ret _ _ _ _ _ _ _ (member_key_length _ _ Hm) Hid Hsd) as [-> ->].
  split; [by destruct is_yes|]. intros m' pc Hm' Hpc. rewrite Hm in Hm'. injection Hm' as <-.
  assert (negb (pt - PACKET_TYPE_PREVOTE_SIGNATURES =? 0) = pc) as ->.
  { rewrite Hpc. by destruct pc. }
  by destruct is_yes.
Qed.

Lemma receive_vote_inv pt p s vote_i s' :
  length (PacketVotes.value_id p) = 32%nat →
  (pt = PACKET_TYPE_PREVOTE_SIGNATURES ∨ pt = PACKET_TYPE_PRECOMMIT_SIGNATURES) →
  node_ok ros s → receive_vote ros pt p s vote_i = Ret s' → node_ok ros s' ∧ same_node s s'.
Proof.
  intros Hid Hpt Hok Hr. unfold receive_vote in Hr. inv_ret. cbn zeta in Hr.
  destruct (ros !! _) as [m|] eqn:Hm; [|simplify_eq; auto using same_node_refl]. inv_ret.
  eapply check_and_incorporate_msg_inv; [done|done| |done].
  by eapply receive_vote_typed.
Qed.

Lemma read_from_hdr buf p rest :
  PacketVotes.read_from buf = Ret (Some (p, rest)) → length (PacketVotes.value_id p) = 32%nat.
Proof.
  unfold PacketVotes.read_from. destruct (PacketVotes.read_hdr buf) as [[p0 buf0]|] eqn:Eh; [|done].
  apply votes_header_fields in Eh as [Hid _]. intros Hr. inv_ret.
  destruct r0 as [[vs b]|]; [|done]. by simplify_eq.
Qed.

Lemma receive_votes_inv s pt body s' :
  (pt = PACKET_TYPE_PREVOTE_SIGNATURES ∨ pt = PACKET_TYPE_PRECOMMIT_SIGNATURES) →
  node_ok ros s → receive_votes s ros pt body = Ret s' → node_ok ros s' ∧ same_node s s'.
Proof.
  intros Hpt Hok Hr. unfold receive_votes in Hr. inv_ret.
  destruct r as [[p rest]|]; [|simplify_eq; auto using same_node_refl]. inv_ret.
  apply read_from_hdr in E. eapply (for_each_inv (λ x, node_ok ros x ∧ same_node s x)); [| |exact Hr].
  - intros i s1 s2 _ [Hok1 Hs1] Hv. destruct (receive_vote_inv _ _ _ _ _ E Hpt Hok1 Hv).
    eauto using same_node_trans.
  - auto using same_node_refl.
Qed.

Lemma receive_proposal_chunk_inv s msg body s' :
  node_ok ros s → receive_proposal_chunk s ros msg body = Ret s' → node_ok ros s' ∧ same_node s s'.
Proof.
  intros Hok Hr. unfold receive_proposal_chunk in Hr.
  destruct (PacketProposalChunkHeader.read_from body) as [[hdr rest]|] eqn:Eh;
    [|simplify_eq; auto using same_node_refl].
  apply chunk_header_fields in Eh as [Hid _]. cbn zeta in Hr. inv_ret.
  case_decide; [|simplify_eq; auto using same_node_refl]. inv_ret.
  case_match; [|simplify_eq; auto using same_node_refl]. inv_ret.
  eapply check_and_incorporate_msg_inv; [done|done| |done]. split; [done|].
  intros m pc _ Hpt. destruct pc; vm_compute in Hpt; lia.
Qed.

Lemma receive_packet_inv peer s msg peer' s' :
  node_ok ros s → receive_packet peer s ros msg = Ret (peer', s') →
  node_ok ros s' ∧ same_node s s'.
Proof.
  intros Hok Hr. unfold receive_packet in Hr.
  case_decide; [simplify_eq; auto using same_node_refl|].
  destruct (read_header_and_maybe_status msg) as [[[hdr status] body]|];
    [|simplify_eq; auto using same_node_refl]. cbn zeta in Hr. inv_ret. simplify_eq.
  destruct (_ =? PACKET_TYPE_PROPOSAL_CHUNK); [by eapply receive_proposal_chunk_inv|].
  destruct ((_ =? _) || _) eqn:Ept; [|simplify_eq; auto using same_node_refl].
  eapply receive_votes_inv; [|done|done]. lia.
Qed.

(** *** Packets within the format's limits are handled *)

Lemma check_and_incorporate_msg_total s h r chunk_i id vr i pt data sig :
  node_ok ros s →
  (∀ rd seen mine, round_ok s.(hash_keys) ros rd →
   (seen = false → RoundData.proposal_sigs_n rd = 0) → sig ≠ TMSig_NIL →
   (i < active_roster_len ros)%nat →
   ∃ x, handle_msg s.(hash_keys) rd seen mine chunk_i id vr ros i pt data sig = Ret x) →
  ∃ x, check_and_incorporate_msg s h r chunk_i id vr ros i pt data sig = Ret x.
Proof.
  intros Hok Hh. unfold check_and_incorporate_msg.
  destruct (Z.eqb_spec h s.(height)) as [->|]; cbn [negb]; [|by eauto].
  case_decide as Hi; [by eauto|].
  destruct (lookup_lt_is_Some_2 ros i) as [m Hm]; [unfold active_roster_len in Hi; lia|].
  rewrite (index_Ret _ _ _ Hm). cbn [mbind outcome_bind]. cbn zeta.
  destruct (TMSig_verify sig _ data) eqn:Ever; cbn [negb]; [|by eauto].
  destruct (find_or_insert_round s s.(height) r ros) as [[seen ri] s1] eqn:Ef.
  destruct (find_or_insert_round_inv ros Hros s r seen ri s1 Hok Ef)
    as (Hok1 & Hsame & rd & Hrd & Eh & Er & Hseen & _).
  pose proof (same_node_fields _ _ Hsame) as (Ek & Ehh & _).
  rewrite (index_Ret _ _ _ Hrd). cbn [mbind outcome_bind]. rewrite Ek.
  assert (sig ≠ TMSig_NIL) as Hsig.
  { intros ->. destruct Hros as [_ _ Hnil]. eapply Forall_lookup in Hnil; [|exact Hm]. by rewrite Hnil in Ever. }
  pose proof Hok1 as [_ _ _ Hr1]. eapply Forall_lookup in Hr1; [|exact Hrd].
  destruct (Hr1 ltac:(congruence)) as [Hrok _ _]. rewrite Ek in Hrok.
  edestruct (Hh rd seen (bool_decide (SortedRosterMember.pub_key m = my_pub_key s1)) Hrok)
    as ([rd' st] & ->); [by intros ->%Hseen|done|lia|].
  cbn [mbind outcome_bind]. rewrite set_index_Ret by (by eapply lookup_lt_Some).
  cbn [mbind outcome_bind]. eauto.
Qed.

Lemma receive_vote_total pt p s vote_i :
  (pt = PACKET_TYPE_PREVOTE_SIGNATURES ∨ pt = PACKET_TYPE_PRECOMMIT_SIGNATURES) →
  length (PacketVotes.value_id p) = 32%nat → is_u 31 (PacketVotes.round p) →
  (vote_i < length (PacketVotes.votes p))%nat → node_ok ros s →
  ∃ s', receive_vote ros pt p s vote_i = Ret s' ∧ node_ok ros s'.
Proof.
  intros Hpt Hid Hr Hi Hok.
  enough (∃ s', receive_vote ros pt p s vote_i = Ret s') as [s' Hs'].
  { exists s'. split; [done|]. by eapply receive_vote_inv. }
  unfold receive_vote. destruct (lookup_lt_is_Some_2 _ _ Hi) as [v Hv].
  rewrite (index_Ret _ _ _ Hv). cbn [mbind outcome_bind]. cbn zeta.
  destruct (ros !! Z.to_nat (PubKeySig.roster_i v)) as [m|] eqn:Hm; [|by eauto].
  rewrite make_vote_sign_datas_votes by (done || by eapply member_key_length).
  cbn [mbind outcome_bind].
  edestruct (check_and_incorporate_msg_total s) as ([s1 st] & ->); [done| |by cbn; eauto].
  intros rd seen mine Hrok _ _ Hact. unfold handle_msg.
  replace (pt =? PACKET_TYPE_PROPOSAL_CHUNK) with false by (by destruct Hpt as [-> | ->]).
  replace (_ || _) with true by (by destruct Hpt as [-> | ->]).
  edestruct (incorporate_vote_cases s.(hash_keys) ros (roster_bounded ros Hros) rd)
    as [(_ & ->)|(_ & ? & -> & _)]; [done|exact Hact|eauto..].
Qed.

Lemma read_votes_total n i vs buf :
  (i + n ≤ length vs)%nat →
  ∃ r, PacketVotes.read_votes n i vs buf = Ret r ∧
  ∀ vs' b, r = Some (vs', b) → length vs' = length vs.
Proof.
  revert i vs buf. induction n as [|n IH]; intros i vs buf Hn; cbn [PacketVotes.read_votes].
  { eexists. split; [done|]. naive_solver. }
  destruct (read_uint 2 buf) as [[ri b1]|]; [|eexists; split; [done|naive_solver]].
  destruct (lookup_lt_is_Some_2 vs i) as [v Hv]; [lia|].
  rewrite (index_Ret _ _ _ Hv). cbn [mbind outcome_bind]. rewrite set_index_Ret by lia.
  cbn [mbind outcome_bind]. destruct (read_bytes 64 b1) as [[sg b2]|]; [|eexists; split; [done|naive_solver]].
  rewrite set_index_Ret by (rewrite length_insert; lia). cbn [mbind outcome_bind].
  destruct (IH (S i) (<[i:=PubKeySig.mk ri sg]> (<[i:=PubKeySig.mk ri (PubKeySig.sig v)]> vs)) b2)
    as (r & -> & Hl); [rewrite !length_insert; lia|].
  exists r. split; [done|]. intros vs' b Hr. rewrite (Hl _ _ Hr), !length_insert. done.
Qed.

Lemma receive_votes_total s pt body :
  (pt = PACKET_TYPE_PREVOTE_SIGNATURES ∨ pt = PACKET_TYPE_PRECOMMIT_SIGNATURES) →
  (∀ p rest, PacketVotes.read_hdr body = Some (p, rest) →
   PacketVotes.no_votes_n p + PacketVotes.yes_votes_n p ≤ Z.of_nat PacketVotes.VOTES_N ∧
   is_u 31 (PacketVotes.round p)) →
  node_ok ros s → ∃ s', receive_votes s ros pt body = Ret s' ∧ node_ok ros s'.
Proof.
  intros Hpt Hlim Hok. unfold receive_votes, PacketVotes.read_from.
  destruct (PacketVotes.read_hdr body) as [[p rest]|] eqn:Eh; [|by cbn; eauto].
  destruct (Hlim p rest eq_refl) as [Hn Hr].
  destruct (votes_header_fields _ _ _ Eh) as (Hid & Hlen & Hno & Hyes & _).
  assert (Z.of_nat PacketVotes.VOTES_N = 18) as HN by done. unfold is_u in Hno, Hyes.
  assert (is_u 8 (PacketVotes.no_votes_n p + PacketVotes.yes_votes_n p)) as Hu by (unfold is_u; lia).
  unfold PacketVotes.votes_n. rewrite arith_ok by done. cbn [mbind outcome_bind].
  destruct (read_votes_total (Z.to_nat (PacketVotes.no_votes_n p + PacketVotes.yes_votes_n p)) 0
    (PacketVotes.votes p) rest) as (r & -> & Hl); [lia|]. cbn [mbind outcome_bind].
  destruct r as [[vs b]|]; [|by eauto]. cbn [PacketVotes.no_votes_n PacketVotes.yes_votes_n].
  rewrite arith_ok by done. cbn [mbind outcome_bind].
  apply (for_each_total (λ s, node_ok ros s)); [|done].
  intros i s1 Hi Hok1. apply elem_of_seq in Hi.
  apply receive_vote_total; [done|done|done| |done]. cbn. rewrite (Hl vs b eq_refl). lia.
Qed.

(** A chunk whose index lies within the size its header announces. *)
Definition chunk_in_range (hdr : PacketProposalChunkHeader.t) : Prop :=
  PacketProposalChunkHeader.chunk_i hdr * Z.of_nat PROPOSAL_CHUNK_DATA_SIZE
    < PacketProposalChunkHeader.proposal_size hdr.

Lemma chunk_in_range_fits hdr body rest cs :
  PacketProposalChunkHeader.read_from body = Some (hdr, rest) → chunk_in_range hdr →
  cs = Z.to_nat (Z.min (Z.of_nat PROPOSAL_CHUNK_DATA_SIZE)
                 (PacketProposalChunkHeader.proposal_size hdr
                  - PacketProposalChunkHeader.chunk_i hdr * Z.of_nat PROPOSAL_CHUNK_DATA_SIZE)) →
  (cs ≤ length rest)%nat →
  chunk_fits hdr (Z.to_nat (PacketProposalChunkHeader.chunk_i hdr))
  (take (PacketProposalChunkHeader.SERIALIZED_SIZE + cs) body).
Proof.
  intros Hr Hin Hcs Hlen. destruct (chunk_header_fields _ _ _ Hr) as (_ & Hci & Hsz & Hl & _).
  unfold chunk_in_range, is_u in *. set (D := PROPOSAL_CHUNK_DATA_SIZE) in *.
  assert (0 < D)%nat as HD by (subst D; vm_compute; lia).
  set (ci := Z.to_nat (PacketProposalChunkHeader.chunk_i hdr)).
  set (sz := Z.to_nat (PacketProposalChunkHeader.proposal_size hdr)).
  assert (ci * D < sz)%nat as Hlt.
  { apply Nat2Z.inj_lt. rewrite Nat2Z.inj_mul. subst ci sz. rewrite !Z2Nat.id by lia. done. }
  split.
  - fold sz D. destruct (div_ceil_spec sz D HD) as [Hle _].
    destruct (decide (ci < div_ceil sz D)%nat); [done|]. exfalso.
    assert (div_ceil sz D * D ≤ ci * D)%nat by (apply Nat.mul_le_mono_r; lia). lia.
  - fold sz D. unfold chunk_off. fold D ci. rewrite length_take, Hl.
    assert (cs = Nat.min D (sz - ci * D))%nat as ->; [|lia].
    rewrite Hcs. apply Nat2Z.inj. rewrite Z2Nat.id by lia.
    rewrite Nat2Z.inj_min, Nat2Z.inj_sub, Nat2Z.inj_mul by lia. subst ci sz.
    rewrite !Z2Nat.id by lia. done.
Qed.

Lemma receive_proposal_chunk_total s msg pre body :
  msg = pre ++ body →
  (length pre = PACKET_HEADER_SIZE ∨ length pre = PACKET_HEADER_SIZE + PACKET_STATUS_SIZE)%nat →
  (∀ hdr rest, PacketProposalChunkHeader.read_from body = Some (hdr, rest) → chunk_in_range hdr) →
  node_ok ros s → ∃ s', receive_proposal_chunk s ros msg body = Ret s' ∧ node_ok ros s'.
Proof.
  intros Hmsg Hpre Hlim Hok.
  enough (∃ s', receive_proposal_chunk s ros msg body = Ret s') as [s' Hs'].
  { exists s'. split; [done|]. by eapply receive_proposal_chunk_inv. }
  unfold receive_proposal_chunk.
  destruct (PacketProposalChunkHeader.read_from body) as [[hdr rest]|] eqn:Eh; [|by eauto].
  specialize (Hlim hdr rest eq_refl).
  destruct (chunk_header_fields _ _ _ Eh) as (Hid & Hci & Hsz & Hl & Htake).
  unfold is_u in Hci, Hsz. cbn zeta. assert (Z.of_nat PROPOSAL_CHUNK_DATA_SIZE = 1212) as HD by done.
  pose proof Hlim as Hin. unfold chunk_in_range in Hin.
  rewrite !arith_ok by (unfold is_u; lia). cbn [mbind outcome_bind].
  rewrite arith_ok by (unfold is_u; lia). cbn [mbind outcome_bind].
  set (cs := Z.to_nat (Z.min _ _)). case_decide as Hsize; [|by eauto].
  destruct (proposer_total s.(hash_keys) ros (PacketProposalChunkHeader.height hdr)
    (PacketProposalChunkHeader.round hdr) (rk_stakes _ Hros)) as ([[ri|] pk] & ->);
    cbn [mbind outcome_bind]; [|by eauto].
  assert (length msg - length body = length pre)%nat as Hro by (subst msg; len).
  assert (length msg = length pre + PacketProposalChunkHeader.SERIALIZED_SIZE + length rest)%nat as Hlm
    by (subst msg; rewrite length_app; lia).
  assert (PROPOSAL_PACKET_EXTRA = PACKET_HEADER_SIZE + PACKET_STATUS_SIZE
    + PacketProposalChunkHeader.SERIALIZED_SIZE + 64)%nat as HX by done.
  assert (cs + 64 ≤ length rest)%nat as Hfit by (clear -Hpre Hlm HX Hsize; lia).
  rewrite Hro, !slice_Ret by lia. cbn [mbind outcome_bind].
  edestruct (check_and_incorporate_msg_total s) as ([s1 st] & ->); [done| |by cbn; eauto].
  intros rd seen mine Hrok Hseen Hsig Hact. unfold handle_msg. cbn [Z.eqb].
  replace (take _ _) with (take (PacketProposalChunkHeader.SERIALIZED_SIZE + cs) body).
  2:{ subst msg. rewrite drop_app_length. f_equal. lia. }
  destruct (Htake (PacketProposalChunkHeader.SERIALIZED_SIZE + cs)%nat) as [rest' Hr']; [lia|].
  edestruct (incorporate_proposal_chunk_cases s.(hash_keys) ros (roster_bounded ros Hros) rd seen mine)
    as [[_ ->]|(? & ? & ? & _ & _ & _ & -> & _ & _)];
    [done|exact Hsig|done|exact Hr'|eapply chunk_in_range_fits; [done|done|done|lia]|eauto..].
Qed.

(** A packet within the limits of the format: at most 18 votes for a round
    below [2^31], or a chunk inside its proposal. *)
Definition within_limits (msg : bytes) : Prop :=
  ∀ header status body, read_header_and_maybe_status msg = Some (header, status, body) →
    (PacketHeader.type_ header = PACKET_TYPE_PROPOSAL_CHUNK →
   ∀ hdr rest, PacketProposalChunkHeader.read_from body = Some (hdr, rest) → chunk_in_range hdr) ∧
  (PacketHeader.type_ header = PACKET_TYPE_PREVOTE_SIGNATURES ∨
   PacketHeader.type_ header = PACKET_TYPE_PRECOMMIT_SIGNATURES →
   ∀ p rest, PacketVotes.read_hdr body = Some (p, rest) →
   PacketVotes.no_votes_n p + PacketVotes.yes_votes_n p ≤ Z.of_nat PacketVotes.VOTES_N ∧
   is_u 31 (PacketVotes.round p)).

Lemma receive_packet_total peer s msg :
  within_limits msg → node_ok ros s →
  ∃ peer' s', receive_packet peer s ros msg = Ret (peer', s') ∧ node_ok ros s' ∧ same_node s s'.
Proof.
  intros Hlim Hok. enough (∃ x, receive_packet peer s ros msg = Ret x) as [[peer' s'] Hr].
  { exists peer', s'. split; [done|]. by eapply receive_packet_inv. }
  unfold receive_packet. case_decide; [by eauto|].
  destruct (read_header_and_maybe_status msg) as [[[hdr status] body]|] eqn:Eh; [|by eauto].
  destruct (Hlim _ _ _ Eh) as [Hc Hv]. destruct (read_header_prefix _ _ _ _ Eh) as (pre & Hmsg & Hpre).
  cbn zeta. destruct (Z.eqb_spec (PacketHeader.type_ hdr) PACKET_TYPE_PROPOSAL_CHUNK) as [Ec|Ec].
  - destruct (receive_proposal_chunk_total s msg pre body Hmsg Hpre (Hc Ec) Hok) as (s' & -> & _).
    cbn. eauto.
  - destruct ((_ =? _) || _) eqn:Ev; [|by cbn; eauto].
    assert (PacketHeader.type_ hdr = PACKET_TYPE_PREVOTE_SIGNATURES ∨
      PacketHeader.type_ hdr = PACKET_TYPE_PRECOMMIT_SIGNATURES) as Hpt by lia.
    destruct (receive_votes_total s _ body Hpt (Hv Hpt) Hok) as (s' & -> & _). cbn. eauto.
Qed.
End receive_inv.

(** ** The node as a transition system *)

(** The state [entry_point] starts the loop with: the decided rounds given at
    start-up become the cache, and their number the height. *)
Definition resume `{Crypto} (signing_key : bytes) (ingest_startup_data : list RoundData.t) : t :=
  decided (init signing_key (ed25519_public signing_key))
    (Z.of_nat (length ingest_startup_data)) [] ingest_startup_data.

Section system.
Context {P : Profile} {C : Crypto} {E : Type} (cl : Closures E) {EC : EngineClient cl}.

Definition node_init (l : Loop (E := E)) : Prop :=
  ∃ env0 sk ingest now, env_ok env0 ∧ start_round cl env0 (resume sk ingest) l.2 now 0 = Ret (l.1.1, l.1.2).

(** The main loop interleaves packets and updates in any order. *)
Inductive node_step : Loop (E := E) → Loop (E := E) → Prop :=
| step_packet env s ros peer msg peer' s' :
  receive_packet peer s ros msg = Ret (peer', s') →
  node_step (env, s, ros) (env, s', ros)
| step_update now env s ros env' s' ros' :
  0 ≤ s.(height) < 2 ^ 64 - Z.of_nat (length s.(rounds_data)) →
  bft_update cl now env s ros = Ret (env', s', ros') →
  node_step (env, s, ros) (env', s', ros').

Lemma resume_ok sk ingest ros : node_ok ros (resume sk ingest).
Proof. split; cbn; constructor. Qed.
End system.

Section receive_theorems.
Context {P : Profile} {C : Crypto} {CL : CryptoLaws C}.

(** C6: A packet within the limits of the format, whatever it contains and
    whoever sent it, never aborts a consistent node; it keeps the node
    consistent and changes nothing but the stored rounds. *)
Theorem receive_packet_safe ros peer s msg :
  roster_ok ros → within_limits msg → node_ok ros s →
  ∃ peer' s', receive_packet peer s ros msg = Ret (peer', s') ∧ node_ok ros s' ∧ same_node s s'.
Proof. intros. by apply receive_packet_total. Qed.

Lemma reachable_inv {E : Type} (cl : Closures E) {EC : EngineClient cl} l0 l :
  roster_ok l0.2 → node_init cl l0 → rtc (node_step cl) l0 l →
  env_ok l.1.1 ∧ roster_ok l.2 ∧ node_ok l.2 l.1.2.
Proof.
  intros Hros0 Hinit Hsteps.
  assert (env_ok l0.1.1 ∧ roster_ok l0.2 ∧ node_ok l0.2 l0.1.2) as H0.
  { destruct l0 as [[env s] ros], Hinit as (env0 & sk & ingest & now & He & Hs). cbn [fst snd] in *.
    split; [by eapply start_round_env|]. split; [done|].
    eapply start_round_inv in Hs as [? _]; [done|done|apply resume_ok]. }
  clear Hros0 Hinit. induction Hsteps as [|x y z Hxy _ IH]; [done|]. apply IH. clear IH.
  destruct H0 as (He & Hros & Hok), Hxy as [env s ros peer msg peer' s' Hr|now env s ros env' s' ros' Hh Hu];
    cbn [fst snd] in *.
  - split; [done|]. split; [done|]. by eapply receive_packet_inv.
  - apply (bft_update_inv cl) in Hu as (? & ? & _ & ?); done.
Qed.

(** C2: In every state a node can reach from start-up with a usable roster, through any
    sequence of packets and updates, the rounds satisfy their invariant, as do the roster and
    the state of the finality layer, if the closures of that layer keep an invariant of
    their own and answer with usable rosters ([EngineClient]). *)
Theorem reachable_node_ok {E : Type} (cl : Closures E) {EC : EngineClient cl} l0 l :
  roster_ok l0.2 → node_init cl l0 → rtc (node_step cl) l0 l →
  env_ok l.1.1 ∧ roster_ok l.2 ∧ node_ok l.2 l.1.2.
Proof. apply reachable_inv. Qed.

(** A vote packet that announces more than 18 votes and carries them
    aborts the process of the node that reads it, whatever the signatures:
    the votes are stored into an array of 18 before anything is checked. *)
Theorem oversized_votes_panic peer s ros h r id no yes (xs : list PubKeySig.t) rest pc :
  is_u 64 h → is_u 32 r → length id = 32%nat → 0 ≤ no → 0 ≤ yes →
  Z.of_nat PacketVotes.VOTES_N < no + yes < 2 ^ 8 → Z.of_nat (length xs) = no + yes →
  Forall PubKeySig.wf xs →
  receive_packet peer s ros
  (PacketHeader.write_to (PacketHeader.new_ (PACKET_TYPE_PREVOTE_SIGNATURES + b2z pc))
   ++ (to_le 1 no ++ to_le 1 yes ++ to_le 4 r ++ to_le 8 h ++ id)
   ++ concat (map PubKeySig.write_to xs) ++ rest) = Panic.
Proof.
  intros Hh Hr Hid Hno Hyes Hn Hxs Hwf.
  assert (Z.of_nat PacketVotes.VOTES_N = 18) as HN by done.
  set (body := (_ ++ _ ++ _ ++ _ ++ _) ++ _).
  assert (read_header_and_maybe_status (PacketHeader.write_to
    (PacketHeader.new_ (PACKET_TYPE_PREVOTE_SIGNATURES + b2z pc)) ++ body)
    = Some (PacketHeader.new_ (PACKET_TYPE_PREVOTE_SIGNATURES + b2z pc), None, body)) as Hread.
  { unfold read_header_and_maybe_status.
    pose proof (dec_enc (PacketHeader.new_ (PACKET_TYPE_PREVOTE_SIGNATURES + b2z pc)) body) as Hd.
    cbn [enc dec PacketHeader_codec] in Hd. rewrite Hd; [by destruct pc|]. by destruct pc. }
  unfold receive_packet. rewrite decide_False by (unfold PacketHeader.write_to; rewrite !length_app, length_le_split; lia). rewrite Hread.
  cbn zeta. replace (_ =? PACKET_TYPE_PROPOSAL_CHUNK) with false by (by destruct pc).
  replace (_ || _) with true by (by destruct pc).
  unfold receive_votes, PacketVotes.read_from, PacketVotes.read_hdr. subst body.
  assert (is_u 8 no) by (unfold is_u; lia). assert (is_u 8 yes) by (unfold is_u; lia).
  read_back. cbv [mret Reader_ret]. unfold PacketVotes.votes_n. cbn [PacketVotes.no_votes_n PacketVotes.yes_votes_n].
  rewrite arith_ok by (unfold is_u; lia). cbn [mbind outcome_bind PacketVotes.votes].
  destruct (PacketVotes_read_votes_overrun xs (replicate PacketVotes.VOTES_N PubKeySig.default_) rest
    (Z.to_nat (no + yes)) Hwf ltac:(rewrite length_replicate; lia) ltac:(lia) 0%nat ltac:(lia))
    as [-> | Hl]; [done|]. rewrite length_replicate in Hl. lia.
Qed.

(** In a build with overflow checks, a proposal chunk whose index lies
    past the size its header announces aborts the process before its
    signature, height or proposer are looked at. *)
Theorem chunk_past_end_panics peer s ros hdr bs rest :
  overflow_checks = true → PacketProposalChunkHeader.wf hdr →
  PacketProposalChunkHeader.proposal_size hdr
  < PacketProposalChunkHeader.chunk_i hdr * Z.of_nat PROPOSAL_CHUNK_DATA_SIZE →
  PacketProposalChunkHeader.write_to hdr = Ret bs →
  receive_packet peer s ros
  (PacketHeader.write_to (PacketHeader.new_ PACKET_TYPE_PROPOSAL_CHUNK) ++ bs ++ rest) = Panic.
Proof.
  intros Hchk Hwf Hpast Hw.
  assert (read_header_and_maybe_status (PacketHeader.write_to
    (PacketHeader.new_ PACKET_TYPE_PROPOSAL_CHUNK) ++ bs ++ rest)
    = Some (PacketHeader.new_ PACKET_TYPE_PROPOSAL_CHUNK, None, bs ++ rest)) as Hread.
  { unfold read_header_and_maybe_status.
    pose proof (dec_enc (PacketHeader.new_ PACKET_TYPE_PROPOSAL_CHUNK) (bs ++ rest)) as Hd.
    cbn [enc dec PacketHeader_codec] in Hd. by rewrite Hd. }
  unfold receive_packet. rewrite decide_False by (unfold PacketHeader.write_to; rewrite !length_app, length_le_split; lia). rewrite Hread.
  cbn zeta. replace (_ =? PACKET_TYPE_PROPOSAL_CHUNK) with true by done.
  destruct (PacketProposalChunkHeader_roundtrip hdr rest Hwf) as (bs' & Hw' & Hr).
  rewrite Hw in Hw'. injection Hw' as <-. unfold receive_proposal_chunk. rewrite Hr. cbn zeta.
  destruct Hwf as (Hci & Hps & _). unfold is_u in Hci, Hps.
  assert (Z.of_nat PROPOSAL_CHUNK_DATA_SIZE = 1212) as HD by done.
  rewrite arith_ok by (unfold is_u; lia). cbn [mbind outcome_bind].
  unfold arith at 1. rewrite Hchk.
  replace (in_range 64 _) with false by (unfold in_range; lia). done.
Qed.
End receive_theorems.
