(* ===== verification/Replay.v ===== *)
(** * Replay: the top bit of the round

    A vote signs its round with the vote type in the top bit, but the round of
    a received vote is not limited to 31 bits.  This file shows what that
    allows, and where the update loop departs from the algorithm it quotes on
    proposals that carry a valid round. *)

From stdpp Require Import base list sets sorting.
From S2P Require Import Prelude Wire Encoding Bft Roster Round RoundInv Node NodeInv Decide.
Import SortedRosterMember TMState.

Lemma vote_data_replay pk h r id :
  0 ≤ r < 2 ^ 31 → vote_data pk false h (r + 2 ^ 31) id = vote_data pk true h r id.
Proof. intros Hr. unfold vote_data. do 4 f_equal. cbn [b2z]. f_equal. lia. Qed.

Section replay.
Context {P : Profile} {C : Crypto}.

Lemma find_or_insert_fresh s r (ros : list SortedRosterMember.t) :
  StronglySorted rd_lt s.(rounds_data) →
  (∀ rd, rd ∈ s.(rounds_data) → RoundData.height rd = s.(height) → RoundData.round rd ≠ r) →
  ∃ i s', find_or_insert_round s s.(height) r ros = (false, i, s') ∧
  s'.(rounds_data) !! i = Some (RoundData.fresh_round s.(height) r ros) ∧
  s'.(hash_keys) = s.(hash_keys).
Proof.
  intros Hs Hnew. unfold find_or_insert_round.
  pose proof (binary_search_spec _ s.(height) r Hs) as Hb.
  destruct (binary_search _ _ _) as [i|i].
  - destruct Hb as (rd & Hi & Hh & Hr). apply list_elem_of_lookup_2 in Hi.
    by destruct (Hnew rd Hi Hh).
  - destruct Hb as (Hi & _). exists i, (insert_round s i r ros). split; [done|].
    split; [|done]. cbn. rewrite lookup_app_r by len. by replace (_ - _)%nat with 0%nat by len.
Qed.

(** C36: A precommit signature for round [r] is accepted as a prevote for round
    [r + 2^31] of the same height: replaying it creates that round and
    credits the signer's stake to it, although the signer never voted
    there. *)
Theorem precommit_replays_as_prevote ros s i m r id sig :
  roster_ok ros → node_ok ros s → ros !! i = Some m → (i < active_roster_len ros)%nat →
  0 ≤ r < 2 ^ 31 → length id = 32%nat → id ≠ ValueId_NIL →
  TMSig_verify sig m.(SortedRosterMember.pub_key)
  (vote_data m.(SortedRosterMember.pub_key) true s.(height) r id) = true →
  (∀ rd, rd ∈ s.(rounds_data) → RoundData.height rd = s.(height) →
   RoundData.round rd ≠ r + 2 ^ 31) →
  ∃ no yes s' rd,
  make_vote_sign_datas m.(SortedRosterMember.pub_key) false s.(height) (r + 2 ^ 31) id
  = Ret (no, yes) ∧
  check_and_incorporate_msg s s.(height) (r + 2 ^ 31) 0 id (-2) ros i
  PACKET_TYPE_PREVOTE_SIGNATURES yes sig = Ret (s', Indeterminate) ∧
  rd ∈ s'.(rounds_data) ∧ RoundData.height rd = s.(height) ∧
  RoundData.round rd = r + 2 ^ 31 ∧
  ConsensusCounts.anys (RoundData.counts rd) = m.(stake).
Proof.
  intros Hros Hok Hm Hi Hr Hid Hne Hver Hnew.
  assert (length m.(SortedRosterMember.pub_key) = 32%nat) as Hpk.
  { destruct Hros as [_ Hk _]. by eapply Forall_lookup in Hk. }
  assert (∃ no yes, make_vote_sign_datas m.(SortedRosterMember.pub_key) false s.(height) (r + 2 ^ 31) id
    = Ret (no, yes)) as (no & yes & Hsd).
  { unfold make_vote_sign_datas. rewrite arith_ok by (unfold is_u; lia). cbn [mbind outcome_bind].
    rewrite !copy_at_Ret by (rewrite ?length_replicate; len). cbn [mbind outcome_bind].
    repeat (rewrite copy_at_Ret by len; cbn [mbind outcome_bind]). eauto. }
  destruct (make_vote_sign_datas_Ret _ _ _ _ _ _ _ Hpk Hid Hsd) as [_ Hyes].
  rewrite vote_data_replay in Hyes by done. subst yes. exists no. eexists.
  destruct (find_or_insert_fresh s (r + 2 ^ 31) ros (no_sorted _ _ Hok) Hnew)
    as (j & s1 & Hf & Hj & Hk1).
  pose proof (roster_bounded ros Hros) as Hb.
  enough (∃ s' rd, check_and_incorporate_msg s s.(height) (r + 2 ^ 31) 0 id (-2) ros i
    PACKET_TYPE_PREVOTE_SIGNATURES (vote_data m.(SortedRosterMember.pub_key) true s.(height) r id) sig
    = Ret (s', Indeterminate) ∧ rd ∈ s'.(rounds_data) ∧ RoundData.height rd = s.(height) ∧
    RoundData.round rd = r + 2 ^ 31 ∧ ConsensusCounts.anys (RoundData.counts rd) = m.(stake))
    as (s' & rd & ?) by (exists s', rd; split; [exact Hsd|done]).
  unfold check_and_incorporate_msg. rewrite Z.eqb_refl. cbn [negb].
  rewrite decide_False by lia. rewrite (index_Ret _ _ _ Hm). cbn [mbind outcome_bind]. cbn zeta.
  rewrite Hver. cbn [negb]. rewrite Hf, (index_Ret _ _ _ Hj). cbn [mbind outcome_bind].
  unfold handle_msg. cbn [Z.eqb PACKET_TYPE_PROPOSAL_CHUNK PACKET_TYPE_PREVOTE_SIGNATURES
                       PACKET_TYPE_PRECOMMIT_SIGNATURES orb Pos.eqb].
  pose proof (fresh_round_ok s1.(hash_keys) ros s.(height) (r + 2 ^ 31)) as Hfr.
  assert (sig ≠ TMSig_NIL) as Hsig.
  { intros ->. destruct Hros as [_ _ Hnil]. eapply Forall_lookup in Hnil; [|exact Hm]. by rewrite Hnil in Hver. }
  set (rd0 := RoundData.fresh_round s.(height) (r + 2 ^ 31) ros) in *.
  destruct (incorporate_vote_cases s1.(hash_keys) ros Hb rd0 false id i sig Hfr Hi)
    as [[Hrej _]|(_ & rd' & -> & slots & Hslots & _ & ->)].
  { exfalso. destruct Hrej as [(_ & Hn & _)|(sl & Hsl & Hs2 & _)]; [done|].
    apply lookup_replicate in Hsl as [-> _]. done. }
  rewrite decide_True by (split; [done|reflexivity]). cbn [mbind outcome_bind].
  rewrite set_index_Ret by (by eapply lookup_lt_Some). cbn [mbind outcome_bind].
  eexists _, _. split; [done|].
  split; [cbn; apply list_elem_of_lookup_2 with j, list_lookup_insert_eq; by eapply lookup_lt_Some|].
  do 2 (split; [done|]). cbn [RoundData.counts RoundData.with_votes]. unfold counts_of.
  cbn [ConsensusCounts.anys]. rewrite (stake_where_insert ros p_any _ _ slots _ m Hslots Hm).
  apply lookup_replicate in Hslots as [-> _].
  rewrite stake_where_all_false by (by apply Forall_replicate).
  replace (p_any slots_nil) with false by done.
  replace (p_any _) with true; [lia|]. unfold p_any, voted. cbn. by rewrite bool_decide_true.
Qed.

Context {CL : CryptoLaws C} {E : Type} (cl : Closures E) {EC : EngineClient cl}.

Lemma start_round_round ros env s now r env' s' :
  roster_ok ros → node_ok ros s → start_round cl env s ros now r = Ret (env', s') → s'.(round) = r.
Proof.
  intros Hros Hok Hsr. unfold start_round in Hsr. cbn zeta in Hsr.
  destruct (find_or_insert_round _ _ _ _) as [[seen i] s1] eqn:Ef.
  assert (node_ok ros (with_round s r)) as Hok0 by (by eapply node_ok_frame).
  destruct (find_or_insert_round_inv ros Hros (with_round s r) r seen i s1 Hok0 Ef) as (Hok1 & Hs1 & _).
  inv_ret. assert (s1.(round) = r) as Hr1 by (by rewrite Hs1).
  assert (t0.(round) = r) as Hr2.
  { case_decide.
    - apply bind_Ret_inv in E1 as ([env1 [v|]] & _ & E1); inv_ret; simplify_eq; [|done].
      unfold broadcast_step in *. inv_ret.
      destruct (broadcast_inv ros Hros _ _ (MProposal _ _) _ _ Hok1 eq_refl E1) as [_ Hs2]. cbn. by rewrite Hs2.
    - by simplify_eq. }
  simplify_eq. unfold put_round in *. inv_ret. done.
Qed.

(** A node on the roster moves to any later round of its height that
    shows messages from the smaller threshold of stake: with the replayed
    votes above, to a round beyond [2^31]. *)
Theorem round_catchup_moves k c env s ros rd env' s' ros' :
  loop_ok cl k (env, s, ros) → s.(rounds_data) !! c.(c_i) = Some rd → c.(c_on_roster) = true →
  RoundData.height rd = s.(height) → s.(round) < RoundData.round rd →
  c.(c_small) ≤ ConsensusCounts.anys c.(c_counts) →
  cond_55 cl c (env, s, ros) = Ret (env', s', ros') →
  s'.(round) = RoundData.round rd ∧ s'.(height) = s.(height).
Proof.
  intros (Hros & Hok & _) Hrd Hon Hh Hr Hq Hc. unfold cond_55 in Hc.
  rewrite (index_Ret _ _ _ Hrd) in Hc. cbn [mbind outcome_bind] in Hc.
  rewrite Hon, (proj2 (Z.eqb_eq _ _)), (proj2 (Z.ltb_lt _ _)), (proj2 (Z.leb_le _ _)) in Hc by done.
  cbn [andb] in Hc. inv_ret. simplify_eq.
  split; [by eapply start_round_round|by eapply start_round_inv].
Qed.

(** On a proposal that carries a valid round, a node in the propose step
    does nothing until the prevotes of the current round, not those of the
    valid round, reach the quorum: the two conditions that prevote both
    leave its state as it is. *)
Theorem reproposal_not_prevoted c env s ros rd :
  s.(rounds_data) !! c.(c_i) = Some rd → 0 ≤ RoundData.proposal_valid_round rd →
  ConsensusCounts.yes_prevotes c.(c_counts) < c.(c_big) →
  cond_22 cl c (env, s, ros) = Ret (env, s, ros) ∧ cond_28 cl c (env, s, ros) = Ret (env, s, ros).
Proof.
  intros Hrd Hvr Hq. unfold cond_22, cond_28. rewrite (index_Ret _ _ _ Hrd). cbn [mbind outcome_bind].
  rewrite (proj2 (Z.eqb_neq _ _)) by lia. cbn zeta.
  rewrite (proj2 (Z.leb_gt _ _)) by lia. by rewrite !andb_false_r.
Qed.
End replay.
