(* ===== verification/Tfl.v ===== *)
(** * Tfl: the trailing finality service

    Models [zebra-crosslink/src/lib.rs] and the part of [service.rs] that feeds
    it: the chain of decided BFT blocks ([TFLServiceInternal]), proposing and
    validating a block, taking over a decided one
    ([handle_new_decided_bft_block]), the store file it appends to and the
    replay of that file at start-up, and the requests the service answers.

    The PoW state service is a function [call] over its own state [W]: any call
    may change [W], so new PoW blocks may arrive between two requests.  The
    handlers run in the state monad [Svc] over [W] and the locked internals;
    a panic is the [Panic] of the outcome monad. *)

From stdpp Require Import base list strings.
From S2P Require Import Prelude Wire Encoding Bft Roster Round Node.

(** [zebra_chain::block::Hash] and [Height]. *)
Definition ZebBlockHash : Type := bytes.
#[global] Instance ZebBlockHash_eq_dec : EqDecision ZebBlockHash := list_eq_dec.
Definition HeightHash : Type := Z * ZebBlockHash.

(** [SatSubAffine<i32>::sat_sub] *)
Definition sat_sub (h d : Z) : Z := default 0 (height_sub h d).

(** A PoW header as the state returns it: its serialisation, which is all
    [bc_hdr_to_lrz] looks at, and the hash of its parent. *)
Record ZebBlockHeader := {
  zcash_serialized : bytes;
  previous_block_hash : ZebBlockHash }.

Definition bc_hdr_to_lrz (h : ZebBlockHeader) : outcome BlockHeader.t :=
  unwrap (fst <$> BlockHeader.read_data h.(zcash_serialized)).

Inductive KnownBlockLocation := BestChain | SideChain | Queue.

(** The requests the service sends to the state, and their responses. *)
Inductive StateRequest :=
| KnownBlock (hash : ZebBlockHash)
| BlockHeaderByHash (hash : ZebBlockHash)
| BlockHeaderByHeight (height : Z)
| BlockLocator
| Tip
| FindBlockHeaders (known_blocks : list ZebBlockHash) (stop : option ZebBlockHash)
| FindBlockHashes (known_blocks : list ZebBlockHash) (stop : option ZebBlockHash)
| Transaction (hash : bytes)
| Block (hash : ZebBlockHash)
| CrosslinkFinalizeBlock (hash : ZebBlockHash).

Inductive StateResponse :=
| RKnownBlock (known : option (Z * KnownBlockLocation))
| RBlockHeader (height : Z) (hash : ZebBlockHash) (header : ZebBlockHeader)
| RBlockLocator (hashes : list ZebBlockHash)
| RTip (tip : option HeightHash)
| RBlockHeaders (headers : list ZebBlockHeader)
| RBlockHashes (hashes : list ZebBlockHash)
| RTransaction (height : option Z)
| RBlock (block : option bytes)
| RCrosslinkFinalized (hash : ZebBlockHash) (aggregated_stakes : list (PubKeyID * Z)).

(** [zebra_state::crosslink]: what other parts ask the service. *)
Inductive TFLBlockFinality := NotYetFinalized | Finalized | CantBeFinalized.

Inductive TFLServiceRequest :=
| QIsTFLActivated
| QFinalBlockHeightHash
| QFinalBlockRx
| QSetFinalBlockHash (hash : ZebBlockHash)
| QBlockFinalityStatus (height : Z) (hash : ZebBlockHash)
| QTxFinalityStatus (hash : bytes)
| QRoster
| QFatPointerToBFTChainTip
| QStakingCmd (cmd : string)
| QFaucet (request : string).

Inductive TFLServiceResponse :=
| AIsTFLActivated (b : bool)
| AFinalBlockHeightHash (f : option HeightHash)
| AFinalBlockRx
| ASetFinalBlockHash (h : option Z)
| ABlockFinalityStatus (f : option TFLBlockFinality)
| ATxFinalityStatus (f : option TFLBlockFinality)
| ARoster (vals : list RosterMember.t)
| AFatPointerToBFTChainTip (fp : FatPointerToBftBlock.t)
| AFaucet (r : string + Z).

Inductive TFLServiceError := NotImplemented | Misc (msg : string).

(** [TFLServiceInternal]; [pos_store] is the content of the store file, [None]
    when its path is empty. *)
Module TFL.
Record t := mk {
  my_public_key : PubKeyID;
  latest_final_block : option HeightHash;
  tfl_is_activated : bool;
  bft_msg_flags : Z;
  bft_err_flags : Z;
  bft_blocks : list BftBlock.t;
  fat_pointer_to_tip : FatPointerToBftBlock.t;
  validators_at_current_height : list RosterMember.t;
  current_bc_final : option HeightHash;
  pos_store : option bytes }.

(** The state [spawn_new_tfl_service] starts with. *)
Definition init (is_regtest : bool) (vals : list RosterMember.t) (store : option bytes) : t :=
  mk PubKeyID_NIL None is_regtest 0 0 [] FatPointerToBftBlock.null vals None store.

Definition with_final (s : t) (f : option HeightHash) : t :=
  mk s.(my_public_key) f s.(tfl_is_activated) s.(bft_msg_flags) s.(bft_err_flags)
    s.(bft_blocks) s.(fat_pointer_to_tip) s.(validators_at_current_height)
    s.(current_bc_final) s.(pos_store).
Definition with_flags (s : t) (msg err : Z) : t :=
  mk s.(my_public_key) s.(latest_final_block) s.(tfl_is_activated) msg err
    s.(bft_blocks) s.(fat_pointer_to_tip) s.(validators_at_current_height)
    s.(current_bc_final) s.(pos_store).
Definition activated (s : t) : t :=
  mk s.(my_public_key) s.(latest_final_block) true s.(bft_msg_flags) s.(bft_err_flags)
    s.(bft_blocks) s.(fat_pointer_to_tip) s.(validators_at_current_height)
    s.(current_bc_final) s.(pos_store).
Definition with_tip (s : t) (bs : list BftBlock.t) (fp : FatPointerToBftBlock.t)
    (f : option HeightHash) : t :=
  mk s.(my_public_key) f s.(tfl_is_activated) s.(bft_msg_flags) s.(bft_err_flags)
    bs fp s.(validators_at_current_height) s.(current_bc_final) s.(pos_store).
Definition with_validators (s : t) (vals : list RosterMember.t) (store : option bytes) : t :=
  mk s.(my_public_key) s.(latest_final_block) s.(tfl_is_activated) s.(bft_msg_flags)
    s.(bft_err_flags) s.(bft_blocks) s.(fat_pointer_to_tip) vals s.(current_bc_final) store.
Definition resumed (s : t) (key : PubKeyID) (f : option HeightHash) (bs : list BftBlock.t)
    (fp : FatPointerToBftBlock.t) (vals : list RosterMember.t) (store : option bytes) : t :=
  mk key (if f is Some _ then f else s.(latest_final_block)) s.(tfl_is_activated) s.(bft_msg_flags)
    s.(bft_err_flags) bs fp vals (if f is Some _ then f else s.(current_bc_final)) store.
End TFL.
Import TFL.

(** ** The service monad *)

Definition Svc (W A : Type) : Type := W → TFL.t → outcome (W * TFL.t * A).

#[global] Instance Svc_ret {W} : MRet (Svc W) := fun A a w s => Ret (w, s, a).
#[global] Instance Svc_bind {W} : MBind (Svc W) :=
  fun A B f m w s => '(w, s, a) ← m w s; f a w s.

Section service.
Context `{Profile} `{Crypto} {W : Type}.
Context (call : W → StateRequest → W * (string + StateResponse)).

Definition state (r : StateRequest) : Svc W (string + StateResponse) :=
  fun w s => let '(w, res) := call w r in Ret (w, s, res).
Definition get : Svc W TFL.t := fun w s => Ret (w, s, s).
Definition put (s : TFL.t) : Svc W () := fun w _ => Ret (w, s, ()).
Definition lift {A} (o : outcome A) : Svc W A := fun w s => a ← o; Ret (w, s, a).
Definition panic {A} : Svc W A := fun _ _ => Panic.
Definition assert (b : bool) : Svc W () := if b then mret () else panic.

(** *** Questions about fat pointers *)

(** [bft_blocks.iter().position(|b| b.blake3_hash() == hash)] *)
Fixpoint position_of (hash : Blake3Hash) (bs : list BftBlock.t) : outcome (option nat) :=
  match bs with
  | [] => Ret None
  | b :: bs =>
      h ← BftBlock.blake3_hash b;
      if decide (h = hash) then Ret (Some 0%nat)
      else i ← position_of hash bs; Ret (option_map S i)
  end.

Definition fat_pointer_height (bs : list BftBlock.t) (fp : FatPointerToBftBlock.t)
    : outcome (option nat) :=
  if decide (fp = FatPointerToBftBlock.null) then Ret (Some 0%nat)
  else position_of (FatPointerToBftBlock.points_at_block_hash fp) bs.

Definition call_from_state_to_crosslink_to_ask_about_fat_pointers
    (s : TFL.t) (parent child : FatPointerToBftBlock.t) : outcome bool :=
  p ← fat_pointer_height s.(bft_blocks) parent;
  match p with
  | None => Ret false
  | Some parent_height =>
      c ← fat_pointer_height s.(bft_blocks) child;
      match c with
      | None => Ret false
      | Some child_height => Ret (bool_decide (parent_height ≤ child_height)%nat)
      end
  end.

(** *** Questions to the state *)

Definition block_height_from_hash (hash : ZebBlockHash) : Svc W (option Z) :=
  r ← state (KnownBlock hash);
  mret (match r with inr (RKnownBlock (Some (height, _))) => Some height | _ => None end).

Definition block_height_hash_from_hash (hash : ZebBlockHash) : Svc W (option HeightHash) :=
  r ← state (BlockHeaderByHash hash);
  match r with
  | inr (RBlockHeader height check_hash _) =>
      _ ← assert (bool_decide (hash = check_hash)); mret (Some (height, hash))
  | _ => mret None
  end.

Definition is_block_known (hash : ZebBlockHash) : Svc W bool :=
  r ← state (KnownBlock hash);
  mret (match r with
        | inr (RKnownBlock (Some (_, (BestChain | SideChain)))) => true
        | _ => false
        end).

Definition tfl_reorg_final_block_height_hash : Svc W (option HeightHash) :=
  locator ← state BlockLocator;
  match locator with
  | inr (RBlockLocator hashes) =>
      match last hashes with
      | Some hash => h ← block_height_from_hash hash; mret ((λ height, (height, hash)) <$> h)
      | None => mret None
      end
  | _ => mret None
  end.

Definition tfl_final_block_height_hash : Svc W (option HeightHash) :=
  s ← get;
  match s.(latest_final_block) with
  | Some f => mret (Some f)
  | None => tfl_reorg_final_block_height_hash
  end.

Definition push_new_bft_msg_flags (msg err : Z) : Svc W () :=
  s ← get; put (with_flags s (Z.lor s.(bft_msg_flags) msg) (Z.lor s.(bft_err_flags) err)).

(** *** Proposing *)

Fixpoint map_outcome {A B} (f : A → outcome B) (l : list A) : outcome (list B) :=
  match l with
  | [] => Ret []
  | x :: l => y ← f x; ys ← map_outcome f l; Ret (y :: ys)
  end.

(** The height to finalise next: [sigma] below the tip, above what is final,
    and at most ten blocks further. *)
Definition finality_candidate (tip_height : Z) (final : option HeightHash)
    : outcome (option Z) :=
  match height_sub tip_height (bc_confirmation_depth_sigma PROTOTYPE_PARAMETERS) with
  | None => Ret None
  | Some h =>
      match final with
      | None => Ret (Some (Z.min h U32_MAX))
      | Some (fh, _) =>
          if fh <? h then cap ← arith 32 (fh + 10); Ret (Some (Z.min h cap)) else Ret None
      end
  end.

Definition propose_new_bft_block : Svc W (option BftBlock.t) :=
  tip ← state Tip;
  match tip with
  | inr (RTip (Some (tip_height, _))) =>
      s ← get;
      _ ← (match height_sub tip_height (bc_confirmation_depth_sigma PROTOTYPE_PARAMETERS),
               last s.(bft_blocks) with
           | Some _, Some b => _ ← lift (BftBlock.blake3_hash b); mret ()
           | _, _ => mret ()
           end);
      candidate ← lift (finality_candidate tip_height s.(latest_final_block));
      match candidate with
      | None => mret None
      | Some finality_candidate_height =>
          resp ← state (BlockHeaderByHeight finality_candidate_height);
          match resp with
          | inr (RBlockHeader _ candidate_hash _) =>
              resp ← state (FindBlockHeaders [candidate_hash] None);
              match resp with
              | inr (RBlockHeaders hdrs) =>
                  headers ← lift (map_outcome bc_hdr_to_lrz hdrs);
                  let headers := take (Z.to_nat (bc_confirmation_depth_sigma PROTOTYPE_PARAMETERS))
                             headers in
                  s ← get;
                  height ← lift (arith 32 (Z.of_nat (length s.(bft_blocks)) mod 2 ^ 32 + 1));
                  mret (match BftBlock.try_from PROTOTYPE_PARAMETERS height
                            s.(fat_pointer_to_tip) 0 headers with
                        | inr b => Some b
                        | inl _ => None
                        end)
              | _ => panic
              end
          | _ => panic
          end
      end
  | _ => mret None
  end.

(** *** Validating *)

Definition validate_bft_block (new_block : BftBlock.t) : Svc W (TMStatus * TMStatusReason) :=
  s ← get;
  if decide (FatPointerToBftBlock.points_at_block_hash new_block.(BftBlock.previous_block_fat_ptr)
             ≠ FatPointerToBftBlock.points_at_block_hash s.(fat_pointer_to_tip))
  then mret (Fail_, ReasonNone) else
  hdr ← lift (unwrap (head new_block.(BftBlock.headers)));
  let new_final_hash := BlockHeader.from_header_data hdr in
  height ← block_height_from_hash new_final_hash;
  mret (match height with
        | Some _ => (Pass, ReasonNone)
        | None => (Indeterminate, NeedsBlock new_final_hash)
        end).

(** *** Taking over a decided block *)

(** The placeholder pushed at index [i] before it is overwritten. *)
Definition filler (i : nat) : BftBlock.t :=
  BftBlock.mk 0 (Z.of_nat i mod 2 ^ 32) FatPointerToBftBlock.null 0 [].

(** The [for i in len..=insert_i] loop. *)
Definition fill_up_to (bs : list BftBlock.t) (insert_i : nat) : list BftBlock.t :=
  bs ++ map filler (seq (length bs) (S insert_i - length bs)).

(** The checks before anything is changed. *)
Definition check_preconditions (new_block : BftBlock.t) (fat_pointer : FatPointerToBftBlock.t)
    : Svc W () :=
  hash ← lift (BftBlock.blake3_hash new_block);
  _ ← assert (bool_decide (FatPointerToBftBlock.points_at_block_hash fat_pointer = hash));
  _ ← assert (FatPointerToBftBlock.validate_signatures fat_pointer);
  st ← validate_bft_block new_block;
  assert (match st with (Pass, ReasonNone) => true | _ => false end).

(** Putting the block into the chain at its height. *)
Definition insert_block (bs : list BftBlock.t) (new_block : BftBlock.t)
    : outcome (list BftBlock.t) :=
  insert_z ← arith 64 (new_block.(BftBlock.height) - 1);
  let insert_i := Z.to_nat insert_z in
  let bs := fill_up_to bs insert_i in
  _ ← (if decide (0 < insert_i)%nat then
       b ← index bs (insert_i - 1);
       h ← BftBlock.blake3_hash b;
       if decide (h = FatPointerToBftBlock.points_at_block_hash
                    new_block.(BftBlock.previous_block_fat_ptr))
       then Ret () else Panic
       else Ret ());
  _ ← (if decide (insert_i = 0%nat ∨ BftBlock.previous_block_hash new_block ≠ zeros 32)
       then Ret () else Panic);
  b ← index bs insert_i;
  _ ← (if decide (b.(BftBlock.headers) = []) then Ret () else Panic);
  _ ← (if decide (new_block.(BftBlock.headers) = []) then Panic else Ret ());
  set_index bs insert_i new_block.

(** What is appended to the store file. *)
Definition store_record (b : BftBlock.t) (fp : FatPointerToBftBlock.t)
    (vals : list RosterMember.t) (sigs : list TMSig) : outcome bytes :=
  bs ← BftBlock.zcash_serialize b;
  Ret (bs ++ FatPointerToBftBlock.zcash_serialize fp
       ++ to_le 8 (Z.of_nat (length vals)) ++ concat (map RosterMember.write_to_vec vals)
       ++ to_le 8 (Z.of_nat (length sigs)) ++ concat sigs).

(** Telling the state that a block is final; an error leaves no stakes. *)
Definition finalize_pow (new_final_hash : ZebBlockHash) : Svc W (list (PubKeyID * Z)) :=
  resp ← state (CrosslinkFinalizeBlock new_final_hash);
  match resp with
  | inr (RCrosslinkFinalized hash aggregated_stakes) =>
      _ ← assert (bool_decide (hash = new_final_hash)); mret aggregated_stakes
  | inr _ => panic
  | inl _ => mret []
  end.

Definition handle_new_decided_bft_block (new_block : BftBlock.t)
    (fat_pointer : FatPointerToBftBlock.t) (tender_proposal_sigs : list TMSig)
    : Svc W (list SortedRosterMember.t) :=
  _ ← check_preconditions new_block fat_pointer;
  hdr ← lift (unwrap (head new_block.(BftBlock.headers)));
  let new_final_hash := BlockHeader.from_header_data hdr in
  h ← block_height_from_hash new_final_hash;
  new_final_height ← lift (unwrap h);
  s ← get;
  bs ← lift (insert_block s.(bft_blocks) new_block);
  _ ← put (with_tip s bs fat_pointer (Some (new_final_height, new_final_hash)));
  got_stakes ← finalize_pow new_final_hash;
  s ← get;
  let vals := if decide (got_stakes = []) then s.(validators_at_current_height)
        else map (λ '(k, p), RosterMember.mk k p []) got_stakes in
  store ← (match s.(pos_store) with
           | None => mret None
           | Some file => r ← lift (store_record new_block fat_pointer vals tender_proposal_sigs);
                    mret (Some (file ++ r))
           end);
  _ ← put (with_validators s vals store);
  lift (tenderlink_roster_from_internal vals).

(** [force_feed_pos] of [service.rs]: the same path for a block that does not
    come from the BFT engine. *)
Definition force_feed_pos (block : BftBlock.t) (fat_pointer : FatPointerToBftBlock.t)
    : Svc W bool :=
  hash ← lift (BftBlock.blake3_hash block);
  if decide (FatPointerToBftBlock.points_at_block_hash fat_pointer ≠ hash) then mret false else
  st ← validate_bft_block block;
  match st with
  | (Pass, _) => _ ← handle_new_decided_bft_block block fat_pointer []; mret true
  | _ => mret false
  end.

(** The closures given to [tenderlink::entry_point]. *)
Definition tfl_closures : Closures (W * TFL.t) := {|
  propose_closure := λ '(w, s),
  '(w, s, b) ← propose_new_bft_block w s;
  match b with
  | Some b => bs ← BftBlock.zcash_serialize b; Ret ((w, s), Some bs)
  | None => Ret ((w, s), None)
  end;
  validate_closure := λ '(w, s) v,
  match BftBlock.from_payload v with
  | Some b => '(w, s, st) ← validate_bft_block b w s; Ret ((w, s), st)
  | None => Ret ((w, s), (Fail_, ReasonNone))
  end;
  push_block_closure := λ '(w, s) v fp sigs,
  b ← unwrap (BftBlock.from_payload v);
  '(w, s, ros) ← handle_new_decided_bft_block b fp sigs w s; Ret ((w, s), ros) |}.

(** *** The history of decided blocks *)

Definition fat_pointer_to_block_at_height (bs : list BftBlock.t)
    (tip : FatPointerToBftBlock.t) (at_height : Z) : outcome (option FatPointerToBftBlock.t) :=
  if (at_height =? 0) || (Z.of_nat (length bs) <=? at_height - 1) then Ret None
  else if at_height =? Z.of_nat (length bs) then Ret (Some tip)
  else b ← index bs (Z.to_nat at_height); Ret (Some b.(BftBlock.previous_block_fat_ptr)).

Definition get_historical_bft_block_at_height (at_height : Z)
    : Svc W (option (BftBlock.t * FatPointerToBftBlock.t)) :=
  s ← get;
  if (at_height =? 0) || (Z.of_nat (length s.(bft_blocks)) <=? at_height - 1) then mret None else
  block ← lift (index s.(bft_blocks) (Z.to_nat (at_height - 1)));
  fp ← lift (fat_pointer_to_block_at_height s.(bft_blocks) s.(fat_pointer_to_tip) at_height);
  fp ← lift (unwrap fp);
  mret (Some (block, fp)).

(** *** Replaying the store file at start-up *)

(** One record of the file.  The loop over the roster only leaves the inner
    [for] on a short read, but the cursor is then at the end of the file and
    the next read leaves the outer loop. *)
Definition read_record
    : Reader (BftBlock.t * FatPointerToBftBlock.t * list RosterMember.t * list TMSig) :=
  block ← BftBlock.zcash_deserialize;
  fat_pointer ← FatPointerToBftBlock.zcash_deserialize;
  new_roster_count ← read_uint 8;
  new_roster ← read_list (Z.to_nat new_roster_count) RosterMember.read_from;
  proposal_sigs_n ← read_uint 8;
  proposal_sigs ← read_list (Z.to_nat proposal_sigs_n) (read_bytes 64);
  mret (block, fat_pointer, new_roster, proposal_sigs).

(** The signature of a member in a fat pointer, all zero when it has none. *)
Definition signature_of (fp : FatPointerToBftBlock.t) (m : SortedRosterMember.t) : TMSig :=
  match list_find (λ s, FatPointerSignature.pub_key s = m.(SortedRosterMember.pub_key))
      fp.(FatPointerToBftBlock.signatures) with
  | Some (_, s) => FatPointerSignature.vote_signature s
  | None => zeros 64
  end.

(** The decided round handed to the BFT engine for one record. *)
Definition replayed_round (height : Z) (roster : list SortedRosterMember.t) (payload : BlockValue)
    (fp : FatPointerToBftBlock.t) (sigs : list TMSig) : RoundData.t :=
  let id := FatPointerToBftBlock.points_at_block_hash fp in
  let n := Z.of_nat (length fp.(FatPointerToBftBlock.signatures)) in
  RoundData.mk height (Vote.round (FatPointerToBftBlock.get_vote_template fp)) payload (-1) sigs
    (Z.of_nat (length sigs)) id (Indeterminate, ReasonNone) false
    (map (λ m, {| slot_prevote := (ValueId_NIL, TMSig_NIL);
                slot_precommit := (id, signature_of fp m) |}) roster)
  roster (ConsensusCounts.mk 0 0 0 0 n n) None (false, false).

Record Loaded := {
  l_ingest : list RoundData.t;
  l_blocks : list BftBlock.t;
  l_tip : FatPointerToBftBlock.t;
  l_roster : list RosterMember.t;
  l_rest : bytes }.

(** ['big_loop]; a record takes at least one byte, so the length of the file
    is fuel enough. *)
Fixpoint load_loop (fuel : nat) (l : Loaded) : outcome Loaded :=
  match fuel with
  | O => Ret l
  | S fuel =>
      match read_record l.(l_rest) with
      | None => Ret l
      | Some (block, fat_pointer, new_roster, proposal_sigs, rest) =>
          if decide (FatPointerToBftBlock.points_at_block_hash
                     block.(BftBlock.previous_block_fat_ptr)
                     ≠ FatPointerToBftBlock.points_at_block_hash l.(l_tip))
          then Ret l else
          roster ← tenderlink_roster_from_internal l.(l_roster);
          payload ← BftBlock.zcash_serialize block;
          load_loop fuel {|
            l_ingest := l.(l_ingest) ++
              [replayed_round (Z.of_nat (length l.(l_ingest))) roster payload fat_pointer
             proposal_sigs];
            l_blocks := l.(l_blocks) ++ [block];
            l_tip := fat_pointer;
            l_roster := new_roster;
            l_rest := rest |}
      end
  end.

Definition load_store (vals : list RosterMember.t) (file : bytes) : outcome Loaded :=
  load_loop (S (length file)) {|
    l_ingest := []; l_blocks := []; l_tip := FatPointerToBftBlock.null; l_roster := vals;
    l_rest := file |}.

(** The part of [tfl_service_main_loop] before the BFT engine is spawned. *)
Definition start_up (my_public_key : PubKeyID)
    : Svc W (list SortedRosterMember.t * list RoundData.t) :=
  s ← get;
  l ← lift (match s.(pos_store) with
            | Some file => load_store s.(validators_at_current_height) file
            | None => Ret {| l_ingest := []; l_blocks := []; l_tip := FatPointerToBftBlock.null;
                             l_roster := s.(validators_at_current_height); l_rest := [] |}
            end);
  let store := (λ file, take (length file - length l.(l_rest)) file) <$> s.(pos_store) in
  final ← (match last l.(l_blocks) with
           | None => mret None
           | Some b =>
               hdr ← lift (unwrap (head b.(BftBlock.headers)));
               let hash := BlockHeader.from_header_data hdr in
               h ← block_height_from_hash hash;
               height ← lift (unwrap h);
               mret (if decide (hash = zeros 32) then None else Some (height, hash))
           end);
  roster ← lift (tenderlink_roster_from_internal l.(l_roster));
  _ ← put (resumed s my_public_key final l.(l_blocks) l.(l_tip) l.(l_roster) store);
  mret (roster, l.(l_ingest)).

Definition TFL_ACTIVATION_HEIGHT : Z := 0.

(** One turn of the loop of [tfl_service_main_loop]. *)
Definition main_loop_turn : Svc W () :=
  tip ← state Tip;
  s ← get;
  match tip with
  | inr (RTip (Some (height, _))) =>
      if negb s.(tfl_is_activated) && negb (height <? TFL_ACTIVATION_HEIGHT)
      then put (activated s) else mret ()
  | _ => mret ()
  end.

(** *** Requests *)

Definition tfl_block_finality_from_height_hash (height : Z) (hash : ZebBlockHash)
    : Svc W (TFLServiceError + option TFLBlockFinality) :=
  final ← tfl_final_block_height_hash;
  match final with
  | None => mret (inl (Misc "There is no final block."))
  | Some (final_height, final_hash) =>
      if final_height <? height then mret (inr (Some NotYetFinalized)) else
      cmp ← (if height =? final_height then mret (inr final_hash)
             else r ← state (BlockHeaderByHeight height);
             mret (match r with
                   | inr (RBlockHeader _ hash _) => inr hash
                   | inl err => inl (Misc err)
                   | _ => inl (Misc "Invalid BlockHeader response type")
                   end));
      mret (match cmp with
            | inl e => inl e
            | inr cmp_hash =>
                inr (Some (if decide (hash = cmp_hash) then Finalized else CantBeFinalized))
            end)
  end.

Definition tfl_set_finality_by_hash (hash : ZebBlockHash) : Svc W (option Z) :=
  s ← get;
  if s.(tfl_is_activated) then
    new_height ← block_height_from_hash hash;
    _ ← (match new_height with
         | Some height => s ← get; put (with_final s (Some (height, hash)))
         | None => mret ()
         end);
    mret new_height
  else mret None.

(** [faucet] is the closure the wallet registers. *)
Definition tfl_service_incoming_request (faucet : option (string → string + Z))
    (request : TFLServiceRequest) : Svc W (TFLServiceError + TFLServiceResponse) :=
  match request with
  | QIsTFLActivated => s ← get; mret (inr (AIsTFLActivated s.(tfl_is_activated)))
  | QFinalBlockHeightHash =>
      f ← tfl_final_block_height_hash; mret (inr (AFinalBlockHeightHash f))
  | QFinalBlockRx => mret (inr AFinalBlockRx)
  | QSetFinalBlockHash hash =>
      h ← tfl_set_finality_by_hash hash; mret (inr (ASetFinalBlockHash h))
  | QBlockFinalityStatus height hash =>
      f ← tfl_block_finality_from_height_hash height hash;
      mret (match f with inr v => inr (ABlockFinalityStatus v) | inl e => inl e end)
  | QTxFinalityStatus hash =>
      tx ← state (Transaction hash);
      match tx with
      | inr (RTransaction (Some tx_height)) =>
          f ← tfl_final_block_height_hash;
          mret (match f with
                | None => inl (Misc "There is no final block.")
                | Some (final_height, _) =>
                    inr (ATxFinalityStatus (Some (if tx_height <=? final_height
                                                  then Finalized else NotYetFinalized)))
                end)
      | _ => mret (inr (ATxFinalityStatus None))
      end
  | QRoster =>
      s ← get;
      mret (inr (ARoster (map (λ v, RosterMember.mk v.(RosterMember.pub_key)
                                v.(RosterMember.voting_power) [])
                          s.(validators_at_current_height))))
  | QFatPointerToBFTChainTip =>
      s ← get; mret (inr (AFatPointerToBFTChainTip s.(fat_pointer_to_tip)))
  | QFaucet request =>
      mret (inr (AFaucet (match faucet with
                          | Some closure => closure request
                          | None => inl "No faucet available"%string
                          end)))
  | QStakingCmd _ => mret (inl NotImplemented)
  end.
End service.
