(* ===== verification/TflInv.v ===== *)
(** * TflInv: what the finality service promises

    The chain of decided BFT blocks stays a chain, the store file always
    replays to it, and the closures the service gives to the BFT engine keep
    the promises the engine relies on.  The service fills gaps in its chain
    with placeholder blocks before it looks at the parent of a new block; a
    decided block could land behind such a gap only if a stored block had the
    hash of a placeholder.  [placeholder_clash] is that event for the blocks
    actually stored, and no theorem assumes that it is impossible. *)

From stdpp Require Import base list strings sets relations.
From S2P Require Import Prelude Wire Encoding Bft Roster Round RoundInv Node NodeInv Decide Tfl.
Import TFL.

(** ** Running the service monad backwards *)

Section svc.
Context {W : Type}.

Lemma Svc_bind_inv {A B} (m : Svc W A) (f : A → Svc W B) w s r :
  (m ≫= f) w s = Ret r → ∃ w1 s1 a, m w s = Ret (w1, s1, a) ∧ f a w1 s1 = Ret r.
Proof.
  unfold mbind, Svc_bind. intros ([[w1 s1] a] & E & Hf)%bind_Ret_inv. eauto.
Qed.

Lemma Svc_bind_eq {A B} (m : Svc W A) (f : A → Svc W B) w s w1 s1 a :
  m w s = Ret (w1, s1, a) → (m ≫= f) w s = f a w1 s1.
Proof. intros E. unfold mbind, Svc_bind. by rewrite E. Qed.

Lemma lift_inv {A} (o : outcome A) (w w' : W) s s' a :
  lift o w s = Ret (w', s', a) → o = Ret a ∧ w' = w ∧ s' = s.
Proof. unfold lift. intros (x & -> & E)%bind_Ret_inv. by injection E as -> -> ->. Qed.

Lemma assert_inv b (w w' : W) s s' u :
  assert b w s = Ret (w', s', u) → b = true ∧ w' = w ∧ s' = s.
Proof. destruct b; [|done]. intros E. by injection E as -> -> _. Qed.
End svc.

Ltac inv_svc :=
  repeat match goal with
  | H : (_ ≫= _) ?w ?s = Ret _ |- _ =>
      let w1 := fresh "w" in let s1 := fresh "s" in let a := fresh "a" in let E := fresh "E" in
      apply Svc_bind_inv in H as (w1 & s1 & a & E & H)
  | H : mret _ _ _ = Ret _ |- _ => injection H as ? ? ?; subst
  | H : get _ _ = Ret _ |- _ => injection H as ? ? ?; subst
  | H : put _ _ _ = Ret _ |- _ => injection H as ? ? ?; subst
  | H : lift _ _ _ = Ret _ |- _ => apply lift_inv in H as (H & ? & ?); subst
  | H : assert _ _ _ = Ret _ |- _ => apply assert_inv in H as (H & ? & ?); subst
  | H : panic _ _ = Ret _ |- _ => discriminate H
  end.

(** ** The chain of decided blocks *)

Section chain.
Context {P : Profile} {C : Crypto}.

Definition hash_of (b : BftBlock.t) : Blake3Hash :=
  blake3_keyed_hash (hk_value_id HashKeys_default) (BftBlock.serialize_bytes b).

(** A stored block has the hash of a placeholder, from which it differs. *)
Definition placeholder_clash (bs : list BftBlock.t) : Prop :=
  ∃ i j b, bs !! i = Some b ∧ BftBlock.headers b ≠ [] ∧ hash_of b = hash_of (filler j).

Lemma blake3_hash_of b : BftBlock.wf b → BftBlock.blake3_hash b = Ret (hash_of b).
Proof. intros Hwf. unfold BftBlock.blake3_hash. by rewrite BftBlock_serialize_ok. Qed.

(** The hash the next block has to name as its parent. *)
Definition tip_hash (bs : list BftBlock.t) : Blake3Hash :=
  match last bs with Some b => hash_of b | None => zeros 32 end.

Record chain_ok (bs : list BftBlock.t) (tip : FatPointerToBftBlock.t) : Prop := {
  ck_blocks : ∀ i b, bs !! i = Some b →
  BftBlock.wf b ∧ BftBlock.height b = Z.of_nat i + 1 ∧ BftBlock.headers b ≠ [] ∧
  BftBlock.previous_block_hash b = tip_hash (take i bs);
  ck_tip : FatPointerToBftBlock.points_at_block_hash tip = tip_hash bs }.

Lemma chain_ok_nil : chain_ok [] FatPointerToBftBlock.null.
Proof. split; [intros i b Hb; by rewrite lookup_nil in Hb|done]. Qed.

Lemma chain_ok_snoc bs tip b fp :
  chain_ok bs tip → BftBlock.wf b → BftBlock.height b = Z.of_nat (length bs) + 1 →
  BftBlock.headers b ≠ [] → BftBlock.previous_block_hash b = tip_hash bs →
  FatPointerToBftBlock.points_at_block_hash fp = hash_of b → chain_ok (bs ++ [b]) fp.
Proof.
  intros [Hbs Htip] Hwf Hh Hhd Hprev Hfp. split.
  - intros i b' [Hi|[Hi Hb']]%lookup_app_Some.
    + rewrite take_app_le by (apply lookup_lt_Some in Hi; lia). by apply Hbs.
    + destruct (i - length bs)%nat eqn:E in Hb'; [|done].
      injection Hb' as <-. assert (i = length bs) as -> by lia. by rewrite take_app_length.
  - unfold tip_hash. by rewrite last_snoc.
Qed.

Lemma filler_wf i : BftBlock.wf (filler i).
Proof.
  repeat split; cbn; try (unfold is_u; lia); try done. 1-2: apply Z.mod_pos_bound; lia.
Qed.

Lemma fill_lookup_filler bs n i :
  (length bs ≤ i ≤ n)%nat → fill_up_to bs n !! i = Some (filler i).
Proof.
  intros Hi. unfold fill_up_to. rewrite lookup_app_r by lia.
  rewrite list_lookup_fmap, lookup_seq_lt by lia. cbn. do 2 f_equal. lia.
Qed.

(** What a block that is inserted without a panic does to the chain. *)
Lemma chain_ok_length bs tip : chain_ok bs tip → Z.of_nat (length bs) < 2 ^ 32.
Proof.
  intros [Hbs _]. destruct (decide (bs = [])) as [->|Hne]; [done|].
  destruct (lookup_lt_is_Some_2 bs (length bs - 1)) as [b Hb].
  { destruct bs; [done|cbn; lia]. }
  destruct (Hbs _ _ Hb) as ((_ & [_ Hh] & _) & Hi & _). destruct bs; [done|cbn in *; lia].
Qed.

(** A block past the end would have a placeholder as its parent. *)
Lemma filler_parent bs tip b j :
  chain_ok bs tip → BftBlock.previous_block_hash b = tip_hash bs →
  hash_of (filler j) = BftBlock.previous_block_hash b → BftBlock.previous_block_hash b ≠ zeros 32 →
  placeholder_clash bs.
Proof.
  intros [Hbs _] Hprev Hfill Hz. rewrite Hprev in Hz, Hfill. unfold tip_hash in Hz, Hfill.
  destruct (last bs) as [l|] eqn:El; [|done]. rewrite last_lookup in El.
  destruct (Hbs _ _ El) as (_ & _ & Hhd & _). by eexists _, j, l.
Qed.

(** Only placeholders are overwritten, so a clash stays in the chain. *)
Lemma insert_block_clash bs b bs' :
  placeholder_clash bs → insert_block bs b = Ret bs' → placeholder_clash bs'.
Proof.
  intros (i & j & l & Hi & Hhd & Hj) Hins. unfold insert_block in Hins. inv_ret.
  exists i, j, l. split; [|done].
  assert (fill_up_to bs (Z.to_nat r) !! i = Some l) as Hl by (by apply lookup_app_l_Some).
  rewrite list_lookup_insert_ne; [done|]. intros <-. rewrite Hl in E2. injection E2 as <-.
  by rewrite decide_False in E3.
Qed.

(** What a block that is inserted without a panic does to the chain. *)
Lemma insert_block_inv bs tip b bs' :
  chain_ok bs tip → BftBlock.wf b → BftBlock.previous_block_hash b = tip_hash bs →
  insert_block bs b = Ret bs' →
  placeholder_clash bs ∨ (bs' = bs ++ [b] ∧ BftBlock.height b = Z.of_nat (length bs) + 1 ∧
                          BftBlock.headers b ≠ []).
Proof.
  intros Hc Hwf Hprev Hins. unfold insert_block in Hins. inv_ret.
  destruct (lt_eq_lt_dec (Z.to_nat r) (length bs)) as [[Hlt|Heq]|Hgt].
  - exfalso. unfold fill_up_to in E2. rewrite lookup_app_l in E2 by done.
    destruct Hc as [Hbs _]. destruct (Hbs _ _ E2) as (_ & _ & Hhd & _).
    by rewrite decide_False in E3.
  - right. split; [|split].
    + rewrite Heq. unfold fill_up_to. replace (S (length bs) - length bs)%nat with 1%nat by lia.
      cbn [seq map]. by rewrite insert_app_r_alt, Nat.sub_diag by lia.
    + pose proof (chain_ok_length _ _ Hc). destruct Hwf as (_ & Hh & _).
      unfold arith in E. destruct (in_range _ _) eqn:Er; [apply in_range_spec in Er as []; inv_ret; lia|].
      destruct overflow_checks; [done|]. inv_ret. exfalso.
      assert (BftBlock.height b = 0) as Eh.
      { unfold in_range, is_u in *. lia. }
      rewrite Eh in Heq. change ((0 - 1) mod 2 ^ 64) with (2 ^ 64 - 1) in Heq. lia.
    + by destruct (decide (BftBlock.headers b = [])).
  - left. rewrite decide_True in E0 by lia. inv_ret.
    rewrite fill_lookup_filler in E5 by lia. injection E5 as <-.
    rewrite blake3_hash_of in E6 by apply filler_wf. injection E6 as <-.
    destruct (decide _) as [Hf|] in E0; [|done].
    destruct (decide (_ ∨ _)) as [[?|Hz]|] in E1; [lia| |done].
    by eapply filler_parent.
Qed.
End chain.

(** The block every honest proposer makes is inserted. *)
Lemma insert_block_next `{Profile} `{Crypto} bs tip b :
  chain_ok bs tip → BftBlock.wf b → BftBlock.height b = Z.of_nat (length bs) + 1 →
  BftBlock.headers b ≠ [] → BftBlock.previous_block_hash b = tip_hash bs →
  (bs ≠ [] → tip_hash bs ≠ zeros 32) → insert_block bs b = Ret (bs ++ [b]).
Proof.
  intros Hc Hwf Hh Hhd Hprev Hz. unfold insert_block. pose proof (chain_ok_length _ _ Hc).
  rewrite arith_ok by (unfold is_u; lia). cbn [mbind outcome_bind]. cbn zeta.
  replace (Z.to_nat (BftBlock.height b - 1)) with (length bs) by lia.
  assert (fill_up_to bs (length bs) = bs ++ [filler (length bs)]) as ->.
  { unfold fill_up_to. by replace (S (length bs) - length bs)%nat with 1%nat by lia. }
  replace (if decide (0 < length bs)%nat then _ else _) with (Ret ()).
  2:{ case_decide; [|done]. destruct (last bs) as [l|] eqn:El; [|apply last_None in El; subst; cbn in *; lia].
    unfold tip_hash in Hprev. rewrite El in Hprev. rewrite last_lookup in El.
    rewrite (index_Ret _ _ l) by (rewrite lookup_app_l by lia; by rewrite Nat.sub_1_r).
    cbn [mbind outcome_bind]. destruct Hc as [Hbs _]. destruct (Hbs _ _ El) as (Hl & _).
    rewrite blake3_hash_of by done. cbn [mbind outcome_bind].
    unfold BftBlock.previous_block_hash in Hprev. by rewrite decide_True. }
  assert (length bs = 0%nat ∨ BftBlock.previous_block_hash b ≠ zeros 32) as Hor.
  { destruct bs; [by left|right]. rewrite Hprev. by apply Hz. }
  cbn [mbind outcome_bind]. rewrite (decide_True _ _ Hor).
  cbn [mbind outcome_bind]. rewrite (index_Ret _ _ (filler (length bs))).
  2:{ by rewrite lookup_app_r, Nat.sub_diag by lia. }
  cbn [mbind outcome_bind]. rewrite (decide_True (P := BftBlock.headers (filler _) = [])) by done.
  cbn [mbind outcome_bind]. rewrite (decide_False _ _ Hhd). cbn [mbind outcome_bind].
  rewrite set_index_Ret by (rewrite length_app; cbn; lia). f_equal.
  by rewrite insert_app_r_alt, Nat.sub_diag by lia.
Qed.

(** ** The handlers *)

Section handlers.
Context {P : Profile} {C : Crypto} {W : Type}.
Context (call : W → StateRequest → W * (string + StateResponse)).

(** Whether the state, asked in [w], knows a block. *)
Definition known (w : W) (hash : ZebBlockHash) : option Z :=
  match (call w (KnownBlock hash)).2 with
  | inr (RKnownBlock (Some (height, _))) => Some height
  | _ => None
  end.

Lemma block_height_from_hash_eq hash w s :
  block_height_from_hash call hash w s = Ret ((call w (KnownBlock hash)).1, s, known w hash).
Proof.
  unfold block_height_from_hash, known, state, mbind, Svc_bind.
  by destruct (call w (KnownBlock hash)).
Qed.

(** The PoW block a BFT block finalises. *)
Definition candidate_hash (b : BftBlock.t) : option ZebBlockHash :=
  BlockHeader.from_header_data <$> head (BftBlock.headers b).

(** Validation only reads: on every branch, what it answers. *)
Lemma validate_bft_block_eq b w s :
  validate_bft_block call b w s =
  if decide (BftBlock.previous_block_hash b
             = FatPointerToBftBlock.points_at_block_hash s.(fat_pointer_to_tip))
  then match candidate_hash b with
       | None => Panic
       | Some hash => Ret ((call w (KnownBlock hash)).1, s,
                           match known w hash with
                           | Some _ => (Pass, ReasonNone)
                           | None => (Indeterminate, NeedsBlock hash)
                           end)
       end
  else Ret (w, s, (Fail_, ReasonNone)).
Proof.
  unfold validate_bft_block. erewrite Svc_bind_eq by done. unfold BftBlock.previous_block_hash.
  destruct (decide (_ ≠ _)) as [Hne|Heq]; [by rewrite decide_False|].
  rewrite decide_True by (by apply dec_stable). unfold candidate_hash.
  destruct (BftBlock.headers b) as [|hdr hs]; [done|]. cbn [head fmap option_fmap option_map].
  erewrite Svc_bind_eq by done. erewrite Svc_bind_eq by apply block_height_from_hash_eq. done.
Qed.

(** The roster a decision leaves. *)
Definition next_validators (s : TFL.t) (stakes : list (PubKeyID * Z)) : list RosterMember.t :=
  if decide (stakes = []) then s.(validators_at_current_height)
  else map (λ '(k, p), RosterMember.mk k p []) stakes.

(** The state after a decision that found its place in the chain. *)
Definition extended (s : TFL.t) (bs : list BftBlock.t) (b : BftBlock.t)
    (fp : FatPointerToBftBlock.t) (height : Z) (hash : ZebBlockHash)
    (vals : list RosterMember.t) (store : option bytes) : TFL.t :=
  with_validators (with_tip s bs fp (Some (height, hash))) vals store.

Definition stored (s : TFL.t) (b : BftBlock.t) (fp : FatPointerToBftBlock.t)
    (vals : list RosterMember.t) (sigs : list TMSig) (store : option bytes) : Prop :=
  match s.(pos_store) with
  | None => store = None
  | Some file => ∃ r, store_record b fp vals sigs = Ret r ∧ store = Some (file ++ r)
  end.

Lemma finalize_inv hash w s w' s' stakes :
  finalize_pow call hash w s = Ret (w', s', stakes) →
  s' = s ∧ (stakes = [] ∨ ∃ w2, (call w2 (CrosslinkFinalizeBlock hash)).2
                            = inr (RCrosslinkFinalized hash stakes)).
Proof.
  unfold finalize_pow, state, mbind, Svc_bind.
  destruct (call w (CrosslinkFinalizeBlock hash)) as [w2 res] eqn:E. cbn.
  destruct res as [err|[]]; try done.
  - intros Hr. injection Hr as _ <- <-. auto.
  - case_bool_decide as Hh; [|done]. subst. intros Hr. injection Hr as _ <- <-.
    split; [done|right]. exists w. by rewrite E.
Qed.

Lemma handle_inv b fp sigs w s w' s' ros :
  BftBlock.wf b →
  handle_new_decided_bft_block call b fp sigs w s = Ret (w', s', ros) →
  ∃ w1 bs height hash stakes store,
  FatPointerToBftBlock.points_at_block_hash fp = hash_of b ∧
  FatPointerToBftBlock.validate_signatures fp = true ∧
  BftBlock.previous_block_hash b
  = FatPointerToBftBlock.points_at_block_hash s.(fat_pointer_to_tip) ∧
  candidate_hash b = Some hash ∧ known w1 hash = Some height ∧
  insert_block s.(bft_blocks) b = Ret bs ∧
  (stakes = [] ∨ ∃ w2, (call w2 (CrosslinkFinalizeBlock hash)).2
                     = inr (RCrosslinkFinalized hash stakes)) ∧
  stored s b fp (next_validators s stakes) sigs store ∧
  s' = extended s bs b fp height hash (next_validators s stakes) store ∧
  tenderlink_roster_from_internal (next_validators s stakes) = Ret ros.
Proof.
  intros Hwf Hh. unfold handle_new_decided_bft_block, check_preconditions in Hh. inv_svc.
  rewrite blake3_hash_of in E10 by done. injection E10 as <-.
  rewrite validate_bft_block_eq in E13. unfold candidate_hash in *.
  apply unwrap_Ret_inv in E0. rewrite E0 in *. cbn [fmap option_fmap option_map] in *.
  destruct (decide (BftBlock.previous_block_hash b = _)) as [Hprev|] in E13; apply Ret_inj in E13; simplify_eq.
  rewrite block_height_from_hash_eq in E1. apply Ret_inj in E1. simplify_eq.
  apply unwrap_Ret_inv in E2. apply finalize_inv in E6 as [-> Hst].
  eexists _, a4, a2, _, a6, _. split; [by apply bool_decide_eq_true in E11|]. split; [done|].
  split; [done|]. split; [done|]. split; [exact E2|]. split; [done|]. split; [done|].
  unfold stored. cbn [pos_store with_tip] in E8. destruct (pos_store s2) as [file|]; inv_svc; eauto.
Qed.

(** A decision that is taken over extends the chain by its block. *)
Lemma handle_extends b fp sigs w s w' s' ros :
  chain_ok s.(bft_blocks) s.(fat_pointer_to_tip) → BftBlock.wf b →
  handle_new_decided_bft_block call b fp sigs w s = Ret (w', s', ros) →
  placeholder_clash s.(bft_blocks) ∨
  (s'.(bft_blocks) = s.(bft_blocks) ++ [b] ∧ s'.(fat_pointer_to_tip) = fp ∧
   chain_ok s'.(bft_blocks) s'.(fat_pointer_to_tip)).
Proof.
  intros Hc Hwf Hh. apply handle_inv in Hh
                      as (w1 & bs & h & hash & stakes & store & Hfp & _ & Hprev & _ & _ & Hins & _ & _ & -> & _); [|done].
  rewrite (ck_tip _ _ Hc) in Hprev.
  destruct (insert_block_inv _ _ _ _ Hc Hwf Hprev Hins) as [|(-> & Hht & Hhd)]; [by left|right].
  split; [done|]. split; [done|]. by eapply chain_ok_snoc.
Qed.

(** Reading the state of a chain of length [n]. *)
Lemma historical_eq s h :
  chain_ok s.(bft_blocks) s.(fat_pointer_to_tip) → 1 ≤ h ≤ Z.of_nat (length s.(bft_blocks)) →
  ∃ b fp, s.(bft_blocks) !! Z.to_nat (h - 1) = Some b ∧
  fat_pointer_to_block_at_height s.(bft_blocks) s.(fat_pointer_to_tip) h = Ret (Some fp) ∧
  FatPointerToBftBlock.points_at_block_hash fp = hash_of b.
Proof.
  intros [Hbs Htip] Hh. destruct (lookup_lt_is_Some_2 s.(bft_blocks) (Z.to_nat (h - 1))) as [b Hb]; [lia|].
  exists b. unfold fat_pointer_to_block_at_height.
  rewrite (proj2 (Z.eqb_neq h 0)), (proj2 (Z.leb_gt _ _)) by lia. cbn [orb].
  destruct (Z.eqb_spec h (Z.of_nat (length s.(bft_blocks)))) as [E|Hne].
  - eexists. split; [done|]. split; [done|]. rewrite Htip. unfold tip_hash.
    rewrite last_lookup. replace (Nat.pred _) with (Z.to_nat (h - 1)) by lia. by rewrite Hb.
  - destruct (lookup_lt_is_Some_2 s.(bft_blocks) (Z.to_nat h)) as [b' Hb']; [lia|].
    rewrite (index_Ret _ _ _ Hb'). eexists. split; [done|]. split; [done|].
    destruct (Hbs _ _ Hb') as (_ & _ & _ & Hp). unfold BftBlock.previous_block_hash in Hp.
    rewrite Hp. replace (Z.to_nat h) with (S (Z.to_nat (h - 1))) by lia. unfold tip_hash.
    by rewrite (take_S_r _ _ _ Hb), last_snoc.
Qed.
End handlers.

(** ** The store file *)

Section store.
Context {P : Profile} {C : Crypto}.

Record Rec := {
  r_block : BftBlock.t;
  r_fp : FatPointerToBftBlock.t;
  r_vals : list RosterMember.t;
  r_sigs : list TMSig }.

Definition rec_bytes (r : Rec) : bytes :=
  BftBlock.serialize_bytes r.(r_block) ++ FatPointerToBftBlock.zcash_serialize r.(r_fp)
    ++ to_le 8 (Z.of_nat (length r.(r_vals))) ++ concat (map RosterMember.write_to_vec r.(r_vals))
    ++ to_le 8 (Z.of_nat (length r.(r_sigs))) ++ concat r.(r_sigs).

Record rec_ok (r : Rec) : Prop := {
  ro_block : BftBlock.wf r.(r_block);
  ro_fp : FatPointerToBftBlock.wf r.(r_fp);
  ro_points : FatPointerToBftBlock.points_at_block_hash r.(r_fp) = hash_of r.(r_block);
  ro_vals_n : Z.of_nat (length r.(r_vals)) < 2 ^ 64;
  ro_vals : Forall RosterMember.wf r.(r_vals);
  ro_sigs_n : Z.of_nat (length r.(r_sigs)) < 2 ^ 64;
  ro_sigs : Forall (λ sg, length sg = 64%nat) r.(r_sigs) }.

Lemma store_record_eq r :
  rec_ok r → store_record r.(r_block) r.(r_fp) r.(r_vals) r.(r_sigs) = Ret (rec_bytes r).
Proof. intros []. unfold store_record. by rewrite BftBlock_serialize_ok. Qed.

Lemma read_record_app r rest :
  rec_ok r → read_record (rec_bytes r ++ rest)
       = Some (r.(r_block), r.(r_fp), r.(r_vals), r.(r_sigs), rest).
Proof.
  intros [Hb Hfp _ Hvn Hv Hsn Hs]. unfold read_record, rec_bytes. rewrite <- !app_assoc.
  erewrite Reader_bind_eq by (by apply BftBlock_reads_back).
  erewrite Reader_bind_eq by (by apply FatPointerToBftBlock_reads_back).
  erewrite Reader_bind_eq by (apply read_uint_app; unfold is_u; lia). rewrite Nat2Z.id.
  erewrite Reader_bind_eq by (eapply reads_back_list; [apply RosterMember_reads_back|done]).
  erewrite Reader_bind_eq by (apply read_uint_app; unfold is_u; lia). rewrite Nat2Z.id.
  erewrite Reader_bind_eq; [done|]. rewrite <- (map_id r.(r_sigs)) at 2.
  apply read_list_app. intros sg rest' Hsg. apply read_bytes_app.
  by eapply Forall_forall in Hs.
Qed.

Definition last_vals (vals0 : list RosterMember.t) (recs : list Rec) : list RosterMember.t :=
  match last recs with Some r => r.(r_vals) | None => vals0 end.
Definition last_fp (recs : list Rec) : FatPointerToBftBlock.t :=
  match last recs with Some r => r.(r_fp) | None => FatPointerToBftBlock.null end.

(** The records from which the file is built: each extends the one before,
    and the roster it was decided under can be built. *)
Inductive recs_ok (vals0 : list RosterMember.t) : list Rec → Prop :=
| recs_nil : recs_ok vals0 []
| recs_snoc recs r ros :
  recs_ok vals0 recs → rec_ok r →
  BftBlock.previous_block_hash r.(r_block)
  = FatPointerToBftBlock.points_at_block_hash (last_fp recs) →
  tenderlink_roster_from_internal (last_vals vals0 recs) = Ret ros →
  recs_ok vals0 (recs ++ [r]).

Lemma recs_ok_split vals0 pre r post :
  recs_ok vals0 (pre ++ r :: post) →
  rec_ok r ∧ BftBlock.previous_block_hash r.(r_block)
         = FatPointerToBftBlock.points_at_block_hash (last_fp pre) ∧
  ∃ ros, tenderlink_roster_from_internal (last_vals vals0 pre) = Ret ros.
Proof.
  induction post as [|x post IH] using rev_ind; intros Hok; inversion Hok as [E|recs r' ros Hr ? ? ? E].
  - by destruct pre.
  - apply app_inj_tail in E as [-> ->]. eauto.
  - by destruct pre.
  - rewrite app_comm_cons, app_assoc in E. apply app_inj_tail in E as [-> _]. by apply IH.
Qed.

(** What the BFT engine is told about a replayed record. *)
Definition rec_view (i : nat) (r : Rec) : Z * BlockValue * ValueId :=
  (Z.of_nat i, BftBlock.serialize_bytes r.(r_block), hash_of r.(r_block)).
Definition round_view (rd : RoundData.t) : Z * BlockValue * ValueId :=
  (RoundData.height rd, RoundData.proposal rd, RoundData.proposal_id rd).

Record replayed (vals0 : list RosterMember.t) (recs : list Rec) (junk : bytes) (l : Loaded) : Prop := {
  rp_blocks : l.(l_blocks) = map r_block recs;
  rp_tip : l.(l_tip) = last_fp recs;
  rp_roster : l.(l_roster) = last_vals vals0 recs;
  rp_ingest : map round_view l.(l_ingest) = imap rec_view recs;
  rp_rest : l.(l_rest) = junk }.

Lemma load_loop_replays vals0 junk todo : ∀ fuel recs l,
  read_record junk = None → recs_ok vals0 (recs ++ todo) → (length todo < fuel)%nat →
  replayed vals0 recs (concat (map rec_bytes todo) ++ junk) l →
  ∃ l', load_loop fuel l = Ret l' ∧ replayed vals0 (recs ++ todo) junk l'.
Proof.
  induction todo as [|r todo IH]; intros [|fuel] recs l Hjunk Hok Hfuel [Hb Ht Hv Hi Hr];
    cbn in Hfuel; try lia; cbn [load_loop]; rewrite Hr.
  - cbn [map concat app]. rewrite Hjunk, app_nil_r. exists l. split; [done|by split].
  - destruct (recs_ok_split _ _ _ _ Hok) as (Hro & Hprev & ros & Hros).
    cbn [map concat]. rewrite <- app_assoc, read_record_app by done.
    rewrite decide_False by (rewrite Ht; intros Hne; by apply Hne). rewrite Hv, Hros.
    cbn [mbind outcome_bind]. rewrite BftBlock_serialize_ok by apply Hro. cbn [mbind outcome_bind].
    replace (recs ++ r :: todo) with ((recs ++ [r]) ++ todo) in * by (by rewrite <- app_assoc).
    assert (length (l_ingest l) = length recs) as Hlen.
    { apply (f_equal length) in Hi. by rewrite length_map, length_imap in Hi. }
    apply IH; [done|done|lia|]. split; cbn; [|unfold last_fp; by rewrite last_snoc|unfold last_vals; by rewrite last_snoc| |done].
    + by rewrite Hb, map_app.
    + rewrite map_app, Hi, imap_app. cbn. unfold round_view, rec_view. cbn.
      rewrite Nat.add_0_r, Hlen, (ro_points _ Hro). done.
Qed.

Lemma rec_bytes_length r : (1 ≤ length (rec_bytes r))%nat.
Proof. unfold rec_bytes, BftBlock.serialize_bytes. rewrite !length_app, length_le_split. lia. Qed.

Lemma recs_bytes_length recs : (length recs ≤ length (concat (map rec_bytes recs)))%nat.
Proof.
  induction recs as [|r recs IH]; [done|]. cbn. rewrite length_app.
  pose proof (rec_bytes_length r). lia.
Qed.

Lemma load_store_replays vals0 recs junk :
  read_record junk = None → recs_ok vals0 recs →
  ∃ l, load_store vals0 (concat (map rec_bytes recs) ++ junk) = Ret l ∧ replayed vals0 recs junk l.
Proof.
  intros Hj Hok. apply (load_loop_replays vals0 junk recs _ []); [done|done| |done].
  rewrite length_app. pose proof (recs_bytes_length recs). lia.
Qed.

(** The store of a service mirrors its chain. *)
Record store_ok (vals0 : list RosterMember.t) (s : TFL.t) : Prop := {
  so_recs : ∃ recs, recs_ok vals0 recs ∧
  s.(pos_store) = Some (concat (map rec_bytes recs)) ∧
  s.(bft_blocks) = map r_block recs ∧ s.(fat_pointer_to_tip) = last_fp recs ∧
  s.(validators_at_current_height) = last_vals vals0 recs }.
End store.

(** ** The service against its two neighbours *)

Section contract.
Context {P : Profile} {C : Crypto}.

(** A list of validators a roster can be built from and stored: 32-byte keys,
    and voting powers whose sum fits. *)
Record vals_wf (vals : list RosterMember.t) : Prop := {
  vo_wf : Forall RosterMember.wf vals;
  vo_n : Z.of_nat (length vals) < 2 ^ 64;
  vo_sum : zsum (map RosterMember.voting_power vals) < 2 ^ 64 }.

(** The engine marks a missing signature with the all-zero one; it relies on
    keys for which that is not a valid signature. *)
Definition no_zero_sig (k : PubKeyID) : Prop := ∀ d, TMSig_verify TMSig_NIL k d = false.
Definition vals_keys (vals : list RosterMember.t) : Prop :=
  Forall (λ v, no_zero_sig v.(RosterMember.pub_key)) vals.
Definition vals_ok (vals : list RosterMember.t) : Prop := vals_wf vals ∧ vals_keys vals.

Lemma vals_wf_roster vals :
  vals_wf vals → ∃ ros, tenderlink_roster_from_internal vals = Ret ros ∧ roster_wf ros ∧
  Forall (λ m, length m.(SortedRosterMember.pub_key) = 32%nat) ros ∧ (vals_keys vals → roster_ok ros).
Proof.
  intros [Hwf _ Hsum].
  destruct (roster_built vals) as (ros & Hr & Hros & Hperm & _); [|done|].
  { eapply Forall_impl; [exact Hwf|]. by intros v (_ & [] & _). }
  exists ros. do 2 (split; [done|]).
  assert (∀ m, m ∈ ros → ∃ v, v ∈ vals ∧ m.(SortedRosterMember.pub_key) = v.(RosterMember.pub_key)) as Hin.
  { intros m Hm. set (f := λ m, (SortedRosterMember.pub_key m, SortedRosterMember.stake m)) in *.
    assert (f m ∈ map f ros) as Hf by (apply list_elem_of_fmap; eauto).
    rewrite Hperm in Hf. apply list_elem_of_fmap in Hf as (v & Hv & ?). exists v. split; [done|].
    subst f. cbn in *. congruence. }
  assert (Forall (λ m, length m.(SortedRosterMember.pub_key) = 32%nat) ros) as Hlen.
  { apply Forall_forall. intros m (v & Hv & ->)%Hin. eapply Forall_forall in Hwf as [? _]; [|exact Hv]. done. }
  split; [done|]. intros Hnil. split; [done..|]. apply Forall_forall. intros m (v & Hv & ->)%Hin.
  by eapply Forall_forall in Hnil.
Qed.

Lemma vals_roster vals :
  vals_ok vals → ∃ ros, tenderlink_roster_from_internal vals = Ret ros ∧ roster_ok ros.
Proof. intros [Hwf Hk]. destruct (vals_wf_roster _ Hwf) as (ros & ? & _ & _ & ?). eauto. Qed.

Context {W : Type} (call : W → StateRequest → W * (string + StateResponse)).

(** The stakes that the PoW state answers with.  That they are numbers a roster
    can be built from follows from the invariant of the write task
    ([stakes_make_roster] in [PowRoster.v]); that no staked key accepts the
    all-zero signature is an assumption, which nothing checks where bonds are
    created. *)
Definition answers_stakes (Q : list RosterMember.t → Prop) : Prop := ∀ w h hash stakes,
  (call w (CrosslinkFinalizeBlock h)).2 = inr (RCrosslinkFinalized hash stakes) →
  Q (map (λ '(k, p), RosterMember.mk k p []) stakes).
Definition stakes_law : Prop := answers_stakes vals_wf.
Definition keys_law : Prop := answers_stakes vals_keys.

Lemma next_validators_keep Q s stakes hash :
  answers_stakes Q → Q s.(validators_at_current_height) →
  (stakes = [] ∨ ∃ w2, (call w2 (CrosslinkFinalizeBlock hash)).2
                   = inr (RCrosslinkFinalized hash stakes)) →
  Q (next_validators s stakes).
Proof.
  intros Hlaw Hs Hst. unfold next_validators. case_decide; [done|].
  destruct Hst as [|[w2 Hw]]; [done|]. by eapply Hlaw.
Qed.

Lemma from_payload_wf v b : BftBlock.from_payload v = Some b → BftBlock.wf b.
Proof.
  unfold BftBlock.from_payload. destruct (BftBlock.zcash_deserialize v) as [[b' rest]|] eqn:E; [|done].
  intros [= <-]. by apply BftBlock_canonical in E as [_ ?].
Qed.

Lemma state_inv r (w w' : W) s s' res : state call r w s = Ret (w', s', res) → s' = s.
Proof. unfold state. destruct (call w r). intros E. by injection E as _ -> _. Qed.

Lemma headers_wf hdrs hs : map_outcome bc_hdr_to_lrz hdrs = Ret hs → Forall BlockHeader.wf hs.
Proof.
  revert hs. induction hdrs as [|h hdrs IH]; intros hs; cbn; [by intros [= <-]|].
  intros Hm. inv_ret. constructor; [|by apply IH].
  unfold bc_hdr_to_lrz in E. inv_ret.
  destruct (BlockHeader.read_data _) as [[h' rest]|] eqn:Er in E; [|done]. injection E as <-.
  by apply BlockHeader_canonical in Er as [_ ?].
Qed.

(** What a proposal is made of; making one changes nothing. *)
Lemma propose_inv w s w' s' ob :
  propose_new_bft_block call w s = Ret (w', s', ob) →
  s' = s ∧ ∀ b, ob = Some b →
  arith 32 (Z.of_nat (length s.(bft_blocks)) mod 2 ^ 32 + 1) = Ret (BftBlock.height b) ∧
  BftBlock.version b = 1 ∧ BftBlock.previous_block_fat_ptr b = s.(fat_pointer_to_tip) ∧
  BftBlock.finalization_candidate_height b = 0 ∧
  Z.of_nat (length (BftBlock.headers b)) = bc_confirmation_depth_sigma PROTOTYPE_PARAMETERS ∧
  Forall BlockHeader.wf (BftBlock.headers b).
Proof.
  unfold propose_new_bft_block. intros Hp.
  apply Svc_bind_inv in Hp as (w1 & s1 & tip & E1%state_inv & Hp). subst s1.
  destruct tip as [|[]]; try (by inv_svc). destruct tip as [[tip_h tip_hash]|]; [|by inv_svc].
  apply Svc_bind_inv in Hp as (w2 & s2 & x & E2 & Hp). inv_svc.
  assert (s0 = x) as ->.
  { destruct (height_sub _ _) in E; [destruct (last _) in E|]; by inv_svc. }
  destruct a0 as [h|]; [|by inv_svc].
  apply Svc_bind_inv in Hp as (w3 & s3 & r3 & E3%state_inv & Hp). subst s3.
  destruct r3 as [|[]]; try (by inv_svc).
  apply Svc_bind_inv in Hp as (w4 & s4 & r4 & E4%state_inv & Hp). subst s4.
  destruct r4 as [|[]]; try (by inv_svc).
  apply Svc_bind_inv in Hp as (w5 & s5 & hs & E5 & Hp). inv_svc. split; [done|].
  intros b. unfold BftBlock.try_from. destruct (negb _) eqn:En; [done|]. intros [= <-].
  cbn [BftBlock.height BftBlock.version BftBlock.previous_block_fat_ptr
    BftBlock.finalization_candidate_height BftBlock.headers].
  do 4 (split; [done|]). split; [by apply negb_false_iff, Z.eqb_eq in En|].
  apply Forall_take. by eapply headers_wf.
Qed.

(** The invariant of the service that the BFT engine keeps through its
    closures. *)
Definition service_ok (e : W * TFL.t) : Prop :=
  vals_ok e.2.(validators_at_current_height) ∧
    (placeholder_clash e.2.(bft_blocks) ∨ chain_ok e.2.(bft_blocks) e.2.(fat_pointer_to_tip)).

Lemma validate_keeps_state b w s w' s' st :
  validate_bft_block call b w s = Ret (w', s', st) → s' = s.
Proof.
  rewrite validate_bft_block_eq. intros Hv.
  destruct (decide _) in Hv; [destruct (candidate_hash b) in Hv; [|done]|]; by injection Hv as _ -> _.
Qed.

#[global] Program Instance tfl_client (Hlaw : stakes_law) (Hkeys : keys_law) : EngineClient (tfl_closures call) :=
  {| env_ok := service_ok |}.
Next Obligation.
intros _ _ [w s] [w' s'] v Hok Hp. cbn in Hp. inv_ret.
apply propose_inv in E as [-> _]. destruct o; inv_ret; by simplify_eq.
Qed.
Next Obligation.
intros _ _ [w s] v [w' s'] st Hok Hp. cbn in Hp.
destruct (BftBlock.from_payload v); inv_ret; simplify_eq; [|done].
by apply validate_keeps_state in E as ->.
Qed.
Next Obligation.
intros Hlaw Hkeys [w s] v fp sigs [w' s'] ros' [[Hvw Hvk] Hc] Hp. cbn in Hp. inv_ret. simplify_eq.
match goal with Hf : BftBlock.from_payload v = Some ?b, Hh : handle_new_decided_bft_block _ ?b _ _ _ _ = _ |- _ =>
    pose proof (from_payload_wf _ _ Hf) as Hwf;
    pose proof Hh as Hh2; apply handle_inv in Hh2
    as (w1 & bs & h & hash & stakes & store & _ & _ & _ & _ & _ & Hins & Hst & _ & -> & Hr); [|done] end.
assert (vals_ok (next_validators s stakes)) as Hv' by (split; by eapply next_validators_keep).
destruct (vals_roster _ Hv') as (ros2 & Hr2 & Hok2). rewrite Hr in Hr2. injection Hr2 as <-.
split; [split; [done|]|done].
destruct Hc as [Hcl|Hc]; [by left; eapply insert_block_clash|].
eapply handle_extends in Hc as [Hcl|(_ & _ & ?)];
  [by left; eapply insert_block_clash|by right|done|done].
Qed.
End contract.
