(* ===== verification/Finality.v ===== *)
(** * Finality: the theorems on the finality service

    What the handlers of [Tfl] guarantee, stated on the definitions that model
    them: how a decided block extends the chain, that the store file replays to
    the same chain, what the service answers about history and finality, that
    the BFT engine and the service together keep their invariants, and which
    proposals abort a node. *)

From stdpp Require Import base list strings sets relations.
From S2P Require Import Prelude Wire Encoding Bft Roster Round RoundInv Node NodeInv Decide Gossip Receive Tfl TflInv.
Import TFL.

Section finality.
Context {P : Profile} {C : Crypto}.
Context {W : Type} (call : W → StateRequest → W * (string + StateResponse)).

(** C8: A decided block that the service takes over extends the chain of BFT
    blocks by exactly that block: its height is the next one, its parent is
    the old tip, the new tip pointer points at it with valid signatures, and
    the PoW block it names first becomes the latest final block.  The only
    exception would be a stored block with the hash of a placeholder. *)
Theorem decided_block_extends_chain b fp sigs w s w' s' ros :
  chain_ok s.(bft_blocks) s.(fat_pointer_to_tip) → BftBlock.wf b →
  handle_new_decided_bft_block call b fp sigs w s = Ret (w', s', ros) →
  placeholder_clash s.(bft_blocks) ∨
  (s'.(bft_blocks) = s.(bft_blocks) ++ [b] ∧ s'.(fat_pointer_to_tip) = fp ∧
   chain_ok s'.(bft_blocks) s'.(fat_pointer_to_tip) ∧
   FatPointerToBftBlock.validate_signatures fp = true ∧
   ∃ height hash, candidate_hash b = Some hash ∧ s'.(latest_final_block) = Some (height, hash)).
Proof.
  intros Hc Hwf Hh. destruct (handle_extends _ _ _ _ _ _ _ _ _ Hc Hwf Hh) as [|(? & ? & ?)]; [by left|right].
  apply handle_inv in Hh as (w1 & bs & h & hash & st & store & _ & Hsig & _ & Hcand & _ & _ & _ & _ & -> & _);
    [|done]. do 4 (split; [done|]). by exists h, hash.
Qed.

(** On every branch, reading history: a height of the chain gives its block
    and a fat pointer that points at it, any other height gives nothing, and
    the service is left unchanged. *)
Theorem historical_block (w : W) s at_height :
  chain_ok s.(bft_blocks) s.(fat_pointer_to_tip) → 0 ≤ at_height →
  ∃ r, get_historical_bft_block_at_height at_height w s = Ret (w, s, r) ∧
  match r with
  | None => at_height = 0 ∨ Z.of_nat (length s.(bft_blocks)) < at_height
  | Some (b, fp) => s.(bft_blocks) !! Z.to_nat (at_height - 1) = Some b ∧
      BftBlock.height b = at_height ∧
      FatPointerToBftBlock.points_at_block_hash fp = hash_of b
  end.
Proof.
  intros Hc Hh. unfold get_historical_bft_block_at_height. erewrite Svc_bind_eq by done.
  destruct (_ || _) eqn:E; [exists None; split; [done|lia]|].
  destruct (historical_eq s at_height Hc ltac:(lia)) as (b & fp & Hb & Hfp & Hpt).
  exists (Some (b, fp)). rewrite (index_Ret _ _ _ Hb). erewrite Svc_bind_eq by done.
  rewrite Hfp. erewrite Svc_bind_eq by done. erewrite Svc_bind_eq by done. split; [done|].
  destruct Hc as [Hbs _]. destruct (Hbs _ _ Hb) as (_ & Hht & _). split; [done|]. split; [lia|done].
Qed.

(** Where the state answers with the best chain [best], the finality status
    of a block is [NotYetFinalized] above the latest final height and at or
    below it [Finalized] exactly for the blocks of the best chain. *)
Theorem finality_status best w s fh fhash height hash :
  s.(latest_final_block) = Some (fh, fhash) → best fh = fhash → 0 ≤ height →
  (∀ w h, 0 ≤ h < fh → ∃ hdr, (call w (BlockHeaderByHeight h)).2 = inr (RBlockHeader h (best h) hdr)) →
  ∃ w', tfl_block_finality_from_height_hash call height hash w s
  = Ret (w', s, inr (Some (if fh <? height then NotYetFinalized
                           else if decide (hash = best height) then Finalized
                           else CantBeFinalized))).
Proof.
  intros Hf Hb Hpos Hcall. unfold tfl_block_finality_from_height_hash, tfl_final_block_height_hash.
  erewrite Svc_bind_eq by (erewrite Svc_bind_eq by done; by rewrite Hf).
  cbv beta iota. destruct (Z.ltb_spec fh height); [eexists; reflexivity|].
  destruct (Z.eqb_spec height fh) as [->|Hne].
  { erewrite Svc_bind_eq by done. rewrite Hb. eexists. reflexivity. }
  destruct (Hcall w height ltac:(lia)) as [hdr Hr]. exists (call w (BlockHeaderByHeight height)).1.
  erewrite (Svc_bind_eq _ _ w s _ s (inr (best height))); [done|].
  unfold state, mbind, Svc_bind. destruct (call w (BlockHeaderByHeight height)) as [w' res].
  cbn in Hr |- *. by subst res.
Qed.

(** A node that proposes makes a block every honest node accepts: it has
    the next height, the current tip as its parent, [sigma] headers, a
    well-formed encoding, and validating its bytes passes once the state
    knows the PoW block it finalises. *)
Theorem own_proposal_validates w s w' s' b w2 h :
  chain_ok s.(bft_blocks) s.(fat_pointer_to_tip) → FatPointerToBftBlock.wf s.(fat_pointer_to_tip) →
  Z.of_nat (length s.(bft_blocks)) < 2 ^ 32 - 1 →
  propose_new_bft_block call w s = Ret (w', s', Some b) →
  candidate_hash b ≫= known call w2 = Some h →
  BftBlock.wf b ∧ BftBlock.height b = Z.of_nat (length s.(bft_blocks)) + 1 ∧
  length (BftBlock.headers b) = 3%nat ∧
  ∃ bs w3, BftBlock.zcash_serialize b = Ret bs ∧
  validate_closure (tfl_closures call) (w2, s) bs = Ret ((w3, s), (Pass, ReasonNone)).
Proof.
  intros Hc Hfp Hlen Hp Hk. apply propose_inv in Hp as (_ & Hb).
  destruct (Hb b eq_refl) as (Hh & Hv & Hprev & Hf & Hn & Hhs). clear Hb.
  rewrite Z.mod_small in Hh by lia. rewrite arith_ok in Hh by (unfold is_u; lia). apply Ret_inj in Hh.
  change (bc_confirmation_depth_sigma PROTOTYPE_PARAMETERS) with 3 in Hn.
  assert (BftBlock.wf b) as Hwf.
  { unfold BftBlock.wf. rewrite Hv, <- Hh, Hprev, Hf, Hn. unfold is_u.
    do 2 (split; [lia|]). split; [done|]. split; [lia|]. split; [lia|done]. }
  split; [done|]. split; [done|]. split; [lia|]. exists (BftBlock.serialize_bytes b).
  destruct (candidate_hash b) as [hash|] eqn:Ec; [|done]. cbn in Hk.
  eexists. split; [by apply BftBlock_serialize_ok|]. cbn.
  unfold BftBlock.from_payload. rewrite <- (app_nil_r (BftBlock.serialize_bytes b)).
  rewrite (BftBlock_reads_back b [] Hwf). cbn. rewrite validate_bft_block_eq.
  unfold BftBlock.previous_block_hash. rewrite Hprev, decide_True by done.
  rewrite Ec, Hk. done.
Qed.

(** What a PoW state with the best chain [best] up to [tip], with headers
    [hdr], answers; [FindBlockHeaders] returns up to 160 headers that follow
    the known block. *)
Record best_chain (best : Z → ZebBlockHash) (hdr : Z → BlockHeader.t) (tip : Z) : Prop := {
  bc_tip : ∀ w, (call w Tip).2 = inr (RTip (Some (tip, best tip)));
  bc_header : ∀ w h, 0 ≤ h ≤ tip →
  ∃ zh, (call w (BlockHeaderByHeight h)).2 = inr (RBlockHeader h (best h) zh);
  bc_following : ∀ w h, 0 ≤ h ≤ tip →
  ∃ zhs, (call w (FindBlockHeaders [best h] None)).2 = inr (RBlockHeaders zhs) ∧
  map_outcome bc_hdr_to_lrz zhs = Ret (map hdr (seqZ (h + 1) (Z.min (tip - h) 160)));
  bc_hash : ∀ h, BlockHeader.from_header_data (hdr h) = best h }.

(** The height below the block a proposal finalises: [sigma] below the tip,
    but at most ten above what is final. *)
Definition anchor_height (tip : Z) (final : option HeightHash) : option Z :=
  if tip <? 3 then None else
  match final with
  | None => Some (tip - 3)
  | Some (fh, _) => if fh <? tip - 3 then Some (Z.min (tip - 3) (fh + 10)) else None
  end.

Lemma finality_candidate_eq tip final :
  0 ≤ tip ≤ HEIGHT_MAX → match final with Some (fh, _) => 0 ≤ fh | None => True end →
  finality_candidate tip final = Ret (anchor_height tip final).
Proof.
  unfold HEIGHT_MAX, finality_candidate, anchor_height, height_sub, in_range. intros Ht Hf.
  change (bc_confirmation_depth_sigma PROTOTYPE_PARAMETERS) with 3. unfold HEIGHT_MAX.
  destruct (Z.ltb_spec tip 3) as [Hlt|Hge].
  - by rewrite (proj2 (Z.leb_gt 0 (tip - 3))) by lia.
  - rewrite (proj2 (Z.leb_le 0 (tip - 3))), (proj2 (Z.ltb_lt (tip - 3) (2 ^ 32))),
      (proj2 (Z.leb_le (tip - 3) (2 ^ 31 - 1))) by lia. cbn [andb].
    destruct final as [[fh fhash]|]; [|by rewrite Z.min_l by (unfold U32_MAX; lia)].
    destruct (Z.ltb_spec fh (tip - 3)); [|done].
    rewrite arith_ok by (unfold is_u; lia). done.
Qed.

(** A call to the state, with what it answers. *)
Lemma state_eq {A} r res (f : _ → Svc W A) w s :
  (call w r).2 = res → (state call r ≫= f) w s = f res (call w r).1 s.
Proof.
  intros <-. erewrite Svc_bind_eq; [done|]. unfold state. by destruct (call w r).
Qed.

Lemma find_headers_three (hdr : Z → BlockHeader.t) h n :
  3 ≤ n → take (Z.to_nat 3) (map hdr (seqZ (h + 1) (Z.min n 160))) = map hdr [h + 1; h + 2; h + 3].
Proof.
  intros Hn. rewrite firstn_map. f_equal.
  rewrite (seqZ_cons (h + 1)), (seqZ_cons (Z.succ (h + 1))), (seqZ_cons (Z.succ (Z.succ (h + 1)))) by lia.
  change (Z.to_nat 3) with 3%nat. cbn [firstn].
  by replace (Z.succ (h + 1)) with (h + 2) by lia; replace (Z.succ (h + 2)) with (h + 3) by lia.
Qed.

(** On a best chain, when a node proposes and what: nothing below three
    confirmations or when nothing new can be finalised, otherwise the three
    headers that follow the anchor [sigma] below the tip (at most ten above
    what is final).  The block it finalises is the first of them, one above
    the anchor, so it has only [sigma - 1] blocks on top of it when the ten
    block cap does not apply. *)
Theorem proposal_finalises best hdr tip w s :
  best_chain best hdr tip → chain_ok s.(bft_blocks) s.(fat_pointer_to_tip) →
  0 ≤ tip ≤ HEIGHT_MAX → Z.of_nat (length s.(bft_blocks)) < 2 ^ 32 - 1 →
  match s.(latest_final_block) with Some (fh, _) => 0 ≤ fh | None => True end →
  ∃ w', match anchor_height tip s.(latest_final_block) with
        | None => propose_new_bft_block call w s = Ret (w', s, None)
        | Some c => propose_new_bft_block call w s
            = Ret (w', s, Some (BftBlock.mk 1 (Z.of_nat (length s.(bft_blocks)) + 1)
                                s.(fat_pointer_to_tip) 0 (map hdr [c + 1; c + 2; c + 3]))) ∧
            candidate_hash (BftBlock.mk 1 (Z.of_nat (length s.(bft_blocks)) + 1)
                            s.(fat_pointer_to_tip) 0 (map hdr [c + 1; c + 2; c + 3]))
            = Some (best (c + 1))
        end.
Proof.
  intros [Htip Hhdr Hfol Hhash] Hc Ht Hlen Hf. unfold propose_new_bft_block.
  rewrite (state_eq _ _ _ _ _ (Htip w)). erewrite Svc_bind_eq by done.
  erewrite (Svc_bind_eq _ _ _ s _ s ()).
  2:{ destruct (height_sub _ _); [|done]. destruct (last s.(bft_blocks)) as [b|] eqn:El; [|done].
    rewrite last_lookup in El. destruct (ck_blocks _ _ Hc _ _ El) as (Hwf & _).
    rewrite (blake3_hash_of b Hwf). done. }
  rewrite (finality_candidate_eq tip _ Ht Hf). erewrite Svc_bind_eq by done.
  unfold anchor_height. destruct (anchor_height tip s.(latest_final_block)) as [c|] eqn:Ea;
                          unfold anchor_height in Ea; rewrite Ea; [|by eexists].
  assert (0 ≤ c ≤ tip - 3) as Hcr.
  { destruct (Z.ltb_spec tip 3); [done|]. destruct (latest_final_block s) as [[fh ?]|]; [|simplify_eq; lia].
    destruct (Z.ltb_spec fh (tip - 3)); simplify_eq. lia. }
  destruct (Hhdr (call w Tip).1 c ltac:(lia)) as [zh Hzh]. rewrite (state_eq _ _ _ _ _ Hzh).
  edestruct (Hfol (call (call w Tip).1 (BlockHeaderByHeight c)).1 c ltac:(lia)) as (zhs & Hz & Hm).
  rewrite (state_eq _ _ _ _ _ Hz), Hm. erewrite Svc_bind_eq by done. cbv beta iota zeta.
  erewrite Svc_bind_eq by done. rewrite Z.mod_small by lia.
  rewrite arith_ok by (unfold is_u; lia). erewrite Svc_bind_eq by done.
  change (bc_confirmation_depth_sigma PROTOTYPE_PARAMETERS) with 3.
  rewrite find_headers_three by lia. eexists. split; [reflexivity|].
  cbn. by rewrite Hhash.
Qed.

(** A proposal without headers, which any proposer can encode and sign,
    aborts every node that validates it: [headers.first().expect] has no
    header to return. *)
Theorem empty_proposal_aborts w s b rest :
  BftBlock.wf b → BftBlock.headers b = [] →
  BftBlock.previous_block_hash b
  = FatPointerToBftBlock.points_at_block_hash s.(fat_pointer_to_tip) →
  validate_closure (tfl_closures call) (w, s) (BftBlock.serialize_bytes b ++ rest) = Panic.
Proof.
  intros Hwf Hh Hp. cbn. unfold BftBlock.from_payload. rewrite (BftBlock_reads_back b rest Hwf). cbn.
  rewrite validate_bft_block_eq, decide_True by done. unfold candidate_hash. by rewrite Hh.
Qed.

(** A proposal can pass the validation of every node and still abort them
    all once it is decided: validation looks neither at the height of the
    block nor at bytes behind its encoding, but taking over the decided
    block panics when the height is not the next one or when the decided
    bytes are more than the encoding of the block, unless a hash of these
    very bytes clashes. *)
Theorem validated_block_can_abort b rest fp sigs w s w' :
  chain_ok s.(bft_blocks) s.(fat_pointer_to_tip) → BftBlock.wf b →
  validate_closure (tfl_closures call) (w, s) (BftBlock.serialize_bytes b ++ rest)
  = Ret ((w', s), (Pass, ReasonNone)) →
  FatPointerToBftBlock.points_at_block_hash fp
  = id_from_value (BftBlock.serialize_bytes b ++ rest) HashKeys_default →
  BftBlock.height b ≠ Z.of_nat (length s.(bft_blocks)) + 1 ∨ rest ≠ [] →
  placeholder_clash s.(bft_blocks) ∨
  (rest ≠ [] ∧ id_from_value (BftBlock.serialize_bytes b ++ rest) HashKeys_default = hash_of b) ∨
  push_block_closure (tfl_closures call) (w, s) (BftBlock.serialize_bytes b ++ rest) fp sigs = Panic.
Proof.
  intros Hc Hwf Hval Hfp Hbad. cbn in *. unfold BftBlock.from_payload in *.
  rewrite (BftBlock_reads_back b rest Hwf) in Hval |- *. cbn [fmap option_fmap option_map fst unwrap] in *.
  cbn [mbind outcome_bind] in *.
  destruct (handle_new_decided_bft_block call b fp sigs w s) as [[[w1 s1] ros]|] eqn:Eh; [|by do 2 right].
  destruct (handle_inv _ _ _ _ _ _ _ _ _ Hwf Eh) as (w2 & bs & h & hash & st & store & Hpt & _ & Hprev & _ & _ & Hins & _).
  destruct (decide (rest = [])) as [->|Hr].
  - rewrite (ck_tip _ _ Hc) in Hprev.
    destruct (insert_block_inv _ _ _ _ Hc Hwf Hprev Hins) as [|(_ & ? & _)]; [by left|]. naive_solver.
  - right. left. split; [done|]. congruence.
Qed.

(** What the state has to answer for a decided block: it knows the PoW block,
    and finalising it either fails or returns its hash with stakes that fit. *)
Record state_ready (hash : ZebBlockHash) : Prop := {
  sr_known : ∀ w, ∃ h, known call w hash = Some h;
  sr_finalize : ∀ w, (∃ err, (call w (CrosslinkFinalizeBlock hash)).2 = inl err) ∨
  (∃ stakes, (call w (CrosslinkFinalizeBlock hash)).2 = inr (RCrosslinkFinalized hash stakes));
  sr_stakes : stakes_law call }.

Lemma finalize_total hash w s :
  state_ready hash → ∃ w' stakes, finalize_pow call hash w s = Ret (w', s, stakes) ∧
  (stakes = [] ∨ ∃ w2, (call w2 (CrosslinkFinalizeBlock hash)).2
                     = inr (RCrosslinkFinalized hash stakes)).
Proof.
  intros [_ Hf _]. specialize (Hf w). unfold finalize_pow, state, mbind, Svc_bind.
  destruct (call w (CrosslinkFinalizeBlock hash)) as [w' res] eqn:Ec. cbn in Hf |- *.
  destruct Hf as [[err ->]|[stakes ->]]; [by eauto|].
  rewrite bool_decide_true by done. exists w', stakes. split; [done|right]. exists w. by rewrite Ec.
Qed.

Lemma preconditions_total b fp w s hash :
  BftBlock.wf b → BftBlock.previous_block_hash b
  = FatPointerToBftBlock.points_at_block_hash s.(fat_pointer_to_tip) →
  FatPointerToBftBlock.points_at_block_hash fp = hash_of b →
  FatPointerToBftBlock.validate_signatures fp = true → candidate_hash b = Some hash →
  state_ready hash → ∃ w', check_preconditions call b fp w s = Ret (w', s, ()).
Proof.
  intros Hwf Hprev Hfp Hsig Hc [Hk _ _]. destruct (Hk w) as [h Hh]. eexists.
  unfold check_preconditions. rewrite blake3_hash_of by done. erewrite Svc_bind_eq by done.
  rewrite bool_decide_true by done. erewrite Svc_bind_eq by done. rewrite Hsig.
  erewrite Svc_bind_eq by done. erewrite Svc_bind_eq.
  2:{ rewrite validate_bft_block_eq, decide_True, Hc, Hh by done. done. }
  done.
Qed.

(** C9: The block an honest quorum decides is taken over without a panic: when the chain is
    consistent, the block has the next height and names the tip as its parent, the hash of
    the tip is not zero, the fat pointer points at the block with valid signatures, and the
    state knows the PoW block it finalises and answers the finalize request with an error or
    with that hash and stakes whose sum fits 64 bits ([state_ready], [stakes_law]), then the
    chain is extended and the roster of these stakes (of the current validators, when there
    are none) is built without an overflow and returned to the BFT engine.  The roster is
    one the engine's invariant accepts ([roster_ok]) provided that no key accepts the
    all-zero signature ([keys_law], which the state does not enforce). *)
Theorem decided_block_taken_over b fp sigs w s hash :
  chain_ok s.(bft_blocks) s.(fat_pointer_to_tip) → vals_wf s.(validators_at_current_height) →
  BftBlock.wf b → BftBlock.height b = Z.of_nat (length s.(bft_blocks)) + 1 →
  BftBlock.previous_block_hash b
  = FatPointerToBftBlock.points_at_block_hash s.(fat_pointer_to_tip) →
  (s.(bft_blocks) ≠ [] → tip_hash s.(bft_blocks) ≠ zeros 32) →
  FatPointerToBftBlock.points_at_block_hash fp = hash_of b →
  FatPointerToBftBlock.validate_signatures fp = true →
  candidate_hash b = Some hash → state_ready hash →
  ∃ w' s' ros, handle_new_decided_bft_block call b fp sigs w s = Ret (w', s', ros) ∧
  s'.(bft_blocks) = s.(bft_blocks) ++ [b] ∧ s'.(fat_pointer_to_tip) = fp ∧
  (∃ stakes, s'.(validators_at_current_height) = next_validators s stakes ∧
   (stakes = [] ∨ ∃ w2, (call w2 (CrosslinkFinalizeBlock hash)).2 = inr (RCrosslinkFinalized hash stakes))) ∧
  tenderlink_roster_from_internal s'.(validators_at_current_height) = Ret ros ∧ roster_wf ros ∧
  (keys_law call → vals_keys s.(validators_at_current_height) → roster_ok ros).
Proof.
  intros Hc Hv Hwf Hh Hprev Hz Hfp Hsig Hcand Hready.
  destruct (preconditions_total b fp w s hash) as [w1 Hpre]; try done.
  unfold handle_new_decided_bft_block. erewrite Svc_bind_eq by exact Hpre.
  unfold candidate_hash in Hcand. destruct (BftBlock.headers b) as [|hdr hs] eqn:Ehd; [done|].
  cbn in Hcand. injection Hcand as <-. erewrite Svc_bind_eq by done. cbn zeta.
  erewrite Svc_bind_eq by apply block_height_from_hash_eq.
  destruct (sr_known _ Hready w1) as [h Hkn]. rewrite Hkn. erewrite Svc_bind_eq by done.
  erewrite Svc_bind_eq by done. rewrite (insert_block_next _ _ _ Hc Hwf Hh); [|by rewrite Ehd| |done].
  2:{ by rewrite Hprev, (ck_tip _ _ Hc). }
  erewrite Svc_bind_eq by done. erewrite Svc_bind_eq by done.
  edestruct finalize_total as (w2 & stakes & Hf & Hst); [exact Hready|].
  erewrite Svc_bind_eq by exact Hf. erewrite Svc_bind_eq by done. cbn [validators_at_current_height with_tip pos_store].
  pose proof (next_validators_keep call vals_wf s _ _ (sr_stakes _ Hready) Hv Hst) as Hv'.
  assert (keys_law call → vals_keys (validators_at_current_height s) → vals_keys (next_validators s stakes)) as Hk
    by (intros ? ?; by eapply next_validators_keep).
  destruct (vals_wf_roster _ Hv') as (ros & Hros & Hrok & _ & Hnil).
  unfold next_validators in Hros.
  destruct s.(pos_store) as [file|] eqn:Es.
  - erewrite Svc_bind_eq.
    2:{ erewrite Svc_bind_eq; [done|]. unfold lift, store_record. by rewrite BftBlock_serialize_ok. }
    erewrite Svc_bind_eq by done. unfold lift. rewrite Hros.
    do 3 eexists. split; [done|]. cbn. eauto 10.
  - erewrite Svc_bind_eq by done. erewrite Svc_bind_eq by done. unfold lift. rewrite Hros.
    do 3 eexists. split; [done|]. cbn. eauto 10.
Qed.

(** C10: The store file always replays to the chain the service is at: taking over a decided
    block appends one record, and reading the file back at the next start, even with a torn
    record behind the complete ones, recovers exactly the blocks, the tip pointer and the
    roster, and gives the BFT engine one decided round per block, in order; unless a stored
    block has the hash of a placeholder.  The stakes that the state answers with are assumed
    to fit 64 bits ([stakes_law]). *)
Theorem store_replays_chain vals0 b fp sigs w s w' s' ros :
  chain_ok s.(bft_blocks) s.(fat_pointer_to_tip) → vals_wf s.(validators_at_current_height) →
  stakes_law call → store_ok vals0 s → BftBlock.wf b → FatPointerToBftBlock.wf fp →
  Z.of_nat (length sigs) < 2 ^ 64 → Forall (λ sg, length sg = 64%nat) sigs →
  handle_new_decided_bft_block call b fp sigs w s = Ret (w', s', ros) →
  placeholder_clash s.(bft_blocks) ∨
  (store_ok vals0 s' ∧ ∃ file, s'.(pos_store) = Some file ∧
   ∀ torn, read_record torn = None →
   ∃ l, load_store vals0 (file ++ torn) = Ret l ∧ l.(l_rest) = torn ∧
   l.(l_blocks) = s'.(bft_blocks) ∧ l.(l_tip) = s'.(fat_pointer_to_tip) ∧
   l.(l_roster) = s'.(validators_at_current_height) ∧
   map RoundData.proposal l.(l_ingest) = map BftBlock.serialize_bytes s'.(bft_blocks)).
Proof.
  intros Hc Hv Hlaw [(recs & Hrecs & Hfile & Hbs & Htip & Hvals)] Hwf Hfpwf Hn Hsg Hh.
  destruct (handle_extends _ _ _ _ _ _ _ _ _ Hc Hwf Hh) as [|(Hbs' & _ & _)]; [by left|right].
  apply handle_inv in Hh as (w1 & bs & h & hash & st & store & Hpt & _ & Hprev & _ & _ & _ & Hst & Hstore & -> & _);
    [|done].
  pose proof (next_validators_keep call vals_wf s _ _ Hlaw Hv Hst) as Hv'.
  set (r := Build_Rec b fp (next_validators s st) sigs).
  assert (rec_ok r) as Hr by (by split; try apply Hv').
  unfold stored in Hstore. rewrite Hfile in Hstore. destruct Hstore as (rb & Hrb & ->).
  pose proof (store_record_eq r Hr) as Er. cbn in Er. rewrite Er in Hrb. injection Hrb as <-.
  assert (recs_ok vals0 (recs ++ [r])) as Hrecs'.
  { destruct (vals_wf_roster _ Hv) as (ros0 & Hros0 & _). rewrite Hvals in Hros0.
    econstructor; [done|done| |exact Hros0]. by rewrite <- Htip. }
  assert (concat (map rec_bytes recs) ++ rec_bytes r = concat (map rec_bytes (recs ++ [r]))) as Ef.
  { rewrite map_app, concat_app. cbn. by rewrite app_nil_r. }
  assert (bs = map r_block (recs ++ [r])) as Hbs2.
  { cbn in Hbs'. by rewrite Hbs', Hbs, map_app. }
  split.
  { split. exists (recs ++ [r]). cbn. unfold last_fp, last_vals. rewrite last_snoc, Ef. done. }
  eexists. split; [done|]. intros torn Htorn. rewrite Ef.
  destruct (load_store_replays vals0 (recs ++ [r]) torn Htorn Hrecs') as (l & Hl & [Hlb Hlt Hlr Hli Hlrest]).
  exists l. split; [done|]. split; [done|]. cbn. rewrite Hbs2. split; [done|].
  unfold last_fp, last_vals in *. rewrite last_snoc in *. do 2 (split; [done|]).
  rewrite map_map. apply (f_equal (map (λ x, x.1.2))) in Hli. rewrite map_map in Hli. cbn in Hli.
  etrans; [exact Hli|]. generalize (recs ++ [r]). intros rs. clear.
  assert (∀ k, map (λ x, x.1.2) (imap (λ i, rec_view (k + i)) rs) = map (λ x, BftBlock.serialize_bytes (r_block x)) rs) as H.
  { induction rs as [|x rs IH]; intros k; [done|]. cbn. f_equal. rewrite <- (IH (S k)). f_equal.
    apply imap_ext. intros i y _. cbn. by rewrite Nat.add_succ_r. }
  apply (H 0%nat).
Qed.
End finality.

Section composition.
Context {P : Profile} {C : Crypto} {CL : CryptoLaws C}.
Context {W : Type} (call : W → StateRequest → W * (string + StateResponse)).

(** C7: In every state that the BFT engine and the closures of the finality service can reach
    together from start-up with a usable roster, through any packets and updates, the
    decided BFT blocks form a chain whose tip pointer points at the last block (or a stored
    block has the hash of a placeholder), the roster stays usable, and the node's rounds
    satisfy their invariant.  Two properties of the stakes that the PoW state answers a
    finalize request with are assumed: their sum fits 64 bits ([stakes_law], which the
    invariant of the write task gives, see [stakes_make_roster]), and no staked key accepts
    the all-zero signature, the engine's mark for "no signature" ([keys_law], which the
    state does not enforce: see [zero_signature_recounted] for what goes wrong without it). *)
Theorem crosslink_reachable (Hlaw : stakes_law call) (Hkeys : keys_law call) l0 l :
  roster_ok l0.2 → node_init (EC := tfl_client call Hlaw Hkeys) (tfl_closures call) l0 →
  rtc (node_step (tfl_closures call)) l0 l →
  let s := l.1.1.2 in
  (placeholder_clash s.(bft_blocks) ∨ chain_ok s.(bft_blocks) s.(fat_pointer_to_tip)) ∧
  vals_ok s.(validators_at_current_height) ∧ roster_ok l.2 ∧ node_ok l.2 l.1.2.
Proof.
  intros Hros Hinit Hsteps.
  destruct (reachable_inv (EC := tfl_client call Hlaw Hkeys) _ _ _ Hros Hinit Hsteps) as ([? ?] & ? & ?).
  done.
Qed.
End composition.
