(* ===== verification/Amount.v ===== *)
(** * Amount: zatoshi amounts and value pools

    Models [zebra-chain/src/amount.rs] and [zebra-chain/src/value_balance.rs].
    An [Amount<C>] is its [i64]; the constraint [C] is an argument of the
    operations that check it.  An operation that can fail returns
    [Fallible E A]: it may panic, return an error or a value. *)

From stdpp Require Import base list.
From S2P Require Import Prelude.

(** ** Fallible operations *)

Definition Fallible (E A : Type) : Type := outcome (E + A).

#[global] Instance Fallible_ret {E} : MRet (Fallible E) := fun A a => Ret (inr a).
#[global] Instance Fallible_bind {E} : MBind (Fallible E) :=
  fun A B f m => match m with
                 | Ret (inr a) => f a
                 | Ret (inl e) => Ret (inl e)
                 | Panic => Panic
                 end.

(** [?] after [map_err]. *)
Definition map_err {E E' A} (f : E → E') (m : Fallible E A) : Fallible E' A :=
  match m with
  | Ret (inr a) => Ret (inr a)
  | Ret (inl e) => Ret (inl (f e))
  | Panic => Panic
  end.

(** [.unwrap()] and [.expect(..)] of a [Result]. *)
Definition expect {E A} (m : Fallible E A) : outcome A :=
  match m with Ret (inr a) => Ret a | _ => Panic end.

(** [return Err(e)], [opt.ok_or(e)?], [if !b { return Err(e) }]. *)
Definition fail {E A} (e : E) : Fallible E A := Ret (inl e).
Definition ok_or {E A} (o : option A) (e : E) : Fallible E A :=
  match o with Some a => mret a | None => fail e end.
Definition ensure {E} (b : bool) (e : E) : Fallible E () := if b then mret () else fail e.

(** [opt.expect(..)], [assert!(b)] and a call that can only panic. *)
Definition expect_some {E A} (o : option A) : Fallible E A :=
  match o with Some a => mret a | None => Panic end.
Definition must {E} (b : bool) : Fallible E () := if b then mret () else Panic.
Definition run {E A} (m : outcome A) : Fallible E A := match m with Ret a => mret a | Panic => Panic end.

Lemma Fallible_bind_inv {E A B} (m : Fallible E A) (f : A → Fallible E B) b :
  m ≫= f = Ret (inr b) → ∃ a, m = Ret (inr a) ∧ f a = Ret (inr b).
Proof. destruct m as [[e|a]|]; cbn; naive_solver. Qed.

Lemma ensure_inv {E} b (e : E) u : ensure b e = Ret (inr u) → b = true.
Proof. destruct b; [done|intros [=]]. Qed.
Lemma run_inv {E A} (m : outcome A) (a : A) : run (E := E) m = Ret (inr a) → m = Ret a.
Proof. destruct m; cbn; [intros [=]; by subst|done]. Qed.
Lemma map_err_inv {E E' A} (f : E → E') (m : Fallible E A) a : map_err f m = Ret (inr a) → m = Ret (inr a).
Proof. destruct m as [[]|]; cbn; try done. intros [=]; by subst. Qed.
Lemma ok_or_inv {E A} (o : option A) (e : E) a : ok_or o e = Ret (inr a) → o = Some a.
Proof. destruct o; cbn; [intros [=]; by subst|intros [=]]. Qed.
Lemma expect_some_inv {E A} (o : option A) a : expect_some (E := E) o = Ret (inr a) → o = Some a.
Proof. destruct o; cbn; [intros [=]; by subst|done]. Qed.

(** A computation that gives a result, without showing the result. *)
Lemma succeeds {E A} (r : Fallible E A) : match r with Ret (inr _) => true | _ => false end = true → ∃ a, r = Ret (inr a).
Proof. destruct r as [[|a]|]; [done|by exists a|done]. Qed.
Lemma returns {A} (r : outcome A) : match r with Ret _ => true | Panic => false end = true → ∃ a, r = Ret a.
Proof. destruct r as [a|]; [by exists a|done]. Qed.

(** ** [Amount] *)

Definition COIN : Z := 100000000.
Definition MAX_MONEY : Z := 21000000 * COIN.

Inductive Constraint := NegativeAllowed | NonNegative | NegativeOrZero.
#[global] Instance Constraint_eq_dec : EqDecision Constraint.
Proof. solve_decision. Defined.

Definition valid_range (c : Constraint) : Z * Z :=
  match c with
  | NegativeAllowed => (- MAX_MONEY, MAX_MONEY)
  | NonNegative => (0, MAX_MONEY)
  | NegativeOrZero => (- MAX_MONEY, 0)
  end.

Inductive AmountError :=
| ConstraintError (value : Z) (range : Z * Z)
| Convert (value : Z)
| MultiplicationOverflow (amount multiplier overflowing_result : Z)
| DivideByZero (amount : Z)
| SumOverflow (partial_sum : Z) (remaining_items : nat).

Definition is_i64 (z : Z) : bool := (- 2 ^ 63 <=? z) && (z <? 2 ^ 63).

Module Amount.
(** [Constraint::validate], and [TryFrom<i64>]. *)
Definition validate (c : Constraint) (value : Z) : Fallible AmountError Z :=
  let '(lo, hi) := valid_range c in
  if (lo <=? value) && (value <=? hi) then mret value
  else Ret (inl (ConstraintError value (lo, hi))).

(** [TryFrom<u64>] and [TryFrom<i128>]. *)
Definition try_from (c : Constraint) (value : Z) : Fallible AmountError Z :=
  if is_i64 value then validate c value else Ret (inl (Convert value)).

(** [Amount::<NonNegative>::new] *)
Definition new (zatoshis : Z) : outcome Z :=
  if (zatoshis <=? MAX_MONEY) && (0 <=? zatoshis) then Ret zatoshis else Panic.

Definition constrain (c2 : Constraint) (a : Z) : Fallible AmountError Z := validate c2 a.

Definition add (c : Constraint) (a b : Z) : Fallible AmountError Z :=
  if is_i64 (a + b) then validate c (a + b) else Panic.
Definition sub (c : Constraint) (a b : Z) : Fallible AmountError Z :=
  if is_i64 (a - b) then validate c (a - b) else Panic.
Definition checked_sub (a b : Z) : option Z :=
  if is_i64 (a - b) then
    match validate NegativeAllowed (a - b) with Ret (inr v) => Some v | _ => None end
  else None.

Definition mul (c : Constraint) (a rhs : Z) : Fallible AmountError Z :=
  map_err (λ _, MultiplicationOverflow a rhs (a * rhs)) (try_from c (a * rhs)).

(** Integer division truncates towards zero. *)
Definition div (c : Constraint) (a rhs : Z) : Fallible AmountError Z :=
  if rhs =? 0 then Ret (inl (DivideByZero a))
  else match try_from c (Z.quot a rhs) with Ret (inr v) => mret v | _ => Panic end.

(** [Sum]: the fold stops at the first sum out of range, and reports how many
    amounts were left. *)
Fixpoint sum_from (c : Constraint) (acc : Z) (l : list Z) : Fallible AmountError Z :=
  match l with
  | [] => mret acc
  | a :: l =>
      match add c acc a with
      | Ret (inr s) => sum_from c s l
      | Ret (inl (ConstraintError value _)) => Ret (inl (SumOverflow value (length l)))
      | _ => Panic
      end
  end.
Definition sum (c : Constraint) (l : list Z) : Fallible AmountError Z := sum_from c 0 l.

Definition neg (a : Z) : outcome Z := expect (validate NegativeAllowed (- a)).

(** [to_bytes] and [from_bytes]: little endian two's complement. *)
Definition as_i64 (u : Z) : Z := if u <? 2 ^ 63 then u else u - 2 ^ 64.
Definition to_bytes (a : Z) : bytes := to_le 8 (a mod 2 ^ 64).
Definition from_bytes (c : Constraint) (bs : bytes) : Fallible AmountError Z :=
  validate c (as_i64 (from_le bs)).

(** An amount the type [Amount<C>] can hold. *)
Definition ok (c : Constraint) (a : Z) : Prop := (valid_range c).1 ≤ a ≤ (valid_range c).2.
End Amount.

(** ** [ValueBalance] *)

Inductive ValueBalanceError :=
| Transparent (e : AmountError)
| Sprout (e : AmountError)
| Sapling (e : AmountError)
| Orchard (e : AmountError)
| Deferred (e : AmountError)
| StakingBonded (e : AmountError)
| StakingUnbonded (e : AmountError)
| Unparsable.

Module ValueBalance.
Record t := mk {
  transparent : Z;
  sprout : Z;
  sapling : Z;
  orchard : Z;
  deferred : Z;
  staking_bonded : Z;
  staking_unbonded : Z }.
#[global] Instance eq_dec : EqDecision t.
Proof. solve_decision. Defined.

Definition zero : t := mk 0 0 0 0 0 0 0.
Definition from_staking_bonded_amount (a : Z) : t := mk 0 0 0 0 0 a 0.
Definition from_staking_unbonded_amount (a : Z) : t := mk 0 0 0 0 0 0 a.

Definition set_staking_bonded_amount (v : t) (a : Z) : t :=
  mk v.(transparent) v.(sprout) v.(sapling) v.(orchard) v.(deferred) a v.(staking_unbonded).
Definition set_staking_unbonded_amount (v : t) (a : Z) : t :=
  mk v.(transparent) v.(sprout) v.(sapling) v.(orchard) v.(deferred) v.(staking_bonded) a.

(** Every operation on balances works pool by pool, in this order. *)
Definition each (f : Z → Z → Fallible AmountError Z) (a b : t) : Fallible ValueBalanceError t :=
  transparent ← map_err Transparent (f a.(transparent) b.(transparent));
  sprout ← map_err Sprout (f a.(sprout) b.(sprout));
  sapling ← map_err Sapling (f a.(sapling) b.(sapling));
  orchard ← map_err Orchard (f a.(orchard) b.(orchard));
  deferred ← map_err Deferred (f a.(deferred) b.(deferred));
  staking_bonded ← map_err StakingBonded (f a.(staking_bonded) b.(staking_bonded));
  staking_unbonded ← map_err StakingUnbonded (f a.(staking_unbonded) b.(staking_unbonded));
  mret (mk transparent sprout sapling orchard deferred staking_bonded staking_unbonded).

Definition constrain (c2 : Constraint) (v : t) : Fallible ValueBalanceError t :=
  each (λ a _, Amount.constrain c2 a) v zero.
Definition add (c : Constraint) : t → t → Fallible ValueBalanceError t := each (Amount.add c).
Definition sub (c : Constraint) : t → t → Fallible ValueBalanceError t := each (Amount.sub c).

Definition neg (v : t) : outcome t :=
  transparent ← Amount.neg v.(transparent);
  sprout ← Amount.neg v.(sprout);
  sapling ← Amount.neg v.(sapling);
  orchard ← Amount.neg v.(orchard);
  deferred ← Amount.neg v.(deferred);
  staking_bonded ← Amount.neg v.(staking_bonded);
  staking_unbonded ← Amount.neg v.(staking_unbonded);
  Ret (mk transparent sprout sapling orchard deferred staking_bonded staking_unbonded).

(** [Sum] *)
Fixpoint sum_from (c : Constraint) (acc : t) (l : list t) : Fallible ValueBalanceError t :=
  match l with
  | [] => mret acc
  | v :: l => acc ← add c acc v; sum_from c acc l
  end.
Definition sum (c : Constraint) (l : list t) : Fallible ValueBalanceError t := sum_from c zero l.

Definition remaining_transaction_value (v : t) : Fallible AmountError Z :=
  s ← Amount.add NegativeAllowed v.(transparent) v.(sprout);
  s ← Amount.add NegativeAllowed s v.(sapling);
  s ← Amount.add NegativeAllowed s v.(orchard);
  s ← Amount.add NegativeAllowed s v.(staking_bonded);
  s ← Amount.add NegativeAllowed s v.(staking_unbonded);
  Amount.constrain NonNegative s.

Definition add_chain_value_pool_change (pool change : t) : Fallible ValueBalanceError t :=
  match constrain NegativeAllowed pool with
  | Ret (inr p) => p ← add NegativeAllowed p change; constrain NonNegative p
  | _ => Panic
  end.

Definition to_bytes (v : t) : bytes :=
  Amount.to_bytes v.(transparent) ++ Amount.to_bytes v.(sprout) ++ Amount.to_bytes v.(sapling)
    ++ Amount.to_bytes v.(orchard) ++ Amount.to_bytes v.(deferred)
    ++ Amount.to_bytes v.(staking_bonded) ++ Amount.to_bytes v.(staking_unbonded).

(** The amount in bytes [8i .. 8i+8]. *)
Definition amount_at (e : AmountError → ValueBalanceError) (bs : bytes) (i : nat)
    : Fallible ValueBalanceError Z :=
  match slice bs (8 * i) (8 * i + 8) with
  | Ret b => map_err e (Amount.from_bytes NonNegative b)
  | Panic => Panic
  end.

Definition from_bytes (bs : bytes) : Fallible ValueBalanceError t :=
  let n := length bs in
  if decide (n = 32 ∨ n = 40 ∨ n = 56)%nat then
    transparent ← amount_at Transparent bs 0;
    sprout ← amount_at Sprout bs 1;
    sapling ← amount_at Sapling bs 2;
    orchard ← amount_at Orchard bs 3;
    deferred ← (if decide (n = 32)%nat then mret 0 else amount_at Deferred bs 4);
    staking_bonded ← (if decide (n = 56)%nat then amount_at StakingBonded bs 5 else mret 0);
    staking_unbonded ← (if decide (n = 56)%nat then amount_at StakingUnbonded bs 6 else mret 0);
    mret (mk transparent sprout sapling orchard deferred staking_bonded staking_unbonded)
  else Ret (inl Unparsable).

Definition pools (v : t) : list Z :=
  [v.(transparent); v.(sprout); v.(sapling); v.(orchard); v.(deferred);
   v.(staking_bonded); v.(staking_unbonded)].

(** A balance the type [ValueBalance<C>] can hold. *)
Definition ok (c : Constraint) (v : t) : Prop := Forall (Amount.ok c) (pools v).

(** The exact sum and negation, pool by pool. *)
Definition plus (a b : t) : t :=
  mk (a.(transparent) + b.(transparent)) (a.(sprout) + b.(sprout)) (a.(sapling) + b.(sapling))
    (a.(orchard) + b.(orchard)) (a.(deferred) + b.(deferred))
    (a.(staking_bonded) + b.(staking_bonded)) (a.(staking_unbonded) + b.(staking_unbonded)).
Definition opp (a : t) : t :=
  mk (- a.(transparent)) (- a.(sprout)) (- a.(sapling)) (- a.(orchard)) (- a.(deferred))
    (- a.(staking_bonded)) (- a.(staking_unbonded)).
End ValueBalance.

#[global] Instance amount_ok_dec c a : Decision (Amount.ok c a).
Proof. unfold Amount.ok. apply _. Defined.
#[global] Instance balance_ok_dec c v : Decision (ValueBalance.ok c v).
Proof. unfold ValueBalance.ok. apply _. Defined.

(** ** Lemmas *)

#[global] Arguments MAX_MONEY : simpl never.

Lemma MAX_MONEY_i64 : 0 < MAX_MONEY ∧ 4 * MAX_MONEY < 2 ^ 63.
Proof. vm_compute. done. Qed.

Lemma ok_bound c a : Amount.ok c a → - MAX_MONEY ≤ a ≤ MAX_MONEY.
Proof. unfold Amount.ok. pose proof MAX_MONEY_i64. destruct c; cbn; lia. Qed.

Lemma validate_ok c a : Amount.ok c a → Amount.validate c a = Ret (inr a).
Proof.
  unfold Amount.ok, Amount.validate. destruct (valid_range c) as [lo hi]. cbn. intros [? ?].
  by rewrite (proj2 (Z.leb_le lo a)), (proj2 (Z.leb_le a hi)).
Qed.

Lemma validate_cases c a :
  (Amount.ok c a ∧ Amount.validate c a = Ret (inr a)) ∨
  (¬ Amount.ok c a ∧ Amount.validate c a = Ret (inl (ConstraintError a (valid_range c)))).
Proof.
  unfold Amount.ok, Amount.validate. destruct (valid_range c) as [lo hi]. cbn.
  destruct (_ && _) eqn:E; [left|right]; (split; [lia|done]).
Qed.

Lemma is_i64_true a : - 2 * MAX_MONEY ≤ a ≤ 2 * MAX_MONEY → is_i64 a = true.
Proof. intros. pose proof MAX_MONEY_i64. unfold is_i64. lia. Qed.

Lemma add_exact c a b :
  Amount.ok c a → Amount.ok c b → Amount.add c a b = Amount.validate c (a + b).
Proof.
  intros ?%ok_bound ?%ok_bound. unfold Amount.add. by rewrite is_i64_true by lia.
Qed.

Lemma sub_exact c a b :
  Amount.ok c a → Amount.ok c b → Amount.sub c a b = Amount.validate c (a - b).
Proof.
  intros ?%ok_bound ?%ok_bound. unfold Amount.sub. by rewrite is_i64_true by lia.
Qed.

Lemma neg_exact c a : Amount.ok c a → Amount.neg a = Ret (- a).
Proof.
  intros ?%ok_bound. unfold Amount.neg. rewrite validate_ok; [done|].
  unfold Amount.ok. cbn. lia.
Qed.

Lemma ok_negative_allowed c a : Amount.ok c a → Amount.ok NegativeAllowed a.
Proof. intros ?%ok_bound. unfold Amount.ok. cbn. lia. Qed.

(** A pool-by-pool operation succeeds exactly when every pool does. *)
Lemma each_inr (f : Z → Z → Fallible AmountError Z) a b v :
  ValueBalance.each f a b = Ret (inr v) ↔
  Forall (λ '(x, y, z), f x y = Ret (inr z))
    (zip (zip (ValueBalance.pools a) (ValueBalance.pools b)) (ValueBalance.pools v)).
Proof.
  destruct a as [a1 a2 a3 a4 a5 a6 a7], b as [b1 b2 b3 b4 b5 b6 b7], v as [v1 v2 v3 v4 v5 v6 v7].
  cbn. rewrite !Forall_cons, Forall_nil. unfold ValueBalance.each. cbn. split.
  - intros H.
    repeat match type of H with context [map_err _ (f ?x ?y)] =>
      destruct (f x y) as [[]|]; cbn in H; try done end.
    injection H. intros; subst. done.
  - intros (-> & -> & -> & -> & -> & -> & -> & _). done.
Qed.

Lemma each_total (f : Z → Z → Fallible AmountError Z) a b :
  Forall (λ '(x, y), f x y ≠ Panic) (zip (ValueBalance.pools a) (ValueBalance.pools b)) →
  ValueBalance.each f a b ≠ Panic.
Proof.
  destruct a as [a1 a2 a3 a4 a5 a6 a7], b as [b1 b2 b3 b4 b5 b6 b7]. cbn.
  rewrite !Forall_cons, Forall_nil. intros (? & ? & ? & ? & ? & ? & ? & _).
  unfold ValueBalance.each. cbn.
  repeat match goal with |- context [map_err _ (f ?x ?y)] =>
    destruct (f x y) as [[]|]; cbn; try done end.
Qed.

Lemma constrain_exact c v :
  ValueBalance.ok c v → ValueBalance.constrain c v = Ret (inr v).
Proof.
  intros Hok. apply each_inr. destruct v. unfold ValueBalance.ok, ValueBalance.pools in Hok. cbn in *.
  rewrite !Forall_cons, Forall_nil in Hok. rewrite !Forall_cons, Forall_nil. unfold Amount.constrain.
  naive_solver auto using validate_ok.
Qed.

Lemma constrain_inv c v v' : ValueBalance.constrain c v = Ret (inr v') → v' = v ∧ ValueBalance.ok c v.
Proof.
  intros H%each_inr. destruct v, v'. cbn in H.
  unfold Amount.constrain, ValueBalance.ok, ValueBalance.pools in *.
  rewrite !Forall_cons, Forall_nil in H.
  destruct H as (H1 & H2 & H3 & H4 & H5 & H6 & H7 & _).
  repeat match goal with H : Amount.validate c ?a = _ |- _ =>
    destruct (validate_cases c a) as [[? E]|[? E]]; rewrite E in H; [injection H as ->|done]; clear E end.
  cbn. by rewrite !Forall_cons, Forall_nil.
Qed.

Lemma constrain_total c v : ValueBalance.constrain c v ≠ Panic.
Proof.
  apply each_total. apply Forall_forall. intros [x y] _. unfold Amount.constrain.
  by destruct (validate_cases c x) as [[_ ->]|[_ ->]].
Qed.

Lemma ok_weaken c v : ValueBalance.ok c v → ValueBalance.ok NegativeAllowed v.
Proof. intros H. eapply Forall_impl; [exact H|]. apply ok_negative_allowed. Qed.

(** The pools of a sum, one by one. *)
Lemma ok_plus c a b :
  ValueBalance.ok c (ValueBalance.plus a b) ↔
  Forall (λ '(x, y), Amount.ok c (x + y)) (zip (ValueBalance.pools a) (ValueBalance.pools b)).
Proof. unfold ValueBalance.ok, ValueBalance.pools. cbn. by rewrite !Forall_cons, !Forall_nil. Qed.

Lemma vb_add_inr a b v :
  ValueBalance.ok NegativeAllowed a → ValueBalance.ok NegativeAllowed b →
  ValueBalance.add NegativeAllowed a b = Ret (inr v) ↔
  v = ValueBalance.plus a b ∧ ValueBalance.ok NegativeAllowed (ValueBalance.plus a b).
Proof.
  intros Ha Hb. unfold ValueBalance.add. rewrite each_inr, ok_plus.
  unfold ValueBalance.ok, ValueBalance.pools in Ha, Hb. destruct a, b, v. cbn in *.
  rewrite !Forall_cons, Forall_nil in *. unfold ValueBalance.plus. cbn.
  assert (∀ x y z, Amount.ok NegativeAllowed x → Amount.ok NegativeAllowed y →
    Amount.add NegativeAllowed x y = Ret (inr z) ↔ z = x + y ∧ Amount.ok NegativeAllowed (x + y)) as H.
  { intros x y z Hx Hy. rewrite add_exact by done.
    destruct (validate_cases NegativeAllowed (x + y)) as [[? ->]|[? ->]]; [|naive_solver].
    split; [intros [= <-]; auto|by intros [-> _]]. }
  destruct Ha as (? & ? & ? & ? & ? & ? & ? & _), Hb as (? & ? & ? & ? & ? & ? & ? & _).
  rewrite !H by done. split.
  - intros ([-> ?] & [-> ?] & [-> ?] & [-> ?] & [-> ?] & [-> ?] & [-> ?] & _). repeat first [done|by apply Forall_nil_2|split].
  - intros [E (? & ? & ? & ? & ? & ? & ? & _)]. injection E as -> -> -> -> -> -> ->. repeat first [done|by apply Forall_nil_2|split].
Qed.

Lemma vb_add_total a b :
  ValueBalance.ok NegativeAllowed a → ValueBalance.ok NegativeAllowed b →
  ValueBalance.add NegativeAllowed a b ≠ Panic.
Proof.
  intros Ha Hb. apply each_total, Forall_forall. intros [x y] Hxy.
  apply elem_of_zip_l in Hxy as Hx. apply elem_of_zip_r in Hxy as Hy.
  unfold ValueBalance.ok in *. rewrite Forall_forall in Ha, Hb.
  rewrite add_exact by auto. by destruct (validate_cases NegativeAllowed (x + y)) as [[_ ->]|[_ ->]].
Qed.

Lemma vb_neg_exact c v : ValueBalance.ok c v → ValueBalance.neg v = Ret (ValueBalance.opp v).
Proof.
  unfold ValueBalance.ok, ValueBalance.pools. rewrite !Forall_cons.
  intros (? & ? & ? & ? & ? & ? & ? & _). unfold ValueBalance.neg.
  by rewrite !(neg_exact c) by done.
Qed.

Lemma ok_opp v : ValueBalance.ok NegativeAllowed v → ValueBalance.ok NegativeAllowed (ValueBalance.opp v).
Proof.
  unfold ValueBalance.ok, ValueBalance.pools. cbn. rewrite !Forall_cons, !Forall_nil.
  unfold Amount.ok. cbn. lia.
Qed.

Lemma plus_opp a b : ValueBalance.plus (ValueBalance.plus a b) (ValueBalance.opp b) = a.
Proof. destruct a, b. unfold ValueBalance.plus, ValueBalance.opp. cbn. f_equal; lia. Qed.

(** Adding a change to the chain value pools: exact, or an error. *)
Lemma pool_change_inr pool change v :
  ValueBalance.ok NonNegative pool → ValueBalance.ok NegativeAllowed change →
  ValueBalance.add_chain_value_pool_change pool change = Ret (inr v) ↔
  v = ValueBalance.plus pool change ∧ ValueBalance.ok NonNegative (ValueBalance.plus pool change).
Proof.
  intros Hp Hc. unfold ValueBalance.add_chain_value_pool_change.
  pose proof (ok_weaken _ _ Hp) as Hp'. rewrite constrain_exact by done. split.
  - intros (w & Hw & Hv)%Fallible_bind_inv. apply vb_add_inr in Hw as [-> _]; [|done|done].
    by apply constrain_inv in Hv.
  - intros [-> Hok]. rewrite (proj2 (vb_add_inr pool change (ValueBalance.plus pool change) Hp' Hc)); [|split; [done|by eapply ok_weaken]].
    cbn. by apply constrain_exact.
Qed.

Lemma pool_change_total pool change :
  ValueBalance.ok NonNegative pool → ValueBalance.ok NegativeAllowed change →
  ValueBalance.add_chain_value_pool_change pool change ≠ Panic.
Proof.
  intros Hp Hc. unfold ValueBalance.add_chain_value_pool_change.
  pose proof (ok_weaken _ _ Hp) as Hp'. rewrite constrain_exact by done.
  destruct (ValueBalance.add NegativeAllowed pool change) as [[e|w]|] eqn:E; cbn; [done| |].
  - apply constrain_total.
  - by apply vb_add_total in E.
Qed.

(** Applying the value change of a block to the chain value pools never
    panics; it succeeds exactly when every pool stays between zero and
    [MAX_MONEY], with the exact sums, and then applying the negated change, as
    reverting the block does, gives back the pools there were before. *)
Theorem value_pool_change_reverts pool change :
  ValueBalance.ok NonNegative pool → ValueBalance.ok NegativeAllowed change →
  if decide (ValueBalance.ok NonNegative (ValueBalance.plus pool change)) then
    ∃ n, ValueBalance.add_chain_value_pool_change pool change
           = Ret (inr (ValueBalance.plus pool change)) ∧
      ValueBalance.neg change = Ret n ∧
      ValueBalance.add_chain_value_pool_change (ValueBalance.plus pool change) n = Ret (inr pool)
  else ∃ e, ValueBalance.add_chain_value_pool_change pool change = Ret (inl e).
Proof.
  intros Hp Hc. case_decide as Hok.
  - exists (ValueBalance.opp change). split; [by apply pool_change_inr|].
    split; [by eapply vb_neg_exact|]. apply pool_change_inr; [done|by apply ok_opp|].
    by rewrite plus_opp.
  - destruct (ValueBalance.add_chain_value_pool_change pool change) as [[e|v]|] eqn:E; [by exists e| |].
    + apply pool_change_inr in E as [_ ?]; done.
    + by apply pool_change_total in E.
Qed.
