(* ===== verification/Staking.v ===== *)
(** * Staking: staking actions

    Models [StakingActionKind] and [StakingAction] of
    [zcash_primitives/src/transaction/mod.rs] with their encoding, the value a
    staking action moves ([staking_action_value_balance] of
    [zebra-chain/src/transaction.rs]) and when it may be included
    ([check_staking_day_window] and [check_staking_action_delay] of
    [zebra-consensus/src/transaction.rs]). *)

From stdpp Require Import base list strings.
From S2P Require Import Prelude Wire Encoding Amount.

Inductive StakingActionKind :=
| Null
| CreateNewDelegationBond
| BeginDelegationUnbonding
| WithdrawDelegationBond
| RetargetDelegationBond
| RegisterFinalizer
| ConvertFinalizerRewardToDelegationBond
| UpdateFinalizerKey.
#[global] Instance StakingActionKind_eq_dec : EqDecision StakingActionKind.
Proof. solve_decision. Defined.

(** [From<StakingActionKind> for u8] and [TryFrom<u8>]. *)
Definition kind_to_u8 (k : StakingActionKind) : Z :=
  match k with
  | Null => 0
  | CreateNewDelegationBond => 1
  | BeginDelegationUnbonding => 2
  | WithdrawDelegationBond => 3
  | RetargetDelegationBond => 4
  | RegisterFinalizer => 5
  | ConvertFinalizerRewardToDelegationBond => 6
  | UpdateFinalizerKey => 7
  end.
Definition kind_from_u8 (v : Z) : option StakingActionKind :=
  if v =? 0 then Some Null
  else if v =? 1 then Some CreateNewDelegationBond
  else if v =? 2 then Some BeginDelegationUnbonding
  else if v =? 3 then Some WithdrawDelegationBond
  else if v =? 4 then Some RetargetDelegationBond
  else if v =? 5 then Some RegisterFinalizer
  else if v =? 6 then Some ConvertFinalizerRewardToDelegationBond
  else if v =? 7 then Some UpdateFinalizerKey
  else None.

Module StakingAction.
Record t := mk {
  kind : StakingActionKind;
  amount_zats : Z;
  arg32_0 : bytes;
  arg32_1 : bytes;
  arg32_2 : bytes;
  arg32_3 : bytes;
  arg64_0 : bytes;
  arg64_1 : bytes }.
#[global] Instance eq_dec : EqDecision t.
Proof. solve_decision. Defined.

Definition read : Reader (option t) :=
  tag ← read_uint 1;
  if tag =? 0 then mret None else
  match kind_from_u8 tag with
  | None | Some Null => read_fail
  | Some kind =>
      arg32_0 ← read_bytes 32; (* unique pubkey *)
        arg32_1 ← read_bytes 32; (* challenge *)
        arg64_0 ← read_bytes 64; (* signature *)
        match kind with
      | Null => read_fail
      | CreateNewDelegationBond =>
          arg32_2 ← read_bytes 32; (* target finalizer *)
            amount_zats ← read_uint 8;
          mret (Some (mk kind amount_zats arg32_0 arg32_1 arg32_2 (zeros 32) arg64_0 (zeros 64)))
      | BeginDelegationUnbonding | RegisterFinalizer =>
          mret (Some (mk kind 0 arg32_0 arg32_1 (zeros 32) (zeros 32) arg64_0 (zeros 64)))
      | WithdrawDelegationBond =>
          amount_zats ← read_uint 8;
          mret (Some (mk kind amount_zats arg32_0 arg32_1 (zeros 32) (zeros 32) arg64_0 (zeros 64)))
      | RetargetDelegationBond =>
          arg32_2 ← read_bytes 32; (* target finalizer *)
            mret (Some (mk kind 0 arg32_0 arg32_1 arg32_2 (zeros 32) arg64_0 (zeros 64)))
      | ConvertFinalizerRewardToDelegationBond =>
          arg32_2 ← read_bytes 32; (* this finalizer *)
            amount_zats ← read_uint 8;
          arg32_3 ← read_bytes 32; (* second challenge *)
            arg64_1 ← read_bytes 64; (* finalizer signature *)
            mret (Some (mk kind amount_zats arg32_0 arg32_1 arg32_2 arg32_3 arg64_0 arg64_1))
      | UpdateFinalizerKey =>
          arg32_2 ← read_bytes 32; (* this finalizer *)
            arg32_3 ← read_bytes 32; (* second challenge *)
            arg64_1 ← read_bytes 64; (* finalizer signature *)
            mret (Some (mk kind 0 arg32_0 arg32_1 arg32_2 arg32_3 arg64_0 arg64_1))
      end
  end.

(** What each kind writes after the tag, the key, the challenge and the
    signature; [None] for a kind that cannot be written. *)
Definition write_tail (a : t) : option bytes :=
  match a.(kind) with
  | Null => None
  | CreateNewDelegationBond => Some (a.(arg32_2) ++ to_le 8 a.(amount_zats))
  | BeginDelegationUnbonding | RegisterFinalizer => Some []
  | WithdrawDelegationBond => Some (to_le 8 a.(amount_zats))
  | RetargetDelegationBond => Some a.(arg32_2)
  | ConvertFinalizerRewardToDelegationBond =>
      Some (a.(arg32_2) ++ to_le 8 a.(amount_zats) ++ a.(arg32_3) ++ a.(arg64_1))
  | UpdateFinalizerKey => Some (a.(arg32_2) ++ a.(arg32_3) ++ a.(arg64_1))
  end.

(** [hash_to_state] writes the same bytes to the transaction digest. *)
Definition hash_to_state (a : t) : option bytes :=
  tail ← write_tail a;
  Some (to_le 1 (kind_to_u8 a.(kind)) ++ a.(arg32_0) ++ a.(arg32_1) ++ a.(arg64_0) ++ tail).

Definition write (a : option t) : option bytes :=
  match a with
  | None => Some (to_le 1 0)
  | Some a => hash_to_state a
  end.

(** An action whose unused arguments are zero, as [Default] leaves them. *)
Definition wf (a : t) : Prop :=
  length a.(arg32_0) = 32%nat ∧ length a.(arg32_1) = 32%nat ∧ length a.(arg64_0) = 64%nat ∧
    match a.(kind) with
  | Null => False
  | CreateNewDelegationBond =>
      length a.(arg32_2) = 32%nat ∧ is_u 64 a.(amount_zats) ∧
        a.(arg32_3) = zeros 32 ∧ a.(arg64_1) = zeros 64
  | BeginDelegationUnbonding | RegisterFinalizer =>
      a.(amount_zats) = 0 ∧ a.(arg32_2) = zeros 32 ∧ a.(arg32_3) = zeros 32 ∧
        a.(arg64_1) = zeros 64
  | WithdrawDelegationBond =>
      is_u 64 a.(amount_zats) ∧ a.(arg32_2) = zeros 32 ∧ a.(arg32_3) = zeros 32 ∧
        a.(arg64_1) = zeros 64
  | RetargetDelegationBond =>
      length a.(arg32_2) = 32%nat ∧ a.(amount_zats) = 0 ∧ a.(arg32_3) = zeros 32 ∧
        a.(arg64_1) = zeros 64
  | ConvertFinalizerRewardToDelegationBond =>
      length a.(arg32_2) = 32%nat ∧ is_u 64 a.(amount_zats) ∧ length a.(arg32_3) = 32%nat ∧
        length a.(arg64_1) = 64%nat
  | UpdateFinalizerKey =>
      length a.(arg32_2) = 32%nat ∧ a.(amount_zats) = 0 ∧ length a.(arg32_3) = 32%nat ∧
        length a.(arg64_1) = 64%nat
  end.
End StakingAction.
Import StakingAction.

(** ** The value a staking action moves *)

(** [amount_zats as i64] *)
Definition u64_as_i64 (u : Z) : Z := Amount.as_i64 u.

(** [staking_action_value_balance]: positive values are added to the
    transaction, negative ones taken from it. *)
Definition staking_action_value_balance (a : option StakingAction.t) : outcome ValueBalance.t :=
  match a with
  | None => Ret ValueBalance.zero
  | Some a =>
      match a.(kind) with
      | CreateNewDelegationBond =>
          v ← Amount.new (u64_as_i64 a.(amount_zats));
          n ← Amount.neg v;
          Ret (ValueBalance.from_staking_bonded_amount n)
      | WithdrawDelegationBond =>
          v ← Amount.new (u64_as_i64 a.(amount_zats));
          n ← expect (Amount.constrain NegativeAllowed v);
          Ret (ValueBalance.from_staking_unbonded_amount n)
      | _ => Ret ValueBalance.zero
      end
  end.

(** ** When a staking action may be included *)

Definition STAKING_ACTION_DELAY_BLOCKS : Z := 75.
Definition STAKING_DAY_PERIOD : Z := 150.
Definition STAKING_DAY_WINDOW : Z := 70.

Inductive StakingError :=
| StakingActionOutsideWindow (block_height period window : Z)
| ValidateMempoolLockTimeError (query_error : string)
| StakingActionBondNotFound (bond_key : bytes)
| StakingActionDelayNotMet (bond_key : bytes) (last_action_height current_height required : Z).

Definition check_staking_day_window (a : option StakingAction.t) (height : Z) : StakingError + () :=
  match a with
  | None => inr ()
  | Some a =>
      if decide (a.(kind) = RetargetDelegationBond) then inr ()
      else if STAKING_DAY_WINDOW <=? height mod STAKING_DAY_PERIOD
           then inl (StakingActionOutsideWindow height STAKING_DAY_PERIOD STAKING_DAY_WINDOW)
           else inr ()
  end.

(** [bond_info] asks the state for the height of the last action on a bond. *)
Definition check_staking_action_delay `{Profile} (bond_info : bytes → string + option Z)
    (a : option StakingAction.t) (height : Z) : outcome (StakingError + ()) :=
  match a with
  | None => Ret (inr ())
  | Some a =>
      if decide (a.(kind) = BeginDelegationUnbonding ∨ a.(kind) = WithdrawDelegationBond) then
        match bond_info a.(arg32_0) with
        | inl e => Ret (inl (ValidateMempoolLockTimeError e))
        | inr None => Ret (inl (StakingActionBondNotFound a.(arg32_0)))
        | inr (Some last_action_height) =>
            earliest ← arith 32 (last_action_height + STAKING_ACTION_DELAY_BLOCKS);
            Ret (if height <? earliest
                 then inl (StakingActionDelayNotMet a.(arg32_0) last_action_height height
                             STAKING_ACTION_DELAY_BLOCKS)
                 else inr ())
        end
      else Ret (inr ())
  end.

(** ** Proofs *)

Lemma kind_roundtrip k : kind_from_u8 (kind_to_u8 k) = Some k.
Proof. by destruct k. Qed.

(** A staking action is read back from its encoding, whatever follows it in
    the transaction, and the absent action from its single zero byte. *)
Theorem staking_action_roundtrip a rest :
  match a with Some a => StakingAction.wf a | None => True end →
  ∃ bs, StakingAction.write a = Some bs ∧ StakingAction.read (bs ++ rest) = Some (a, rest).
Proof.
  destruct a as [[k z a0 a1 a2 a3 s0 s1]|]; [|intros _; by eexists].
  intros (H0 & H1 & Hs & Hk). cbn in H0, H1, Hs, Hk.
  destruct k; [done|..];
    eexists; (split; [reflexivity|]); unfold StakingAction.read;
    cbn [StakingAction.kind StakingAction.arg32_0 StakingAction.arg32_1 StakingAction.arg64_0];
    rewrite <- !app_assoc;
    (erewrite Reader_bind_eq; [|apply read_uint_app; unfold is_u; cbn; lia]); cbn -[read_bytes read_uint to_le zeros];
    cbn in Hk; destruct Hk as (? & ? & ? & ?); subst; read_back; done.
Qed.

(** The value a staking action moves, for every [u64] amount it can carry:
    creating a bond moves its amount into the bonded pool and withdrawing one
    takes it out of the unbonded pool, but an amount above [MAX_MONEY], which
    decodes from the wire like any other, aborts the process. *)
Theorem staking_value_balance_cases a :
  is_u 64 a.(amount_zats) →
  staking_action_value_balance (Some a) =
  match a.(kind) with
  | CreateNewDelegationBond =>
      if a.(amount_zats) <=? MAX_MONEY
      then Ret (ValueBalance.from_staking_bonded_amount (- a.(amount_zats))) else Panic
  | WithdrawDelegationBond =>
      if a.(amount_zats) <=? MAX_MONEY
      then Ret (ValueBalance.from_staking_unbonded_amount a.(amount_zats)) else Panic
  | _ => Ret ValueBalance.zero
  end.
Proof.
  intros Hz. unfold staking_action_value_balance, u64_as_i64, Amount.as_i64, Amount.new.
  pose proof MAX_MONEY_i64. unfold is_u in Hz.
  assert (∀ {A} (f : Z → outcome A),
    ((if ((if amount_zats a <? 2 ^ 63 then amount_zats a else amount_zats a - 2 ^ 64) <=? MAX_MONEY)
         && (0 <=? (if amount_zats a <? 2 ^ 63 then amount_zats a else amount_zats a - 2 ^ 64))
      then Ret (if amount_zats a <? 2 ^ 63 then amount_zats a else amount_zats a - 2 ^ 64)
      else Panic) ≫= f)
    = if amount_zats a <=? MAX_MONEY then f (amount_zats a) else Panic) as Hnew.
  { intros A f. destruct (Z.ltb_spec (amount_zats a) (2 ^ 63)).
    - destruct (Z.leb_spec (amount_zats a) MAX_MONEY); [|done].
      by rewrite (proj2 (Z.leb_le 0 _)) by lia.
    - rewrite (proj2 (Z.leb_gt (amount_zats a) MAX_MONEY)) by lia.
      by rewrite (proj2 (Z.leb_gt 0 (amount_zats a - 2 ^ 64))), andb_false_r by lia. }
  destruct (kind a); try done; rewrite Hnew; destruct (Z.leb_spec (amount_zats a) MAX_MONEY); try done.
  - rewrite (neg_exact NonNegative) by (unfold Amount.ok; cbn; lia). done.
  - unfold Amount.constrain. rewrite validate_ok by (unfold Amount.ok; cbn; lia). done.
Qed.
