(* ===== verification/Transparent.v ===== *)
(** * Transparent: addresses, inputs, outputs and unspent outputs

    Models [zebra-chain/src/transparent.rs] and [transparent/address.rs],
    [transparent/utxo.rs].  A script is its bytes; unlock scripts and the free
    data of a coinbase input are left out, since no modelled code reads them. *)

From stdpp Require Import base list gmap.
From S2P Require Import Prelude.

(** ** Addresses *)

Inductive NetworkKind := KMainnet | KTestnet | KRegtest.
#[global] Instance NetworkKind_eq_dec : EqDecision NetworkKind.
Proof. solve_decision. Defined.

Inductive Address :=
| PayToScriptHash (network_kind : NetworkKind) (script_hash : bytes)
| PayToPublicKeyHash (network_kind : NetworkKind) (pub_key_hash : bytes)
| Tex (network_kind : NetworkKind) (validating_key_hash : bytes).
#[global] Instance Address_eq_dec : EqDecision Address.
Proof. solve_decision. Defined.

Definition is_script_hash (a : Address) : bool :=
  match a with PayToScriptHash _ _ => true | _ => false end.
Definition hash_bytes (a : Address) : bytes :=
  match a with PayToScriptHash _ h | PayToPublicKeyHash _ h | Tex _ h => h end.

(** [Address::script]; the opcodes are those of [opcodes.rs]. *)
Definition script (a : Address) : bytes :=
  match a with
  | PayToScriptHash _ _ => [Byte.xa9; Byte.x14] ++ hash_bytes a ++ [Byte.x87]
  | PayToPublicKeyHash _ _ => [Byte.x76; Byte.xa9; Byte.x14] ++ hash_bytes a ++ [Byte.x88; Byte.xac]
  | Tex _ _ => []
  end.

(** ** Inputs and outputs *)

(** [OutPoint]: the hash of a transaction and the index of an output. *)
Definition OutPoint : Type := bytes * Z.

Inductive Input :=
| PrevOut (outpoint : OutPoint) (sequence : Z)
| Coinbase (height : Z) (sequence : Z).

Definition sequence_of (i : Input) : Z := match i with PrevOut _ s | Coinbase _ s => s end.
Definition outpoint_of (i : Input) : option OutPoint :=
  match i with PrevOut o _ => Some o | Coinbase _ _ => None end.

Record Output := {
  value : Z;
  lock_script : bytes }.
#[global] Instance Output_eq_dec : EqDecision Output.
Proof. solve_decision. Defined.

(** [Output::new_coinbase] *)
Definition new_coinbase (amount : Z) (lock_script : bytes) : Output :=
  {| value := amount; lock_script := lock_script |}.

(** ** Unspent outputs *)

Record Utxo := {
  utxo_output : Output;
  utxo_height : Z;
  from_coinbase : bool }.

Record OrderedUtxo := {
  utxo : Utxo;
  tx_index_in_block : nat }.

(** [OrderedUtxo::new]: the coinbase transaction is the first of its block. *)
Definition ordered_utxo (o : Output) (height : Z) (tx_index_in_block : nat) : OrderedUtxo :=
  {| utxo := {| utxo_output := o; utxo_height := height; from_coinbase := bool_decide (tx_index_in_block = 0%nat) |};
     tx_index_in_block := tx_index_in_block |}.

Inductive CoinbaseSpendRestriction :=
| DisallowCoinbaseSpend
| CheckCoinbaseMaturity (spend_height : Z).

(** [utxos_from_ordered_utxos], [outputs_from_utxos] *)
Definition utxos_from_ordered_utxos (m : gmap OutPoint OrderedUtxo) : gmap OutPoint Utxo := utxo <$> m.
Definition outputs_from_utxos (m : gmap OutPoint Utxo) : gmap OutPoint Output := utxo_output <$> m.
