(* ===== verification/Network.v ===== *)
(** * Network: the parameters of a network

    Models [zebra-chain/src/parameters/network_upgrade.rs] and [network.rs], the
    [Parameters] of [network/testnet.rs], and the types and constants of
    [network/subsidy.rs]: the upgrades and their activation heights, target
    spacings, halving intervals and funding streams. *)

From stdpp Require Import base list gmap strings.
From S2P Require Import Prelude Transparent.

(** ** Network upgrades *)

Inductive NetworkUpgrade :=
| Genesis | BeforeOverwinter | Overwinter | Sapling | Blossom | Heartwood | Canopy | Nu5 | Nu6 | Nu6_1 | Nu7.
#[global] Instance NetworkUpgrade_eq_dec : EqDecision NetworkUpgrade.
Proof. solve_decision. Defined.

(** The derived order is the order of the constructors. *)
Definition upgrade_index (nu : NetworkUpgrade) : Z :=
  match nu with
  | Genesis => 0 | BeforeOverwinter => 1 | Overwinter => 2 | Sapling => 3 | Blossom => 4 | Heartwood => 5
  | Canopy => 6 | Nu5 => 7 | Nu6 => 8 | Nu6_1 => 9 | Nu7 => 10
  end.
Definition upgrade_lt (a b : NetworkUpgrade) : bool := upgrade_index a <? upgrade_index b.

(** [Nu7] is in the list of a test build only. *)
Definition NETWORK_UPGRADES_IN_ORDER : list NetworkUpgrade :=
  [Genesis; BeforeOverwinter; Overwinter; Sapling; Blossom; Heartwood; Canopy; Nu5; Nu6; Nu6_1].

Definition MAINNET_ACTIVATION_HEIGHTS : list (Z * NetworkUpgrade) :=
  [(0, Genesis); (1, BeforeOverwinter); (347500, Overwinter); (419200, Sapling); (653600, Blossom);
   (903000, Heartwood); (1046400, Canopy); (1687104, Nu5); (2726400, Nu6)].
Definition TESTNET_ACTIVATION_HEIGHTS : list (Z * NetworkUpgrade) := [(0, Genesis); (1, Nu6)].
Definition NU6_1_ACTIVATION_HEIGHT_TESTNET : Z := 3536500.

(** ** Funding streams *)

Inductive FundingStreamReceiver := Ecc | ZcashFoundation | MajorGrants | Deferred.
#[global] Instance FundingStreamReceiver_eq_dec : EqDecision FundingStreamReceiver.
Proof. solve_decision. Defined.
Definition receiver_index (r : FundingStreamReceiver) : nat :=
  match r with Ecc => 0 | ZcashFoundation => 1 | MajorGrants => 2 | Deferred => 3 end.
#[global] Instance FundingStreamReceiver_countable : Countable FundingStreamReceiver.
Proof.
  refine (inj_countable receiver_index (λ n, [Ecc; ZcashFoundation; MajorGrants; Deferred] !! n) _).
  by intros [].
Defined.

Record FundingStreamRecipient := {
  numerator : Z;
  addresses : list Address }.
#[global] Instance FundingStreamRecipient_eq_dec : EqDecision FundingStreamRecipient.
Proof. solve_decision. Defined.
Record FundingStreams := {
  height_range : Z * Z;
  recipients : gmap FundingStreamReceiver FundingStreamRecipient }.
#[global] Instance FundingStreams_eq_dec : EqDecision FundingStreams.
Proof. solve_decision. Defined.

(** ** Networks *)

(** The parameters of a test network.  A magic number is its bytes; the genesis
    hash is the number its digits spell; the addresses of lockbox disbursements are
    decoded. *)
Module Parameters.
Record t := mk {
  network_name : string;
  network_magic : list Z;
  genesis_hash : Z;
  activation_heights : list (Z * NetworkUpgrade);
  slow_start_interval : Z;
  slow_start_shift : Z;
  funding_streams : list FundingStreams;
  target_difficulty_limit : Z;
  disable_pow : bool;
  should_allow_unshielded_coinbase_spends : bool;
  pre_blossom_halving_interval : Z;
  post_blossom_halving_interval : Z;
  lockbox_disbursements : list (Address * Z) }.
#[global] Instance eq_dec : EqDecision t.
Proof. solve_decision. Defined.
End Parameters.

Inductive Network := Mainnet | Testnet (params : Parameters.t).

(** In the order of the heights. *)
Definition activation_list (n : Network) : list (Z * NetworkUpgrade) :=
  match n with Mainnet => MAINNET_ACTIVATION_HEIGHTS | Testnet params => params.(Parameters.activation_heights) end.

(** [NetworkUpgrade::current] *)
Definition current (n : Network) (height : Z) : outcome NetworkUpgrade :=
  unwrap (snd <$> last (filter (λ x, x.1 ≤ height) (activation_list n))).

(** [NetworkUpgrade::activation_height]: of the upgrade, or of the next one that
    has a height. *)
Fixpoint first_activation (n : Network) (upgrades : list NetworkUpgrade) : option Z :=
  match upgrades with
  | [] => None
  | nu :: upgrades =>
      match find (λ x, bool_decide (x.2 = nu)) (activation_list n) with
      | Some x => Some x.1
      | None => first_activation n upgrades
      end
  end.
Fixpoint skip_while {A} (p : A → bool) (l : list A) : list A :=
  match l with [] => [] | x :: l' => if p x then skip_while p l' else l end.
Definition activation_height (nu : NetworkUpgrade) (n : Network) : option Z :=
  first_activation n (skip_while (λ x, bool_decide (x ≠ nu)) NETWORK_UPGRADES_IN_ORDER).

Definition PRE_BLOSSOM_POW_TARGET_SPACING : Z := 150.
Definition POST_BLOSSOM_POW_TARGET_SPACING : Z := 25.
Definition POW_AVERAGING_WINDOW : nat := 17.
Definition TESTNET_MINIMUM_DIFFICULTY_GAP_MULTIPLIER : Z := 6.
Definition TESTNET_MINIMUM_DIFFICULTY_START_HEIGHT : Z := 299188.
Definition TESTNET_MAX_TIME_START_HEIGHT : Z := 653606.

Definition spacing_seconds (nu : NetworkUpgrade) : Z :=
  match nu with
  | Genesis | BeforeOverwinter | Overwinter | Sapling => PRE_BLOSSOM_POW_TARGET_SPACING
  | _ => POST_BLOSSOM_POW_TARGET_SPACING
  end.

Definition is_max_block_time_enforced (n : Network) (height : Z) : bool :=
  match n with Mainnet => true | Testnet _ => TESTNET_MAX_TIME_START_HEIGHT <=? height end.

Definition disable_pow (n : Network) : bool :=
  match n with Testnet params => params.(Parameters.disable_pow) | Mainnet => false end.

Definition SLOW_START_INTERVAL : Z := 20000.
Definition SLOW_START_SHIFT : Z := SLOW_START_INTERVAL / 2.
Definition slow_start_interval (n : Network) : Z :=
  match n with Testnet params => params.(Parameters.slow_start_interval) | Mainnet => SLOW_START_INTERVAL end.
Definition slow_start_shift (n : Network) : Z :=
  match n with Testnet params => params.(Parameters.slow_start_shift) | Mainnet => SLOW_START_SHIFT end.
Definition unshielded_coinbase_spends (n : Network) : bool :=
  match n with Testnet params => params.(Parameters.should_allow_unshielded_coinbase_spends) | Mainnet => false end.

Definition BLOSSOM_POW_TARGET_SPACING_RATIO : Z := 2.
Definition PRE_BLOSSOM_HALVING_INTERVAL : Z := 840000.
Definition POST_BLOSSOM_HALVING_INTERVAL : Z := PRE_BLOSSOM_HALVING_INTERVAL * BLOSSOM_POW_TARGET_SPACING_RATIO.
Definition pre_blossom_halving_interval (n : Network) : Z :=
  match n with Mainnet => PRE_BLOSSOM_HALVING_INTERVAL | Testnet params => params.(Parameters.pre_blossom_halving_interval) end.
Definition post_blossom_halving_interval (n : Network) : Z :=
  match n with Mainnet => POST_BLOSSOM_HALVING_INTERVAL | Testnet params => params.(Parameters.post_blossom_halving_interval) end.
Definition funding_stream_address_change_interval (n : Network) : Z := Z.quot (post_blossom_halving_interval n) 48.
