(* ===== verification/Subsidy.v ===== *)
(** * Subsidy: block subsidies and funding streams

    Models [zebra-chain/src/parameters/network/subsidy.rs], the methods on lockbox
    disbursements and funding streams of [network.rs] and [network/testnet.rs], the
    fixed parameters of the default test networks, and
    [zebra-consensus/src/block/subsidy.rs] with [subsidy/funding_streams.rs].

    An address is given decoded: the script hash that its Base58Check string
    encodes. *)

From stdpp Require Import base list gmap strings.
From S2P Require Import Prelude Amount Transparent Network.

(** ** Fixed funding streams *)

(** A script hash, as the number its digits spell. *)
Definition p2sh (k : NetworkKind) (script_hash : Z) : Address := PayToScriptHash k (reverse (to_le 20 script_hash)).
Definition recipient (numerator : Z) (addresses : list Address) : FundingStreamRecipient :=
  {| numerator := numerator; addresses := addresses |}.

Definition FUNDING_STREAMS_NUM_ADDRESSES_MAINNET : nat := 48.
Definition FUNDING_STREAM_ECC_ADDRESSES_MAINNET : list Address := map (p2sh KMainnet)
  [0x18304d852fb0f7cba26908c85a5573933be60cb2; 0x656f7e8dbedcd717873de04be0c1e238eef03415;
   0xa060f2b3475106dde12ae9ca495596587b12d1f9; 0xa85005215405d5931d4c7090e164add7f458f1e2;
   0xb62d9afbbae7e3fe866ef8e74c31be3005333938; 0xd28badc8c685c5c6ec386e1202835488deee7134;
   0xfdaa2e848fa9813b6bbc7e5f8cbd9c0724dca7d0; 0x46b5a9421218f59e8c120e8efc9d4744b8963edd;
   0xe763e04584546f9cd565617b5a59c241ead814c7; 0xc1d33ded7edf633ca2592f2258d4c8c9ae280915;
   0x82071207026400b6291892ffdbb1b0a67dae62ed; 0x36a7713f3a9cbafe5b3299ad8e36b999927e8bc7;
   0xbbd391455762cf69e499a6c2b70be91b16d896d3; 0x9f49dcbad80068652c01a13d84779d23e47de657;
   0x35c929cb2ee32626e1f5c8d773ab4fe9d94686e0; 0x5225c369c173df6e8b2ee32aa5d6b3830f86cf07;
   0xdf37da178caa3ba0cc7feea71cd863c6677f4ea5; 0xf1abcd49090a183811d706483a0d827ce7e56eb6;
   0x69a9f95a98fe581b6eb52841ef4806dc4402eb90; 0x305a9515a31bc305d7ab36ce7233060d30ae729a;
   0x3e26d22802442171393f2a72adae960987bd55dc; 0x378501875193467cd453d3ba82c771b72b5750f6;
   0xa409be939aede71e3e1fa5e2d594161101e71476; 0xfd237ff37cc91b87b7cef8408ade1bc14a4e6715;
   0x782879ddb585bc8a31e0d50635f20a505ea28a54; 0x2e1fff58b8ec78077b50b7ffa2144267512b32bf;
   0xc2d76726a137b2228cbf2d4229061c42156054b4; 0x5d190948e5a6982893512c6d269ea14e96018f7e;
   0xf353c409a8b84fd0429ce548a994e1ec75f907a5; 0xde9b3a630ed67badda533c3d7b69bf9c9b82e3b9;
   0xce3e3aac92626adceada9f23e4e3c85b8a586467; 0x52bf011ef01909217be251099016bf856c50b1a8;
   0xe7da83f813b29594da82f25f136f5792d5b285ba; 0xc7a4285ed7aed78d8c0e28d7f1839ccb4046ab0c;
   0xf7014cf9f35e9e27218a9c95a2ec1cf8f1ee2d38; 0x20fc898292a6fd717b3fb3cf56850b81d4d65102;
   0x189c4523d0ec93ac035671d9b521dd16b4e74781; 0x8027f0edcb626bb137e61ce6619ffe1bff5c53d7;
   0x1124a8a93d40375f6807eaf82c62fccede1164ba; 0x382d6d67a48a2239f0d6849c9b0813f8c7c6884b;
   0x84938b9eee79bc177d0c740f510a3db055257d13; 0xa13c02f94304122df58e4e945cdc2db996e38c7e;
   0xf834a0262098d7ffad0db62ef2023068384a6349; 0x79efb14460c35f5d31aff2a56092b382a907d4f7;
   0x11e040dcc37560fd801acdce01d323593ddf1905; 0xc4cc9a6c250ab77c1adbe9cd71d27abc54fdb3ea;
   0x994f18584e38b89b843f8a30637fc248508a87ac; 0x8b7cbaf525e9a194764e48ca3e8dfb062bbea107].
Definition FUNDING_STREAM_ZF_ADDRESSES_MAINNET : list Address :=
  replicate FUNDING_STREAMS_NUM_ADDRESSES_MAINNET (p2sh KMainnet 0xd45cb1adffb5215a42720532a076f02c7c778c90).
Definition FUNDING_STREAM_MG_ADDRESSES_MAINNET : list Address :=
  replicate FUNDING_STREAMS_NUM_ADDRESSES_MAINNET (p2sh KMainnet 0x931fec54c1fea86e574462cc32013f5400b89129).
Definition POST_NU6_FUNDING_STREAMS_NUM_ADDRESSES_MAINNET : nat := 12.
Definition POST_NU6_FUNDING_STREAM_FPF_ADDRESSES_MAINNET : list Address :=
  replicate POST_NU6_FUNDING_STREAMS_NUM_ADDRESSES_MAINNET (p2sh KMainnet 0xc20cd5bdf7964ca61764db66bc2531b1792a084d).

Definition FUNDING_STREAMS_NUM_ADDRESSES_TESTNET : nat := 51.
Definition FUNDING_STREAM_ECC_ADDRESSES_TESTNET : list Address := map (p2sh KTestnet)
  [0x02db6bf7d524268b04edbb986ca4b3ba3528045f; 0x02db6bf7d524268b04edbb986ca4b3ba3528045f;
   0x02db6bf7d524268b04edbb986ca4b3ba3528045f; 0x02db6bf7d524268b04edbb986ca4b3ba3528045f;
   0xad84b615b30f84099596262976e2800b47bf634a; 0xfa20a6a0b7edab06ab514cff36cb0bc52eaed041;
   0x3eeedb2e7ce2df310444924bcf01918e4f2a47e3; 0x5ddd554de502ec31f9a342f0ef0b29ae8c4915a1;
   0x2a901cb9188a8d1758dea1c84b7d8f923da5329a; 0x0662cf509103f7ae8e092857a3fb0019038fdab5;
   0x4fa8788f0e20cbf1f674b61d08cb5bc2d372279f; 0x937cd268622af1c23a0cb01aecdc2f101d8e5fe9;
   0xb443d08189612d442e388fffcf5341563b8d4eb9; 0x4a3891169715057e43637c7884ed87b55b5e1de4;
   0x410393ed05c960807a08101f2f4850638f5b998b; 0x1bebd02a605b3393a9b490f4b84de21f4b39cf9c;
   0x221c95f83bf073cfb76724ed23af737c1ee3bb49; 0x5fb236e61aa7e9ec9adb47644cd4f552607791c1;
   0x5c4436c036abf9fe2931f38d584688acad2567f0; 0x133a4f69db2e68509bbc4e7f5c3fe0829d16e179;
   0x83626b0b62b6484e609ee3715a684722cf0be07b; 0xc65e2e32251fe51375f7ccf8d786a3ce73ce4aa5;
   0xc4ecc389406f3e3df396d8f69c0402554cab3e5e; 0x4e3f0d9a33a2721604cbae2de8d9171e21f8fbe4;
   0x39aefc11738ebc253beb6b6423fa39b5a6164ea8; 0x7810027ba46897a97462c96839df9126376178a8;
   0x7d28da7f38180a7699ea588ceaea02420b33f7a8; 0xe3bd95ae8854282ca5b7e5e234b88033411b52d6;
   0x23d9596d1e09eefe5719b4bfc828385d99e48a71; 0xc165cf3e05eff286d33a44bc19c98e58b05f736a;
   0x5d8b6cb94fb7d99363ae0e7114be5208f4792450; 0x3f005bce6d56651cd3708f886a54d573d318a840;
   0x358ec46536cdaa76463efa31d300d30e40701f77; 0x339d5d900507930b53439b17b0ffed5e75aa4dfc;
   0xf5844c0ff6a9793eb1b8f01dc521dd9bb5198f19; 0x442ad1b624b7a7ce11d30840b42381f0c13aad7d;
   0x5b1394ad17e506376f057bd12b1ca5689cbfc3bc; 0x6ebb1090755c5222c165eacf3af9004a42d1bdb2;
   0x93dd2b726c3fa1476a30cbc7a42c7c711f68c0e7; 0x5525b63bacc5747c38b351c936c2e019e53c9da8;
   0x4a0133ecb1911e08d5640fcb2afdf2341ec8c245; 0x88bd3454a085acaac8b1ea98071ae69c26f14c81;
   0xe23dd6edb446bdbabc32939859d74c0c66d404dc; 0xbc34a244b8127410cd189b8ea3a483d316a2b8b0;
   0xfabb4ab15192d0ac76c920d265c78f05a2fcd0e7; 0xd244b98ee03ed399019ef9e2a3d2b096cb1b2379;
   0x86f6f0aa53c0e6ee938051a6785ab8291052ed17; 0xf2e61e5da3e899be0f276dd5bdbc9a94ff8fe860;
   0x5f27c25fb9a4814b2f612786668c4170032ff719; 0x629207f95870bb1bd4ee1660b81fbfec6fc64f29;
   0x93916098d2a161a91f3ddebab69dd5db9587b624].
Definition FUNDING_STREAM_ZF_ADDRESSES_TESTNET : list Address :=
  replicate FUNDING_STREAMS_NUM_ADDRESSES_TESTNET (p2sh KTestnet 0x0c0bcca02f3cba01a5d7423ac3903d40586399eb).
Definition FUNDING_STREAM_MG_ADDRESSES_TESTNET : list Address :=
  replicate FUNDING_STREAMS_NUM_ADDRESSES_TESTNET (p2sh KTestnet 0x71e1df05024288a00802de81e08c437859586c87).
Definition POST_NU6_FUNDING_STREAMS_NUM_ADDRESSES_TESTNET : nat := 13.
Definition POST_NU6_FUNDING_STREAM_FPF_ADDRESSES_TESTNET : list Address :=
  replicate POST_NU6_FUNDING_STREAMS_NUM_ADDRESSES_TESTNET (p2sh KTestnet 0x7a86d6c7eb12ce0aa309d7391a6f338eba3c242b).
Definition POST_NU6_1_FUNDING_STREAMS_NUM_ADDRESSES_TESTNET : nat := 27.
Definition POST_NU6_1_FUNDING_STREAM_FPF_ADDRESSES_TESTNET : list Address :=
  replicate POST_NU6_1_FUNDING_STREAMS_NUM_ADDRESSES_TESTNET (p2sh KTestnet 0x7a86d6c7eb12ce0aa309d7391a6f338eba3c242b).

Definition POST_NU6_FUNDING_STREAM_START_HEIGHT_MAINNET : Z := 2726400.
Definition POST_NU6_FUNDING_STREAM_START_HEIGHT_TESTNET : Z := 2976000.
Definition POST_NU6_FUNDING_STREAM_NUM_BLOCKS : Z := 420000.

Definition FUNDING_STREAMS_MAINNET : list FundingStreams :=
  [{| height_range := (1046400, 2726400);
      recipients := list_to_map
        [(Ecc, recipient 7 FUNDING_STREAM_ECC_ADDRESSES_MAINNET);
         (ZcashFoundation, recipient 5 FUNDING_STREAM_ZF_ADDRESSES_MAINNET);
         (MajorGrants, recipient 8 FUNDING_STREAM_MG_ADDRESSES_MAINNET)] |};
   {| height_range := (POST_NU6_FUNDING_STREAM_START_HEIGHT_MAINNET,
                       POST_NU6_FUNDING_STREAM_START_HEIGHT_MAINNET + POST_NU6_FUNDING_STREAM_NUM_BLOCKS);
      recipients := list_to_map
        [(Deferred, recipient 12 []);
         (MajorGrants, recipient 8 POST_NU6_FUNDING_STREAM_FPF_ADDRESSES_MAINNET)] |}].

Definition FUNDING_STREAMS_TESTNET : list FundingStreams :=
  [{| height_range := (1028500, 2796000);
      recipients := list_to_map
        [(Ecc, recipient 7 FUNDING_STREAM_ECC_ADDRESSES_TESTNET);
         (ZcashFoundation, recipient 5 FUNDING_STREAM_ZF_ADDRESSES_TESTNET);
         (MajorGrants, recipient 8 FUNDING_STREAM_MG_ADDRESSES_TESTNET)] |};
   {| height_range := (POST_NU6_FUNDING_STREAM_START_HEIGHT_TESTNET,
                       POST_NU6_FUNDING_STREAM_START_HEIGHT_TESTNET + POST_NU6_FUNDING_STREAM_NUM_BLOCKS);
      recipients := list_to_map
        [(Deferred, recipient 12 []);
         (MajorGrants, recipient 8 POST_NU6_FUNDING_STREAM_FPF_ADDRESSES_TESTNET)] |};
   {| height_range := (NU6_1_ACTIVATION_HEIGHT_TESTNET, 4476000);
      recipients := list_to_map
        [(Deferred, recipient 12 []);
         (MajorGrants, recipient 8 POST_NU6_1_FUNDING_STREAM_FPF_ADDRESSES_TESTNET)] |}].

Definition EXPECTED_NU6_1_LOCKBOX_DISBURSEMENTS_TOTAL_MAINNET : Z := 78750 * COIN.
Definition EXPECTED_NU6_1_LOCKBOX_DISBURSEMENTS_TOTAL_TESTNET : Z := 78750 * COIN.
Definition NU6_1_LOCKBOX_DISBURSEMENTS_MAINNET : list (Address * Z) := [].
Definition NU6_1_LOCKBOX_DISBURSEMENTS_TESTNET : list (Address * Z) :=
  replicate 10 (p2sh KTestnet 0xd2f1b436490d63fc078d8aed2d966bd3e40d79f0, EXPECTED_NU6_1_LOCKBOX_DISBURSEMENTS_TOTAL_TESTNET / 10).

(** ** Default test networks *)

Definition TESTNET_MAGIC : list Z := [0xfa; 0x1a; 0xf9; 0xbf].
Definition REGTEST_MAGIC : list Z := [0xaa; 0xe8; 0x3f; 0x5f].
Definition TESTNET_GENESIS_HASH : Z := 0x05a60a92d99d85997cce3b87616c089f6124d7342af37106edc76126334a2c38.
Definition REGTEST_GENESIS_HASH : Z := 0x029f11d80ef9765602235e1bc9727e3eb6ba20839319f761fee920d63401e327.
Definition PRE_BLOSSOM_REGTEST_HALVING_INTERVAL : Z := 144.

(** [Parameters::default], with the difficulty limit [2^251 - 1] rounded as compact
    difficulties are. *)
Definition default_testnet : Parameters.t :=
  Parameters.mk "Testnet" TESTNET_MAGIC TESTNET_GENESIS_HASH TESTNET_ACTIVATION_HEIGHTS
    SLOW_START_INTERVAL (SLOW_START_INTERVAL / 2) FUNDING_STREAMS_TESTNET (0x07ffff * 256 ^ 29) false false
    PRE_BLOSSOM_HALVING_INTERVAL POST_BLOSSOM_HALVING_INTERVAL NU6_1_LOCKBOX_DISBURSEMENTS_TESTNET.
Definition is_default_testnet (params : Parameters.t) : bool := bool_decide (params = default_testnet).

(** [Parameters::is_regtest]: the upgrades and the funding streams of Regtest can
    be configured. *)
Definition is_regtest (params : Parameters.t) : bool :=
  bool_decide (params =
    Parameters.mk "Regtest" REGTEST_MAGIC REGTEST_GENESIS_HASH params.(Parameters.activation_heights)
      0 0 params.(Parameters.funding_streams) (0x0f0f0f * 256 ^ 29) true true
      PRE_BLOSSOM_REGTEST_HALVING_INTERVAL
      (PRE_BLOSSOM_REGTEST_HALVING_INTERVAL * BLOSSOM_POW_TARGET_SPACING_RATIO) []).

Definition all_funding_streams (n : Network) : list FundingStreams :=
  match n with Testnet params => params.(Parameters.funding_streams) | Mainnet => FUNDING_STREAMS_MAINNET end.
Definition in_height_range (height : Z) (f : FundingStreams) : bool :=
  (f.(height_range).1 <=? height) && (height <? f.(height_range).2).
Definition funding_streams (n : Network) (height : Z) : option FundingStreams :=
  find (in_height_range height) (all_funding_streams n).

(** ** Halvings *)

Definition MAX_BLOCK_SUBSIDY : Z := 25 * COIN / 2.
Definition FIRST_HALVING_TESTNET : Z := 1116000.
Definition FIRST_HALVING_REGTEST : Z := 287.

(** [checked_add] and [checked_mul] of [i64], a division of [i64], and the
    conversion of an [i64] to [u32], each followed by [expect] where it can fail. *)
Definition checked_i64 (z : Z) : outcome Z := if is_i64 z then Ret z else Panic.
Definition div_i64 (a b : Z) : outcome Z := if b =? 0 then Panic else Ret (Z.quot a b).
Definition expect_u32 (z : Z) : outcome Z := if in_range 32 z then Ret z else Panic.

Definition num_halvings (height : Z) (n : Network) : outcome Z :=
  let shift := slow_start_shift n in
  blossom_height ← unwrap (activation_height Blossom n);
  halving_index ←
    (if height <? shift then Ret 0
     else if height <? blossom_height then div_i64 (height - shift) (pre_blossom_halving_interval n)
     else
       let scaled_pre_blossom_height := (blossom_height - shift) * BLOSSOM_POW_TARGET_SPACING_RATIO in
       let post_blossom_height := height - blossom_height in
       div_i64 (scaled_pre_blossom_height + post_blossom_height) (post_blossom_halving_interval n));
  expect_u32 halving_index.

(** [1u64.checked_shl(..)] *)
Definition halving_divisor (height : Z) (n : Network) : outcome (option Z) :=
  k ← num_halvings height n; Ret (if k <? 64 then Some (2 ^ k) else None).

Definition height_for_halving (halving : Z) (n : Network) : outcome (option Z) :=
  if halving =? 0 then Ret (Some 0) else
  let shift := slow_start_shift n in
  blossom_height ← unwrap (activation_height Blossom n);
  unscaled_height ← checked_i64 (halving * pre_blossom_halving_interval n);
  pre_blossom_height ← checked_i64 (Z.min unscaled_height blossom_height + shift);
  scaled ← checked_i64 (Z.max 0 (unscaled_height - blossom_height) * BLOSSOM_POW_TARGET_SPACING_RATIO);
  post_blossom_height ← checked_i64 (scaled + shift);
  height ← checked_i64 (pre_blossom_height + post_blossom_height);
  Ret (if (0 <=? height) && (height <=? HEIGHT_MAX) then Some height else None).

Definition height_for_first_halving (n : Network) : outcome Z :=
  match n with
  | Mainnet => unwrap (activation_height Canopy n)
  | Testnet params =>
      if is_regtest params then Ret FIRST_HALVING_REGTEST
      else if is_default_testnet params then Ret FIRST_HALVING_TESTNET
      else h ← height_for_halving 1 n; unwrap h
  end.

(** ** Subsidies *)

Inductive SubsidyError :=
| NoCoinbase
| FundingStreamNotFound
| OneTimeLockboxDisbursementNotFound
| InvalidMinerFees
| SubsidySumOverflow
| UnsupportedHeight
| InvalidAmount (e : AmountError).

Definition block_subsidy (height : Z) (n : Network) : Fallible SubsidyError Z :=
  blossom_height ← expect_some (activation_height Blossom n);
  halving_div ← run (halving_divisor height n);
  match halving_div with
  | None => mret 0
  | Some halving_div =>
      if height <? slow_start_interval n then fail UnsupportedHeight
      else if height <? blossom_height then
        map_err InvalidAmount (Amount.try_from NonNegative (MAX_BLOCK_SUBSIDY / halving_div))
      else
        let scaled_max_block_subsidy := MAX_BLOCK_SUBSIDY / BLOSSOM_POW_TARGET_SPACING_RATIO in
        map_err InvalidAmount (Amount.try_from NonNegative (scaled_max_block_subsidy / halving_div))
  end.

Definition FUNDING_STREAM_RECEIVER_DENOMINATOR : Z := 100.

(** The entries of a map come in some order; it makes no difference to a result
    that is not an error. *)
Fixpoint insert_values (expected_block_subsidy : Z) (acc : gmap FundingStreamReceiver Z)
    (l : list (FundingStreamReceiver * FundingStreamRecipient))
    : Fallible AmountError (gmap FundingStreamReceiver Z) :=
  match l with
  | [] => mret acc
  | (receiver, r) :: l =>
      product ← Amount.mul NonNegative expected_block_subsidy r.(numerator);
      amount_value ← Amount.div NonNegative product FUNDING_STREAM_RECEIVER_DENOMINATOR;
      insert_values expected_block_subsidy (<[receiver := amount_value]> acc) l
  end.
Definition funding_stream_values (height : Z) (n : Network) (expected_block_subsidy : Z)
    : Fallible AmountError (gmap FundingStreamReceiver Z) :=
  canopy_height ← expect_some (activation_height Canopy n);
  if canopy_height <=? height then
    match funding_streams n height with
    | Some f => insert_values expected_block_subsidy ∅ (map_to_list f.(recipients))
    | None => mret ∅
    end
  else mret ∅.

Definition miner_subsidy (height : Z) (n : Network) (expected_block_subsidy : Z) : Fallible AmountError Z :=
  values ← funding_stream_values height n expected_block_subsidy;
  total ← Amount.sum NonNegative (map snd (map_to_list values));
  Amount.sub NonNegative expected_block_subsidy total.

(** ** Lockbox disbursements *)

(** [Parameters::lockbox_disbursement_total_amount]: [reduce] with [expect]. *)
Definition params_lockbox_disbursement_total_amount (params : Parameters.t) : outcome Z :=
  match map snd params.(Parameters.lockbox_disbursements) with
  | [] => Ret 0
  | a :: l => foldl (λ acc b, acc ← acc; expect (Amount.add NonNegative acc b)) (Ret a) l
  end.
Definition lockbox_disbursement_total_amount (n : Network) (height : Z) : outcome Z :=
  if decide (Some height = activation_height Nu6_1 n) then
    match n with
    | Mainnet => Ret EXPECTED_NU6_1_LOCKBOX_DISBURSEMENTS_TOTAL_MAINNET
    | Testnet params =>
        if is_default_testnet params then Ret EXPECTED_NU6_1_LOCKBOX_DISBURSEMENTS_TOTAL_TESTNET
        else params_lockbox_disbursement_total_amount params
    end
  else Ret 0.
Definition lockbox_disbursements (n : Network) (height : Z) : list (Address * Z) :=
  if decide (Some height = activation_height Nu6_1 n) then
    match n with
    | Mainnet => NU6_1_LOCKBOX_DISBURSEMENTS_MAINNET
    | Testnet params =>
        if is_default_testnet params then NU6_1_LOCKBOX_DISBURSEMENTS_TESTNET
        else params.(Parameters.lockbox_disbursements)
    end
  else [].

(** ** Addresses of funding streams *)

Definition funding_stream_address_period (height : Z) (n : Network) : outcome Z :=
  first_halving ← height_for_first_halving n;
  let height_after_first_halving := height - first_halving in
  address_period ← div_i64 (height_after_first_halving + post_blossom_halving_interval n)
                           (funding_stream_address_change_interval n);
  expect_u32 address_period.

(** [1 + period(height) - period(start)], as [funding_stream_address_index] and the
    check of a configuration compute it. *)
Definition periods_since (start height : Z) (n : Network) : outcome Z :=
  period ← funding_stream_address_period height n;
  sum ← expect_u32 (1 + period);
  first ← funding_stream_address_period start n;
  expect_u32 (sum - first).

Definition funding_stream_address_index (height : Z) (n : Network) (receiver : FundingStreamReceiver)
    : outcome (option nat) :=
  if decide (receiver = Deferred) then Ret None else
  match funding_streams n height with
  | None => Ret None
  | Some f =>
      match f.(recipients) !! receiver with
      | None => Ret None
      | Some r =>
          index ← periods_since f.(height_range).1 height n;
          _ ← assert_ ((0 <? index) && (index <=? Z.of_nat (length r.(addresses))));
          Ret (Some (Z.to_nat (index - 1)))
      end
  end.

Definition funding_stream_address (height : Z) (n : Network) (receiver : FundingStreamReceiver)
    : outcome (option Address) :=
  index ← funding_stream_address_index height n receiver;
  Ret (index ← index; f ← funding_streams n height; r ← f.(recipients) !! receiver; r.(addresses) !! index).

Definition new_coinbase_script (address : Address) : outcome bytes :=
  _ ← assert_ (is_script_hash address); Ret (script address).
