(* ===== verification/SubsidyInv.v ===== *)
(** * SubsidyInv: what the subsidies add up to

    - the subsidies of all blocks add up to no more than the post-Blossom halving
      interval times the largest subsidy, which is the money supply on Mainnet;
    - the halvings happen at the heights that [height_for_halving] names;
    - the funding streams of a block and its miner subsidy add up to its subsidy;
    - the address of a funding stream is always found, if the stream has enough
      of them. *)

From stdpp Require Import base list gmap strings.
From S2P Require Import Prelude Amount Transparent Network Subsidy.

(** ** The subsidy of a block *)

(** What the subsidy calculation relies on: the halving interval doubles with
    Blossom, and the slow start is shifted by at most half its interval. *)
Record sound_halvings (n : Network) (blossom : Z) : Prop := {
  sh_blossom : activation_height Blossom n = Some blossom;
  sh_height : 0 ≤ blossom;
  sh_pre : 0 < pre_blossom_halving_interval n;
  sh_post : post_blossom_halving_interval n = 2 * pre_blossom_halving_interval n;
  sh_shift : 0 ≤ slow_start_shift n;
  sh_interval : 2 * slow_start_shift n ≤ slow_start_interval n }.

(** The age of the chain at a height, counted in blocks after Blossom: a block
    before it counts twice. *)
Definition age (n : Network) (blossom height : Z) : Z :=
  if height <? blossom then 2 * (height - slow_start_shift n)
  else 2 * (blossom - slow_start_shift n) + (height - blossom).

(** The subsidy as the specification has it: halved [k] times, and divided by two
    from Blossom on. *)
Definition specified_subsidy (n : Network) (blossom height : Z) : Z :=
  let k := age n blossom height / post_blossom_halving_interval n in
  if k <? 64 then (if height <? blossom then MAX_BLOCK_SUBSIDY else MAX_BLOCK_SUBSIDY / 2) / 2 ^ k else 0.

Section halvings.
Context (n : Network) (blossom : Z) (Hn : sound_halvings n blossom).

Lemma age_nonneg height : slow_start_interval n ≤ height → 0 ≤ age n blossom height.
Proof. intros Hh. destruct Hn. unfold age. destruct (Z.ltb_spec height blossom); lia. Qed.

Lemma div_i64_pos a b : 0 ≤ a → 0 < b → div_i64 a b = Ret (a / b).
Proof.
  intros Ha Hb. unfold div_i64. rewrite (proj2 (Z.eqb_neq b 0)) by lia. by rewrite Z.quot_div_nonneg by lia.
Qed.

Lemma expect_u32_ok z : 0 ≤ z < 2 ^ 32 → expect_u32 z = Ret z.
Proof. intros Hz. unfold expect_u32. by rewrite (proj2 (in_range_spec 32 z)). Qed.

Lemma num_halvings_age height :
  slow_start_interval n ≤ height ≤ HEIGHT_MAX →
  num_halvings height n = Ret (age n blossom height / post_blossom_halving_interval n).
Proof.
  intros Hh. pose proof (age_nonneg height ltac:(lia)) as Hage. destruct Hn as [Hb Hb0 Hpre Hpost Hs Hi].
  unfold num_halvings. rewrite Hb. cbn [unwrap]. rewrite bind_Ret.
  rewrite (proj2 (Z.ltb_ge height (slow_start_shift n))) by lia.
  assert (0 ≤ age n blossom height / post_blossom_halving_interval n < 2 ^ 32) as Hr.
  { split; [apply Z.div_pos; lia|]. apply Z.div_lt_upper_bound; [lia|].
    unfold age, HEIGHT_MAX in *. destruct (Z.ltb_spec height blossom); nia. }
  unfold age in *. destruct (Z.ltb_spec height blossom).
  - rewrite div_i64_pos by lia. rewrite Hpost, Z.div_mul_cancel_l in * by lia. cbn. by apply expect_u32_ok.
  - change BLOSSOM_POW_TARGET_SPACING_RATIO with 2. rewrite Z.mul_comm.
    rewrite div_i64_pos by lia. cbn. by apply expect_u32_ok.
Qed.

Lemma subsidy_amount a k : 0 ≤ a ≤ MAX_BLOCK_SUBSIDY → 0 ≤ k →
  Amount.try_from NonNegative (a / 2 ^ k) = Ret (inr (a / 2 ^ k)).
Proof.
  intros Ha Hk. assert (0 ≤ a / 2 ^ k ≤ MAX_BLOCK_SUBSIDY) as Hr.
  { split; [apply Z.div_pos; lia|]. transitivity a; [|lia]. apply Z.div_le_upper_bound; [lia|]. nia. }
  pose proof MAX_MONEY_i64 as HM. unfold Amount.try_from. rewrite is_i64_true, validate_ok; [done|..].
  - unfold Amount.ok. cbn. assert (MAX_BLOCK_SUBSIDY ≤ MAX_MONEY) by done. lia.
  - assert (MAX_BLOCK_SUBSIDY ≤ MAX_MONEY) by done. lia.
Qed.

Lemma block_subsidy_specified height :
  slow_start_interval n ≤ height ≤ HEIGHT_MAX →
  block_subsidy height n = Ret (inr (specified_subsidy n blossom height)).
Proof.
  intros Hh. unfold block_subsidy, halving_divisor, specified_subsidy.
  rewrite (sh_blossom _ _ Hn), (num_halvings_age height Hh). cbn [expect_some mbind Fallible_bind mret Fallible_ret].
  cbn [run mbind outcome_bind]. set (k := age n blossom height / _).
  assert (0 ≤ k).
  { apply Z.div_pos; [apply age_nonneg; lia|]. destruct Hn. lia. }
  destruct (Z.ltb_spec k 64); cbn; [|done].
  rewrite (proj2 (Z.ltb_ge height (slow_start_interval n))) by lia.
  change BLOSSOM_POW_TARGET_SPACING_RATIO with 2.
  destruct (Z.ltb_spec height blossom); rewrite subsidy_amount; try done.
Qed.
End halvings.

(** ** The sum of all subsidies *)

(** What is still to be issued at an age, in units of the largest subsidy over
    [2^64]. *)
Definition outstanding (interval u : Z) : Z :=
  let k := u / interval in
  if k <? 64 then ((k + 1) * interval - u) * 2 ^ (63 - k) + interval * (2 ^ (63 - k) - 1) else 0.

Lemma outstanding_bounds interval u :
  0 < interval → 0 ≤ u → 0 ≤ outstanding interval u ≤ interval * (2 ^ 64 - 1).
Proof.
  intros Hi Hu. unfold outstanding. set (k := u / interval).
  assert (0 ≤ k) by (apply Z.div_pos; lia).
  assert (k * interval ≤ u < (k + 1) * interval) by (unfold k; pose proof (Z.div_mod u interval); pose proof (Z.mod_pos_bound u interval); nia).
  destruct (Z.ltb_spec k 64); [|lia].
  assert (1 ≤ 2 ^ (63 - k)) by (pose proof (Z.pow_pos_nonneg 2 (63 - k)); lia).
  assert (2 ^ (63 - k) ≤ 2 ^ 63) by (apply Z.pow_le_mono_r; lia). nia.
Qed.

Lemma outstanding_step interval u :
  0 < interval → 0 ≤ u →
  outstanding interval u - outstanding interval (u + 1) = (if u / interval <? 64 then 2 ^ (63 - u / interval) else 0).
Proof.
  intros Hi Hu. unfold outstanding. set (k := u / interval).
  assert (0 ≤ k) by (apply Z.div_pos; lia).
  assert (k * interval ≤ u < (k + 1) * interval) as Hk by (unfold k; pose proof (Z.div_mod u interval); pose proof (Z.mod_pos_bound u interval); nia).
  destruct (decide (u + 1 = (k + 1) * interval)) as [E|E].
  - rewrite E, Z.div_mul by lia. destruct (Z.ltb_spec k 64), (Z.ltb_spec (k + 1) 64); try lia.
    + replace (63 - k) with (63 - (k + 1) + 1) by lia. rewrite Z.pow_add_r by lia. nia.
    + replace k with 63 in * by lia. change (2 ^ (63 - 63)) with 1. lia.
  - assert ((u + 1) / interval = k) as ->.
    { symmetry. apply (Z.div_unique_pos _ _ _ (u + 1 - k * interval)); nia. }
    destruct (k <? 64); nia.
Qed.

Section issuance.
Context (n : Network) (blossom : Z) (Hn : sound_halvings n blossom).
Abbreviation P := (post_blossom_halving_interval n).

(** A block issues no more than the outstanding amount goes down by. *)
Lemma subsidy_from_outstanding height :
  slow_start_interval n ≤ height →
  specified_subsidy n blossom height * 2 ^ 64
  ≤ MAX_BLOCK_SUBSIDY * (outstanding P (age n blossom height) - outstanding P (age n blossom (height + 1))).
Proof.
  intros Hh. pose proof (age_nonneg n blossom Hn height Hh) as Hu.
  assert (0 < P) as HP by (destruct Hn; lia). unfold specified_subsidy.
  pose proof (outstanding_step P (age n blossom height) HP Hu) as Hstep.
  set (k := age n blossom height / P) in *. assert (0 ≤ k) by (apply Z.div_pos; lia).
  assert (∀ a, k < 64 → a / 2 ^ k * 2 ^ 64 ≤ a * (2 * 2 ^ (63 - k))) as Hdiv.
  { intros a Hk. replace (2 ^ 64) with (2 ^ k * (2 * 2 ^ (63 - k))).
    - rewrite Z.mul_assoc. apply Z.mul_le_mono_nonneg_r; [lia|].
      rewrite Z.mul_comm. apply Z.mul_div_le. lia.
    - change (2 * 2 ^ (63 - k)) with (2 ^ 1 * 2 ^ (63 - k)). rewrite <- !Z.pow_add_r by lia. f_equal. lia. }
  assert (0 < MAX_BLOCK_SUBSIDY) by done.
  destruct (Z.ltb_spec height blossom) as [Hb|Hb].
  - assert (age n blossom (height + 1) = age n blossom height + 1 + 1) as E.
    { unfold age. rewrite (proj2 (Z.ltb_lt height blossom)) by lia.
      destruct (Z.ltb_spec (height + 1) blossom); lia. }
    assert ((age n blossom height + 1) / P = k) as Ek.
    { destruct Hn as [_ _ Hpre Hpost _ _]. unfold k, age. rewrite (proj2 (Z.ltb_lt height blossom)), Hpost by lia.
      rewrite Z.div_mul_cancel_l by lia.
      symmetry. apply (Z.div_unique_pos _ _ _ (2 * ((height - slow_start_shift n) mod pre_blossom_halving_interval n) + 1)).
      - pose proof (Z.mod_pos_bound (height - slow_start_shift n) _ Hpre). lia.
      - rewrite (Z.div_mod (height - slow_start_shift n) (pre_blossom_halving_interval n)) at 1 by lia. lia. }
    pose proof (outstanding_step P (age n blossom height + 1) HP ltac:(lia)) as Hstep2.
    rewrite Ek in Hstep2. rewrite <- E in Hstep2.
    destruct (k <? 64) eqn:?; [|nia]. specialize (Hdiv MAX_BLOCK_SUBSIDY ltac:(lia)). nia.
  - assert (age n blossom (height + 1) = age n blossom height + 1) as E.
    { unfold age. rewrite !(proj2 (Z.ltb_ge _ blossom)) by lia. lia. }
    rewrite E. destruct (k <? 64) eqn:?; [|nia]. specialize (Hdiv (MAX_BLOCK_SUBSIDY / 2) ltac:(lia)).
    assert (MAX_BLOCK_SUBSIDY = 2 * (MAX_BLOCK_SUBSIDY / 2)) by done. nia.
Qed.

Lemma issued_from_outstanding m : ∀ height,
  slow_start_interval n ≤ height →
  zsum (map (specified_subsidy n blossom) (seqZ height (Z.of_nat m))) * 2 ^ 64
  ≤ MAX_BLOCK_SUBSIDY * (outstanding P (age n blossom height) - outstanding P (age n blossom (height + Z.of_nat m))).
Proof.
  induction m as [|m IH]; intros height Hh.
  { rewrite seqZ_nil, Z.add_0_r, Z.sub_diag by lia. cbn [map zsum]. lia. }
  rewrite seqZ_cons by lia. cbn [map]. rewrite zsum_cons.
  replace (Z.pred (Z.of_nat (S m))) with (Z.of_nat m) by lia.
  pose proof (subsidy_from_outstanding height Hh). specialize (IH (Z.succ height) ltac:(lia)).
  change (Z.succ height) with (height + 1) in *. replace (height + Z.of_nat (S m)) with (height + 1 + Z.of_nat m) by lia. lia.
Qed.

(** C21: Every block after the slow start has a subsidy, and the subsidies of any
    number of blocks add up to no more than the halving interval times the
    largest subsidy. *)
Theorem issuance_capped m :
  slow_start_interval n + Z.of_nat m ≤ HEIGHT_MAX + 1 →
  ∃ subsidies,
    map (λ h, block_subsidy h n) (seqZ (slow_start_interval n) (Z.of_nat m)) = map (λ s, Ret (inr s)) subsidies ∧
    zsum subsidies ≤ P * MAX_BLOCK_SUBSIDY.
Proof.
  intros Hm. exists (map (specified_subsidy n blossom) (seqZ (slow_start_interval n) (Z.of_nat m))). split.
  - rewrite map_map. apply map_ext_in. intros h Hh%list_elem_of_In%elem_of_seqZ.
    apply block_subsidy_specified; [done|lia].
  - pose proof (issued_from_outstanding m _ (Z.le_refl _)) as H.
    assert (0 < P) as HP by (destruct Hn; lia).
    pose proof (outstanding_bounds P _ HP (age_nonneg n blossom Hn _ (Z.le_refl _))).
    assert (0 ≤ outstanding P (age n blossom (slow_start_interval n + Z.of_nat m))).
    { apply outstanding_bounds; [done|]. apply age_nonneg; [done|lia]. }
    assert (0 < MAX_BLOCK_SUBSIDY) by done. nia.
Qed.
End issuance.

(** ** The heights of the halvings *)

Section halving_heights.
Context (n : Network) (blossom : Z) (Hn : sound_halvings n blossom).

Lemma checked_i64_ok z : - 2 ^ 63 ≤ z < 2 ^ 63 → checked_i64 z = Ret z.
Proof. intros Hz. unfold checked_i64. assert (is_i64 z = true) as -> by (unfold is_i64; lia). done. Qed.

(** The [k]-th halving, if it is after Blossom, is where [height_for_halving] says:
    the number of halvings at a height is at least [k] exactly from there on. *)
Theorem halving_heights k :
  0 < k → blossom ≤ k * pre_blossom_halving_interval n < 2 ^ 60 → slow_start_shift n < 2 ^ 60 →
  ∃ o, height_for_halving k n = Ret o ∧
    ∀ height, slow_start_interval n ≤ height ≤ HEIGHT_MAX →
      ∃ j, num_halvings height n = Ret j ∧
        (k ≤ j ↔ match o with Some h => h ≤ height | None => False end).
Proof.
  intros Hk Hb Hs. destruct Hn as [HB HB0 Hpre Hpost Hs0 Hi]. unfold height_for_halving.
  rewrite (proj2 (Z.eqb_neq k 0)), HB by lia. cbn [unwrap]. rewrite bind_Ret.
  change BLOSSOM_POW_TARGET_SPACING_RATIO with 2.
  eexists. split; [do 5 (rewrite checked_i64_ok by lia; cbn [mbind outcome_bind]); reflexivity|].
  intros height Hh.
  rewrite (num_halvings_age n blossom Hn height Hh). eexists. split; [done|].
  assert (k ≤ age n blossom height / post_blossom_halving_interval n ↔
          k * post_blossom_halving_interval n ≤ age n blossom height) as ->.
  { split; intros H.
    - pose proof (Z.mul_div_le (age n blossom height) (post_blossom_halving_interval n)). nia.
    - apply Z.div_le_lower_bound; lia. }
  rewrite Hpost. unfold age.
  destruct (Z.ltb_spec height blossom); destruct (_ && _) eqn:E; lia.
Qed.
End halving_heights.

(** ** The funding streams of a block *)

Definition total_numerators (f : FundingStreams) : Z := zsum (map (numerator ∘ snd) (map_to_list f.(recipients))).

(** The numerators of a stream add up to no more than the denominator. *)
Definition fair (f : FundingStreams) : Prop :=
  map_Forall (λ _ r, 0 ≤ r.(numerator)) f.(recipients) ∧ total_numerators f ≤ FUNDING_STREAM_RECEIVER_DENOMINATOR.
#[global] Instance fair_dec f : Decision (fair f).
Proof. apply _. Defined.

(** [fs.value], as the specification has it. *)
Definition stream_value (subsidy : Z) (r : FundingStreamRecipient) : Z :=
  subsidy * r.(numerator) / FUNDING_STREAM_RECEIVER_DENOMINATOR.

Lemma sum_nonneg l : ∀ acc,
  0 ≤ acc → Forall (λ a, 0 ≤ a) l → acc + zsum l ≤ MAX_MONEY →
  Amount.sum_from NonNegative acc l = Ret (inr (acc + zsum l)).
Proof.
  induction l as [|a l IH]; intros acc Hacc Hl Hs; cbn [Amount.sum_from].
  { cbn. by rewrite Z.add_0_r. }
  apply Forall_cons in Hl as [Ha Hl]. rewrite zsum_cons in *. pose proof (zsum_nonneg l Hl).
  rewrite add_exact, validate_ok by (unfold Amount.ok; cbn; lia). rewrite IH by (done || lia). do 2 f_equal. lia.
Qed.

Section streams.
Context (subsidy : Z) (Hs : 0 ≤ subsidy ≤ MAX_BLOCK_SUBSIDY).

Lemma stream_value_bounds r : 0 ≤ r.(numerator) → 0 ≤ stream_value subsidy r.
Proof. intros Hr. apply Z.div_pos; [nia|done]. Qed.

Lemma insert_values_spec l : ∀ acc,
  NoDup l.*1 → Forall (λ x, 0 ≤ x.2.(numerator) ≤ 100) l →
  insert_values subsidy acc l = Ret (inr (list_to_map (prod_map id (stream_value subsidy) <$> l) ∪ acc)).
Proof.
  induction l as [|[k r] l IH]; intros acc Hnd Hl; cbn [insert_values fmap list_fmap].
  { cbn. by rewrite (left_id_L ∅ (∪)). }
  apply Forall_cons in Hl as [Hr Hl]. cbn in Hr. apply NoDup_cons in Hnd as [Hk Hnd].
  assert (0 ≤ subsidy * r.(numerator) ≤ MAX_MONEY) as Hm.
  { assert (MAX_BLOCK_SUBSIDY * 100 ≤ MAX_MONEY) by done. nia. }
  pose proof MAX_MONEY_i64. pose proof (stream_value_bounds r ltac:(lia)).
  assert (stream_value subsidy r ≤ MAX_MONEY).
  { unfold stream_value. change FUNDING_STREAM_RECEIVER_DENOMINATOR with 100. Z.div_mod_to_equations. lia. }
  unfold Amount.mul, Amount.div, Amount.try_from. rewrite is_i64_true, validate_ok by (unfold Amount.ok; cbn; lia).
  cbn [map_err mbind Fallible_bind]. change (FUNDING_STREAM_RECEIVER_DENOMINATOR =? 0) with false. cbn match.
  rewrite Z.quot_div_nonneg by (done || lia). fold (stream_value subsidy r).
  rewrite is_i64_true, validate_ok by (unfold Amount.ok; cbn; lia). cbn [mbind Fallible_bind mret Fallible_ret].
  rewrite IH by done. cbn. rewrite <- insert_union_r, insert_union_l; [done|].
  apply not_elem_of_list_to_map_1. rewrite <- list_fmap_compose.
  intros [x [E Hx]]%list_elem_of_fmap. apply Hk. apply list_elem_of_fmap. exists x. by destruct x.
Qed.

(** The streams of a block get their shares, the miner the rest. *)
Lemma stream_shares f :
  fair f →
  let values := stream_value subsidy <$> f.(recipients) in
  insert_values subsidy ∅ (map_to_list f.(recipients)) = Ret (inr values) ∧
  0 ≤ zsum (map snd (map_to_list values)) ≤ subsidy ∧
  Amount.sum NonNegative (map snd (map_to_list values)) = Ret (inr (zsum (map snd (map_to_list values)))).
Proof.
  intros [Hpos Htot] values. unfold total_numerators in Htot. change FUNDING_STREAM_RECEIVER_DENOMINATOR with 100 in *.
  set (l := map_to_list (recipients f)) in *.
  assert (∀ x, x ∈ l → 0 ≤ x.2.(numerator)) as Hnum.
  { intros [k r] Hx%elem_of_map_to_list. exact (Hpos k r Hx). }
  assert (Forall (λ x, 0 ≤ x.2.(numerator) ≤ 100) l) as Hl.
  { apply Forall_forall. intros x Hx. split; [by apply Hnum|]. transitivity (zsum (map (numerator ∘ snd) l)); [|done].
    apply zsum_elem_le; [|by apply (list_elem_of_fmap_2 (numerator ∘ snd))].
    apply Forall_forall. intros z [y [-> Hy]]%list_elem_of_fmap. by apply Hnum. }
  assert (map snd (map_to_list values) ≡ₚ map (stream_value subsidy ∘ snd) l) as Hperm.
  { unfold values. rewrite map_to_list_fmap. rewrite map_map. apply reflexive_eq, map_ext. by intros []. }
  assert (Forall (λ a, 0 ≤ a) (map (stream_value subsidy ∘ snd) l)) as Hnn.
  { apply Forall_forall. intros z [y [-> Hy]]%list_elem_of_fmap. by apply stream_value_bounds, Hnum. }
  assert (zsum (map (stream_value subsidy ∘ snd) l) * 100 ≤ subsidy * zsum (map (numerator ∘ snd) l)) as Hsum.
  { generalize l. clear. intros l. induction l as [|x l IH]; [cbn; lia|]. cbn [map]. rewrite !zsum_cons.
    assert (stream_value subsidy x.2 * 100 ≤ subsidy * numerator x.2).
    { unfold stream_value. rewrite Z.mul_comm. by apply Z.mul_div_le. }
    unfold compose in *. lia. }
  pose proof (zsum_nonneg _ Hnn) as Hz. rewrite (zsum_perm _ _ Hperm).
  assert (zsum (map (stream_value subsidy ∘ snd) l) ≤ subsidy) by nia. split_and!; try done.
  - rewrite insert_values_spec; [|apply NoDup_fst_map_to_list|done]. rewrite (right_id_L ∅ (∪)).
    unfold l. by rewrite list_to_map_fmap, list_to_map_to_list.
  - unfold Amount.sum. rewrite sum_nonneg; [by rewrite (zsum_perm _ _ Hperm)|done|by rewrite Hperm|].
    rewrite (zsum_perm _ _ Hperm). assert (MAX_BLOCK_SUBSIDY ≤ MAX_MONEY) by done. lia.
Qed.
End streams.

(** What a network's streams pay at a height. *)
Definition specified_values (n : Network) (canopy height subsidy : Z) : gmap FundingStreamReceiver Z :=
  if canopy <=? height
  then match funding_streams n height with Some f => stream_value subsidy <$> f.(recipients) | None => ∅ end
  else ∅.

Lemma funding_streams_elem n height f : funding_streams n height = Some f → f ∈ all_funding_streams n ∧ in_height_range height f = true.
Proof. intros [H1 H2]%List.find_some. split; [by apply list_elem_of_In|done]. Qed.

Lemma subsidy_shares n canopy height subsidy :
  activation_height Canopy n = Some canopy → Forall fair (all_funding_streams n) → 0 ≤ subsidy ≤ MAX_BLOCK_SUBSIDY →
  let values := specified_values n canopy height subsidy in
  let total := zsum (map snd (map_to_list values)) in
  funding_stream_values height n subsidy = Ret (inr values) ∧
  miner_subsidy height n subsidy = Ret (inr (subsidy - total)) ∧ 0 ≤ total ≤ subsidy.
Proof.
  intros Hc Hf Hs values total.
  assert (funding_stream_values height n subsidy = Ret (inr values) ∧
          Amount.sum NonNegative (map snd (map_to_list values)) = Ret (inr total) ∧ 0 ≤ total ≤ subsidy) as (Hv & Hsum & Ht).
  { unfold total, values, specified_values, funding_stream_values. rewrite Hc. cbn [expect_some mbind Fallible_bind mret Fallible_ret].
    destruct (canopy <=? height); [|rewrite map_to_list_empty; split_and!; [done|done|cbn; lia..]].
    destruct (funding_streams n height) as [f|] eqn:E; [|rewrite map_to_list_empty; split_and!; [done|done|cbn; lia..]].
    apply funding_streams_elem in E as [E _]. rewrite Forall_forall in Hf.
    destruct (stream_shares subsidy Hs f (Hf f E)) as (? & ? & ?). done. }
  split; [done|]. split; [|done]. unfold miner_subsidy. rewrite Hv. cbn [mbind Fallible_bind]. rewrite Hsum. cbn [mbind Fallible_bind].
  assert (MAX_BLOCK_SUBSIDY ≤ MAX_MONEY) by done.
  rewrite sub_exact, validate_ok; [done|unfold Amount.ok; cbn; lia..].
Qed.

(** ** The addresses of the funding streams *)

(** A stream has an address for every period of its height range. *)
Definition enough_addresses (n : Network) (f : FundingStreams) : Prop :=
  ∃ k, periods_since f.(height_range).1 (f.(height_range).2 - 1) n = Ret k ∧
    map_Forall (λ receiver r, receiver = Deferred ∨ k ≤ Z.of_nat (length r.(addresses))) f.(recipients).

Lemma expect_u32_inv z a : expect_u32 z = Ret a → a = z ∧ 0 ≤ z < 2 ^ 32.
Proof. unfold expect_u32. destruct (in_range 32 z) eqn:E; [|done]. intros [= <-]. by apply in_range_spec in E. Qed.

Lemma periods_since_inv start height n k :
  0 < funding_stream_address_change_interval n → periods_since start height n = Ret k →
  ∃ base, height_for_first_halving n = Ret base ∧
    let period h := Z.quot (h - base + post_blossom_halving_interval n) (funding_stream_address_change_interval n) in
    k = 1 + period height - period start ∧ 0 ≤ period start ∧ period height < 2 ^ 32 - 1.
Proof.
  intros Hi. unfold periods_since, funding_stream_address_period, div_i64.
  rewrite (proj2 (Z.eqb_neq _ 0)) by lia. destruct (height_for_first_halving n) as [base|]; [|done]. cbn.
  intros (p & [-> Hp]%expect_u32_inv & H)%bind_Ret_inv.
  apply bind_Ret_inv in H as (s & [-> Hs]%expect_u32_inv & H).
  apply bind_Ret_inv in H as (q & [-> Hq]%expect_u32_inv & H). apply expect_u32_inv in H as [-> H].
  exists base. split_and!; [done|lia..].
Qed.

(** At each height of its range, and for each of its receivers but the lockbox, a
    stream with enough addresses has one. *)
Lemma address_found n height f receiver r :
  0 < funding_stream_address_change_interval n →
  funding_streams n height = Some f → f.(recipients) !! receiver = Some r → receiver ≠ Deferred →
  enough_addresses n f →
  ∃ i a, funding_stream_address_index height n receiver = Ret (Some i) ∧
    funding_stream_address height n receiver = Ret (Some a) ∧ r.(addresses) !! i = Some a.
Proof.
  intros Hi Hf Hr Hd (k & Hk & Hlen). specialize (Hlen receiver r Hr) as [|Hlen]; [done|].
  apply funding_streams_elem in Hf as Hin. destruct Hin as [_ Hin]. unfold in_height_range in Hin.
  apply periods_since_inv in Hk as (base & Hbase & Hk & Hs & He); [|done]. cbn zeta in Hk, Hs, He.
  set (c := funding_stream_address_change_interval n) in *. set (p := post_blossom_halving_interval n) in *.
  assert (Z.quot (f.(height_range).1 - base + p) c ≤ Z.quot (height - base + p) c) as H1
    by (apply Z.quot_le_mono; lia).
  assert (Z.quot (height - base + p) c ≤ Z.quot (f.(height_range).2 - 1 - base + p) c) as H2
    by (apply Z.quot_le_mono; lia).
  set (j := Z.quot (height - base + p) c - Z.quot (f.(height_range).1 - base + p) c).
  assert (funding_stream_address_index height n receiver = Ret (Some (Z.to_nat j))) as Hidx.
  { unfold funding_stream_address_index. rewrite decide_False by done. rewrite Hf, Hr.
    unfold periods_since, funding_stream_address_period, div_i64. rewrite Hbase.
    rewrite (proj2 (Z.eqb_neq _ 0)) by lia. fold c p. cbn [mbind outcome_bind].
    do 4 (rewrite expect_u32_ok by lia; cbn [mbind outcome_bind]). unfold assert_. rewrite (proj2 (Z.ltb_lt 0 _)), (proj2 (Z.leb_le _ (Z.of_nat (length (addresses r))))) by lia.
    cbn. do 3 f_equal. lia. }
  destruct (lookup_lt_is_Some_2 r.(addresses) (Z.to_nat j)) as [a Ha]; [lia|].
  exists (Z.to_nat j), a. split; [done|]. split; [|done].
  unfold funding_stream_address. rewrite Hidx. cbn [mbind outcome_bind]. cbn. rewrite Hf. cbn. rewrite Hr. cbn. by rewrite Ha.
Qed.

(** ** Mainnet *)

Lemma mainnet_sound : sound_halvings Mainnet 653600.
Proof. split; try done; by vm_compute. Qed.

Lemma mainnet_fair : Forall fair (all_funding_streams Mainnet).
Proof. apply (bool_decide_unpack _). by vm_compute. Qed.

(** The bound is the money supply. *)
Lemma issuance_capped_witness :
  ∃ subsidies,
    map (λ h, block_subsidy h Mainnet) (seqZ 20000 1000) = map (λ s, Ret (inr s)) subsidies ∧
    zsum subsidies ≤ MAX_MONEY.
Proof. apply (issuance_capped Mainnet 653600 mainnet_sound 1000). by vm_compute. Defined.

Lemma halving_heights_witness :
  ∃ o, height_for_halving 2 Mainnet = Ret o ∧
    ∀ height, 20000 ≤ height ≤ HEIGHT_MAX →
      ∃ j, num_halvings height Mainnet = Ret j ∧ (2 ≤ j ↔ match o with Some h => h ≤ height | None => False end).
Proof. apply (halving_heights Mainnet 653600 mainnet_sound 2); by vm_compute. Defined.

(** The heights after Blossom are those of blocks every 75 seconds: at the spacing
    of 25 seconds that this network has, a halving interval lasts less than a year
    and five months. *)
Example halving_interval_in_days :
  POST_BLOSSOM_HALVING_INTERVAL * POST_BLOSSOM_POW_TARGET_SPACING / 86400 = 486 ∧
  PRE_BLOSSOM_HALVING_INTERVAL * PRE_BLOSSOM_POW_TARGET_SPACING / 86400 = 1458 ∧
  BLOSSOM_POW_TARGET_SPACING_RATIO ≠ PRE_BLOSSOM_POW_TARGET_SPACING / POST_BLOSSOM_POW_TARGET_SPACING.
Proof. by vm_compute. Qed.

(** On a network with a halving before Blossom, [height_for_halving] adds the shift
    of the slow start twice: the halving comes ten blocks before. *)
Definition early_halving : Network :=
  Testnet (Parameters.mk "Early" [1; 2; 3; 4] 0 [(0, Genesis); (1000, Blossom); (2000, Nu6)] 20 10 [] 0 false false 100 200 []).
Example early_halving_height :
  height_for_halving 1 early_halving = Ret (Some 120) ∧
  num_halvings 109 early_halving = Ret 0 ∧ num_halvings 110 early_halving = Ret 1.
Proof. by vm_compute. Qed.
