(* ===== verification/Testnet.v ===== *)
(** * Testnet: configured test networks

    Models the builder of test networks of
    [zebra-chain/src/parameters/network/testnet.rs], with the checks it makes, and
    the network that [zebrad/src/application.rs] configures with it.

    Network names and genesis hashes are set without their checks; addresses are
    given decoded. *)

From stdpp Require Import base list gmap strings sorting.
From S2P Require Import Prelude Amount Transparent Network Subsidy SubsidyInv.

(** ** The builder *)

(** [ParametersBuilder]: the parameters it will build, whose slow start shift is
    only set by [finish], and the flag that locks what the funding streams were
    checked against. *)
Record ParametersBuilder := {
  building : Parameters.t;
  should_lock_funding_stream_address_period : bool }.

Section builder.
Context {P : Profile}.
Import Parameters.

(** [ParametersBuilder::default] *)
Definition build : ParametersBuilder :=
  {| building := mk "UnknownTestnet" TESTNET_MAGIC TESTNET_GENESIS_HASH TESTNET_ACTIVATION_HEIGHTS
                   SLOW_START_INTERVAL (SLOW_START_INTERVAL / 2) FUNDING_STREAMS_TESTNET (0x07ffff * 256 ^ 29)
                   false false PRE_BLOSSOM_HALVING_INTERVAL POST_BLOSSOM_HALVING_INTERVAL
                   NU6_1_LOCKBOX_DISBURSEMENTS_TESTNET;
     should_lock_funding_stream_address_period := false |}.

(** [finish], [to_network_unchecked] *)
Definition finish (b : ParametersBuilder) : Parameters.t :=
  let '(mk name magic genesis heights interval _ streams limit pow unshielded pre post lockbox) := b.(building) in
  mk name magic genesis heights interval (interval / 2) streams limit pow unshielded pre post lockbox.
Definition to_network_unchecked (b : ParametersBuilder) : Network := Testnet (finish b).

Definition MAINNET_MAGIC : list Z := [0x24; 0xe9; 0x27; 0x64].
Definition with_network_magic (magic : list Z) (b : ParametersBuilder) : outcome ParametersBuilder :=
  _ ← assert_ (bool_decide (magic ≠ MAINNET_MAGIC) && bool_decide (magic ≠ REGTEST_MAGIC));
  let '(mk name _ genesis heights interval shift streams limit pow unshielded pre post lockbox) := b.(building) in
  Ret {| building := mk name magic genesis heights interval shift streams limit pow unshielded pre post lockbox;
         should_lock_funding_stream_address_period := b.(should_lock_funding_stream_address_period) |}.

Definition with_slow_start_interval (interval : Z) (b : ParametersBuilder) : ParametersBuilder :=
  let '(mk name magic genesis heights _ shift streams limit pow unshielded pre post lockbox) := b.(building) in
  {| building := mk name magic genesis heights interval shift streams limit pow unshielded pre post lockbox;
     should_lock_funding_stream_address_period := b.(should_lock_funding_stream_address_period) |}.

Definition arith_i64 (z : Z) : outcome Z :=
  if is_i64 z then Ret z else if overflow_checks then Panic else Ret (Amount.as_i64 (z mod 2 ^ 64)).
Definition with_halving_interval (pre : Z) (b : ParametersBuilder) : outcome ParametersBuilder :=
  if b.(should_lock_funding_stream_address_period) then Panic else
  let '(mk name magic genesis heights interval shift streams limit pow unshielded _ _ lockbox) := b.(building) in
  post ← arith_i64 (pre * BLOSSOM_POW_TARGET_SPACING_RATIO);
  Ret {| building := mk name magic genesis heights interval shift streams limit pow unshielded pre post lockbox;
         should_lock_funding_stream_address_period := b.(should_lock_funding_stream_address_period) |}.

(** ** Activation heights *)

(** [ConfiguredActivationHeights], in the order of the upgrades from
    [BeforeOverwinter] on. *)
Definition ConfiguredActivationHeights : Type := list (option Z).
Definition configurable_upgrades : list NetworkUpgrade :=
  [BeforeOverwinter; Overwinter; Network.Sapling; Blossom; Heartwood; Canopy; Nu5; Nu6; Nu6_1; Nu7].

(** [BTreeMap::insert], on the entries in the order of the keys. *)
Fixpoint btree_insert (h : Z) (nu : NetworkUpgrade) (m : list (Z * NetworkUpgrade)) : list (Z * NetworkUpgrade) :=
  match m with
  | [] => [(h, nu)]
  | (h', nu') :: m' =>
      if h <? h' then (h, nu) :: m
      else if h =? h' then (h, nu) :: m'
      else (h', nu') :: btree_insert h nu m'
  end.
Definition btree_extend (m l : list (Z * NetworkUpgrade)) : list (Z * NetworkUpgrade) :=
  foldl (λ m x, btree_insert x.1 x.2 m) m l.

Fixpoint configured_heights (l : list (option Z * NetworkUpgrade)) : outcome (list (Z * NetworkUpgrade)) :=
  match l with
  | [] => Ret []
  | (None, _) :: l => configured_heights l
  | (Some h, nu) :: l =>
      _ ← assert_ (h <=? HEIGHT_MAX); rest ← configured_heights l; Ret ((h, nu) :: rest)
  end.

(** The loop over the upgrades in order takes an entry for each upgrade that is
    configured. *)
Fixpoint check_order (network_upgrades expected : list NetworkUpgrade) (entries : list (Z * NetworkUpgrade)) : outcome () :=
  match expected with
  | [] => Ret ()
  | nu :: expected =>
      if decide (nu ∈ network_upgrades) then
        match entries with
        | [] => check_order network_upgrades expected entries
        | (h, nu') :: entries =>
            _ ← assert_ (negb (h =? 0)); _ ← assert_ (bool_decide (nu' = nu));
            check_order network_upgrades expected entries
        end
      else check_order network_upgrades expected entries
  end.

Definition with_activation_heights (c : ConfiguredActivationHeights) (b : ParametersBuilder)
    : outcome ParametersBuilder :=
  if b.(should_lock_funding_stream_address_period) then Panic else
  configured ← configured_heights (zip c configurable_upgrades);
  let activation_heights := btree_extend [] configured in
  _ ← check_order (map snd activation_heights) (Genesis :: configurable_upgrades) activation_heights;
  let '(mk name magic genesis heights interval shift streams limit pow unshielded pre post lockbox) := b.(building) in
  let heights := btree_extend (filter (λ x, x.1 < 1) heights) activation_heights in
  Ret {| building := mk name magic genesis heights interval shift streams limit pow unshielded pre post lockbox;
         should_lock_funding_stream_address_period := b.(should_lock_funding_stream_address_period) |}.

(** ** Funding streams *)

Definition network_kind_of (a : Address) : NetworkKind :=
  match a with PayToScriptHash k _ | PayToPublicKeyHash k _ | Tex k _ => k end.
Definition magic (n : Network) : list Z :=
  match n with Mainnet => MAINNET_MAGIC | Testnet params => params.(network_magic) end.
Definition CLT0_MAGIC : list Z := [67; 108; 84; 48].

Definition num_funding_stream_addresses_required_for_height_range (height_range : Z * Z) (n : Network) : outcome Z :=
  last ← unwrap (height_sub height_range.2 1); periods_since height_range.1 last n.

(** The body of the loop over the recipients. *)
Definition check_recipient (expected_min_num_addresses : Z) (x : FundingStreamReceiver * FundingStreamRecipient)
    : outcome () :=
  if decide (x.1 = Deferred) then Ret ()
  else _ ← assert_ (expected_min_num_addresses <=? Z.of_nat (length x.2.(addresses)));
       assert_ (forallb (λ a, bool_decide (network_kind_of a = KTestnet)) x.2.(addresses)).

(** The network of the Crosslink prototype needs one address only. *)
Definition check_funding_stream_address_period (f : FundingStreams) (n : Network) : outcome () :=
  expected_min_num_addresses ←
    (if decide (magic n = CLT0_MAGIC) then Ret 1
     else num_funding_stream_addresses_required_for_height_range f.(height_range) n);
  for_each (λ _ x, check_recipient expected_min_num_addresses x) (map_to_list f.(recipients)) ().

Record ConfiguredFundingStreams := {
  configured_height_range : option (Z * Z);
  configured_recipients : option (list (FundingStreamReceiver * FundingStreamRecipient)) }.

(** A receiver that is listed twice keeps its last entry. *)
Definition convert_with_default (c : ConfiguredFundingStreams) (default_funding_streams : option FundingStreams)
    (b : ParametersBuilder) : outcome FundingStreams :=
  let n := to_network_unchecked b in
  range ← (match c.(configured_height_range) with
           | Some range => Ret range
           | None => d ← unwrap default_funding_streams; Ret d.(height_range)
           end);
  rs ← (match c.(configured_recipients) with
        | Some rs => Ret (foldl (λ m x, <[x.1 := x.2]> m) ∅ rs)
        | None => d ← unwrap default_funding_streams; Ret d.(recipients)
        end);
  _ ← assert_ (range.1 <=? range.2);
  let f := {| height_range := range; recipients := rs |} in
  _ ← check_funding_stream_address_period f n;
  sum_numerators ← for_each (λ acc x, arith 64 (acc + x.2.(numerator))) (map_to_list rs) 0;
  _ ← assert_ (sum_numerators <=? FUNDING_STREAM_RECEIVER_DENOMINATOR);
  Ret f.

Fixpoint convert_all (i : nat) (l : list ConfiguredFundingStreams) (b : ParametersBuilder) : outcome (list FundingStreams) :=
  match l with
  | [] => Ret []
  | c :: l =>
      f ← convert_with_default c (FUNDING_STREAMS_TESTNET !! i) b;
      fs ← convert_all (S i) l b; Ret (f :: fs)
  end.
Definition with_funding_streams (l : list ConfiguredFundingStreams) (b : ParametersBuilder) : outcome ParametersBuilder :=
  streams ← convert_all 0 l b;
  let '(mk name magic genesis heights interval shift _ limit pow unshielded pre post lockbox) := b.(building) in
  Ret {| building := mk name magic genesis heights interval shift streams limit pow unshielded pre post lockbox;
         should_lock_funding_stream_address_period := true |}.

Definition to_network (b : ParametersBuilder) : outcome Network :=
  let n := to_network_unchecked b in
  _ ← for_each (λ _ f, check_funding_stream_address_period f n) b.(building).(funding_streams) ();
  Ret n.

(** ** The network of the prototype *)

(** [Application::config]: what it sets if it is not told to leave the
    configuration alone. *)
Definition crosslink_network : outcome Network :=
  b ← with_network_magic CLT0_MAGIC build;
  b ← with_funding_streams
        [{| configured_height_range := Some (1, 99999999);
            configured_recipients :=
              Some [(MajorGrants, recipient 20 [p2sh KTestnet 0x0ebc92e6a0d0e92b3a3ab3933ca9425df1cfa6f9])] |}]
        (with_slow_start_interval 0 b);
  to_network b.
End builder.
