(* ===== verification/TestnetInv.v ===== *)
(** * TestnetInv: properties of the networks that can be configured

    - the activation heights a builder accepts are in the order of the upgrades,
      and on such a network the upgrade in force at a height is the last one whose
      activation height was reached;
    - a network that passed the checks of its builder has an address for each of
      its funding streams at each height, unless it has the magic number of the
      Crosslink prototype, whose own network runs out of addresses. *)

From stdpp Require Import base list gmap strings sorting.
From S2P Require Import Prelude Amount Transparent Network Subsidy SubsidyInv Testnet.

(** ** The order of the upgrades *)

Definition before (x y : Z * NetworkUpgrade) : Prop := x.1 < y.1 ∧ upgrade_index x.2 < upgrade_index y.2.
#[global] Instance before_dec x y : Decision (before x y).
Proof. apply _. Defined.

(** The upgrades of a network, in order from genesis. *)
Record ordered_upgrades (l : list (Z * NetworkUpgrade)) : Prop := {
  ou_sorted : StronglySorted before l;
  ou_genesis : head l = Some (0, Genesis) }.

Lemma sorted_before_elem l x y :
  StronglySorted before l → x ∈ l → y ∈ l → upgrade_index x.2 ≤ upgrade_index y.2 ↔ x.1 ≤ y.1.
Proof.
  induction 1 as [|z l Hs IH Hz]; intros Hx Hy; [by apply not_elem_of_nil in Hx|].
  rewrite Forall_forall in Hz. unfold before in Hz.
  apply elem_of_cons in Hx as [->|Hx], Hy as [->|Hy].
  - lia.
  - specialize (Hz y Hy). lia.
  - specialize (Hz x Hx). lia.
  - by apply IH.
Qed.

Lemma sorted_before_last l x z :
  StronglySorted before l → last l = Some z → x ∈ l → upgrade_index x.2 ≤ upgrade_index z.2.
Proof.
  intros Hs Hz Hx. apply last_Some in Hz as [l' ->]. apply elem_of_app in Hx as [Hx|Hx%list_elem_of_singleton]; [|subst; lia].
  apply StronglySorted_app in Hs as (Hs & _). specialize (Hs x z Hx ltac:(set_solver)). unfold before in Hs. lia.
Qed.

Lemma sorted_filter l (Q : Z * NetworkUpgrade → Prop) `{∀ x, Decision (Q x)} :
  StronglySorted before l → StronglySorted before (filter Q l).
Proof.
  induction 1 as [|z l Hs IH Hz]; [constructor|]. rewrite filter_cons. case_decide; [|done].
  constructor; [done|]. rewrite Forall_forall in *. intros x [_ Hx]%list_elem_of_filter. by apply Hz.
Qed.

Lemma skip_while_upgrades nu : nu ≠ Nu7 →
  skip_while (λ x, bool_decide (x ≠ nu)) NETWORK_UPGRADES_IN_ORDER =
  filter (λ x, upgrade_index nu ≤ upgrade_index x) NETWORK_UPGRADES_IN_ORDER.
Proof. by destruct nu. Qed.

Section search.
Context (n : Network).
Abbreviation L := (activation_list n).

Lemma find_upgrade nu x : find (λ x, bool_decide (x.2 = nu)) L = Some x → x ∈ L ∧ x.2 = nu.
Proof. intros [H1 H2]%List.find_some. split; [by apply list_elem_of_In|by apply bool_decide_eq_true in H2]. Qed.

Lemma find_upgrade_None nu x : find (λ x, bool_decide (x.2 = nu)) L = None → x ∈ L → x.2 ≠ nu.
Proof. intros H Hx%list_elem_of_In. pose proof (List.find_none _ _ H x Hx) as E. by apply bool_decide_eq_false in E. Qed.

Lemma first_activation_elem ups a :
  first_activation n ups = Some a → ∃ nu, (a, nu) ∈ L ∧ nu ∈ ups.
Proof.
  induction ups as [|u ups IH]; [done|]. cbn. destruct (find _ L) as [x|] eqn:E.
  - intros [= <-]. apply find_upgrade in E as [Hx <-]. exists x.2. split; [by destruct x|set_solver].
  - intros (nu & ? & ?)%IH. exists nu. set_solver.
Qed.

Lemma first_activation_first ups x :
  StronglySorted (λ a b, upgrade_index a ≤ upgrade_index b) ups → x ∈ L → x.2 ∈ ups →
  ∃ y, y ∈ L ∧ first_activation n ups = Some y.1 ∧ upgrade_index y.2 ≤ upgrade_index x.2.
Proof.
  induction 1 as [|u ups Hs IH Hu]; intros Hx Hin; [by apply not_elem_of_nil in Hin|]. cbn.
  destruct (find _ L) as [y|] eqn:E.
  - apply find_upgrade in E as [Hy <-]. exists y. split; [done|]. split; [done|].
    rewrite Forall_forall in Hu. apply elem_of_cons in Hin as [->|Hin]; [lia|by apply Hu].
  - apply elem_of_cons in Hin as [Hin|Hin]; [|by apply IH]. by eapply find_upgrade_None in E.
Qed.
End search.

Lemma upgrades_sorted nu :
  StronglySorted (λ a b, upgrade_index a ≤ upgrade_index b)
    (filter (λ x, upgrade_index nu ≤ upgrade_index x) NETWORK_UPGRADES_IN_ORDER).
Proof.
  destruct nu; repeat constructor; cbn; lia.
Qed.

(** [current] of a network with ordered upgrades. *)
Lemma current_spec n height :
  ordered_upgrades (activation_list n) → 0 ≤ height →
  ∃ x, current n height = Ret x.2 ∧ x ∈ activation_list n ∧ x.1 ≤ height ∧
    ∀ y, y ∈ activation_list n → y.1 ≤ height → upgrade_index y.2 ≤ upgrade_index x.2.
Proof.
  intros [Hs Hg] Hh. unfold current.
  assert ((0, Genesis) ∈ filter (λ x, x.1 ≤ height) (activation_list n)) as H0.
  { apply list_elem_of_filter. split; [done|]. destruct (activation_list n); [done|]. injection Hg as ->. set_solver. }
  destruct (last (filter (λ x, x.1 ≤ height) (activation_list n))) as [x|] eqn:E.
  2: { apply last_None in E. rewrite E in H0. by apply not_elem_of_nil in H0. }
  exists x. split; [done|].
  assert (x ∈ filter (λ x, x.1 ≤ height) (activation_list n)) as Hx.
  { apply last_Some in E as [l ->]. set_solver. }
  apply list_elem_of_filter in Hx as [? ?]. split; [done|]. split; [done|].
  intros y Hy Hyh. apply (sorted_before_last _ _ _ (sorted_filter _ (λ x, x.1 ≤ height) Hs) E). by apply list_elem_of_filter.
Qed.

Lemma upgrade_in_order nu : nu ≠ Nu7 → nu ∈ NETWORK_UPGRADES_IN_ORDER.
Proof. intros H. apply (bool_decide_unpack _). by destruct nu. Qed.

(** An upgrade is in force at a height exactly if its activation height, or that
    of the next one that has any, was reached. *)
Lemma activation_reached n height nu :
  ordered_upgrades (activation_list n) → Forall (λ x, x.2 ≠ Nu7) (activation_list n) → nu ≠ Nu7 → 0 ≤ height →
  ∃ now, current n height = Ret now ∧
    (upgrade_lt now nu = false ↔ ∃ a, activation_height nu n = Some a ∧ a ≤ height).
Proof.
  intros Ho H7 Hnu Hh. destruct (current_spec n height Ho Hh) as (x & Hx & HxL & Hxh & Hmax).
  exists x.2. split; [done|]. unfold upgrade_lt. rewrite Z.ltb_ge. unfold activation_height.
  rewrite skip_while_upgrades by done. rewrite Forall_forall in H7. split.
  - intros Hle. destruct (first_activation_first n (filter (λ x, upgrade_index nu ≤ upgrade_index x) NETWORK_UPGRADES_IN_ORDER) x)
      as (y & Hy & Ha & Hyx); [apply upgrades_sorted|done| |].
    + apply list_elem_of_filter. split; [done|]. by apply upgrade_in_order, H7.
    + exists y.1. split; [done|]. transitivity x.1; [|done]. apply (sorted_before_elem (activation_list n)); [apply Ho|done..].
  - intros (a & (nu' & Ha & Hin)%first_activation_elem & Hle).
    apply list_elem_of_filter in Hin as [Hin _]. specialize (Hmax (a, nu') Ha Hle). cbn in Hmax. lia.
Qed.

(** ** Configured activation heights *)

Abbreviation by_height := (λ x y : Z * NetworkUpgrade, x.1 < y.1).

Lemma btree_insert_elem h nu m x :
  x ∈ btree_insert h nu m → x = (h, nu) ∨ x ∈ m.
Proof.
  induction m as [|[h' nu'] m IH]; cbn; [set_solver|].
  destruct (h <? h'); [set_solver|]. destruct (h =? h'); [set_solver|].
  intros [->|Hx%IH]%elem_of_cons; set_solver.
Qed.

Lemma btree_insert_sorted h nu m :
  StronglySorted by_height m → StronglySorted by_height (btree_insert h nu m).
Proof.
  induction 1 as [|[h' nu'] m Hs IH Hm]; cbn; [repeat constructor|].
  destruct (Z.ltb_spec h h').
  - constructor; [by constructor|]. constructor; [done|]. eapply Forall_impl; [exact Hm|]. cbn. lia.
  - destruct (Z.eqb_spec h h') as [->|].
    + by constructor.
    + constructor; [done|]. apply Forall_forall. intros x [->|Hx]%btree_insert_elem; [cbn; lia|].
      rewrite Forall_forall in Hm. by apply Hm.
Qed.

Lemma btree_extend_sorted l : ∀ m, StronglySorted by_height m → StronglySorted by_height (btree_extend m l).
Proof. unfold btree_extend. induction l as [|x l IH]; intros m Hm; [done|]. cbn. by apply IH, btree_insert_sorted. Qed.

Lemma btree_extend_elem l x : ∀ m, x ∈ btree_extend m l → x ∈ m ∨ x ∈ l.
Proof.
  unfold btree_extend. induction l as [|y l IH]; intros m; cbn; [auto|].
  intros [[->|?]%btree_insert_elem|?]%IH; [right; destruct y; set_solver|auto|set_solver].
Qed.

(** Inserting above all keys appends. *)
Lemma btree_insert_app h nu m : Forall (λ x, x.1 < h) m → btree_insert h nu m = m ++ [(h, nu)].
Proof.
  induction 1 as [|[h' nu'] m Hx Hm IH]; [done|]. cbn in *.
  rewrite (proj2 (Z.ltb_ge h h')), (proj2 (Z.eqb_neq h h')), IH by lia. done.
Qed.
Lemma btree_extend_app l : ∀ m,
  StronglySorted by_height l → Forall (λ y, Forall (λ x, x.1 < y.1) m) l → btree_extend m l = m ++ l.
Proof.
  unfold btree_extend. induction l as [|y l IH]; intros m Hl Hm; cbn; [by rewrite app_nil_r|].
  apply Forall_cons in Hm as [Hy Hm]. apply StronglySorted_inv in Hl as [Hl Hyl].
  rewrite btree_insert_app by done. destruct y as [h nu]. rewrite IH; [by rewrite <- app_assoc|done|].
  rewrite Forall_forall in Hm, Hyl. apply Forall_forall. intros z Hz. apply Forall_app. split; [by apply Hm|].
  constructor; [|constructor]. by apply Hyl.
Qed.

Lemma configured_heights_elem l l' x :
  configured_heights l = Ret l' → x ∈ l' → (Some x.1, x.2) ∈ l.
Proof.
  revert l'. induction l as [|[[h|] nu] l IH]; intros l'; cbn [configured_heights].
  - intros [= <-] Hx. by apply not_elem_of_nil in Hx.
  - intros (_ & _ & (r & Hr & [= <-])%bind_Ret_inv)%bind_Ret_inv [->|Hx]%elem_of_cons; [set_solver|].
    right. by eapply IH.
  - intros Hl Hx. right. by eapply IH.
Qed.

(** What the order check accepts is in the order of the upgrades. *)
Lemma check_order_sorted ups expected entries :
  StronglySorted (λ a b, upgrade_index a < upgrade_index b) expected →
  (∀ x, x ∈ entries → x.2 ∈ ups ∧ x.2 ∈ expected) → StronglySorted by_height entries → NoDup (map snd entries) →
  check_order ups expected entries = Ret () →
  StronglySorted before entries ∧ Forall (λ x, x.1 ≠ 0) entries.
Proof.
  intros Hs. revert entries. induction Hs as [|nu expected Hs IH Hnu]; intros entries He Hsorted Hnd; cbn [check_order].
  { destruct entries as [|x entries]; [repeat constructor|]. intros _. destruct (He x ltac:(set_solver)) as [_ H].
    by apply not_elem_of_nil in H. }
  case_decide as Hin.
  - destruct entries as [|[h nu'] entries]; [repeat constructor|].
    intros (_ & Hh%assert_Ret_inv & (_ & ->%assert_Ret_inv%bool_decide_eq_true & H)%bind_Ret_inv)%bind_Ret_inv.
    apply StronglySorted_inv in Hsorted as [Hsorted Hx]. cbn [map] in Hnd. apply NoDup_cons in Hnd as [Hn Hnd].
    assert (∀ x, x ∈ entries → x.2 ∈ ups ∧ x.2 ∈ expected) as He'.
    { intros x Hxe. destruct (He x ltac:(set_solver)) as [? Hex]. split; [done|].
      apply elem_of_cons in Hex as [E|]; [|done]. destruct Hn. cbn. rewrite <- E. exact (list_elem_of_fmap_2 snd _ _ Hxe). }
    destruct (IH entries He' Hsorted Hnd H) as [H1 H2]. split.
    + constructor; [done|]. rewrite Forall_forall in Hx. rewrite Forall_forall in Hnu. apply Forall_forall. intros x Hxe. split; [by apply Hx|].
      apply Hnu. by apply He'.
    + constructor; [cbn; lia|done].
  - apply IH; [|done|done]. intros x Hx. destruct (He x Hx) as [Hu [E|]%elem_of_cons]; [|done]. by rewrite E in Hu.
Qed.

Lemma btree_insert_upgrades h nu m :
  nu ∉ map snd m → NoDup (map snd m) → NoDup (map snd (btree_insert h nu m)).
Proof.
  induction m as [|[h' nu'] m IH]; intros Hn Hnd; cbn; [repeat constructor; set_solver|].
  cbn in Hn, Hnd. apply not_elem_of_cons in Hn as [Hne Hn]. pose proof Hnd as [Hn' Hnd']%NoDup_cons.
  destruct (h <? h'); [constructor; [set_solver|done]|]. destruct (h =? h'); [by constructor|].
  cbn. constructor; [|by apply IH]. intros (x & Ex & Hx)%list_elem_of_fmap. destruct x as [hx nux]. cbn in Ex. subst nux.
  apply btree_insert_elem in Hx as [[= _ ?]|Hx]; [congruence|]. apply Hn', (list_elem_of_fmap_2 snd _ _ Hx).
Qed.

Lemma btree_extend_upgrades l : ∀ m,
  NoDup (map snd m) → NoDup (map snd l) → (∀ x, x ∈ map snd l → x ∉ map snd m) → NoDup (map snd (btree_extend m l)).
Proof.
  unfold btree_extend. induction l as [|[h nu] l IH]; intros m Hm Hl Hd; cbn in *; [done|].
  apply NoDup_cons in Hl as [Hn Hl]. apply IH; [apply btree_insert_upgrades; [apply Hd; set_solver|done]|done|].
  intros x Hx (y & -> & Hy)%list_elem_of_fmap. apply btree_insert_elem in Hy as [->|Hy]; [by apply Hn|].
  eapply Hd; [by right|]. by apply (list_elem_of_fmap_2 snd).
Qed.

Lemma configured_heights_upgrades l l' :
  configured_heights l = Ret l' → NoDup (map snd l) → NoDup (map snd l').
Proof.
  revert l'. induction l as [|[[h|] nu] l IH]; intros l'; cbn [configured_heights map].
  - intros [= <-] _. constructor.
  - intros (_ & _ & (r & Hr & [= <-])%bind_Ret_inv)%bind_Ret_inv [Hn Hnd]%NoDup_cons.
    cbn. constructor; [|by apply IH]. intros (x & -> & Hx)%list_elem_of_fmap. apply Hn.
    apply (configured_heights_elem _ _ _ Hr) in Hx. by apply (list_elem_of_fmap_2 snd) in Hx.
  - intros Hl [_ Hnd]%NoDup_cons. by apply IH.
Qed.

Lemma configurable_after_genesis nu : nu ∈ configurable_upgrades → upgrade_index Genesis < upgrade_index nu.
Proof. revert nu. apply Forall_forall. repeat constructor. Qed.

Section builder.
Context {P : Profile}.

Lemma configured_zip c l' :
  length c = length configurable_upgrades → configured_heights (zip c configurable_upgrades) = Ret l' →
  NoDup (map snd l') ∧ ∀ x, x ∈ l' → x.2 ∈ configurable_upgrades ∧ Some x.1 ∈ c.
Proof.
  intros Hc H. split.
  - eapply configured_heights_upgrades; [exact H|].
    replace (map snd (zip c configurable_upgrades)) with configurable_upgrades
      by (symmetry; apply (snd_zip c configurable_upgrades); lia).
    apply (bool_decide_unpack _). by vm_compute.
  - intros x Hx%(configured_heights_elem _ _ _ H). split; [by apply elem_of_zip_r in Hx|by apply elem_of_zip_l in Hx].
Qed.

(** Setting the activation heights keeps the upgrades in order. *)
Lemma with_activation_heights_ordered c b b' :
  length c = length configurable_upgrades → Forall (λ o, ∀ h, o = Some h → 0 ≤ h) c →
  ordered_upgrades b.(building).(Parameters.activation_heights) →
  with_activation_heights c b = Ret b' →
  ordered_upgrades b'.(building).(Parameters.activation_heights).
Proof.
  intros Hlen Hc [Hs Hg]. unfold with_activation_heights. destruct (should_lock_funding_stream_address_period b); [done|].
  intros (l & Hl & (u & Hchk & H)%bind_Ret_inv)%bind_Ret_inv. destruct u.
  destruct (configured_zip c l Hlen Hl) as [Hnd Hin].
  destruct (building b) as [name magic genesis heights interval shift streams limit pow unshielded pre post lockbox].
  injection H as <-. cbn [building Parameters.activation_heights] in *.
  set (new := btree_extend [] l) in *.
  assert (StronglySorted by_height new) as Hnew by (apply btree_extend_sorted; constructor).
  assert (∀ x, x ∈ new → x ∈ l) as Hnl.
  { intros x [Hx|Hx]%btree_extend_elem; [by apply not_elem_of_nil in Hx|done]. }
  destruct (check_order_sorted (map snd new) (Genesis :: configurable_upgrades) new) as [Hord Hnz]; [..|done|].
  { repeat constructor. }
  { intros x Hx. split; [exact (list_elem_of_fmap_2 snd _ _ Hx)|]. right. by apply Hin, Hnl. }
  { done. }
  { apply btree_extend_upgrades; [constructor|done|]. intros ? _. apply not_elem_of_nil. }
  assert (filter (λ x, x.1 < 1) heights = [(0, Genesis)]) as ->.
  { destruct heights as [|x heights]; [done|]. injection Hg as ->. apply StronglySorted_inv in Hs as [_ Hs].
    rewrite filter_cons_True by (cbn; lia). f_equal. induction heights as [|y heights IH]; [done|]. apply Forall_cons in Hs as [[Hy _] Hs]. cbn in Hy.
    rewrite filter_cons_False by lia. by apply IH. }
  assert (∀ x, x ∈ new → before (0, Genesis) x) as Hpos.
  { intros x Hx. rewrite Forall_forall in Hnz. rewrite Forall_forall in Hc. specialize (Hnz x Hx).
    destruct (Hin x (Hnl x Hx)) as [Hup Hcx]. specialize (Hc _ Hcx x.1 eq_refl). split; [cbn [fst]; lia|].
    by apply configurable_after_genesis. }
  rewrite btree_extend_app; [|done|].
  - split; [|done]. cbn. constructor; [done|]. by apply Forall_forall.
  - apply Forall_forall. intros x Hx. constructor; [|constructor]. apply (Hpos x Hx).
Qed.

(** ** Checked funding streams *)

Lemma for_each_unit_inv {A} (g : A → outcome ()) l :
  for_each (λ _ x, g x) l () = Ret () → Forall (λ x, g x = Ret ()) l.
Proof.
  induction l as [|x l IH]; intros H; [constructor|]. apply bind_Ret_inv in H as ([] & Hx & H).
  constructor; [done|by apply IH].
Qed.

Lemma checked_addresses f n :
  check_funding_stream_address_period f n = Ret () → magic n ≠ CLT0_MAGIC → enough_addresses n f.
Proof.
  intros (k & Hk & H)%bind_Ret_inv Hm. rewrite decide_False in Hk by done.
  apply bind_Ret_inv in Hk as (e & He%unwrap_Ret_inv & Hk).
  assert (e = f.(height_range).2 - 1) as ->.
  { unfold height_sub in He. destruct (_ && _); [by injection He as <-|done]. }
  exists k. split; [done|]. intros receiver r Hr. destruct (decide (receiver = Deferred)) as [|Hd]; [by left|right].
  apply for_each_unit_inv in H as H'. rewrite Forall_forall in H'.
  specialize (H' (receiver, r) ltac:(by apply elem_of_map_to_list)). unfold check_recipient in H'. cbn in H'.
  rewrite decide_False in H' by done.
  apply bind_Ret_inv in H' as (_ & Hl%assert_Ret_inv & _). lia.
Qed.
End builder.

(** ** The theorems *)

Section theorems.
Context {P : Profile}.

(** On a network whose activation heights were accepted by its builder, and which
    does not use [Nu7], the upgrade in force at a height has reached or passed
    another upgrade exactly if the activation height of that upgrade was reached. *)
Theorem configured_upgrades c b b' height nu :
  length c = length configurable_upgrades → Forall (λ o, ∀ h, o = Some h → 0 ≤ h) c →
  ordered_upgrades b.(building).(Parameters.activation_heights) → with_activation_heights c b = Ret b' →
  Forall (λ x, x.2 ≠ Nu7) b'.(building).(Parameters.activation_heights) → nu ≠ Nu7 → 0 ≤ height →
  let n := to_network_unchecked b' in
  ∃ now, current n height = Ret now ∧
    (upgrade_lt now nu = false ↔ ∃ a, activation_height nu n = Some a ∧ a ≤ height).
Proof.
  intros Hlen Hc Ho Hb H7 Hnu Hh n. apply with_activation_heights_ordered in Hb; [|done..].
  assert (activation_list n = b'.(building).(Parameters.activation_heights)) as E.
  { unfold n, to_network_unchecked, finish. cbn. by destruct (building b'). }
  apply activation_reached; rewrite ?E; done.
Qed.

(** A network that its builder has checked, with a magic number that is not that
    of the Crosslink prototype, has an address for each receiver of a funding
    stream but the lockbox, at each height of the stream. *)
Theorem checked_network_pays b n height f receiver r :
  to_network b = Ret n → magic n ≠ CLT0_MAGIC → 48 ≤ post_blossom_halving_interval n →
  funding_streams n height = Some f → f.(recipients) !! receiver = Some r → receiver ≠ Deferred →
  ∃ a, funding_stream_address height n receiver = Ret (Some a) ∧ a ∈ r.(addresses).
Proof.
  intros ([] & H & [= <-])%bind_Ret_inv Hm Hp Hf Hr Hd. apply for_each_unit_inv in H. rewrite Forall_forall in H.
  apply funding_streams_elem in Hf as Hin. destruct Hin as [Hin _].
  assert (all_funding_streams (to_network_unchecked b) = b.(building).(Parameters.funding_streams)) as E.
  { unfold to_network_unchecked, finish. cbn. by destruct (building b). }
  destruct (address_found (to_network_unchecked b) height f receiver r) as (i & a & _ & Ha & Hi); [|done..| |].
  - unfold funding_stream_address_change_interval. pose proof (Z.quot_le_mono 48 (post_blossom_halving_interval (to_network_unchecked b)) 48).
    change (48 ÷ 48) with 1 in *. lia.
  - apply checked_addresses; [|done]. apply H. by rewrite <- E.
  - exists a. split; [done|]. by apply list_elem_of_lookup_2 in Hi.
Qed.
End theorems.

(** ** The network of the prototype *)

#[local] Instance checked : Profile := true.

Definition clt0_streams : FundingStreams :=
  {| height_range := (1, 99999999);
     recipients := {[MajorGrants := recipient 20 [p2sh KTestnet 0x0ebc92e6a0d0e92b3a3ab3933ca9425df1cfa6f9]]} |}.
Definition clt0 : Network :=
  Testnet (Parameters.mk "UnknownTestnet" CLT0_MAGIC TESTNET_GENESIS_HASH TESTNET_ACTIVATION_HEIGHTS 0 0
    [clt0_streams]
    (0x07ffff * 256 ^ 29) false false PRE_BLOSSOM_HALVING_INTERVAL POST_BLOSSOM_HALVING_INTERVAL
    NU6_1_LOCKBOX_DISBURSEMENTS_TESTNET).

Lemma crosslink_network_clt0 : crosslink_network = Ret clt0.
Proof. vm_compute. reflexivity. Qed.

Lemma clt0_period height :
  -1 ≤ height < 2 ^ 32 → funding_stream_address_period height clt0 = Ret ((height + 1) / 35000).
Proof.
  intros Hh. unfold funding_stream_address_period.
  assert (height_for_first_halving clt0 = Ret 1679999) as -> by (vm_compute; reflexivity). cbn [mbind outcome_bind].
  change (post_blossom_halving_interval clt0) with 1680000.
  change (funding_stream_address_change_interval clt0) with 35000.
  rewrite div_i64_pos by lia. cbn [mbind outcome_bind]. replace (height - 1679999 + 1680000) with (height + 1) by lia.
  apply expect_u32_ok. Z.div_mod_to_equations. lia.
Qed.

Lemma clt0_funding_streams height : 1 ≤ height < 99999999 → funding_streams clt0 height = Some clt0_streams.
Proof.
  intros Hh. unfold funding_streams. cbn [all_funding_streams clt0 Parameters.funding_streams find].
  unfold in_height_range. cbn [clt0_streams height_range fst snd].
  by rewrite (proj2 (Z.leb_le 1 height)), (proj2 (Z.ltb_lt height 99999999)) by lia.
Qed.

Lemma clt0_index height :
  1 ≤ height < 99999999 →
  funding_stream_address_index height clt0 MajorGrants =
  if height <? 34999 then Ret (Some 0%nat) else Panic.
Proof.
  intros Hh. unfold funding_stream_address_index. rewrite decide_False by done.
  rewrite clt0_funding_streams by done.
  unfold clt0_streams. cbn [recipients]. rewrite lookup_singleton_eq. cbn [height_range fst]. unfold periods_since.
  rewrite !clt0_period by lia. change ((1 + 1) / 35000) with 0. cbn [mbind outcome_bind].
  rewrite (expect_u32_ok (1 + _)) by (Z.div_mod_to_equations; lia). cbn [mbind outcome_bind].
  rewrite expect_u32_ok by (Z.div_mod_to_equations; lia). cbn [mbind outcome_bind addresses recipient length].
  destruct (Z.ltb_spec height 34999).
  - rewrite Z.div_small by lia. done.
  - rewrite (proj2 (Z.leb_gt _ (Z.of_nat 1))) by (Z.div_mod_to_equations; lia). by rewrite andb_false_r.
Qed.

(** The network that the prototype configures passes the checks of its builder,
    although its funding stream has one address for a height range of many address
    periods: from height 34,999 on, looking the address up panics. *)
Theorem crosslink_addresses_run_out :
  ∃ n, crosslink_network = Ret n ∧
    (∀ height, 1 ≤ height < 34999 → ∃ a, funding_stream_address height n MajorGrants = Ret (Some a)) ∧
    (∀ height, 34999 ≤ height < 99999999 → funding_stream_address height n MajorGrants = Panic).
Proof.
  exists clt0. split; [exact crosslink_network_clt0|]. unfold funding_stream_address. split; intros height Hh.
  - rewrite clt0_index by lia. rewrite (proj2 (Z.ltb_lt height 34999)) by lia. cbn [mbind outcome_bind option_bind].
    rewrite clt0_funding_streams by lia. cbn [mbind option_bind clt0_streams recipients].
    rewrite lookup_singleton_eq. eexists. reflexivity.
  - rewrite clt0_index by lia. by rewrite (proj2 (Z.ltb_ge height 34999)) by lia.
Qed.

(** ** A configured network *)

(** The upgrades up to Canopy at height 1, the later ones one by one. *)
Definition example_heights : ConfiguredActivationHeights :=
  [None; Some 1; Some 1; Some 1; Some 1; Some 1; Some 10; Some 20; None; None].

Lemma configured_upgrades_witness :
  ∃ b', with_activation_heights example_heights build = Ret b' ∧
    ∃ now, current (to_network_unchecked b') 15 = Ret now ∧
      (upgrade_lt now Nu5 = false ↔ ∃ a, activation_height Nu5 (to_network_unchecked b') = Some a ∧ a ≤ 15).
Proof.
  eexists. split; [vm_compute; reflexivity|].
  apply (configured_upgrades example_heights build); [done| |split; [|done]|vm_compute; reflexivity| |done|done].
  - repeat constructor; intros h [= <-]; lia.
  - repeat constructor.
  - repeat constructor; done.
Defined.

(** A network like that of the prototype, with as many addresses as it needs up to
    its height of 60,000. *)
Definition example_recipient : FundingStreamRecipient := recipient 20 [p2sh KTestnet 1; p2sh KTestnet 2].
Definition example_streams : FundingStreams :=
  {| height_range := (1, 60000); recipients := {[MajorGrants := example_recipient]} |}.
Definition example_builder : ParametersBuilder :=
  default build (
    match with_funding_streams
            [{| configured_height_range := Some (1, 60000);
                configured_recipients := Some [(MajorGrants, example_recipient)] |}]
            (with_slow_start_interval 0 build) with
    | Ret b => Some b
    | Panic => None
    end).

Lemma checked_network_pays_witness :
  ∃ a, funding_stream_address 34999 (to_network_unchecked example_builder) MajorGrants = Ret (Some a) ∧
    a ∈ example_recipient.(addresses).
Proof.
  apply (checked_network_pays example_builder (to_network_unchecked example_builder) 34999 example_streams
           MajorGrants example_recipient).
  - vm_compute. reflexivity.
  - vm_compute. discriminate.
  - by vm_compute.
  - vm_compute. reflexivity.
  - reflexivity.
  - done.
Defined.
