(* ===== verification/Transaction.v ===== *)
(** * Transaction: transactions and their context-free checks

    Models [zebra-chain/src/transaction.rs] (the versions of a transaction and
    their accessors), [transaction/lock_time.rs] and the checks of
    [zebra-consensus/src/transaction/check.rs].

    Of JoinSplits, Sapling and Orchard data the model keeps amounts, nullifiers,
    flags and the number of outputs; proofs, signatures, ciphertexts and note
    commitments are left out.  A time is its number of seconds.  Version 6 is
    behind a feature that is off. *)

From stdpp Require Import base list gmap.
From S2P Require Import Prelude Wire Encoding Roster Amount Staking Transparent Network.
Import StakingAction.

(** ** Lock times *)

Inductive LockTime := LockHeight (height : Z) | LockTimestamp (time : Z).
#[global] Instance LockTime_eq_dec : EqDecision LockTime.
Proof. solve_decision. Defined.

Definition MIN_TIMESTAMP : Z := 500000000.
Definition unlocked : LockTime := LockHeight 0.

(** [ZcashSerialize] and [ZcashDeserialize]; a timestamp outside [u32] panics. *)
Definition lock_time_serialize (l : LockTime) : outcome bytes :=
  match l with
  | LockHeight n => Ret (to_le 4 n)
  | LockTimestamp t => if in_range 32 t then Ret (to_le 4 t) else Panic
  end.
Definition lock_time_deserialize : Reader LockTime :=
  n ← read_uint 4; mret (if n <? MIN_TIMESTAMP then LockHeight n else LockTimestamp n).

(** ** Shielded data *)

Record JoinSplit := {
  vpub_old : Z;
  vpub_new : Z;
  js_nullifiers : list bytes }.

(** [sapling::ShieldedData]: the nullifiers of its spends, and its outputs. *)
Record SaplingData := {
  sapling_balance : Z;
  sapling_spends : list bytes;
  sapling_outputs_n : nat }.

(** [orchard::ShieldedData]: one nullifier for each action. *)
Record OrchardData := {
  enable_spends : bool;
  enable_outputs : bool;
  orchard_balance : Z;
  orchard_spends : list bytes }.

(** ** Transactions *)

Inductive Transaction :=
| V1 (inputs : list Input) (outputs : list Output) (lock_time : LockTime)
| V2 (inputs : list Input) (outputs : list Output) (lock_time : LockTime) (joinsplits : option (list JoinSplit))
| V3 (inputs : list Input) (outputs : list Output) (lock_time : LockTime) (expiry_height : Z)
     (joinsplits : option (list JoinSplit))
| V4 (inputs : list Input) (outputs : list Output) (lock_time : LockTime) (expiry_height : Z)
     (joinsplits : option (list JoinSplit)) (sapling : option SaplingData)
| V5 (network_upgrade : NetworkUpgrade) (lock_time : LockTime) (expiry_height : Z) (inputs : list Input)
     (outputs : list Output) (sapling : option SaplingData) (orchard : option OrchardData)
| VCrosslink (network_upgrade : NetworkUpgrade) (lock_time : LockTime) (expiry_height : Z) (inputs : list Input)
     (outputs : list Output) (sapling : option SaplingData) (orchard : option OrchardData)
     (staking_action : option StakingAction.t).

Definition is_overwintered (tx : Transaction) : bool :=
  match tx with V1 _ _ _ | V2 _ _ _ _ => false | _ => true end.
Definition version (tx : Transaction) : Z :=
  match tx with
  | V1 _ _ _ => 1 | V2 _ _ _ _ => 2 | V3 _ _ _ _ _ => 3 | V4 _ _ _ _ _ _ => 4
  | V5 _ _ _ _ _ _ _ => 5 | VCrosslink _ _ _ _ _ _ _ _ => 7
  end.
Definition inputs (tx : Transaction) : list Input :=
  match tx with
  | V1 i _ _ | V2 i _ _ _ | V3 i _ _ _ _ | V4 i _ _ _ _ _ | V5 _ _ _ i _ _ _ | VCrosslink _ _ _ i _ _ _ _ => i
  end.
Definition outputs (tx : Transaction) : list Output :=
  match tx with
  | V1 _ o _ | V2 _ o _ _ | V3 _ o _ _ _ | V4 _ o _ _ _ _ | V5 _ _ _ _ o _ _ | VCrosslink _ _ _ _ o _ _ _ => o
  end.
Definition raw_lock_time (tx : Transaction) : LockTime :=
  match tx with
  | V1 _ _ l | V2 _ _ l _ | V3 _ _ l _ _ | V4 _ _ l _ _ _ | V5 _ l _ _ _ _ _ | VCrosslink _ l _ _ _ _ _ _ => l
  end.
Definition joinsplits (tx : Transaction) : list JoinSplit :=
  match tx with
  | V2 _ _ _ (Some j) | V3 _ _ _ _ (Some j) | V4 _ _ _ _ (Some j) _ => j
  | _ => []
  end.
Definition sapling_shielded_data (tx : Transaction) : option SaplingData :=
  match tx with
  | V4 _ _ _ _ _ s | V5 _ _ _ _ _ s _ | VCrosslink _ _ _ _ _ s _ _ => s
  | _ => None
  end.
Definition orchard_shielded_data (tx : Transaction) : option OrchardData :=
  match tx with V5 _ _ _ _ _ _ o | VCrosslink _ _ _ _ _ _ o _ => o | _ => None end.
Definition staking_action (tx : Transaction) : option StakingAction.t :=
  match tx with VCrosslink _ _ _ _ _ _ _ s => s | _ => None end.
Definition network_upgrade (tx : Transaction) : option NetworkUpgrade :=
  match tx with V5 nu _ _ _ _ _ _ | VCrosslink nu _ _ _ _ _ _ _ => Some nu | _ => None end.

(** A height of zero is no limit. *)
Definition expiry_height (tx : Transaction) : option Z :=
  match tx with
  | V1 _ _ _ | V2 _ _ _ _ => None
  | V3 _ _ _ h _ | V4 _ _ _ h _ _ | V5 _ _ h _ _ _ _ | VCrosslink _ _ h _ _ _ _ _ => if h =? 0 then None else Some h
  end.

(** [Transaction::lock_time]: only transactions with a sequence number that
    enables it have one. *)
Definition lock_time (tx : Transaction) : option LockTime :=
  let l := raw_lock_time tx in
  if decide (l = unlocked) then None
  else if existsb (λ i, negb (sequence_of i =? 2 ^ 32 - 1)) (inputs tx) then Some l else None.

Definition lock_time_is_time (tx : Transaction) : bool :=
  match lock_time tx with Some (LockTimestamp _) => true | _ => false end.

Definition spent_outpoints (tx : Transaction) : list OutPoint := omap outpoint_of (inputs tx).
Definition is_coinbase (tx : Transaction) : bool :=
  match inputs tx with [Coinbase _ _] => true | _ => false end.
Definition is_valid_non_coinbase (tx : Transaction) : bool :=
  forallb (λ i, match i with PrevOut _ _ => true | Coinbase _ _ => false end) (inputs tx).

Definition joinsplit_count (tx : Transaction) : nat := length (joinsplits tx).
Definition sprout_nullifiers (tx : Transaction) : list bytes := concat (map js_nullifiers (joinsplits tx)).
Definition sapling_nullifiers (tx : Transaction) : list bytes :=
  match sapling_shielded_data tx with Some s => s.(sapling_spends) | None => [] end.
Definition sapling_outputs (tx : Transaction) : nat :=
  match sapling_shielded_data tx with Some s => s.(sapling_outputs_n) | None => 0 end.
Definition orchard_nullifiers (tx : Transaction) : list bytes :=
  match orchard_shielded_data tx with Some o => o.(orchard_spends) | None => [] end.
Definition flag (f : OrchardData → bool) (tx : Transaction) : bool :=
  match orchard_shielded_data tx with Some o => f o | None => false end.

Definition has_shielded_inputs (tx : Transaction) : bool :=
  bool_decide (0 < joinsplit_count tx)%nat || bool_decide (0 < length (sapling_nullifiers tx))%nat
  || (bool_decide (0 < length (orchard_nullifiers tx))%nat && flag enable_spends tx).
Definition has_shielded_outputs (tx : Transaction) : bool :=
  bool_decide (0 < joinsplit_count tx)%nat || bool_decide (0 < sapling_outputs tx)%nat
  || (bool_decide (0 < length (orchard_nullifiers tx))%nat && flag enable_outputs tx).
Definition has_transparent_or_shielded_inputs (tx : Transaction) : bool :=
  bool_decide (0 < length (inputs tx))%nat || has_shielded_inputs tx.
Definition has_transparent_or_shielded_outputs (tx : Transaction) : bool :=
  bool_decide (0 < length (outputs tx))%nat || has_shielded_outputs tx.
Definition has_enough_orchard_flags (tx : Transaction) : bool :=
  (version tx <? 5) || bool_decide (length (orchard_nullifiers tx) = 0)%nat
  || flag enable_spends tx || flag enable_outputs tx.

Definition coinbase_spend_restriction (n : Network) (spend_height : Z) (tx : Transaction) : CoinbaseSpendRestriction :=
  if bool_decide (length (outputs tx) = 0)%nat || unshielded_coinbase_spends n
  then CheckCoinbaseMaturity spend_height else DisallowCoinbaseSpend.

(** ** Checks *)

Inductive TransactionError :=
| NoInputs | NoOutputs | NotEnoughFlags
| CoinbasePosition | CoinbaseAfterFirst | NonCoinbaseHasCoinbaseInput
| CoinbaseHasJoinSplit | CoinbaseHasSpend | CoinbaseHasEnableSpendsOrchard
| BothVPubsNonZero | DisabledAddToSproutPool
| DuplicateTransparentSpend (outpoint : OutPoint)
| DuplicateSproutNullifier (nullifier : bytes)
| DuplicateSaplingNullifier (nullifier : bytes)
| DuplicateOrchardNullifier (nullifier : bytes)
| LockedUntilAfterBlockHeight (height : Z)
| LockedUntilAfterBlockTime (time : Z)
| CoinbaseExpiryBlockHeight (expiry_height : option Z) (block_height : Z)
| MaximumExpiryHeight (expiry_height : Z) (is_coinbase : bool)
| ExpiredTransaction (expiry_height block_height : Z)
| MissingConsensusBranchId | WrongConsensusBranchId
| NotCoinbase | CoinbaseOutputsNotDecryptable
| IncorrectFee | WrongVersion
| UnsupportedByNetworkUpgrade
| Staking (e : StakingError)
| CoinbaseInMempool
| TransparentInputNotFound
| CoinbaseSpend
| OtherCheck.

Abbreviation Checked := (Fallible TransactionError ()).

(** A transaction with a staking action needs neither inputs nor outputs. *)
Definition has_inputs_and_outputs (tx : Transaction) : Checked :=
  if decide (is_Some (staking_action tx)) then mret () else
  _ ← ensure (has_transparent_or_shielded_inputs tx) NoInputs;
  ensure (has_transparent_or_shielded_outputs tx) NoOutputs.

(** [check::has_enough_orchard_flags] *)
Definition check_orchard_flags (tx : Transaction) : Checked := ensure (has_enough_orchard_flags tx) NotEnoughFlags.

Definition coinbase_tx_no_prevout_joinsplit_spend (tx : Transaction) : Checked :=
  if is_coinbase tx then
    _ ← ensure (bool_decide (joinsplit_count tx = 0)%nat) CoinbaseHasJoinSplit;
    _ ← ensure (bool_decide (length (sapling_nullifiers tx) = 0)%nat) CoinbaseHasSpend;
    ensure (negb (flag enable_spends tx)) CoinbaseHasEnableSpendsOrchard
  else mret ().

Definition joinsplit_has_vpub_zero (tx : Transaction) : Checked :=
  ensure (forallb (λ j, (j.(vpub_old) =? 0) || (j.(vpub_new) =? 0)) (joinsplits tx)) BothVPubsNonZero.

Definition disabled_add_to_sprout_pool (n : Network) (height : Z) (tx : Transaction) : Checked :=
  canopy ← expect_some (activation_height Canopy n);
  if canopy <=? height
  then ensure (forallb (λ j, j.(vpub_old) =? 0) (joinsplits tx)) DisabledAddToSproutPool
  else mret ().

(** [check_for_duplicates]: the first item that was seen before. *)
Fixpoint first_duplicate `{EqDecision A} (seen l : list A) : option A :=
  match l with
  | [] => None
  | x :: l => if decide (x ∈ seen) then Some x else first_duplicate (x :: seen) l
  end.
Definition check_for_duplicates `{EqDecision A} (l : list A) (error_wrapper : A → TransactionError) : Checked :=
  match first_duplicate [] l with Some x => fail (error_wrapper x) | None => mret () end.

Definition spend_conflicts (tx : Transaction) : Checked :=
  _ ← check_for_duplicates (spent_outpoints tx) DuplicateTransparentSpend;
  _ ← check_for_duplicates (sprout_nullifiers tx) DuplicateSproutNullifier;
  _ ← check_for_duplicates (sapling_nullifiers tx) DuplicateSaplingNullifier;
  check_for_duplicates (orchard_nullifiers tx) DuplicateOrchardNullifier.

Definition lock_time_has_passed (block_height : Z) (block_time : option Z) (tx : Transaction) : Checked :=
  match lock_time tx with
  | Some (LockHeight unlock_height) =>
      ensure (unlock_height <? block_height) (LockedUntilAfterBlockHeight unlock_height)
  | Some (LockTimestamp unlock_time) =>
      block_time ← expect_some block_time;
      ensure (unlock_time <? block_time) (LockedUntilAfterBlockTime unlock_time)
  | None => mret ()
  end.

Definition MAX_EXPIRY_HEIGHT : Z := 499999999.
Definition validate_expiry_height_max (e : option Z) (is_coinbase : bool) : Checked :=
  match e with
  | Some h => ensure (h <=? MAX_EXPIRY_HEIGHT) (MaximumExpiryHeight h is_coinbase)
  | None => mret ()
  end.
Definition validate_expiry_height_mined (e : option Z) (block_height : Z) : Checked :=
  match e with
  | Some h => ensure (block_height <=? h) (ExpiredTransaction h block_height)
  | None => mret ()
  end.
Definition coinbase_expiry_height (n : Network) (block_height : Z) (tx : Transaction) : Checked :=
  let e := expiry_height tx in
  if match activation_height Nu5 n with Some nu5 => nu5 <=? block_height | None => false end
  then ensure (bool_decide (e = Some block_height)) (CoinbaseExpiryBlockHeight e block_height)
  else validate_expiry_height_max e true.
Definition non_coinbase_expiry_height (block_height : Z) (tx : Transaction) : Checked :=
  if is_overwintered tx then
    _ ← validate_expiry_height_max (expiry_height tx) false;
    validate_expiry_height_mined (expiry_height tx) block_height
  else mret ().

Definition consensus_branch_id (n : Network) (height : Z) (tx : Transaction) : Checked :=
  current_nu ← run (current n height);
  if upgrade_lt current_nu Nu5 || (version tx <? 5) then mret () else
  tx_nu ← ok_or (network_upgrade tx) MissingConsensusBranchId;
  ensure (bool_decide (tx_nu = current_nu)) WrongConsensusBranchId.

(** The upgrades that a version 4 or 5 transaction can be mined in. *)
Definition verify_v4_transaction_network_upgrade (nu : NetworkUpgrade) : Checked :=
  match nu with
  | Sapling | Blossom | Heartwood | Canopy | Nu5 | Nu6 | Nu6_1 => mret ()
  | Genesis | BeforeOverwinter | Overwinter | Nu7 => fail UnsupportedByNetworkUpgrade
  end.
Definition verify_v5_transaction_network_upgrade (nu : NetworkUpgrade) : Checked :=
  match nu with
  | Nu5 | Nu6 | Nu6_1 | Nu7 => mret ()
  | _ => fail UnsupportedByNetworkUpgrade
  end.

(** ** Lemmas *)

Lemma first_duplicate_None `{EqDecision A} (l : list A) : ∀ seen,
  first_duplicate seen l = None → NoDup l ∧ Forall (λ x, x ∉ seen) l.
Proof.
  induction l as [|x l IH]; intros seen; cbn; [by repeat constructor|].
  case_decide as Hx; [done|]. intros [Hnd Hl]%IH. split.
  - constructor; [|done]. intros Hin. eapply Forall_forall in Hl; [|done]. set_solver.
  - constructor; [done|]. eapply Forall_impl; [exact Hl|]. set_solver.
Qed.

Lemma check_for_duplicates_ok `{EqDecision A} (l : list A) wrap :
  check_for_duplicates l wrap = Ret (inr ()) → NoDup l.
Proof.
  unfold check_for_duplicates. destruct (first_duplicate [] l) eqn:E; [done|].
  by apply first_duplicate_None in E as [? _].
Qed.
