(* ===== verification/Delegation.v ===== *)
(** * Delegation: delegation bonds in the PoW state

    Models the delegation bonds of [zebra-state]: the checks of a block
    ([service/check/delegation.rs]) and the bonds, rewards and value pools of a
    non-finalized chain as blocks are added to and taken off its tip
    ([non_finalized_state/chain.rs]).  What is written when a block is finalized
    is in [Finalize], the chains as a whole in [NonFinalized].

    A block is the list of the staking actions of its transactions and its
    value pool change.  The order in which a [HashMap] is iterated is the
    parameter [iter]. *)

From stdpp Require Import base list gmap sets.
From S2P Require Import Prelude Wire Encoding Bft Roster Amount Staking.
Import StakingAction.

Definition BondKey : Type := bytes.
#[global] Instance BondKey_eq_dec : EqDecision BondKey := list_eq_dec.
#[global] Instance BondKey_countable : Countable BondKey := list_countable.

(** [TransactionLocation]: height and index of the transaction. *)
Definition TransactionLocation : Type := Z * Z.

Record DelegationBond := {
  bond_amount : Z;
  target_finalizer : bytes;
  created_at : TransactionLocation }.

Inductive BondStatusInChain := Active | Unbonding | Withdrawn.
#[global] Instance BondStatusInChain_eq_dec : EqDecision BondStatusInChain.
Proof. solve_decision. Defined.

(** [BondStatus] of the database. *)
Inductive BondStatus :=
| DbActive
| DbUnbonding (unbonded_at : TransactionLocation)
| DbWithdrawn (withdrawn_at : TransactionLocation).

Definition is_active (s : BondStatus) : bool := match s with DbActive => true | _ => false end.
Definition is_unbonding (s : BondStatus) : bool := match s with DbUnbonding _ => true | _ => false end.

Abbreviation Bonds := (gmap BondKey (DelegationBond * BondStatusInChain)).

(** ** State *)

(** The two column families of the database. *)
Record ZebraDb := {
  delegation_bond_by_key : gmap BondKey DelegationBond;
  bond_status_by_key : gmap BondKey BondStatus }.

Definition is_bond_active (db : ZebraDb) (k : BondKey) : bool :=
  match db.(bond_status_by_key) !! k with Some s => is_active s | None => false end.

(** The delegation part of [ChainInner]. *)
Module Chain.
Record t := mk {
  delegation_bonds : Bonds;
  bond_rewards : list (list (BondKey * Z));
  bond_retargets : list (gmap BondKey bytes);
  chain_value_pools : ValueBalance.t }.

(** [Chain::new] from the finalized bonds. *)
Definition new (db : ZebraDb) (pools : ValueBalance.t) : t :=
  mk (merge (λ b s, b ← b; s ← s;
              Some (b, match s with
                       | DbActive => Active
                       | DbUnbonding _ => Unbonding
                       | DbWithdrawn _ => Withdrawn
                       end))
      db.(delegation_bond_by_key) db.(bond_status_by_key))
  [] [] pools.

Definition with_bonds (c : t) (bs : Bonds) : t :=
  mk bs c.(bond_rewards) c.(bond_retargets) c.(chain_value_pools).
Definition with_pools (c : t) (v : ValueBalance.t) : t :=
  mk c.(delegation_bonds) c.(bond_rewards) c.(bond_retargets) v.
Definition with_rewards (c : t) (r : list (list (BondKey * Z))) : t :=
  mk c.(delegation_bonds) r c.(bond_retargets) c.(chain_value_pools).
Definition with_retargets (c : t) (r : list (gmap BondKey bytes)) : t :=
  mk c.(delegation_bonds) c.(bond_rewards) r c.(chain_value_pools).
End Chain.
Import Chain.

(** ** Checking a block *)

Inductive InvalidDelegationBond :=
| DuplicateInBlock (k : BondKey)
| AlreadyExists (k : BondKey)
| AlreadyExistsFinalized (k : BondKey)
| InvalidAmount (e : AmountError)
| AlreadyUnbondingInBlock (k : BondKey)
| AlreadyUnbonding (k : BondKey)
| AlreadyWithdrawn (k : BondKey)
| NotActive (k : BondKey)
| NotUnbonded (k : BondKey)
| AmountMismatch (withdrawal bond : Z) (k : BondKey)
| NotFound (k : BondKey)
| RetargetUnbonding (k : BondKey)
| RetargetWithdrawn (k : BondKey)
| RetargetNotActive (k : BondKey)
| RetargetNotFound (k : BondKey)
| BondedUnderflow (e : AmountError)
| UnbondedOverflow (e : AmountError)
| AddValuePool (e : ValueBalanceError).

Section checks.
Context (chain : Chain.t) (db : ZebraDb).

Definition validate_create_new_bond (k : BondKey) (new_bonds : gmap BondKey DelegationBond)
    : InvalidDelegationBond + () :=
  if decide (is_Some (new_bonds !! k)) then inl (DuplicateInBlock k)
  else if decide (is_Some (chain.(delegation_bonds) !! k)) then inl (AlreadyExists k)
  else if decide (is_Some (db.(delegation_bond_by_key) !! k)) then inl (AlreadyExistsFinalized k)
  else inr ().

Definition validate_bond_for_unbonding (k : BondKey) (new_bonds : gmap BondKey DelegationBond)
    (unbonding_bonds : gset BondKey) : InvalidDelegationBond + () :=
  if decide (k ∈ unbonding_bonds) then inl (AlreadyUnbondingInBlock k)
  else if decide (is_Some (new_bonds !! k)) then inr ()
  else match chain.(delegation_bonds) !! k with
       | Some (_, Active) => inr ()
       | Some (_, Unbonding) => inl (AlreadyUnbonding k)
       | Some (_, Withdrawn) => inl (AlreadyWithdrawn k)
       | None =>
           if decide (is_Some (db.(delegation_bond_by_key) !! k)) then
             if is_bond_active db k then inr () else inl (NotActive k)
           else inl (NotFound k)
       end.

Definition validate_bond_for_withdrawal (k : BondKey) (withdrawal_amount : Z)
    : InvalidDelegationBond + () :=
  match chain.(delegation_bonds) !! k with
  | Some (bond, Unbonding) =>
      if withdrawal_amount =? bond.(bond_amount) then inr ()
      else inl (AmountMismatch withdrawal_amount bond.(bond_amount) k)
  | Some (_, Active) => inl (NotUnbonded k)
  | Some (_, Withdrawn) => inl (AlreadyWithdrawn k)
  | None => inl (NotFound k)
  end.

Definition validate_bond_for_retarget (k : BondKey) (new_bonds : gmap BondKey DelegationBond)
    : InvalidDelegationBond + () :=
  if decide (is_Some (new_bonds !! k)) then inr ()
  else match chain.(delegation_bonds) !! k with
       | Some (_, Active) => inr ()
       | Some (_, Unbonding) => inl (RetargetUnbonding k)
       | Some (_, Withdrawn) => inl (RetargetWithdrawn k)
       | None =>
           if decide (is_Some (db.(delegation_bond_by_key) !! k)) then
             if is_bond_active db k then inr () else inl (RetargetNotActive k)
           else inl (RetargetNotFound k)
       end.

(** The loop of [validate_delegation_bonds] over the transactions, with the
    bonds created and unbonded so far in the block. *)
Fixpoint validate_loop (height : Z) (txs : list (option StakingAction.t))
    (new_bonds : gmap BondKey DelegationBond) (unbonding_bonds : gset BondKey)
    : Fallible InvalidDelegationBond () :=
  match txs with
  | [] => mret ()
  | None :: txs => validate_loop height txs new_bonds unbonding_bonds
  | Some a :: txs =>
      let k : BondKey := a.(arg32_0) in
      match a.(kind) with
      | CreateNewDelegationBond =>
          _ ← (Ret (validate_create_new_bond k new_bonds) : Fallible _ ());
          amount ← map_err InvalidAmount (Amount.try_from NonNegative a.(amount_zats));
          validate_loop height txs
            (<[k := {| bond_amount := amount; target_finalizer := a.(arg32_2);
                     created_at := (height, 0) |}]> new_bonds) unbonding_bonds
      | BeginDelegationUnbonding =>
          _ ← (Ret (validate_bond_for_unbonding k new_bonds unbonding_bonds) : Fallible _ ());
          validate_loop height txs new_bonds ({[k]} ∪ unbonding_bonds)
      | WithdrawDelegationBond =>
          _ ← (Ret (validate_bond_for_withdrawal k a.(amount_zats)) : Fallible _ ());
          validate_loop height txs new_bonds unbonding_bonds
      | RetargetDelegationBond =>
          _ ← (Ret (validate_bond_for_retarget k new_bonds) : Fallible _ ());
          validate_loop height txs new_bonds unbonding_bonds
      | _ => validate_loop height txs new_bonds unbonding_bonds
      end
  end.

Definition validate_delegation_bonds (height : Z) (txs : list (option StakingAction.t))
    : Fallible InvalidDelegationBond () := validate_loop height txs ∅ ∅.
End checks.

(** ** Adding a block to the tip *)

Definition with_target (b : DelegationBond) (t : bytes) : DelegationBond :=
  {| bond_amount := b.(bond_amount); target_finalizer := t; created_at := b.(created_at) |}.
Definition with_amount (b : DelegationBond) (a : Z) : DelegationBond :=
  {| bond_amount := a; target_finalizer := b.(target_finalizer); created_at := b.(created_at) |}.
Definition moved_at (b : DelegationBond) (l : TransactionLocation) : DelegationBond :=
  {| bond_amount := b.(bond_amount); target_finalizer := b.(target_finalizer); created_at := l |}.

Definition staking_bonded (c : Chain.t) : Z := c.(chain_value_pools).(ValueBalance.staking_bonded).
Definition staking_unbonded (c : Chain.t) : Z := c.(chain_value_pools).(ValueBalance.staking_unbonded).
Definition set_bonded (c : Chain.t) (a : Z) : Chain.t :=
  with_pools c (ValueBalance.set_staking_bonded_amount c.(chain_value_pools) a).
Definition set_unbonded (c : Chain.t) (a : Z) : Chain.t :=
  with_pools c (ValueBalance.set_staking_unbonded_amount c.(chain_value_pools) a).

Definition update_chain_tip_with_delegation_bond (c : Chain.t) (a : StakingAction.t)
    (loc : TransactionLocation) : Fallible InvalidDelegationBond Chain.t :=
  let k : BondKey := a.(arg32_0) in
  match a.(kind) with
  | CreateNewDelegationBond =>
      match Amount.try_from NonNegative a.(amount_zats) with
      | Ret (inr amount) =>
          let bond := {| bond_amount := amount; target_finalizer := a.(arg32_2); created_at := loc |} in
          _ ← must (bool_decide (c.(delegation_bonds) !! k = None));
          mret (with_bonds c (<[k := (bond, Active)]> c.(delegation_bonds)))
      | _ => Panic
      end
  | BeginDelegationUnbonding =>
      '(bond, _) ← expect_some (c.(delegation_bonds) !! k);
      let c := with_bonds c (<[k := (moved_at bond loc, Unbonding)]> c.(delegation_bonds)) in
      new_bonded ← map_err BondedUnderflow
                     (Amount.sub NonNegative (staking_bonded c) bond.(bond_amount));
      let c := set_bonded c new_bonded in
      new_unbonded ← map_err UnbondedOverflow
                       (Amount.add NonNegative (staking_unbonded c) bond.(bond_amount));
      mret (set_unbonded c new_unbonded)
  | WithdrawDelegationBond =>
      '(bond, _) ← expect_some (c.(delegation_bonds) !! k);
      mret (with_bonds c (<[k := (moved_at bond loc, Withdrawn)]> c.(delegation_bonds)))
  | RetargetDelegationBond =>
      '(bond, st) ← expect_some (c.(delegation_bonds) !! k);
      retargets ← expect_some (last c.(bond_retargets));
      let retargets := if decide (is_Some (retargets !! k)) then retargets
                       else <[k := bond.(target_finalizer)]> retargets in
      mret (with_bonds
              (with_retargets c (take (length c.(bond_retargets) - 1) c.(bond_retargets) ++ [retargets]))
              (<[k := (with_target bond a.(arg32_2), st)]> c.(delegation_bonds)))
  | _ => mret c
  end.

(** *** Rewards *)

Definition BOND_REWARD_TOTAL : Z := 500000000.

Abbreviation Items := (list (BondKey * (DelegationBond * BondStatusInChain))).

Definition active (x : BondKey * (DelegationBond * BondStatusInChain)) : bool :=
  bool_decide (x.2.2 = Active).

Section rewards.
Context `{Profile} (iter : Bonds → Items).

(** The biggest bond, the smaller key winning a tie, and the total staked. *)
Definition max_step (acc : BondKey * Z * Z) (x : BondKey * (DelegationBond * BondStatusInChain))
    : outcome (BondKey * Z * Z) :=
  let '(max_staker, biggest, total) := acc in
  let amount := x.2.1.(bond_amount) in
  total ← arith 64 (total + amount);
  Ret (if (biggest <? amount)
       || ((amount =? biggest) && bool_decide (bytes_cmp x.1 max_staker = Lt))
       then (x.1, amount, total) else (max_staker, biggest, total)).

(** [bond.amount = (bond.amount + Amount::new(reward as i64)).unwrap()] *)
Definition pay (b : DelegationBond) (reward : Z) : outcome DelegationBond :=
  r ← Amount.new (u64_as_i64 reward);
  a ← expect (Amount.add NonNegative b.(bond_amount) r);
  Ret (with_amount b a).

(** One step of the reward loop: the bonds, what was paid so far and to
    whom. *)
Definition pay_step (max_staker : BondKey) (total : Z) (acc : Bonds * Z * list (BondKey * Z))
    (x : BondKey * (DelegationBond * BondStatusInChain)) : outcome (Bonds * Z * list (BondKey * Z)) :=
  let '(bonds, so_far, store) := acc in
  if active x && bool_decide (x.1 ≠ max_staker) then
    if total =? 0 then Panic else
    let reward := (x.2.1.(bond_amount) * BOND_REWARD_TOTAL / total) mod 2 ^ 64 in
    so_far ← arith 64 (so_far + reward);
    b ← pay x.2.1 reward;
    Ret (<[x.1 := (b, x.2.2)]> bonds, so_far, store ++ [(x.1, reward)])
  else Ret acc.

Definition distribute_rewards (bonds : Bonds) : outcome (Bonds * list (BondKey * Z)) :=
  match filter (λ x, active x = true) (iter bonds) with
  | [] => Ret (bonds, [])
  | first :: others =>
      t ← arith 64 (0 + first.2.1.(bond_amount));
      '(max_staker, _, total) ← for_each max_step others (first.1, first.2.1.(bond_amount), t);
      '(bonds, so_far, store) ← for_each (pay_step max_staker total) (iter bonds) (bonds, 0, []);
      x ← unwrap (bonds !! max_staker);
      reward ← arith 64 (BOND_REWARD_TOTAL - so_far);
      b ← pay x.1 reward;
      Ret (<[max_staker := (b, x.2)]> bonds, store ++ [(max_staker, reward)])
  end.

(** The end of [update_chain_tip_with_block_except_trees]. *)
Definition apply_rewards (c : Chain.t) : outcome Chain.t :=
  if decide (filter (λ x, active x = true) (iter c.(delegation_bonds)) = []) then
    Ret (with_rewards c (c.(bond_rewards) ++ [[]]))
  else
  '(bonds, store) ← distribute_rewards c.(delegation_bonds);
  r ← Amount.new BOND_REWARD_TOTAL;
  bonded ← expect (Amount.add NonNegative (staking_bonded c) r);
  Ret (with_rewards (set_bonded (with_bonds c bonds) bonded) (c.(bond_rewards) ++ [store])).

Fixpoint update_actions (height : Z) (i : Z) (txs : list (option StakingAction.t)) (c : Chain.t)
    : Fallible InvalidDelegationBond Chain.t :=
  match txs with
  | [] => mret c
  | tx :: txs =>
      c ← (match tx with
           | Some a => update_chain_tip_with_delegation_bond c a (height, i)
           | None => mret c
           end);
      update_actions height (i + 1) txs c
  end.

(** The delegation part of [update_chain_tip_with_block_except_trees]. *)
Definition update_block (height : Z) (txs : list (option StakingAction.t))
    (change : ValueBalance.t) (c : Chain.t) : Fallible InvalidDelegationBond Chain.t :=
  let c := with_retargets c (c.(bond_retargets) ++ [∅]) in
  c ← update_actions height 0 txs c;
  pools ← map_err AddValuePool
      (ValueBalance.add_chain_value_pool_change c.(chain_value_pools) change);
  match apply_rewards (with_pools c pools) with
  | Ret c => mret c
  | Panic => Panic
  end.
End rewards.

(** ** Taking the tip off *)

Definition revert_delegation_bond (c : Chain.t) (a : StakingAction.t) : outcome Chain.t :=
  let k : BondKey := a.(arg32_0) in
  match a.(kind) with
  | CreateNewDelegationBond =>
      _ ← unwrap (c.(delegation_bonds) !! k);
      Ret (with_bonds c (delete k c.(delegation_bonds)))
  | BeginDelegationUnbonding =>
      '(bond, st) ← unwrap (c.(delegation_bonds) !! k);
      if decide (st = Unbonding) then
        let c := with_bonds c (<[k := (bond, Active)]> c.(delegation_bonds)) in
        new_bonded ← expect (Amount.add NonNegative (staking_bonded c) bond.(bond_amount));
        let c := set_bonded c new_bonded in
        new_unbonded ← expect (Amount.sub NonNegative (staking_unbonded c) bond.(bond_amount));
        Ret (set_unbonded c new_unbonded)
      else Panic
  | WithdrawDelegationBond =>
      '(bond, st) ← unwrap (c.(delegation_bonds) !! k);
      if decide (st = Withdrawn)
      then Ret (with_bonds c (<[k := (bond, Unbonding)]> c.(delegation_bonds)))
      else Panic
  | _ => Ret c
  end.

Definition revert_reward (c : Chain.t) (r : BondKey * Z) : outcome Chain.t :=
  '(bond, st) ← unwrap (c.(delegation_bonds) !! r.1);
  v ← expect (Amount.try_from NonNegative (u64_as_i64 r.2));
  a ← expect (Amount.sub NonNegative bond.(bond_amount) v);
  let c := with_bonds c (<[r.1 := (with_amount bond a, st)]> c.(delegation_bonds)) in
  bonded ← expect (Amount.sub NonNegative (staking_bonded c) v);
  Ret (set_bonded c bonded).

Definition revert_retarget (c : Chain.t) (x : BondKey * bytes) : outcome Chain.t :=
  '(bond, st) ← unwrap (c.(delegation_bonds) !! x.1);
  Ret (with_bonds c (<[x.1 := (with_target bond x.2, st)]> c.(delegation_bonds))).

(** [revert_chain_with(block, RevertPosition::Tip)]; [iter_targets] is the
    order in which the recorded targets are iterated. *)
Definition revert_block (iter_targets : gmap BondKey bytes → list (BondKey * bytes))
    (txs : list (option StakingAction.t)) (change : ValueBalance.t) (c : Chain.t) : outcome Chain.t :=
  rewards ← unwrap (last c.(bond_rewards));
  let c := with_rewards c (take (length c.(bond_rewards) - 1) c.(bond_rewards)) in
  c ← for_each revert_reward rewards c;
  retargets ← unwrap (last c.(bond_retargets));
  let c := with_retargets c (take (length c.(bond_retargets) - 1) c.(bond_retargets)) in
  c ← for_each revert_retarget (iter_targets retargets) c;
  c ← for_each (λ c tx, match tx with Some a => revert_delegation_bond c a | None => Ret c end) txs c;
  n ← ValueBalance.neg change;
  pools ← expect (ValueBalance.add_chain_value_pool_change c.(chain_value_pools) n);
  Ret (with_pools c pools).
