(* ===== verification/DelegationInv.v ===== *)
(** * DelegationInv: what the delegation bonds of a chain promise

    The block reward is paid out exactly and independently of the order in
    which the bonds are iterated.  What a whole block does to the pools is in
    [DelegationBlock], taking it off again in [DelegationRevert]. *)

From stdpp Require Import base list gmap sets.
From S2P Require Import Prelude Wire Encoding Bft Roster Amount Staking Delegation.
Import StakingAction Chain.

Abbreviation Bond := (DelegationBond * BondStatusInChain)%type.

(** ** Sums over bonds *)

(** The sum of [g] over a map of bonds. *)
Definition sum_bonds (g : BondKey → Bond → Z) (bs : Bonds) : Z :=
  zsum (map (λ x, g x.1 x.2) (map_to_list bs)).

Definition weight (st : BondStatusInChain) (v : Bond) : Z :=
  if decide (v.2 = st) then v.1.(bond_amount) else 0.

(** What the bonds in a given status are worth. *)
Definition total (st : BondStatusInChain) : Bonds → Z := sum_bonds (λ _, weight st).

Section sums.
Implicit Types (bs : Bonds) (k : BondKey) (v : Bond) (g : BondKey → Bond → Z).

Lemma sum_bonds_new g bs k v :
  bs !! k = None → sum_bonds g (<[k := v]> bs) = g k v + sum_bonds g bs.
Proof.
  intros Hk. unfold sum_bonds. erewrite zsum_perm; [|apply Permutation_map, map_to_list_insert, Hk]. done.
Qed.

Lemma sum_bonds_delete g bs k v :
  bs !! k = Some v → sum_bonds g bs = g k v + sum_bonds g (delete k bs).
Proof.
  intros Hk. rewrite <- (insert_delete_id bs k v Hk) at 1. apply sum_bonds_new, lookup_delete_eq.
Qed.

Lemma sum_bonds_insert g bs k v v' :
  bs !! k = Some v → sum_bonds g (<[k := v']> bs) = sum_bonds g bs - g k v + g k v'.
Proof.
  intros Hk. rewrite (sum_bonds_delete g bs k v Hk), <- insert_delete_eq.
  rewrite sum_bonds_new by apply lookup_delete_eq. lia.
Qed.

Lemma sum_bonds_empty g : sum_bonds g ∅ = 0.
Proof. unfold sum_bonds. by rewrite map_to_list_empty. Qed.

Lemma sum_bonds_add g1 g2 bs :
  sum_bonds (λ k v, g1 k v + g2 k v) bs = sum_bonds g1 bs + sum_bonds g2 bs.
Proof. apply zsum_map_add. Qed.

Lemma sum_bonds_mono g1 g2 bs :
  (∀ k v, bs !! k = Some v → g1 k v ≤ g2 k v) → sum_bonds g1 bs ≤ sum_bonds g2 bs.
Proof. intros Hg. apply zsum_map_le. intros [k v] Hx%elem_of_map_to_list. by apply Hg. Qed.

Lemma sum_bonds_ext g1 g2 bs :
  (∀ k v, bs !! k = Some v → g1 k v = g2 k v) → sum_bonds g1 bs = sum_bonds g2 bs.
Proof.
  intros Hg. apply Z.le_antisymm; apply sum_bonds_mono; intros k v Hk; rewrite (Hg k v Hk); lia.
Qed.

Lemma sum_bonds_nonneg g bs : (∀ k v, bs !! k = Some v → 0 ≤ g k v) → 0 ≤ sum_bonds g bs.
Proof. intros Hg. apply zsum_map_nonneg. intros [k v] Hx%elem_of_map_to_list. by apply Hg. Qed.

(** One bond is at most the sum of all. *)
Lemma sum_bonds_elem g bs k v :
  (∀ k v, bs !! k = Some v → 0 ≤ g k v) → bs !! k = Some v → g k v ≤ sum_bonds g bs.
Proof.
  intros Hg Hk. rewrite (sum_bonds_delete g bs k v Hk).
  assert (0 ≤ sum_bonds g (delete k bs)); [|lia].
  apply sum_bonds_nonneg. intros k' v' [_ Hk']%lookup_delete_Some. by eapply Hg.
Qed.

(** The sum over a list of the same entries. *)
Lemma sum_bonds_list g bs l :
  l ≡ₚ map_to_list bs → zsum (map (λ x, g x.1 x.2) l) = sum_bonds g bs.
Proof. intros Hl. apply zsum_perm, Permutation_map, Hl. Qed.

(** Changing the bonds pointwise. *)
Lemma sum_bonds_imap g (f : BondKey → Bond → Bond) bs :
  sum_bonds g (map_imap (λ k v, Some (f k v)) bs) = sum_bonds (λ k v, g k (f k v)) bs.
Proof.
  induction bs as [|k v bs Hk IH] using map_ind; [by rewrite map_imap_empty, !sum_bonds_empty|].
  rewrite (map_imap_insert_Some _ _ _ _ (f k v)) by done.
  rewrite !sum_bonds_new by (done || by rewrite map_lookup_imap, Hk). lia.
Qed.
End sums.

(** ** Rewards *)

(** The bond that receives the remainder: the biggest active one, the smallest
    key among equals. *)
Definition outranks (k : BondKey) (a : Z) (k' : BondKey) (a' : Z) : Prop :=
  a' < a ∨ (a' = a ∧ (k' = k ∨ bytes_cmp k k' = Lt)).
Definition is_max (bs : Bonds) (k : BondKey) : Prop :=
  ∃ b, bs !! k = Some (b, Active) ∧
    ∀ k' b', bs !! k' = Some (b', Active) → outranks k b.(bond_amount) k' b'.(bond_amount).

(** The rounded down share of a bond. *)
Definition share (T : Z) (v : Bond) : Z := weight Active v * BOND_REWARD_TOTAL / T.

(** What everybody but [m] is paid. *)
Definition others_paid (T : Z) (m : BondKey) : Bonds → Z :=
  sum_bonds (λ k v, if decide (k = m) then 0 else share T v).

(** The reward of one bond of [bs], where [m] gets the remainder. *)
Definition reward (bs : Bonds) (m : BondKey) (k : BondKey) (v : Bond) : Z :=
  if decide (v.2 = Active) then
    if decide (k = m) then BOND_REWARD_TOTAL - others_paid (total Active bs) m bs
    else share (total Active bs) v
  else 0.

Definition paid (v : Bond) (r : Z) : Bond := (with_amount v.1 (v.1.(bond_amount) + r), v.2).

(** The bonds after the reward, defined without any order of iteration. *)
Definition rewarded (bs : Bonds) (m : BondKey) : Bonds :=
  map_imap (λ k v, Some (paid v (reward bs m k v))) bs.

Lemma paid_zero v : paid v 0 = v.
Proof. destruct v as [[a t c] st]. unfold paid, with_amount. cbn. by rewrite Z.add_0_r. Qed.

Lemma outranks_trans k1 a1 k2 a2 k3 a3 :
  outranks k1 a1 k2 a2 → outranks k2 a2 k3 a3 → outranks k1 a1 k3 a3.
Proof.
  unfold outranks. intros [?|[-> [->|H12]]] [?|[-> [->|H23]]]; try (left; lia); try (right; split; [done|]; by auto).
  right. split; [done|]. right. by eapply bytes_cmp_lt_trans.
Qed.

Lemma outranks_refl k a : outranks k a k a.
Proof. right. auto. Qed.

Lemma outranks_antisym k1 a1 k2 a2 : outranks k1 a1 k2 a2 → outranks k2 a2 k1 a1 → k1 = k2.
Proof.
  unfold outranks. intros [?|[? [?|H12]]] [?|[? [?|H21]]]; try congruence; try lia.
  rewrite (bytes_cmp_antisym k1 k2), H12 in H21. done.
Qed.

(** Every order of iteration finds the same bond. *)
Lemma is_max_unique bs k1 k2 : is_max bs k1 → is_max bs k2 → k1 = k2.
Proof.
  intros (b1 & H1 & M1) (b2 & H2 & M2). eapply outranks_antisym; [by apply M1|by apply M2].
Qed.

Section shares.
Context (bs : Bonds) (Hpos : ∀ k v, bs !! k = Some v → 0 ≤ v.1.(bond_amount)).

Lemma weight_nonneg st k v : bs !! k = Some v → 0 ≤ weight st v.
Proof. intros Hk. unfold weight. case_decide; [by eapply Hpos|lia]. Qed.

Lemma total_nonneg st : 0 ≤ total st bs.
Proof. apply sum_bonds_nonneg. intros. by eapply weight_nonneg. Qed.

Lemma weight_le_total st k v : bs !! k = Some v → weight st v ≤ total st bs.
Proof.
  intros Hk. apply (sum_bonds_elem (λ _, weight st) bs k v); [|done]. intros. by eapply weight_nonneg.
Qed.

Lemma share_nonneg T k v : 0 ≤ T → bs !! k = Some v → 0 ≤ share T v.
Proof.
  intros HT Hk. unfold share. pose proof (weight_nonneg Active k v Hk).
  destruct (decide (T = 0)) as [->|]; [by rewrite Z.div_0_r|].
  apply Z.div_pos; [|lia]. unfold BOND_REWARD_TOTAL. lia.
Qed.

Lemma others_paid_nonneg T m : 0 ≤ T → 0 ≤ others_paid T m bs.
Proof.
  intros HT. apply sum_bonds_nonneg. intros k v Hk. case_decide; [lia|by eapply share_nonneg].
Qed.

(** Rounding down never pays more than the reward. *)
Lemma others_paid_le m : 0 < total Active bs → others_paid (total Active bs) m bs ≤ BOND_REWARD_TOTAL.
Proof.
  intros HT. set (T := total Active bs) in *.
  assert (∀ l, zsum (map (λ x : BondKey * Bond, share T x.2) l) * T
      ≤ BOND_REWARD_TOTAL * zsum (map (λ x, weight Active x.2) l)) as Hl.
  { induction l as [|x l IH]; [cbn; lia|]. cbn [map]. rewrite !zsum_cons.
    pose proof (Z.mul_div_le (weight Active x.2 * BOND_REWARD_TOTAL) T HT). unfold share at 1. lia. }
  assert (others_paid T m bs ≤ sum_bonds (λ _, share T) bs) as Hle.
  { apply sum_bonds_mono. intros k v Hk. case_decide; [|lia]. eapply share_nonneg; [lia|done]. }
  specialize (Hl (map_to_list bs)). unfold sum_bonds in Hle.
  change (zsum (map (λ x, weight Active x.2) (map_to_list bs))) with T in Hl.
  assert (zsum (map (λ x : BondKey * Bond, share T x.2) (map_to_list bs)) ≤ BOND_REWARD_TOTAL);
    [|lia].
  apply (Z.mul_le_mono_pos_r _ _ T); lia.
Qed.

(** The reward reaches the active bonds exactly. *)
Lemma reward_sum m : is_max bs m → sum_bonds (reward bs m) bs = BOND_REWARD_TOTAL.
Proof.
  intros (b & Hm & _). set (R := BOND_REWARD_TOTAL - others_paid (total Active bs) m bs).
  rewrite (sum_bonds_ext _ (λ k v, (if decide (k = m) then 0 else share (total Active bs) v)
                             + (if decide (k = m) then R else 0))).
  - rewrite sum_bonds_add. fold (others_paid (total Active bs) m bs).
    rewrite (sum_bonds_delete (λ k _, if decide (k = m) then R else 0) bs m (b, Active) Hm).
    rewrite decide_True by done.
    rewrite (sum_bonds_ext _ (λ _ _, 0) (delete m bs)).
    + unfold sum_bonds. rewrite zsum_zero; [lia|]. apply Forall_map, Forall_true. done.
    + intros k v [Hne _]%lookup_delete_Some. by rewrite decide_False by congruence.
  - intros k v Hk. unfold reward. fold R. destruct (decide (v.2 = Active)) as [|Hna].
    + case_decide; lia.
    + destruct (decide (k = m)) as [->|]; [rewrite Hm in Hk; by simplify_eq|].
      unfold share, weight. rewrite decide_False by done. by destruct (total Active bs).
Qed.

Lemma rewarded_total m : is_max bs m → total Active (rewarded bs m) = total Active bs + BOND_REWARD_TOTAL.
Proof.
  intros Hm. unfold total, rewarded. rewrite sum_bonds_imap, <- (reward_sum m Hm), <- sum_bonds_add.
  apply sum_bonds_ext. intros k v _. unfold weight, paid, reward. cbn. case_decide; lia.
Qed.

Lemma rewarded_other_total st m : st ≠ Active → total st (rewarded bs m) = total st bs.
Proof.
  intros Hst. unfold total, rewarded. rewrite sum_bonds_imap. apply sum_bonds_ext. intros k v _.
  unfold weight, paid, reward. cbn. destruct (decide (v.2 = st)) as [->|]; [|done].
  rewrite decide_False by done. lia.
Qed.
End shares.

(** *** The two loops over the bonds *)

Section payout.
Context `{Profile}.
Implicit Types (bs : Bonds) (k m : BondKey) (l : Items).

Lemma pay_ok b r :
  0 ≤ b.(bond_amount) → 0 ≤ r → b.(bond_amount) + r ≤ MAX_MONEY →
  pay b r = Ret (with_amount b (b.(bond_amount) + r)).
Proof.
  intros Hb Hr Hs. pose proof MAX_MONEY_i64. unfold pay, u64_as_i64, Amount.as_i64, Amount.new.
  rewrite (proj2 (Z.ltb_lt r (2 ^ 63))) by lia.
  rewrite (proj2 (Z.leb_le r MAX_MONEY)), (proj2 (Z.leb_le 0 r)) by lia. cbn [andb mbind outcome_bind].
  rewrite add_exact by (unfold Amount.ok; cbn; lia).
  rewrite validate_ok by (unfold Amount.ok; cbn; lia). done.
Qed.

(** The search for the biggest bond. *)
Lemma max_loop others : ∀ m a T,
  Forall (λ x, 0 ≤ x.2.1.(bond_amount)) others → 0 ≤ T →
  T + zsum (map (λ x, x.2.1.(bond_amount)) others) ≤ MAX_MONEY →
  ∃ m' a', for_each max_step others (m, a, T)
  = Ret (m', a', T + zsum (map (λ x, x.2.1.(bond_amount)) others)) ∧
  ((m', a') = (m, a) ∨ ∃ x, x ∈ others ∧ (m', a') = (x.1, x.2.1.(bond_amount))) ∧
  outranks m' a' m a ∧ ∀ x, x ∈ others → outranks m' a' x.1 x.2.1.(bond_amount).
Proof.
  pose proof MAX_MONEY_i64. induction others as [|x others IH]; intros m a T Hp HT Hs.
  { exists m, a. cbn. rewrite Z.add_0_r. split; [done|]. split; [by left|].
    split; [apply outranks_refl|]. by intros x ?%elem_of_nil. }
  apply Forall_cons in Hp as [Hx Hp]. cbn [map] in Hs |- *. rewrite zsum_cons in Hs |- *.
  assert (0 ≤ zsum (map (λ x, x.2.1.(bond_amount)) others)).
  { apply zsum_map_nonneg. by apply Forall_forall. }
  set (better := (a <? x.2.1.(bond_amount))
    || ((x.2.1.(bond_amount) =? a) && bool_decide (bytes_cmp x.1 m = Lt))).
  assert (max_step (m, a, T) x
    = Ret (if better then (x.1, x.2.1.(bond_amount), T + x.2.1.(bond_amount))
       else (m, a, T + x.2.1.(bond_amount)))) as Estep.
  { unfold max_step. rewrite arith_ok by (unfold is_u; lia). done. }
  cbn [for_each]. rewrite Estep. cbn [mbind outcome_bind]. clear Estep.
  destruct better eqn:Eb; subst better.
  - destruct (IH x.1 x.2.1.(bond_amount) (T + x.2.1.(bond_amount))) as (m' & a' & -> & Hin & Ho & Hall);
      [done|lia|lia|].
    exists m', a'. split; [by rewrite Z.add_assoc|]. split; [|split].
    + right. destruct Hin as [Hin|(y & Hy & Hin)]; [exists x|exists y]; (split; [set_solver|done]).
    + eapply outranks_trans; [exact Ho|]. apply orb_true_iff in Eb as [Ea|Ea]; [left; lia|].
      apply andb_true_iff in Ea as [Ea Ek]. apply bool_decide_eq_true in Ek. right. split; [lia|by right].
    + intros y [->|Hy]%elem_of_cons; [done|by apply Hall].
  - destruct (IH m a (T + x.2.1.(bond_amount))) as (m' & a' & -> & Hin & Ho & Hall); [done|lia|lia|].
    exists m', a'. split; [by rewrite Z.add_assoc|]. split; [|split; [done|]].
    + destruct Hin as [Hin|(y & Hy & Hin)]; [by left|right; exists y; split; [set_solver|done]].
    + intros y [->|Hy]%elem_of_cons; [|by apply Hall]. eapply outranks_trans; [exact Ho|].
      apply orb_false_iff in Eb as [Ea Ek]. destruct (decide (x.2.1.(bond_amount) = a)) as [Eq|];
                                              [right|left; lia]. split; [done|].
      rewrite (proj2 (Z.eqb_eq _ _) Eq) in Ek. cbn [andb] in Ek. apply bool_decide_eq_false in Ek.
      pose proof (bytes_cmp_antisym x.1 m) as Has. destruct (bytes_cmp x.1 m) eqn:Ec; [|done|by right].
      left. by apply bytes_cmp_eq.
Qed.

(** What the second loop pays to one entry. *)
Definition payment (T : Z) (m : BondKey) (x : BondKey * Bond) : Z :=
  if decide (x.1 = m) then 0 else share T x.2.

Definition rewardee (m : BondKey) (x : BondKey * Bond) : Prop := active x = true ∧ x.1 ≠ m.

Lemma payment_idle T m x : ¬ rewardee m x → payment T m x = 0.
Proof.
  unfold rewardee, payment, active, share, weight. intros Hr.
  destruct (decide (x.1 = m)); [done|]. destruct (decide (x.2.2 = Active)); [|by destruct T].
  destruct Hr. split; [by apply bool_decide_eq_true|done].
Qed.

(** A payment that fits: nothing overflows, and nothing is divided by zero. *)
Record payable (T : Z) (m : BondKey) (x : BondKey * Bond) : Prop := {
  py_amount : 0 ≤ x.2.1.(bond_amount);
  py_payment : 0 ≤ payment T m x;
  py_fits : rewardee m x → T ≠ 0 ∧ x.2.1.(bond_amount) + payment T m x ≤ MAX_MONEY }.

Lemma pay_step_eq T m x bs so store :
  payable T m x → 0 ≤ so → so + payment T m x ≤ BOND_REWARD_TOTAL →
  bs !! x.1 = Some x.2 →
  pay_step m T (bs, so, store) x
  = Ret (<[x.1 := paid x.2 (payment T m x)]> bs, so + payment T m x,
         store ++ (if decide (rewardee m x) then [(x.1, payment T m x)] else [])).
Proof.
  intros [Ha Hp Hf] Hso Hle Hb. unfold pay_step. destruct (decide (rewardee m x)) as [Hr|Hr].
  - destruct (Hf Hr) as [HT Hfits]. pose proof Hr as [Hact Hne].
    rewrite Hact, bool_decide_true by done. cbn [andb]. rewrite (proj2 (Z.eqb_neq T 0)) by done.
    assert (x.2.1.(bond_amount) * BOND_REWARD_TOTAL / T = payment T m x) as E.
    { unfold payment, share, weight. rewrite decide_False by done.
      unfold active in Hact. apply bool_decide_eq_true in Hact. by rewrite decide_True. }
    rewrite E, Z.mod_small by (unfold BOND_REWARD_TOTAL in *; lia). cbn zeta.
    rewrite arith_ok by (unfold is_u, BOND_REWARD_TOTAL in *; lia). cbn [mbind outcome_bind].
    rewrite pay_ok by lia. done.
  - assert (active x && bool_decide (x.1 ≠ m) = false) as ->.
    { destruct (active x) eqn:Ea; [|done]. cbn. apply bool_decide_eq_false. intros ?. by destruct Hr. }
    rewrite payment_idle by done. rewrite paid_zero, insert_id by done. by rewrite Z.add_0_r, app_nil_r.
Qed.

Lemma pay_loop T m l : ∀ bs so store,
  NoDup l.*1 → (∀ x, x ∈ l → bs !! x.1 = Some x.2) → Forall (payable T m) l →
  0 ≤ so → so + zsum (map (payment T m) l) ≤ BOND_REWARD_TOTAL →
  ∃ bs', for_each (pay_step m T) l (bs, so, store)
  = Ret (bs', so + zsum (map (payment T m) l),
         store ++ map (λ x, (x.1, payment T m x)) (filter (rewardee m) l)) ∧
  (∀ k, k ∉ l.*1 → bs' !! k = bs !! k) ∧
  (∀ x, x ∈ l → bs' !! x.1 = Some (paid x.2 (payment T m x))).
Proof.
  induction l as [|x l IH]; intros bs so store Hnd Hin Hp Hso Hle.
  { exists bs. cbn. rewrite Z.add_0_r, app_nil_r. split; [done|]. split; [done|].
    by intros x ?%elem_of_nil. }
  apply NoDup_cons in Hnd as [Hx Hnd]. apply Forall_cons in Hp as [Hpx Hp].
  assert (0 ≤ zsum (map (payment T m) l)).
  { apply zsum_map_nonneg. intros y Hy. eapply Forall_forall in Hp; [|exact Hy]. apply Hp. }
  cbn [map] in Hle |- *. rewrite zsum_cons in Hle |- *. pose proof (py_payment _ _ _ Hpx).
  cbn [for_each]. rewrite pay_step_eq; [|done|done|lia|by apply Hin; set_solver].
  cbn [mbind outcome_bind].
  destruct (IH (<[x.1 := paid x.2 (payment T m x)]> bs) (so + payment T m x)
          (store ++ (if decide (rewardee m x) then [(x.1, payment T m x)] else [])))
    as (bs' & -> & Hout & Hbs'); [done| |done|lia|lia|].
  { intros y Hy. rewrite lookup_insert_ne; [by apply Hin; set_solver|].
    intros E. apply Hx. rewrite E. by apply list_elem_of_fmap_2. }
  exists bs'. split; [|split].
  - rewrite Z.add_assoc, <- app_assoc. destruct (decide (rewardee m x)) as [Hr|Hr];
                                         [by rewrite filter_cons_True by done|by rewrite filter_cons_False by done].
  - intros k Hk. rewrite Hout by set_solver. rewrite lookup_insert_ne; [done|set_solver].
  - intros y [->|Hy]%elem_of_cons; [|by apply Hbs']. rewrite Hout by done. by rewrite lookup_insert_eq.
Qed.
End payout.

Lemma active_sum (l : Items) :
  zsum (map (λ x, x.2.1.(bond_amount)) (filter (λ x, active x = true) l))
  = zsum (map (λ x, weight Active x.2) l).
Proof.
  induction l as [|x l IH]; [done|]. cbn [map]. rewrite zsum_cons. unfold weight at 1.
  destruct (decide (x.2.2 = Active)) as [Ha|Ha].
  - rewrite filter_cons_True by (by apply bool_decide_eq_true). cbn [map]. rewrite zsum_cons. lia.
  - rewrite filter_cons_False; [lia|]. intros He. by apply bool_decide_eq_true in He.
Qed.

Lemma recorded_sum bs m (l : Items) :
  zsum (map (λ x, reward bs m x.1 x.2) (filter (λ x, active x = true) l))
  = zsum (map (λ x, reward bs m x.1 x.2) l).
Proof.
  induction l as [|x l IH]; [done|]. cbn [map]. rewrite zsum_cons.
  destruct (decide (active x = true)) as [Ha|Ha].
  - rewrite (filter_cons_True (λ x, active x = true)) by done. cbn [map]. by rewrite zsum_cons, IH.
  - rewrite (filter_cons_False (λ x, active x = true)) by done. rewrite IH. unfold reward at 2.
    rewrite decide_False; [lia|]. intros E. apply Ha. by apply bool_decide_eq_true.
Qed.

(** An order in which a map of bonds is iterated. *)
Class Iteration (iter : Bonds → Items) : Prop := iterates : ∀ bs, iter bs ≡ₚ map_to_list bs.

(** The bonds for which a block reward can be paid: some bond is active, only
    one of them if they are all empty, and the money supply is not exceeded. *)
Record payable_bonds (bs : Bonds) : Prop := {
  pb_amounts : ∀ k v, bs !! k = Some v → 0 ≤ v.1.(bond_amount);
  pb_active : ∃ k b, bs !! k = Some (b, Active);
  pb_stake : 0 < total Active bs ∨
    (∀ k1 b1 k2 b2, bs !! k1 = Some (b1, Active) → bs !! k2 = Some (b2, Active) → k1 = k2);
  pb_supply : total Active bs + BOND_REWARD_TOTAL ≤ MAX_MONEY }.

Section distribution.
Context `{Profile} (iter : Bonds → Items) `{Iteration iter}.
Implicit Types (bs : Bonds).

Lemma iter_lookup bs x : x ∈ iter bs ↔ bs !! x.1 = Some x.2.
Proof. rewrite (iterates bs). destruct x. apply elem_of_map_to_list. Qed.

Lemma iter_keys bs : NoDup (iter bs).*1.
Proof. rewrite (iterates bs). apply NoDup_fst_map_to_list. Qed.

Lemma iter_key_lookup bs k : k ∉ (iter bs).*1 → bs !! k = None.
Proof.
  intros Hk. apply eq_None_not_Some. intros [v Hv]. apply Hk.
  apply (list_elem_of_fmap_2 fst (iter bs) (k, v)). by apply iter_lookup.
Qed.

Lemma elem_of_active bs k v :
  (k, v) ∈ filter (λ x, active x = true) (iter bs) ↔ bs !! k = Some v ∧ v.2 = Active.
Proof.
  rewrite list_elem_of_filter, iter_lookup. unfold active. rewrite bool_decide_eq_true. cbn. tauto.
Qed.

(** The first loop finds the biggest bond and the total stake. *)
Lemma find_max bs first others :
  (∀ k v, bs !! k = Some v → 0 ≤ v.1.(bond_amount)) → total Active bs ≤ MAX_MONEY →
  filter (λ x, active x = true) (iter bs) = first :: others →
  ∃ m a, arith 64 (0 + first.2.1.(bond_amount)) = Ret first.2.1.(bond_amount) ∧
  for_each max_step others (first.1, first.2.1.(bond_amount), first.2.1.(bond_amount))
  = Ret (m, a, total Active bs) ∧ is_max bs m.
Proof.
  intros Hpos Hsup Hf. pose proof MAX_MONEY_i64.
  assert (Forall (λ x, 0 ≤ x.2.1.(bond_amount)) (first :: others)) as Hp.
  { rewrite <- Hf. apply Forall_forall. intros [k v] [Hk _]%elem_of_active. by eapply Hpos. }
  apply Forall_cons in Hp as [Hp1 Hp2].
  assert (first.2.1.(bond_amount) + zsum (map (λ x, x.2.1.(bond_amount)) others) = total Active bs) as Ht.
  { rewrite <- zsum_cons. change (first.2.1.(bond_amount) :: map _ others)
                            with (map (λ x : BondKey * Bond, x.2.1.(bond_amount)) (first :: others)).
    rewrite <- Hf, active_sum. apply (sum_bonds_list (λ _, weight Active)). apply iterates. }
  destruct (max_loop others first.1 first.2.1.(bond_amount) first.2.1.(bond_amount))
    as (m & a & Hloop & Hin & Ho & Hall); [done|done|lia|].
  exists m, a. rewrite Z.add_0_l. split; [|split; [by rewrite Hloop, Ht|]].
  - apply arith_ok. unfold is_u. pose proof (zsum_map_nonneg (λ x : BondKey * Bond, x.2.1.(bond_amount)) others
                                   ltac:(by apply Forall_forall)). lia.
  - assert (∃ x, x ∈ first :: others ∧ (m, a) = (x.1, x.2.1.(bond_amount))) as ([k [b st]] & Hx & Hma).
    { destruct Hin as [E|(x & Hx & E)]; [exists first|exists x]; (split; [set_solver|done]). }
    rewrite <- Hf in Hx. apply elem_of_active in Hx as [Hk Hst]. cbn in *. simplify_eq.
    exists b. split; [done|]. intros k' b' Hk'.
    assert ((k', (b', Active)) ∈ first :: others) as [E|Hx]%elem_of_cons.
    { rewrite <- Hf. by apply elem_of_active. }
    + by rewrite <- E in Ho.
    + apply (Hall _ Hx).
Qed.

Lemma iter_payable bs m :
  payable_bonds bs → is_max bs m → Forall (payable (total Active bs) m) (iter bs).
Proof.
  intros [Hpos _ Hst Hsup] (bm & Hm & _). apply Forall_forall. intros [k v] Hx.
  apply iter_lookup in Hx. cbn in Hx. set (T := total Active bs) in *.
  assert (0 ≤ T) as HT by (by apply total_nonneg).
  assert (0 ≤ share T v) as Hsh by (by eapply share_nonneg).
  split; cbn.
  - by eapply Hpos.
  - unfold payment. case_decide; [lia|done].
  - intros [Ha Hne]. unfold active in Ha. apply bool_decide_eq_true in Ha. cbn in *.
    assert (0 < T) as HT0.
    { destruct Hst as [|Huniq]; [done|]. destruct v as [b st]. cbn in Ha. subst st.
      by destruct (Hne (Huniq _ _ _ _ Hx Hm)). }
    split; [lia|]. unfold payment. cbn. rewrite decide_False by done.
    pose proof (weight_le_total bs Hpos Active k v Hx) as Hw. fold T in Hw.
    assert (share T v ≤ BOND_REWARD_TOTAL).
    { unfold share. apply Z.div_le_upper_bound; [done|].
      unfold BOND_REWARD_TOTAL. lia. }
    unfold weight in Hw. rewrite decide_True in Hw by done. lia.
Qed.

Lemma others_paid_eq bs m : zsum (map (payment (total Active bs) m) (iter bs)) = others_paid (total Active bs) m bs.
Proof.
  unfold others_paid. by rewrite <- (sum_bonds_list _ bs (iter bs)) by apply iterates.
Qed.

Lemma others_paid_le_reward bs m :
  payable_bonds bs → is_max bs m → others_paid (total Active bs) m bs ≤ BOND_REWARD_TOTAL.
Proof.
  intros [Hpos _ _ _] _. destruct (decide (total Active bs = 0)) as [->|Hne].
  - unfold others_paid. rewrite (sum_bonds_ext _ (λ _ _, 0)).
    + unfold sum_bonds. rewrite zsum_zero; [done|]. apply Forall_map, Forall_true. done.
    + intros k v _. case_decide; [done|]. unfold share. apply Z.div_0_r.
  - apply others_paid_le; [done|]. pose proof (total_nonneg bs Hpos Active). lia.
Qed.

Lemma max_weight bs m b : bs !! m = Some (b, Active) → weight Active (b, Active) = b.(bond_amount).
Proof. intros _. unfold weight. by rewrite decide_True. Qed.

(** The entries the rewards are recorded for, in the order of payment. *)
Lemma recorded_entries bs m b :
  bs !! m = Some (b, Active) →
  filter (rewardee m) (iter bs) ++ [(m, (b, Active))]
  ≡ₚ filter (λ x, active x = true) (map_to_list bs).
Proof.
  intros Hm. etrans; [|apply (filter_Permutation _ _ _ (iterates bs))].
  assert ((m, (b, Active)) ∈ iter bs) as [l' Hl']%elem_of_Permutation by (by apply iter_lookup).
  pose proof (iter_keys bs) as Hnd. rewrite Hl' in Hnd. cbn in Hnd.
  etrans; [apply Permutation_app_tail, (filter_Permutation (rewardee m) _ _ Hl')|].
  etrans; [|symmetry; apply (filter_Permutation (λ x, active x = true) _ _ Hl')].
  apply NoDup_cons in Hnd as [Hm' _].
  rewrite (filter_cons_False (rewardee m)) by (intros [_ ?]; done).
  rewrite (filter_cons_True (λ x, active x = true)) by done.
  etrans; [apply Permutation_app_comm|]. cbn [app]. apply perm_skip.
  clear - Hm'. induction l' as [|x l' IH]; [done|].
  assert (x.1 ≠ m ∧ m ∉ l'.*1) as [Hx Hl] by (cbn in Hm'; set_solver).
  destruct (decide (active x = true)) as [Ha|Ha].
  - rewrite (filter_cons_True (rewardee m)) by done.
    rewrite (filter_cons_True (λ x, active x = true)) by done. by apply perm_skip, IH.
  - rewrite (filter_cons_False (rewardee m)) by (by intros []).
    rewrite (filter_cons_False (λ x, active x = true)) by done. by apply IH.
Qed.

(** The bonds after both loops are the reference. *)
Lemma rewarded_eq bs bs' m b :
  bs !! m = Some (b, Active) →
  (∀ k, k ∉ (iter bs).*1 → bs' !! k = bs !! k) →
  (∀ x, x ∈ iter bs → bs' !! x.1 = Some (paid x.2 (payment (total Active bs) m x))) →
  <[m := (with_amount b (b.(bond_amount) + (BOND_REWARD_TOTAL - others_paid (total Active bs) m bs)),
          Active)]> bs' = rewarded bs m.
Proof.
  intros Hm Hout Hin. apply map_eq. intros k. unfold rewarded. rewrite map_lookup_imap.
  destruct (decide (k = m)) as [->|Hne].
  { rewrite lookup_insert_eq, Hm. cbn. unfold paid, reward. cbn. by rewrite !decide_True by done. }
  rewrite lookup_insert_ne by done. destruct (bs !! k) as [v|] eqn:Hk.
  - pose proof (Hin (k, v) ltac:(by apply iter_lookup)) as Hbk. cbn in Hbk. rewrite Hbk.
    cbn. f_equal. unfold payment, reward. cbn.
    rewrite !(decide_False (P := k = m)) by done. destruct (decide (v.2 = Active)); [done|].
    unfold share, weight. rewrite decide_False by done. by destruct (total Active bs).
  - rewrite Hout, Hk; [done|]. intros ([k' v] & E & Hx%iter_lookup)%list_elem_of_fmap. cbn in *.
    subst. congruence.
Qed.

(** Paying out computes the reference, whatever the order. *)
Lemma distribute_rewards_eq bs :
  payable_bonds bs → ∃ m entries, is_max bs m ∧
  distribute_rewards iter bs
  = Ret (rewarded bs m, map (λ x, (x.1, reward bs m x.1 x.2)) entries) ∧
  entries ≡ₚ filter (λ x, active x = true) (map_to_list bs).
Proof.
  intros Hpb. pose proof MAX_MONEY_i64.
  destruct (filter (λ x, active x = true) (iter bs)) as [|first others] eqn:Hf.
  { destruct (pb_active _ Hpb) as (k & b & Hk). exfalso. eapply not_elem_of_nil. rewrite <- Hf.
    by apply (elem_of_active bs k (b, Active)). }
  destruct (find_max bs first others) as (m & a & Ha & Hloop & Hmax); [apply Hpb| |done|].
  { pose proof (pb_supply _ Hpb). unfold BOND_REWARD_TOTAL in *. lia. }
  pose proof Hmax as (b & Hm & _). set (T := total Active bs) in *.
  pose proof (others_paid_le_reward bs m Hpb Hmax) as Hle. fold T in Hle.
  pose proof (others_paid_eq bs m) as Hop. fold T in Hop.
  assert (0 ≤ T) as HT by (apply total_nonneg, Hpb).
  pose proof (others_paid_nonneg bs (pb_amounts _ Hpb) T m HT) as Hge.
  destruct (pay_loop T m (iter bs) bs 0 []) as (bs' & Hpay & Hout & Hin).
  { apply iter_keys. } { intros x. apply iter_lookup. } { by apply iter_payable. } { lia. }
  { rewrite Z.add_0_l, Hop. done. }
  rewrite Hop, Z.add_0_l in Hpay. cbn [app] in Hpay.
  assert (bs' !! m = Some (b, Active)) as Hm'.
  { pose proof (Hin (m, (b, Active)) ltac:(by apply iter_lookup)) as Hbm. cbn in Hbm. rewrite Hbm.
    unfold payment. cbn. rewrite decide_True by done. by rewrite paid_zero. }
  pose proof (weight_le_total bs (pb_amounts _ Hpb) Active m _ Hm) as Hw.
  rewrite (max_weight bs m b Hm) in Hw. pose proof (pb_supply _ Hpb) as Hsup. fold T in Hw, Hsup.
  pose proof (pb_amounts _ Hpb _ _ Hm) as Hb. cbn in Hb. unfold BOND_REWARD_TOTAL in *.
  exists m, (filter (rewardee m) (iter bs) ++ [(m, (b, Active))]).
  split; [done|]. split; [|by apply recorded_entries].
  unfold distribute_rewards. rewrite Hf. rewrite Ha. cbn [mbind outcome_bind]. rewrite Hloop.
  cbn [mbind outcome_bind]. rewrite Hpay. cbn [mbind outcome_bind]. rewrite Hm'. cbn [unwrap mbind outcome_bind].
  rewrite arith_ok by (unfold is_u, BOND_REWARD_TOTAL; lia). cbn [mbind outcome_bind fst snd].
  rewrite pay_ok by (unfold BOND_REWARD_TOTAL; lia). cbn [mbind outcome_bind].
  f_equal. f_equal.
  - by apply rewarded_eq.
  - rewrite map_app. f_equal.
    + apply map_ext_in. intros x Hx%list_elem_of_In%list_elem_of_filter. destruct Hx as [[Hact Hne] Hx].
      f_equal. unfold payment, reward. unfold active in Hact. apply bool_decide_eq_true in Hact.
      rewrite !(decide_False (P := x.1 = m)) by done. by rewrite decide_True.
    + cbn. do 2 f_equal. unfold reward. cbn. by rewrite !decide_True by done.
Qed.

(** With no stake there is nothing to divide by. *)
Lemma pay_loop_zero m l : ∀ acc,
  (∃ x, x ∈ l ∧ rewardee m x) → for_each (pay_step m 0) l acc = Panic.
Proof.
  induction l as [|y l IH]; intros [[bs so] store] (x & Hx & Hr); [by apply elem_of_nil in Hx|].
  cbn [for_each]. destruct (decide (rewardee m y)) as [[Ha Hne]|Hy].
  - unfold pay_step. by rewrite Ha, bool_decide_true.
  - assert (pay_step m 0 (bs, so, store) y = Ret (bs, so, store)) as ->.
    { unfold pay_step. replace (active y && bool_decide (y.1 ≠ m)) with false; [done|].
      destruct (active y) eqn:Ea; [|done]. symmetry. apply bool_decide_eq_false. intros ?. by destruct Hy. }
    apply IH. exists x. split; [|done]. by apply elem_of_cons in Hx as [->|].
Qed.
End distribution.

(** ** What the rewards guarantee *)

Section reward_theorems.
Context {P : Profile}.

Lemma reward_paid iter bs :
  Iteration iter → payable_bonds bs →
  ∃ m store, is_max bs m ∧ distribute_rewards iter bs = Ret (rewarded bs m, store) ∧
  zsum (map snd store) = BOND_REWARD_TOTAL ∧
  total Active (rewarded bs m) = total Active bs + BOND_REWARD_TOTAL ∧
  (∀ st, st ≠ Active → total st (rewarded bs m) = total st bs).
Proof.
  intros Hit Hpb. destruct (distribute_rewards_eq iter bs Hpb) as (m & l & Hm & Hd & Hl).
  exists m, (map (λ x, (x.1, reward bs m x.1 x.2)) l). split; [done|]. split; [done|].
  split; [|split; [by apply rewarded_total|intros; by apply rewarded_other_total]].
  rewrite map_map. cbn. rewrite (zsum_perm _ _ (Permutation_map _ Hl)).
  rewrite recorded_sum. by apply reward_sum.
Qed.

(** Two nodes that iterate their bonds in different orders, as two hash
    maps do, compute the same bonds and record the same rewards. *)
Theorem rewards_order_independent iter1 iter2 bs :
  Iteration iter1 → Iteration iter2 → payable_bonds bs →
  ∃ bs' store1 store2, distribute_rewards iter1 bs = Ret (bs', store1) ∧
  distribute_rewards iter2 bs = Ret (bs', store2) ∧ store1 ≡ₚ store2.
Proof.
  intros H1 H2 Hpb. destruct (distribute_rewards_eq iter1 bs Hpb) as (m & l1 & Hm & Hd1 & Hl1).
  destruct (distribute_rewards_eq iter2 bs Hpb) as (m' & l2 & Hm' & Hd2 & Hl2).
  rewrite <- (is_max_unique _ _ _ Hm Hm') in Hd2. eexists _, _, _. split; [done|]. split; [done|].
  apply Permutation_map. by rewrite Hl1, Hl2.
Qed.

(** Two active bonds, all of them empty, abort the node that adds the next
    block: the share of the smaller one is divided by a total stake of
    zero. *)
Theorem empty_bonds_abort iter bs k1 b1 k2 b2 :
  Iteration iter → (∀ k v, bs !! k = Some v → 0 ≤ v.1.(bond_amount)) → total Active bs = 0 →
  bs !! k1 = Some (b1, Active) → bs !! k2 = Some (b2, Active) → k1 ≠ k2 →
  distribute_rewards iter bs = Panic.
Proof.
  intros Hit Hpos HT H1 H2 Hne. unfold distribute_rewards.
  destruct (filter (λ x, active x = true) (iter bs)) as [|first others] eqn:Hf.
  { exfalso. eapply not_elem_of_nil. rewrite <- Hf. by apply (elem_of_active iter bs k1 (b1, Active)). }
  destruct (find_max iter bs first others Hpos) as (m & a & -> & Hloop & _); [|done|].
  { pose proof MAX_MONEY_i64. lia. }
  cbn [mbind outcome_bind]. rewrite Hloop, HT. cbn [mbind outcome_bind].
  rewrite pay_loop_zero; [done|].
  destruct (decide (k1 = m)) as [->|Hm]; [exists (k2, (b2, Active))|exists (k1, (b1, Active))];
    (split; [by apply iter_lookup|]); (split; [done|cbn; congruence]).
Qed.
(** Two active bonds. *)
Definition two_active (bs : Bonds) : Prop :=
  ∃ k1 b1 k2 b2, bs !! k1 = Some (b1, Active) ∧ bs !! k2 = Some (b2, Active) ∧ k1 ≠ k2.

(** C16: When there is an active bond, no amount is negative and the active bonds and the
    reward together stay within [MAX_MONEY], the block reward is paid out exactly, unless
    there are several active bonds and they hold nothing, and then the node aborts.  Paid
    out exactly means: the active bonds together grow by the reward, the recorded rewards
    add up to it, and everything else about a bond is left alone; every bond gets its
    share rounded down and the biggest active bond, with the smallest key among equals,
    the remainder. *)
Theorem rewards_paid_exactly iter bs :
  Iteration iter → (∀ k v, bs !! k = Some v → 0 ≤ v.1.(bond_amount)) →
  (∃ k b, bs !! k = Some (b, Active)) → total Active bs + BOND_REWARD_TOTAL ≤ MAX_MONEY →
  (total Active bs = 0 ∧ two_active bs → distribute_rewards iter bs = Panic) ∧
  (¬ (total Active bs = 0 ∧ two_active bs) →
   ∃ m store, is_max bs m ∧ distribute_rewards iter bs = Ret (rewarded bs m, store) ∧
   zsum (map snd store) = BOND_REWARD_TOTAL ∧
   total Active (rewarded bs m) = total Active bs + BOND_REWARD_TOTAL ∧
   (∀ st, st ≠ Active → total st (rewarded bs m) = total st bs)).
Proof.
  intros Hit Hpos Hact Hsup. split.
  - intros [HT (k1 & b1 & k2 & b2 & H1 & H2 & Hne)]. exact (empty_bonds_abort iter bs k1 b1 k2 b2 Hit Hpos HT H1 H2 Hne).
  - intros Hn. apply reward_paid; [done|]. split; [done|done| |done].
    pose proof (total_nonneg bs Hpos Active). destruct (decide (total Active bs = 0)) as [HT|]; [right|left; lia].
    intros k1 b1 k2 b2 H1 H2. destruct (decide (k1 = k2)); [done|]. destruct Hn. split; [done|]. by exists k1, b1, k2, b2.
Qed.
End reward_theorems.
