(* ===== verification/DelegationBlock.v ===== *)
(** * DelegationBlock: what one block does to the bonds and the pools

    The staking actions of a validated block, in which no bond is named twice,
    are applied without an error; the bonded pool stays the sum of the active
    bonds and the unbonded pool the sum of the unbonding ones. *)

From stdpp Require Import base list gmap sets.
From S2P Require Import Prelude Wire Encoding Bft Roster Amount Staking Delegation DelegationInv.
Import StakingAction Chain.

(** ** The actions of a block *)

(** An action and where it is in the chain. *)
Definition Located : Type := StakingAction.t * TransactionLocation.
Definition key (x : Located) : BondKey := x.1.(arg32_0).

Fixpoint located (height i : Z) (txs : list (option StakingAction.t)) : list Located :=
  match txs with
  | [] => []
  | None :: txs => located height (i + 1) txs
  | Some a :: txs => (a, (height, i)) :: located height (i + 1) txs
  end.

(** What an action does to the bond it names. *)
Definition effect (x : Located) (o : option Bond) : option Bond :=
  match x.1.(kind) with
  | CreateNewDelegationBond =>
      Some ({| bond_amount := x.1.(amount_zats); target_finalizer := x.1.(arg32_2);
               created_at := x.2 |}, Active)
  | BeginDelegationUnbonding => (λ v, (moved_at v.1 x.2, Unbonding)) <$> o
  | WithdrawDelegationBond => (λ v, (moved_at v.1 x.2, Withdrawn)) <$> o
  | RetargetDelegationBond => (λ v, (with_target v.1 x.1.(arg32_2), v.2)) <$> o
  | _ => o
  end.

(** When an action can be applied. *)
Definition enabled (o : option Bond) (a : StakingAction.t) : Prop :=
  match a.(kind) with
  | CreateNewDelegationBond => o = None ∧ 0 ≤ a.(amount_zats) ≤ MAX_MONEY
  | BeginDelegationUnbonding | RetargetDelegationBond => ∃ b, o = Some (b, Active)
  | WithdrawDelegationBond => ∃ b, o = Some (b, Unbonding) ∧ a.(amount_zats) = b.(bond_amount)
  | _ => True
  end.

(** What an action moves: into the bonded pool, from the bonded to the unbonded
    pool, and out of the unbonded pool. *)
Definition created (x : Located) : Z :=
  if decide (x.1.(kind) = CreateNewDelegationBond) then x.1.(amount_zats) else 0.
Definition withdrawn (x : Located) : Z :=
  if decide (x.1.(kind) = WithdrawDelegationBond) then x.1.(amount_zats) else 0.
Definition unbonded (bs : Bonds) (x : Located) : Z :=
  if decide (x.1.(kind) = BeginDelegationUnbonding)
  then from_option (λ v : Bond, v.1.(bond_amount)) 0 (bs !! key x) else 0.

(** Changing the bond that an action names. *)
Definition act_by (f : Located → option Bond → option Bond) (bs : Bonds) (x : Located) : Bonds :=
  partial_alter (f x) (key x) bs.
Definition acts_by f (xs : list Located) (bs : Bonds) : Bonds := foldl (act_by f) bs xs.
Abbreviation act := (act_by effect).
Abbreviation acts := (acts_by effect).

(** The targets that are remembered for a revert. *)
Definition note_target (bs : Bonds) (m : gmap BondKey bytes) (x : Located) : gmap BondKey bytes :=
  if decide (x.1.(kind) = RetargetDelegationBond)
  then from_option (λ v : Bond, <[key x := v.1.(target_finalizer)]> m) m (bs !! key x) else m.
Definition old_targets (bs : Bonds) (xs : list Located) (m : gmap BondKey bytes) : gmap BondKey bytes :=
  foldl (note_target bs) m xs.

(** Moving stake from the bonded to the unbonded pool. *)
Definition shift (v : ValueBalance.t) (u : Z) : ValueBalance.t :=
  ValueBalance.set_staking_unbonded_amount
    (ValueBalance.set_staking_bonded_amount v (ValueBalance.staking_bonded v - u))
    (ValueBalance.staking_unbonded v + u).

(** Decide equations between constructors. *)
Ltac known_decide :=
  repeat match goal with
  | |- context [decide (?a = ?b)] =>
      first [rewrite (decide_True (P := a = b)) by reflexivity
            |rewrite (decide_False (P := a = b)) by discriminate]
  end.

Lemma shift_zero v : shift v 0 = v.
Proof.
  destruct v. unfold shift, ValueBalance.set_staking_unbonded_amount, ValueBalance.set_staking_bonded_amount.
  cbn. f_equal; lia.
Qed.

Lemma shift_shift v a b : shift (shift v a) b = shift v (a + b).
Proof.
  unfold shift, ValueBalance.set_staking_unbonded_amount, ValueBalance.set_staking_bonded_amount.
  cbn. f_equal; lia.
Qed.

(** ** Actions on different bonds do not interfere *)

Section acts.
Context {f : Located → option Bond → option Bond}.
Implicit Types (bs : Bonds) (x : Located) (xs : list Located).

Lemma act_other bs x k : key x ≠ k → act_by f bs x !! k = bs !! k.
Proof. intros. by apply lookup_partial_alter_ne. Qed.

Lemma act_here bs x : act_by f bs x !! key x = f x (bs !! key x).
Proof. apply lookup_partial_alter_eq. Qed.

Lemma acts_cons x xs bs : acts_by f (x :: xs) bs = acts_by f xs (act_by f bs x).
Proof. done. Qed.

Lemma acts_other xs bs k : k ∉ map key xs → acts_by f xs bs !! k = bs !! k.
Proof.
  revert bs. induction xs as [|x xs IH]; intros bs Hk; [done|]. cbn in Hk.
  rewrite acts_cons, IH by set_solver. apply act_other. set_solver.
Qed.

Lemma acts_here xs bs x :
  NoDup (map key xs) → x ∈ xs → acts_by f xs bs !! key x = f x (bs !! key x).
Proof.
  revert bs. induction xs as [|y xs IH]; intros bs Hnd Hx; [by apply elem_of_nil in Hx|].
  cbn in Hnd. rewrite acts_cons. apply NoDup_cons in Hnd as [Hy Hnd].
  apply elem_of_cons in Hx as [->|Hx].
  - rewrite acts_other by done. apply act_here.
  - rewrite IH by done. f_equal. apply act_other. intros E. apply Hy. rewrite E.
    by apply (list_elem_of_fmap_2 key).
Qed.

(** Everything that is computed from the bonds of the actions only looks at
    the bonds they name. *)
Lemma unbonded_ext bs bs' x : bs !! key x = bs' !! key x → unbonded bs x = unbonded bs' x.
Proof. unfold unbonded. by intros ->. Qed.

Lemma act_keeps bs x xs : key x ∉ map key xs → ∀ y, y ∈ xs → act_by f bs x !! key y = bs !! key y.
Proof.
  intros Hx y Hy. apply act_other. intros E. apply Hx. rewrite E. by apply (list_elem_of_fmap_2 key).
Qed.

Lemma unbonded_sum_act bs x xs :
  key x ∉ map key xs → zsum (map (unbonded (act_by f bs x)) xs) = zsum (map (unbonded bs) xs).
Proof.
  intros Hx. f_equal. apply map_ext_in. intros y Hy%list_elem_of_In. apply unbonded_ext.
  by eapply act_keeps.
Qed.

Lemma old_targets_act bs x xs m :
  key x ∉ map key xs → old_targets (act_by f bs x) xs m = old_targets bs xs m.
Proof.
  intros Hx. pose proof (act_keeps bs x xs Hx) as Hk. clear Hx. revert m.
  induction xs as [|y xs IH]; intros m; [done|]. cbn. unfold old_targets in IH. rewrite IH by set_solver.
  f_equal. unfold note_target. by rewrite Hk by set_solver.
Qed.

Lemma enabled_act bs x xs :
  key x ∉ map key xs → Forall (λ y, enabled (bs !! key y) y.1) xs →
  Forall (λ y, enabled (act_by f bs x !! key y) y.1) xs.
Proof.
  intros Hx. rewrite !Forall_forall. intros He y Hy. rewrite (act_keeps _ _ _ Hx y Hy). by apply He.
Qed.
Lemma act_insert bs x v : f x (bs !! key x) = Some v → act_by f bs x = <[key x := v]> bs.
Proof.
  intros He. apply map_eq. intros k. unfold act_by. destruct (decide (key x = k)) as [<-|Hne].
  - by rewrite lookup_partial_alter_eq, lookup_insert_eq.
  - by rewrite lookup_partial_alter_ne, lookup_insert_ne.
Qed.

Lemma act_id bs x : f x (bs !! key x) = bs !! key x → act_by f bs x = bs.
Proof.
  intros E. apply map_eq. intros k. unfold act_by. destruct (decide (key x = k)) as [<-|Hne];
                                                     [by rewrite lookup_partial_alter_eq|by rewrite lookup_partial_alter_ne].
Qed.

End acts.

(** ** The sums of the bonds *)

Section totals.
Implicit Types (bs : Bonds) (x : Located) (xs : list Located).

(** How one action changes the sum of the bonds in a status. *)
Lemma act_total bs x :
  enabled (bs !! key x) x.1 →
  total Active (act bs x) = total Active bs + created x - unbonded bs x ∧
  total Unbonding (act bs x) = total Unbonding bs + unbonded bs x - withdrawn x.
Proof.
  unfold enabled. intros He.
  unfold created, withdrawn, unbonded. destruct (kind x.1) eqn:Ek.
  2:{ destruct He as [Hn _]. erewrite act_insert by (unfold effect; by rewrite Ek).
    unfold total. rewrite !sum_bonds_new by done. unfold weight. cbn. known_decide. cbn. lia. }
  2:{ destruct He as [b Hb]. erewrite act_insert by (unfold effect; by rewrite Ek, Hb).
    unfold total. rewrite !(sum_bonds_insert _ _ _ _ _ Hb), Hb. unfold weight. cbn. known_decide. cbn. lia. }
  2:{ destruct He as (b & Hb & Ha). erewrite act_insert by (unfold effect; by rewrite Ek, Hb).
    unfold total. rewrite !(sum_bonds_insert _ _ _ _ _ Hb). unfold weight. cbn. known_decide. cbn. lia. }
  2:{ destruct He as [b Hb]. erewrite act_insert by (unfold effect; by rewrite Ek, Hb).
    unfold total. rewrite !(sum_bonds_insert _ _ _ _ _ Hb). unfold weight. cbn. known_decide. cbn. lia. }
  all: rewrite act_id by (unfold effect; by rewrite Ek); known_decide; lia.
Qed.

Lemma acts_total xs : ∀ bs,
  NoDup (map key xs) → Forall (λ x, enabled (bs !! key x) x.1) xs →
  total Active (acts xs bs)
  = total Active bs + zsum (map created xs) - zsum (map (unbonded bs) xs) ∧
  total Unbonding (acts xs bs)
  = total Unbonding bs + zsum (map (unbonded bs) xs) - zsum (map withdrawn xs).
Proof.
  induction xs as [|x xs IH]; intros bs Hnd He; [cbn; lia|].
  cbn [map] in Hnd |- *. apply NoDup_cons in Hnd as [Hx Hnd]. apply Forall_cons in He as [Hex He].
  rewrite acts_cons, !zsum_cons. destruct (act_total bs x Hex) as [Ha Hu].
  destruct (IH (act bs x) Hnd (enabled_act _ _ _ Hx He)) as [IHa IHu].
  rewrite IHa, IHu, (unbonded_sum_act _ _ _ Hx). lia.
Qed.
End totals.

(** ** A validated block can be applied *)

Definition actions (txs : list (option StakingAction.t)) : list StakingAction.t := omap id txs.

Lemma located_actions height txs i : map fst (located height i txs) = actions txs.
Proof.
  revert i. induction txs as [|[a|] txs IH]; intros i; [done|..]; cbn; by rewrite ?IH.
Qed.

Lemma located_keys height txs i : map key (located height i txs) = map arg32_0 (actions txs).
Proof. rewrite <- (located_actions height txs i), map_map. done. Qed.

Section validated.
Context (c : Chain.t) (db : ZebraDb).
(** A chain holds the finalized bonds from its start. *)
Context (Hdb : ∀ k, is_Some (db.(delegation_bond_by_key) !! k) → is_Some (c.(delegation_bonds) !! k)).

Lemma finalized_in_chain k {A} (x y : A) :
  c.(delegation_bonds) !! k = None →
  (if decide (is_Some (db.(delegation_bond_by_key) !! k)) then x else y) = y.
Proof. intros E. case_decide as Hk; [|done]. apply Hdb in Hk as [? ?]. congruence. Qed.

Lemma validate_active_enabled k (x y : InvalidDelegationBond) (z : InvalidDelegationBond + ()) :
  match c.(delegation_bonds) !! k with
  | Some (_, Active) => inr ()
  | Some (_, Unbonding) => inl x
  | Some (_, Withdrawn) => inl y
  | None => z
  end = inr () → (c.(delegation_bonds) !! k = None → z ≠ inr ()) →
  ∃ b, c.(delegation_bonds) !! k = Some (b, Active).
Proof. destruct (c.(delegation_bonds) !! k) as [[b []]|] eqn:E; naive_solver. Qed.

Lemma validate_loop_enabled height txs : ∀ new_bonds unbonding_bonds,
  NoDup (map arg32_0 (actions txs)) →
  (∀ k, k ∈ map arg32_0 (actions txs) → new_bonds !! k = None) →
  validate_loop c db height txs new_bonds unbonding_bonds = Ret (inr ()) →
  Forall (λ a, enabled (c.(delegation_bonds) !! a.(arg32_0)) a) (actions txs).
Proof.
  induction txs as [|[a|] txs IH]; intros nb ub Hnd Hnb Hv; [constructor| |by apply (IH nb ub)].
  cbn [actions omap list_omap id map] in *. fold (actions txs) in *.
  apply NoDup_cons in Hnd as [Ha Hnd]. cbn [validate_loop] in Hv.
  assert (new_bonds_none : nb !! arg32_0 a = None) by (apply Hnb; set_solver).
  unfold enabled. destruct (kind a) eqn:Ek; try (constructor; [by rewrite Ek|by apply (IH nb ub); [|set_solver|]]).
  - destruct (validate_create_new_bond c db (arg32_0 a) nb) as [|[]] eqn:Ev; [done|].
    unfold validate_create_new_bond in Ev. repeat (case_decide; [done|]).
    unfold Amount.try_from in Hv. destruct (is_i64 _); [|done].
    destruct (validate_cases NonNegative (amount_zats a)) as [[Hok Eok]|[_ Eok]]; rewrite Eok in Hv; [|done].
    constructor; [rewrite Ek; split; [by apply eq_None_not_Some|exact Hok]|].
    eapply IH; [done| |exact Hv]. intros k Hk. rewrite lookup_insert_ne by set_solver. apply Hnb. set_solver.
  - destruct (validate_bond_for_unbonding c db (arg32_0 a) nb ub) as [|[]] eqn:Ev; [done|].
    constructor; [rewrite Ek|by apply (IH nb ({[arg32_0 a]} ∪ ub)); [|set_solver|]].
    unfold validate_bond_for_unbonding in Ev. case_decide; [done|].
    rewrite (decide_False (P := is_Some (nb !! arg32_0 a))) in Ev by (rewrite new_bonds_none; by intros []). 
    apply (validate_active_enabled _ _ _ _ Ev). intros Hn. by rewrite finalized_in_chain.
  - destruct (validate_bond_for_withdrawal c (arg32_0 a) (amount_zats a)) as [|[]] eqn:Ev; [done|].
    constructor; [rewrite Ek|by apply (IH nb ub); [|set_solver|]].
    unfold validate_bond_for_withdrawal in Ev. case_match eqn:El; [|done]. case_match; subst.
    case_match; [done| |done]. destruct (Z.eqb_spec (amount_zats a) (bond_amount d)); [by exists d|done].
  - destruct (validate_bond_for_retarget c db (arg32_0 a) nb) as [|[]] eqn:Ev; [done|].
    constructor; [rewrite Ek|by apply (IH nb ub); [|set_solver|]].
    unfold validate_bond_for_retarget in Ev.
    rewrite (decide_False (P := is_Some (nb !! arg32_0 a))) in Ev by (rewrite new_bonds_none; by intros []). 
    apply (validate_active_enabled _ _ _ _ Ev). intros Hn. by rewrite finalized_in_chain.
Qed.
End validated.

(** ** Applying the actions *)

(** The pools can take [u] from the bonded to the unbonded pool. *)
Definition can_shift (c : Chain.t) (u : Z) : Prop :=
  0 ≤ u ≤ staking_bonded c ∧ staking_bonded c ≤ MAX_MONEY ∧
    0 ≤ staking_unbonded c ∧ staking_unbonded c + u ≤ MAX_MONEY.

Lemma update_step c rs rt x :
  c.(bond_retargets) = rs ++ [rt] → rt !! key x = None →
  enabled (c.(delegation_bonds) !! key x) x.1 → can_shift c (unbonded c.(delegation_bonds) x) →
  update_chain_tip_with_delegation_bond c x.1 x.2
  = Ret (inr (Chain.mk (act c.(delegation_bonds) x) c.(bond_rewards)
                (rs ++ [note_target c.(delegation_bonds) rt x])
                (shift c.(chain_value_pools) (unbonded c.(delegation_bonds) x)))).
Proof.
  intros Hrs Hrt He Hc. destruct c as [bs rew tgts pools]. cbn in Hrs, He, Hc |- *. subst tgts.
  unfold update_chain_tip_with_delegation_bond, note_target. fold (key x). unfold unbonded in *.
  cbn [delegation_bonds bond_retargets chain_value_pools] in *. unfold enabled in He.
  destruct (kind x.1) eqn:Ek; known_decide; rewrite ?shift_zero;
    try (rewrite act_id by (unfold effect; by rewrite Ek); done).
  - destruct He as [Hn Ha]. pose proof MAX_MONEY_i64.
    erewrite act_insert by (unfold effect; by rewrite Ek).
    unfold Amount.try_from. rewrite is_i64_true by lia.
    rewrite validate_ok by (unfold Amount.ok; cbn; lia). unfold must.
    by rewrite bool_decide_true by done.
  - destruct He as [b Hb]. erewrite act_insert by (unfold effect; by rewrite Ek, Hb).
    rewrite decide_True in Hc by done. rewrite Hb in Hc |- *. cbn in Hc.
    destruct Hc as (Hu & Hbd & Hub & Hm). unfold staking_bonded, staking_unbonded in *. cbn in *.
    rewrite sub_exact by (unfold Amount.ok; cbn; lia). rewrite validate_ok by (unfold Amount.ok; cbn; lia).
    cbn. rewrite add_exact by (unfold Amount.ok; cbn; lia). rewrite validate_ok by (unfold Amount.ok; cbn; lia).
    done.
  - destruct He as (b & Hb & _). erewrite act_insert by (unfold effect; by rewrite Ek, Hb). by rewrite Hb.
  - destruct He as [b Hb]. erewrite act_insert by (unfold effect; by rewrite Ek, Hb).
    rewrite Hb, last_snoc. cbn. rewrite decide_False by (rewrite Hrt; by intros []).
    by rewrite length_app, Nat.add_sub, take_app_length.
Qed.

Lemma note_target_other bs m x k : key x ≠ k → note_target bs m x !! k = m !! k.
Proof.
  intros Hne. unfold note_target. case_decide; [|done]. destruct (bs !! key x); [|done].
  by apply lookup_insert_ne.
Qed.

Lemma update_actions_eq height txs : ∀ i c rs rt,
  let xs := located height i txs in
  let bs := c.(delegation_bonds) in
  c.(bond_retargets) = rs ++ [rt] → NoDup (map key xs) → (∀ x, x ∈ xs → rt !! key x = None) →
  Forall (λ x, enabled (bs !! key x) x.1) xs → Forall (λ x, 0 ≤ unbonded bs x) xs →
  can_shift c (zsum (map (unbonded bs) xs)) →
  update_actions height i txs c
  = Ret (inr (Chain.mk (acts xs bs) c.(bond_rewards) (rs ++ [old_targets bs xs rt])
                (shift c.(chain_value_pools) (zsum (map (unbonded bs) xs))))).
Proof.
  induction txs as [|[a|] txs IH]; intros i c rs rt xs bs Hrs Hnd Hrt He Hpos Hc; cbn [located] in xs.
  - subst xs bs. cbn. rewrite shift_zero, <- Hrs. by destruct c.
  - set (ys := located height (i + 1) txs) in *. set (x := (a, (height, i))) in *. subst xs.
    cbn [map] in Hnd, Hc |- *. rewrite zsum_cons in Hc |- *. apply NoDup_cons in Hnd as [Hx Hnd].
    apply Forall_cons in He as [Hex He]. apply Forall_cons in Hpos as [Hpx Hpos].
    assert (0 ≤ zsum (map (unbonded bs) ys)).
    { apply zsum_map_nonneg. by apply Forall_forall. }
    assert (can_shift c (unbonded bs x)) as Hcx by (unfold can_shift in *; lia).
    pose proof (update_step c rs rt x Hrs (Hrt x (list_elem_of_here _ _)) Hex Hcx) as Hstep.
    unfold x in Hstep at 1 2. cbn [fst snd] in Hstep. cbn [update_actions]. rewrite Hstep. fold bs. cbn [mbind Fallible_bind]. set (c1 := Chain.mk _ _ _ _).
    rewrite (IH (i + 1) c1 rs (note_target bs rt x)); fold ys; cbn [delegation_bonds c1 bond_rewards chain_value_pools].
    + rewrite acts_cons, (unbonded_sum_act _ _ _ Hx), shift_shift.
      change (old_targets bs (x :: ys) rt) with (old_targets bs ys (note_target bs rt x)).
      by rewrite (old_targets_act _ _ _ _ Hx).
    + done.
    + done.
    + intros y Hy. rewrite note_target_other; [by apply Hrt; set_solver|].
      intros E. apply Hx. rewrite E. by apply (list_elem_of_fmap_2 key).
    + by apply enabled_act.
    + rewrite Forall_forall in Hpos |- *. intros y Hy.
      rewrite (unbonded_ext (act bs x) bs) by (by eapply act_keeps). by apply Hpos.
    + rewrite (unbonded_sum_act _ _ _ Hx). unfold can_shift, staking_bonded, staking_unbonded in *.
      cbn in *. lia.
  - subst xs. cbn [update_actions mbind Fallible_bind mret Fallible_ret]. by apply IH.
Qed.

(** Distinct bonds are worth no more than all of them. *)
Lemma keys_total st bs ks :
  (∀ k v, bs !! k = Some v → 0 ≤ v.1.(bond_amount)) → NoDup ks →
  zsum (map (λ k, from_option (weight st) 0 (bs !! k)) ks) ≤ total st bs.
Proof.
  revert bs. induction ks as [|k ks IH]; intros bs Hpos Hnd; [by apply total_nonneg|].
  apply NoDup_cons in Hnd as [Hk Hnd]. cbn [map]. rewrite zsum_cons.
  assert (∀ bs' : Bonds, (∀ k', k' ≠ k → bs' !! k' = bs !! k') →
    zsum (map (λ k, from_option (weight st) 0 (bs' !! k)) ks)
    = zsum (map (λ k, from_option (weight st) 0 (bs !! k)) ks)) as Hext.
  { intros bs' Hb. f_equal. apply map_ext_in. intros k' Hk'%list_elem_of_In.
    rewrite Hb; [done|]. intros ->. done. }
  destruct (bs !! k) as [v|] eqn:Ev; cbn [from_option]; [|rewrite Z.add_0_l; by apply IH].
  unfold total. rewrite (sum_bonds_delete _ bs k v Ev). rewrite <- (Hext (delete k bs)).
  - apply Z.add_le_mono_l. apply IH; [|done]. intros k' v' [_ Hk']%lookup_delete_Some. by eapply Hpos.
  - intros k' Hne. by apply lookup_delete_ne.
Qed.

Lemma unbonded_le bs xs :
  (∀ k v, bs !! k = Some v → 0 ≤ v.1.(bond_amount)) → NoDup (map key xs) →
  Forall (λ x, enabled (bs !! key x) x.1) xs →
  zsum (map (unbonded bs) xs) ≤ total Active bs ∧ zsum (map withdrawn xs) ≤ total Unbonding bs.
Proof.
  intros Hpos Hnd He. rewrite Forall_forall in He.
  split; (etrans; [|apply (keys_total _ bs (map key xs) Hpos Hnd)]); rewrite map_map; apply zsum_map_le;
    intros x Hx; specialize (He x Hx); unfold enabled in He.
  - assert (0 ≤ from_option (weight Active) 0 (bs !! key x)).
    { destruct (bs !! key x) eqn:E; cbn; [by eapply weight_nonneg|lia]. }
    unfold unbonded. case_decide as Hk; [|done]. rewrite Hk in He. destruct He as [b Hb]. rewrite Hb.
    unfold weight. cbn. by rewrite decide_True.
  - assert (0 ≤ from_option (weight Unbonding) 0 (bs !! key x)).
    { destruct (bs !! key x) eqn:E; cbn; [by eapply weight_nonneg|lia]. }
    unfold withdrawn. case_decide as Hk; [|done]. rewrite Hk in He. destruct He as (b & Hb & Ha).
    rewrite Hb. unfold weight. cbn. rewrite decide_True by done. lia.
Qed.

(** ** A whole block *)

(** The pools of a chain are the sums of its bonds. *)
Record balanced (c : Chain.t) : Prop := {
  bl_amounts : ∀ k v, c.(delegation_bonds) !! k = Some v → 0 ≤ v.1.(bond_amount);
  bl_bonded : staking_bonded c = total Active c.(delegation_bonds);
  bl_unbonded : staking_unbonded c = total Unbonding c.(delegation_bonds) }.

(** What a block with the actions [xs] and the value pool change [change] has to
    satisfy on top of a chain. *)
Record fits (c : Chain.t) (xs : list Located) (change : ValueBalance.t) : Prop := {
  ft_keys : NoDup (map key xs);
  ft_enabled : Forall (λ x, enabled (c.(delegation_bonds) !! key x) x.1) xs;
  (** The change carries the stake that is created and withdrawn. *)
  ft_created : ValueBalance.staking_bonded change = zsum (map created xs);
  ft_withdrawn : ValueBalance.staking_unbonded change = - zsum (map withdrawn xs);
  ft_change : ValueBalance.ok NegativeAllowed change;
  (** The pools stay within the money supply. *)
  ft_pools : ValueBalance.ok NonNegative c.(chain_value_pools);
  ft_after : ValueBalance.ok NonNegative (ValueBalance.plus c.(chain_value_pools) change);
  ft_supply : total Active c.(delegation_bonds) + total Unbonding c.(delegation_bonds)
              + zsum (map created xs) + BOND_REWARD_TOTAL ≤ MAX_MONEY;
  (** The stake that is active afterwards can share the reward. *)
  ft_stake : (∃ k b, acts xs c.(delegation_bonds) !! k = Some (b, Active)) →
    0 < total Active (acts xs c.(delegation_bonds)) }.

Section block.
Context {P : Profile} (iter : Bonds → Items) `{Iteration iter}.
Context (c : Chain.t) (height : Z) (txs : list (option StakingAction.t)) (change : ValueBalance.t).
Context (Hbal : balanced c) (Hfit : fits c (located height 0 txs) change).

Let xs := located height 0 txs.
Let bs := c.(delegation_bonds).
Let U := zsum (map (unbonded bs) xs).

Lemma unbonded_nonneg : Forall (λ x, 0 ≤ unbonded bs x) xs.
Proof.
  apply Forall_forall. intros x _. unfold unbonded. case_decide; [|lia].
  destruct (bs !! key x) as [v|] eqn:E; cbn; [by eapply (bl_amounts _ Hbal)|lia].
Qed.

Lemma created_nonneg : 0 ≤ zsum (map created xs) ∧ 0 ≤ zsum (map withdrawn xs).
Proof.
  pose proof (ft_enabled _ _ _ Hfit) as He. rewrite Forall_forall in He.
  split; apply zsum_map_nonneg; intros x Hx; specialize (He x Hx); unfold enabled in He;
    unfold created, withdrawn; (case_decide as Hk; [|lia]); rewrite Hk in He.
  - lia.
  - destruct He as (b & Hb & ->). by apply (bl_amounts _ Hbal _ _ Hb).
Qed.

Lemma unbonded_bounds : 0 ≤ U ≤ total Active bs ∧ zsum (map withdrawn xs) ≤ total Unbonding bs.
Proof.
  destruct (unbonded_le bs xs (bl_amounts _ Hbal) (ft_keys _ _ _ Hfit) (ft_enabled _ _ _ Hfit)).
  split; [split|]; [|done|done]. apply zsum_map_nonneg. apply Forall_forall, unbonded_nonneg.
Qed.

Lemma acts_amounts k v : acts xs bs !! k = Some v → 0 ≤ v.1.(bond_amount).
Proof.
  intros Hk. destruct (decide (k ∈ map key xs)) as [(x & -> & Hx)%list_elem_of_fmap|Hn].
  - rewrite acts_here in Hk; [|apply Hfit|done]. pose proof (ft_enabled _ _ _ Hfit) as He.
    eapply Forall_forall in He; [|exact Hx]. unfold enabled in He. unfold effect in Hk.
    destruct (kind x.1); try (by eapply (bl_amounts _ Hbal)); [simplify_eq; cbn; lia|..];
      (destruct (bs !! key x) as [w|] eqn:Ew; [|done]); cbn in Hk; simplify_eq;
      apply (bl_amounts _ Hbal _ _ Ew).
  - rewrite acts_other in Hk by done. by eapply (bl_amounts _ Hbal).
Qed.

(** The pools between the actions and the reward. *)
Definition moved_pools : ValueBalance.t := ValueBalance.plus (shift c.(chain_value_pools) U) change.

Lemma moved_pools_staking :
  ValueBalance.staking_bonded moved_pools = total Active (acts xs bs) ∧
  ValueBalance.staking_unbonded moved_pools = total Unbonding (acts xs bs).
Proof.
  destruct (acts_total xs bs (ft_keys _ _ _ Hfit) (ft_enabled _ _ _ Hfit)) as [-> ->].
  pose proof (bl_bonded _ Hbal) as Hb. pose proof (bl_unbonded _ Hbal) as Hu.
  unfold staking_bonded, staking_unbonded in Hb, Hu. cbn.
  rewrite (ft_created _ _ _ Hfit), (ft_withdrawn _ _ _ Hfit), Hb, Hu. fold bs xs U. lia.
Qed.

Lemma pools_shift_ok u v :
  ValueBalance.ok NonNegative v → 0 ≤ ValueBalance.staking_bonded v - u ≤ MAX_MONEY →
  0 ≤ ValueBalance.staking_unbonded v + u ≤ MAX_MONEY → ValueBalance.ok NonNegative (shift v u).
Proof.
  unfold ValueBalance.ok, ValueBalance.pools, shift, Amount.ok. cbn. rewrite !Forall_cons, !Forall_nil. lia.
Qed.

Lemma moved_pools_ok :
  ValueBalance.ok NonNegative (shift c.(chain_value_pools) U) ∧ ValueBalance.ok NonNegative moved_pools.
Proof.
  pose proof unbonded_bounds as [HU HW]. pose proof created_nonneg as [HC HW0].
  pose proof (bl_bonded _ Hbal) as Hb. pose proof (bl_unbonded _ Hbal) as Hu.
  pose proof (ft_supply _ _ _ Hfit) as Hs. fold xs bs in Hs, Hb, Hu. unfold BOND_REWARD_TOTAL in Hs.
  unfold staking_bonded, staking_unbonded in Hb, Hu.
  split; [apply pools_shift_ok; [apply Hfit|lia|lia]|].
  assert (moved_pools = shift (ValueBalance.plus c.(chain_value_pools) change) U) as ->.
  { unfold moved_pools, shift, ValueBalance.plus, ValueBalance.set_staking_bonded_amount,
      ValueBalance.set_staking_unbonded_amount. cbn. f_equal; lia. }
  apply pools_shift_ok; [apply Hfit|..]; cbn; rewrite ?Hb, ?Hu, ?(ft_created _ _ _ Hfit), ?(ft_withdrawn _ _ _ Hfit);
    fold xs bs; lia.
Qed.

(** The chain just before the reward. *)
Definition before_reward : Chain.t :=
  Chain.mk (acts xs bs) c.(bond_rewards) (c.(bond_retargets) ++ [old_targets bs xs ∅]) moved_pools.

Lemma update_block_split :
  update_block iter height txs change c
  = match apply_rewards iter before_reward with Ret c' => Ret (inr c') | Panic => Panic end.
Proof.
  pose proof unbonded_bounds as [HU _]. pose proof moved_pools_ok as [Hok1 Hok2].
  pose proof (bl_bonded _ Hbal) as Hb. pose proof (bl_unbonded _ Hbal) as Hu.
  pose proof created_nonneg as [HC _]. pose proof (total_nonneg bs (bl_amounts _ Hbal) Unbonding).
  pose proof (ft_supply _ _ _ Hfit) as Hs. fold xs bs in Hs, Hb, Hu. unfold BOND_REWARD_TOTAL in Hs.
  unfold update_block. cbn zeta.
  rewrite (update_actions_eq height txs 0 _ c.(bond_retargets) ∅); fold xs; cbn [delegation_bonds with_retargets].
  - fold bs U. cbn [mbind Fallible_bind bond_rewards chain_value_pools with_retargets].
    rewrite (proj2 (pool_change_inr (shift c.(chain_value_pools) U) change moved_pools Hok1
                  (ft_change _ _ _ Hfit))) by done.
    cbn. done.
  - done.
  - apply Hfit.
  - intros. apply lookup_empty.
  - apply Hfit.
  - apply unbonded_nonneg.
  - fold bs U. unfold can_shift. unfold staking_bonded, staking_unbonded in *.
    cbn [chain_value_pools with_retargets]. lia.
Qed.

Lemma acts_payable :
  (∃ k b, acts xs bs !! k = Some (b, Active)) → payable_bonds (acts xs bs).
Proof.
  intros Hact. split; [apply acts_amounts|done|left; by apply Hfit|].
  destruct (acts_total xs bs (ft_keys _ _ _ Hfit) (ft_enabled _ _ _ Hfit)) as [-> _].
  pose proof unbonded_bounds as [HU _]. pose proof (ft_supply _ _ _ Hfit) as Hs. fold xs bs U in Hs |- *.
  pose proof (total_nonneg bs (bl_amounts _ Hbal) Unbonding). lia.
Qed.

(** The chain after the block: without active bonds nothing is paid. *)
Definition unrewarded : Chain.t := with_rewards before_reward (c.(bond_rewards) ++ [[]]).
Definition rewarded_chain (m : BondKey) (entries : Items) : Chain.t :=
  with_rewards
    (set_bonded (with_bonds before_reward (rewarded (acts xs bs) m))
   (staking_bonded before_reward + BOND_REWARD_TOTAL))
  (c.(bond_rewards) ++ [map (λ x, (x.1, reward (acts xs bs) m x.1 x.2)) entries]).

Lemma update_block_eq :
  (update_block iter height txs change c = Ret (inr unrewarded) ∧
   ∀ k b, acts xs bs !! k ≠ Some (b, Active)) ∨
  (∃ m entries, update_block iter height txs change c = Ret (inr (rewarded_chain m entries)) ∧
   payable_bonds (acts xs bs) ∧ is_max (acts xs bs) m ∧
   entries ≡ₚ filter (λ x, active x = true) (map_to_list (acts xs bs))).
Proof.
  rewrite update_block_split. unfold apply_rewards. cbn [delegation_bonds before_reward bond_rewards].
  case_decide as Hn.
  - left. split; [done|]. intros k b Hk. eapply not_elem_of_nil. rewrite <- Hn.
    by apply (elem_of_active iter (acts xs bs) k (b, Active)).
  - right. assert (payable_bonds (acts xs bs)) as Hpb.
    { apply acts_payable. destruct (filter _ _) as [|[k [b st]] l] eqn:Ef; [done|].
      assert ((k, (b, st)) ∈ filter (λ x, active x = true) (iter (acts xs bs))) as Hin
        by (rewrite Ef; apply list_elem_of_here).
      apply (elem_of_active iter) in Hin as [Hk Hst]. cbn in Hst. subst. eauto. }
    destruct (distribute_rewards_eq iter _ Hpb) as (m & l & Hm & Hd & Hl). exists m, l.
    rewrite Hd. cbn [mbind outcome_bind].
    assert (Amount.new BOND_REWARD_TOTAL = Ret BOND_REWARD_TOTAL) as -> by (vm_compute; reflexivity).
    cbn [mbind outcome_bind]. destruct moved_pools_staking as [Hsb _].
    assert (staking_bonded before_reward = total Active (acts xs bs)) as Hbr by done.
    pose proof (pb_supply _ Hpb) as Hs. pose proof (total_nonneg _ (pb_amounts _ Hpb) Active) as H0.
    assert (∀ z, 0 ≤ z ≤ MAX_MONEY → Amount.ok NonNegative z) as Hok by done.
    rewrite add_exact by (apply Hok; rewrite ?Hbr; unfold BOND_REWARD_TOTAL in *; lia).
    rewrite validate_ok by (apply Hok; rewrite ?Hbr; unfold BOND_REWARD_TOTAL in *; lia).
    done.
Qed.

Lemma reward_nonneg m k v :
  payable_bonds (acts xs bs) → is_max (acts xs bs) m → acts xs bs !! k = Some v →
  0 ≤ reward (acts xs bs) m k v.
Proof.
  intros Hpb Hm Hk. pose proof (total_nonneg _ (pb_amounts _ Hpb) Active).
  unfold reward. case_decide; [|lia]. case_decide.
  - pose proof (others_paid_le_reward (acts xs bs) m Hpb Hm). lia.
  - by eapply (share_nonneg (acts xs bs)); [apply Hpb| |].
Qed.

Lemma update_block_balanced :
  ∃ c', update_block iter height txs change c = Ret (inr c') ∧ balanced c'.
Proof.
  destruct moved_pools_staking as [Hsb Hsu].
  destruct update_block_eq as [[Hu _]|(m & l & Hu & Hpb & Hm & _)]; rewrite Hu; eexists; (split; [done|]).
  - split; [apply acts_amounts|done|done].
  - split.
    + intros k v. cbn. unfold rewarded. rewrite map_lookup_imap.
      intros (v0 & Hv0 & [= <-])%bind_Some. cbn.
      pose proof (acts_amounts _ _ Hv0). pose proof (reward_nonneg m k v0 Hpb Hm Hv0). lia.
    + change (ValueBalance.staking_bonded moved_pools + BOND_REWARD_TOTAL
        = total Active (rewarded (acts xs bs) m)).
      by rewrite rewarded_total, Hsb.
    + change (ValueBalance.staking_unbonded moved_pools = total Unbonding (rewarded (acts xs bs) m)).
      by rewrite rewarded_other_total, Hsu.
Qed.
End block.

(** What a block needs besides valid actions: a value pool change that carries
    exactly the stake it creates and withdraws, pools within the money supply,
    and some stake if a bond is active. *)
Record affordable (c : Chain.t) (xs : list Located) (change : ValueBalance.t) : Prop := {
  af_created : ValueBalance.staking_bonded change = zsum (map created xs);
  af_withdrawn : ValueBalance.staking_unbonded change = - zsum (map withdrawn xs);
  af_change : ValueBalance.ok NegativeAllowed change;
  af_pools : ValueBalance.ok NonNegative c.(chain_value_pools);
  af_after : ValueBalance.ok NonNegative (ValueBalance.plus c.(chain_value_pools) change);
  af_supply : total Active c.(delegation_bonds) + total Unbonding c.(delegation_bonds)
              + zsum (map created xs) + BOND_REWARD_TOTAL ≤ MAX_MONEY;
  af_stake : (∃ k b, acts xs c.(delegation_bonds) !! k = Some (b, Active)) →
    0 < total Active (acts xs c.(delegation_bonds)) }.

(** A chain that starts from a database holds its bonds. *)
Definition holds_finalized (c : Chain.t) (db : ZebraDb) : Prop :=
  ∀ k, is_Some (db.(delegation_bond_by_key) !! k) → is_Some (c.(delegation_bonds) !! k).

Lemma validated_fits c db height txs change :
  holds_finalized c db → validate_delegation_bonds c db height txs = Ret (inr ()) →
  NoDup (map arg32_0 (actions txs)) → affordable c (located height 0 txs) change →
  fits c (located height 0 txs) change.
Proof.
  intros Hdb Hv Hnd []. split; try done; [by rewrite located_keys|].
  apply (validate_loop_enabled c db Hdb height txs ∅ ∅) in Hv; [|done|intros; apply lookup_empty].
  rewrite <- (located_actions height txs 0) in Hv. by apply Forall_map in Hv.
Qed.
