(* ===== verification/BlockValue.v ===== *)
(** * BlockValue: the value pool change of a block

    Models the value balances of a transaction ([zebra-chain/src/transaction.rs],
    [transparent.rs], [sprout/joinsplit.rs]) and the change they make to the chain
    value pools ([Block::chain_value_pool_change] of [zebra-chain/src/block.rs]).

    The theorems close the gap between the value pool change of a block and the
    stake its actions move. *)

From stdpp Require Import base list gmap.
From S2P Require Import Prelude Wire Encoding Roster Amount Staking Transparent Network Transaction Delegation DelegationInv DelegationBlock.
Import StakingAction Chain.

(** ** Value balances *)

Section values.
(** The outputs that the block spends. *)
Context (spent : gmap OutPoint Output).

Definition value_from_outputs (i : Input) : outcome Z :=
  match i with
  | PrevOut outpoint _ => o ← unwrap (spent !! outpoint); Ret o.(value)
  | Coinbase _ _ => Ret 0
  end.

(** [iter.map(f)] where [f] can panic. *)
Fixpoint map_m {A B} (f : A → outcome B) (l : list A) : outcome (list B) :=
  match l with
  | [] => Ret []
  | x :: l => y ← f x; l ← map_m f l; Ret (y :: l)
  end.

(** A sum of non-negative amounts, as a signed amount. *)
Definition signed_sum (l : list Z) : Fallible ValueBalanceError Z :=
  s ← map_err Transparent (Amount.sum NonNegative l);
  match Amount.constrain NegativeAllowed s with Ret (inr s) => mret s | _ => Panic end.

Definition transparent_value_balance_from_outputs (tx : Transaction)
    : Fallible ValueBalanceError ValueBalance.t :=
  match map_m value_from_outputs (inputs tx) with
  | Panic => Panic
  | Ret values =>
      input_value ← signed_sum values;
      output_value ← signed_sum (map value (outputs tx));
      v ← map_err Transparent (Amount.sub NegativeAllowed input_value output_value);
      mret (ValueBalance.mk v 0 0 0 0 0 0)
  end.

(** [JoinSplit::value_balance] *)
Definition joinsplit_value_balance (j : JoinSplit) : outcome Z :=
  new ← expect (Amount.constrain NegativeAllowed j.(vpub_new));
  old ← expect (Amount.constrain NegativeAllowed j.(vpub_old));
  expect (Amount.sub NegativeAllowed new old).

Fixpoint sum_joinsplits (acc : ValueBalance.t) (l : list JoinSplit) : Fallible ValueBalanceError ValueBalance.t :=
  match l with
  | [] => mret acc
  | j :: l =>
      match joinsplit_value_balance j with
      | Panic => Panic
      | Ret v => acc ← ValueBalance.add NegativeAllowed acc (ValueBalance.mk 0 v 0 0 0 0 0);
             sum_joinsplits acc l
      end
  end.
Definition sprout_value_balance (tx : Transaction) : Fallible ValueBalanceError ValueBalance.t :=
  sum_joinsplits ValueBalance.zero (joinsplits tx).
Definition sapling_amount (tx : Transaction) : Z :=
  match sapling_shielded_data tx with Some s => s.(sapling_balance) | None => 0 end.
Definition orchard_amount (tx : Transaction) : Z :=
  match orchard_shielded_data tx with Some o => o.(orchard_balance) | None => 0 end.
Definition sapling_value_balance (tx : Transaction) : ValueBalance.t :=
  ValueBalance.mk 0 0 (sapling_amount tx) 0 0 0 0.
Definition orchard_value_balance (tx : Transaction) : ValueBalance.t :=
  ValueBalance.mk 0 0 0 (orchard_amount tx) 0 0 0.

(** The operands are evaluated from left to right; an error of a sum is a value
    that the next sum passes on. *)
Definition value_balance (tx : Transaction) : Fallible ValueBalanceError ValueBalance.t :=
  transparent ← transparent_value_balance_from_outputs tx;
  sprout ← sprout_value_balance tx;
  match staking_action_value_balance (staking_action tx) with
  | Panic => Panic
  | Ret staking =>
      v ← ValueBalance.add NegativeAllowed transparent sprout;
      v ← ValueBalance.add NegativeAllowed v (sapling_value_balance tx);
      v ← ValueBalance.add NegativeAllowed v (orchard_value_balance tx);
      ValueBalance.add NegativeAllowed v staking
  end.

(** [flat_map] drops the transactions whose balance is an error. *)
Fixpoint sum_balances (acc : ValueBalance.t) (txs : list Transaction) : Fallible ValueBalanceError ValueBalance.t :=
  match txs with
  | [] => mret acc
  | tx :: txs =>
      match value_balance tx with
      | Panic => Panic
      | Ret (inl _) => sum_balances acc txs
      | Ret (inr v) => acc ← ValueBalance.add NegativeAllowed acc v; sum_balances acc txs
      end
  end.

Definition set_deferred_amount (v : ValueBalance.t) (a : Z) : ValueBalance.t :=
  ValueBalance.mk v.(ValueBalance.transparent) v.(ValueBalance.sprout) v.(ValueBalance.sapling)
    v.(ValueBalance.orchard) a v.(ValueBalance.staking_bonded) v.(ValueBalance.staking_unbonded).

(** [Block::chain_value_pool_change] *)
Definition chain_value_pool_change (txs : list Transaction) (deferred_pool_balance_change : option Z)
    : Fallible ValueBalanceError ValueBalance.t :=
  s ← sum_balances ValueBalance.zero txs;
  match ValueBalance.neg s with
  | Panic => Panic
  | Ret v => mret (set_deferred_amount v (default 0 deferred_pool_balance_change))
  end.
End values.

(** ** The stake a block moves *)

Definition created_by (o : option StakingAction.t) : Z :=
  match o with
  | Some a => if decide (a.(kind) = CreateNewDelegationBond) then a.(amount_zats) else 0
  | None => 0
  end.
Definition withdrawn_by (o : option StakingAction.t) : Z :=
  match o with
  | Some a => if decide (a.(kind) = WithdrawDelegationBond) then a.(amount_zats) else 0
  | None => 0
  end.

(** A transaction whose fields are within the ranges of their types. *)
Record tx_ok (tx : Transaction) : Prop := {
  to_joinsplits : Forall (λ j, Amount.ok NonNegative j.(vpub_new) ∧ Amount.ok NonNegative j.(vpub_old)) (joinsplits tx);
  to_sapling : Amount.ok NegativeAllowed (sapling_amount tx);
  to_orchard : Amount.ok NegativeAllowed (orchard_amount tx);
  to_staking : ∀ a, (staking_action tx) = Some a → is_u 64 a.(amount_zats) }.

Lemma amount_sub_ok c a b v : Amount.sub c a b = Ret (inr v) → Amount.ok c v.
Proof.
  unfold Amount.sub. destruct (is_i64 _); [|done].
  destruct (validate_cases c (a - b)) as [[? ->]|[? ->]]; [by intros [= <-]|done].
Qed.

Lemma zero_ok : Amount.ok NegativeAllowed 0.
Proof. pose proof MAX_MONEY_i64. unfold Amount.ok. cbn. lia. Qed.

(** A balance with at most one pool that is not zero. *)
Ltac balance_ok :=
  unfold ValueBalance.ok, ValueBalance.pools; cbn;
  repeat (apply Forall_cons; split); try (by apply Forall_nil); try done; try apply zero_ok.

Lemma vb_add_ok a b v :
  ValueBalance.ok NegativeAllowed a → ValueBalance.ok NegativeAllowed b →
  ValueBalance.add NegativeAllowed a b = Ret (inr v) →
  v = ValueBalance.plus a b ∧ ValueBalance.ok NegativeAllowed v.
Proof. intros Ha Hb Hv. apply vb_add_inr in Hv as [-> ?]; done. Qed.

Lemma transparent_balance spent tx v :
  transparent_value_balance_from_outputs spent tx = Ret (inr v) →
  ValueBalance.ok NegativeAllowed v ∧ v.(ValueBalance.staking_bonded) = 0 ∧ v.(ValueBalance.staking_unbonded) = 0.
Proof.
  unfold transparent_value_balance_from_outputs. destruct (map_m _ _); [|done].
  intros (i & _ & (o & _ & (d & Hd & [= <-])%Fallible_bind_inv)%Fallible_bind_inv)%Fallible_bind_inv.
  destruct (Amount.sub _ _ _) as [[|d']|] eqn:E; [done| |done]. injection Hd as <-.
  apply amount_sub_ok in E. split; [balance_ok|done].
Qed.

Lemma sprout_balance l : ∀ acc v,
  Forall (λ j, Amount.ok NonNegative j.(vpub_new) ∧ Amount.ok NonNegative j.(vpub_old)) l →
  ValueBalance.ok NegativeAllowed acc → sum_joinsplits acc l = Ret (inr v) →
  ValueBalance.ok NegativeAllowed v ∧
  v.(ValueBalance.staking_bonded) = acc.(ValueBalance.staking_bonded) ∧
  v.(ValueBalance.staking_unbonded) = acc.(ValueBalance.staking_unbonded).
Proof.
  induction l as [|j l IH]; intros acc v Hl Hacc; cbn [sum_joinsplits]; [by intros [= <-]|].
  apply Forall_cons in Hl as [[Hn Ho] Hl]. unfold joinsplit_value_balance, Amount.constrain.
  rewrite !validate_ok by (by eapply ok_negative_allowed). cbn [expect mbind outcome_bind].
  destruct (Amount.sub _ _ _) as [[|d]|] eqn:E; [done| |done]. cbn [expect].
  apply amount_sub_ok in E. intros (acc' & Ha & Hv)%Fallible_bind_inv.
  apply vb_add_ok in Ha as [-> Hok]; [|done|balance_ok].
  destruct (IH _ _ Hl Hok Hv) as (? & -> & ->). split; [done|]. cbn. lia.
Qed.

Lemma staking_balance o v :
  (∀ a, o = Some a → is_u 64 a.(amount_zats)) → staking_action_value_balance o = Ret v →
  ValueBalance.ok NegativeAllowed v ∧
  v.(ValueBalance.staking_bonded) = - created_by o ∧ v.(ValueBalance.staking_unbonded) = withdrawn_by o.
Proof.
  unfold created_by, withdrawn_by. destruct o as [a|]; [|intros _ [= <-]; split; [balance_ok|done]].
  intros Hu. specialize (Hu a eq_refl). rewrite (staking_value_balance_cases a Hu). unfold is_u in Hu.
  pose proof MAX_MONEY_i64.
  destruct (kind a); try (intros [= <-]; split; [balance_ok|done]);
    (destruct (Z.leb_spec (amount_zats a) MAX_MONEY); [|done]); intros [= <-];
    (split; [balance_ok; unfold Amount.ok; cbn; lia|done]).
Qed.

(** What a balance that is not an error says about the stake. *)
Lemma value_balance_stake spent tx v :
  tx_ok tx → value_balance spent tx = Ret (inr v) →
  ValueBalance.ok NegativeAllowed v ∧
  v.(ValueBalance.staking_bonded) = - created_by (staking_action tx) ∧
  v.(ValueBalance.staking_unbonded) = withdrawn_by (staking_action tx).
Proof.
  intros [Hj Hsap Horch Hst] (t & (Htok & Htb & Htu)%transparent_balance & H)%Fallible_bind_inv.
  apply Fallible_bind_inv in H as (sp & Hsp & H).
  apply sprout_balance in Hsp as (? & Hsb & Hsu); [|done|balance_ok].
  destruct (staking_action_value_balance _) as [st|] eqn:E; [|done].
  apply (staking_balance _ _ Hst) in E as (? & Hstb & Hstu).
  apply Fallible_bind_inv in H as (v1 & Hv1 & H). apply vb_add_ok in Hv1 as [-> ?]; [|done..].
  apply Fallible_bind_inv in H as (v2 & Hv2 & H).
  apply vb_add_ok in Hv2 as [-> ?]; [|done|unfold sapling_value_balance; balance_ok].
  apply Fallible_bind_inv in H as (v3 & Hv3 & H).
  apply vb_add_ok in Hv3 as [-> ?]; [|done|unfold orchard_value_balance; balance_ok].
  apply vb_add_ok in H as [-> ?]; [|done..]. split; [done|]. cbn in *. lia.
Qed.

(** A transaction that has a value balance. *)
Definition has_balance (spent : gmap OutPoint Output) (tx : Transaction) : Prop :=
  ∃ v, value_balance spent tx = Ret (inr v).

Lemma sum_balances_stake spent txs : ∀ acc v,
  Forall tx_ok txs → Forall (has_balance spent) txs → ValueBalance.ok NegativeAllowed acc →
  sum_balances spent acc txs = Ret (inr v) →
  ValueBalance.ok NegativeAllowed v ∧
  v.(ValueBalance.staking_bonded) = acc.(ValueBalance.staking_bonded) - zsum (map (created_by ∘ staking_action) txs) ∧
  v.(ValueBalance.staking_unbonded) = acc.(ValueBalance.staking_unbonded) + zsum (map (withdrawn_by ∘ staking_action) txs).
Proof.
  induction txs as [|tx txs IH]; intros acc v Hok Hb Hacc; cbn [sum_balances map].
  { intros [= <-]. cbn. split; [done|lia]. }
  apply Forall_cons in Hok as [Ho Hok]. apply Forall_cons in Hb as [[b Hbal] Hb]. rewrite Hbal.
  apply (value_balance_stake _ _ _ Ho) in Hbal as (Hbok & Hbb & Hbu).
  intros (acc' & Ha & Hv)%Fallible_bind_inv. apply vb_add_ok in Ha as [-> ?]; [|done..].
  destruct (IH _ _ Hok Hb ltac:(done) Hv) as (? & -> & ->). rewrite !zsum_cons.
  split; [done|]. cbn in *. lia.
Qed.

(** The actions of a block, counted with and without their locations. *)
Lemma zsum_located (f : option StakingAction.t → Z) height os i :
  f None = 0 → zsum (map (λ x : Located, f (Some x.1)) (located height i os)) = zsum (map f os).
Proof.
  intros Hf. revert i. induction os as [|[a|] os IH]; intros i; [done|..]; cbn [located map];
                         rewrite !zsum_cons, IH; cbn; lia.
Qed.

Lemma change_carries_stake spent height txs deferred ch :
  Forall tx_ok txs → Forall (has_balance spent) txs → Amount.ok NegativeAllowed (default 0 deferred) →
  chain_value_pool_change spent txs deferred = Ret (inr ch) →
  let xs := located height 0 (map staking_action txs) in
  ValueBalance.ok NegativeAllowed ch ∧
  ch.(ValueBalance.staking_bonded) = zsum (map created xs) ∧
  ch.(ValueBalance.staking_unbonded) = - zsum (map withdrawn xs).
Proof.
  intros Hok Hb Hd (s & Hs & H)%Fallible_bind_inv xs.
  apply sum_balances_stake in Hs as (Hsok & Hsb & Hsu); [|done|done|balance_ok].
  rewrite (vb_neg_exact NegativeAllowed) in H by done. injection H as <-.
  apply ok_opp in Hsok. split.
  - unfold ValueBalance.ok, ValueBalance.pools in *. cbn in *. rewrite !Forall_cons in *. naive_solver.
  - pose proof (zsum_located created_by height (map staking_action txs) 0 eq_refl) as Hc.
    pose proof (zsum_located withdrawn_by height (map staking_action txs) 0 eq_refl) as Hw.
    rewrite map_map in Hc, Hw. cbn -[located]. rewrite Hsb, Hsu. unfold xs.
    change (map (created_by ∘ staking_action) txs) with (map (λ tx, created_by (staking_action tx)) txs).
    change (map (withdrawn_by ∘ staking_action) txs) with (map (λ tx, withdrawn_by (staking_action tx)) txs).
    rewrite <- Hc, <- Hw. unfold created, created_by, withdrawn, withdrawn_by. cbn -[located zsum]. lia.
Qed.

(** What the code does not check about a block: the pools stay within the money
    supply when the stake and the reward are added, and a bond is only active if
    there is some stake. *)
Record within_supply (c : Chain.t) (xs : list Located) : Prop := {
  sp_supply : total Active c.(delegation_bonds) + total Unbonding c.(delegation_bonds)
              + zsum (map created xs) + BOND_REWARD_TOTAL ≤ MAX_MONEY;
  sp_stake : (∃ k b, acts xs c.(delegation_bonds) !! k = Some (b, Active)) →
    0 < total Active (acts xs c.(delegation_bonds)) }.

Section block_theorems.
Context {P : Profile}.

(** C14: A block whose transactions have a value balance and whose staking actions are validated,
    no bond named twice, is added to the tip of a chain without an error or a panic when its
    value pool change can be added to the pools, the bonds with what the block creates and
    the reward stay within [MAX_MONEY], and the bonds that are active after its actions, if
    there are any, do not all hold nothing ([within_supply]; [empty_bonds_abort] shows a
    panic otherwise).  It keeps the pools exact: what is bonded is the sum of the active
    bonds, reward included, and what is unbonded the sum of the unbonding ones. *)
Theorem block_keeps_pools iter c db spent height txs deferred ch pools :
  Iteration iter → balanced c → holds_finalized c db → ValueBalance.ok NonNegative c.(chain_value_pools) →
  Forall tx_ok txs → Forall (has_balance spent) txs → Amount.ok NegativeAllowed (default 0 deferred) →
  chain_value_pool_change spent txs deferred = Ret (inr ch) →
  ValueBalance.add_chain_value_pool_change c.(chain_value_pools) ch = Ret (inr pools) →
  validate_delegation_bonds c db height (map staking_action txs) = Ret (inr ()) →
  NoDup (map arg32_0 (actions (map staking_action txs))) →
  within_supply c (located height 0 (map staking_action txs)) →
  ∃ c', update_block iter height (map staking_action txs) ch c = Ret (inr c') ∧ balanced c'.
Proof.
  intros Hit Hbal Hdb Hp Hok Hb Hd Hch Ha Hv Hnd [Hsup Hst].
  destruct (change_carries_stake spent height txs deferred ch Hok Hb Hd Hch) as (Hc & Hcb & Hcu).
  apply pool_change_inr in Ha as [_ Ha]; [|done|done].
  apply update_block_balanced; [done|done|]. eapply validated_fits; [done|done|done|]. by split.
Qed.
End block_theorems.

(** A transaction without a balance is left out of the change, with the stake it
    creates. *)
Theorem balance_error_dropped spent tx e :
  value_balance spent tx = Ret (inl e) → chain_value_pool_change spent [tx] None = Ret (inr ValueBalance.zero).
Proof. intros H. unfold chain_value_pool_change. cbn [sum_balances]. by rewrite H. Qed.
