(* ===== verification/Spends.v ===== *)
(** * Spends: outputs, nullifiers and their spends

    Models the checks of [zebra-state/src/service/check/utxo.rs] and
    [check/nullifier.rs], the outputs that a block creates
    ([zebra-chain/src/transparent/utxo.rs]), and what
    [non_finalized_state/chain.rs] keeps of them when a block is added to a chain
    or taken off it.  The address index is left out.

    A block is the list of its transactions with their hashes. *)

From stdpp Require Import base list gmap sets.
From S2P Require Import Prelude Wire Encoding Roster Amount Staking Transparent Network Transaction Delegation DelegationInv DelegationBlock BlockValue.

Inductive NullifierPool := SproutPool | SaplingPool | OrchardPool.

(** The errors of [ValidateContextError] that concern spends. *)
Module SpendError.
Inductive t :=
| DuplicateTransparentSpend (outpoint : OutPoint)
| EarlyTransparentSpend (outpoint : OutPoint)
| MissingTransparentOutput (outpoint : OutPoint)
| ImmatureTransparentCoinbaseSpend (outpoint : OutPoint) (spend_height min_spend_height created_height : Z)
| UnshieldedTransparentCoinbaseSpend (outpoint : OutPoint)
| NegativeRemainingTransactionValue (e : AmountError) (tx_index_in_block : nat)
| CalculateRemainingTransactionValue (e : AmountError) (tx_index_in_block : nat)
| CalculateTransactionValueBalances (e : ValueBalanceError) (tx_index_in_block : nat)
| DuplicateNullifier (pool : NullifierPool) (nullifier : bytes) (in_finalized_state : bool).
End SpendError.
Import SpendError.

Abbreviation HashedTx := (bytes * Transaction)%type.

(** ** The outputs of a block *)

(** [new_transaction_ordered_outputs], with its [try_into().expect(..)]. *)
Fixpoint add_outputs (hash : bytes) (tx_index_in_block : nat) (height : Z) (i : nat) (l : list Output)
    (m : gmap OutPoint OrderedUtxo) : outcome (gmap OutPoint OrderedUtxo) :=
  match l with
  | [] => Ret m
  | o :: l =>
      _ ← assert_ (in_range 32 (Z.of_nat i));
      add_outputs hash tx_index_in_block height (S i) l
        (<[(hash, Z.of_nat i) := ordered_utxo o height tx_index_in_block]> m)
  end.
Fixpoint add_ordered_outputs (height : Z) (tx_index_in_block : nat) (txs : list HashedTx)
    (m : gmap OutPoint OrderedUtxo) : outcome (gmap OutPoint OrderedUtxo) :=
  match txs with
  | [] => Ret m
  | (hash, tx) :: txs =>
      m ← add_outputs hash tx_index_in_block height 0 (outputs tx) m;
      add_ordered_outputs height (S tx_index_in_block) txs m
  end.
(** [new_ordered_outputs_with_height] *)
Definition new_ordered_outputs (height : Z) (txs : list HashedTx) : outcome (gmap OutPoint OrderedUtxo) :=
  add_ordered_outputs height 0 txs ∅.

(** ** The state of a chain *)

Record Spends := mk_spends {
  created_utxos : gmap OutPoint OrderedUtxo;
  spent_utxos : gset OutPoint;
  tx_loc_by_hash : gset bytes;
  chain_sprout_nullifiers : gset bytes;
  chain_sapling_nullifiers : gset bytes;
  chain_orchard_nullifiers : gset bytes }.
Definition no_spends : Spends := mk_spends ∅ ∅ ∅ ∅ ∅ ∅.

(** The finalized state: the unspent outputs and the nullifiers. *)
Record SpendDb := {
  db_utxo : gmap OutPoint OrderedUtxo;
  db_sprout_nullifiers : gset bytes;
  db_sapling_nullifiers : gset bytes;
  db_orchard_nullifiers : gset bytes }.

Definition unspent_utxos (s : Spends) : gmap OutPoint OrderedUtxo :=
  filter (λ x, x.1 ∉ s.(spent_utxos)) s.(created_utxos).

(** ** Transparent spends *)

Definition MIN_TRANSPARENT_COINBASE_MATURITY : Z := 2.

Definition transparent_coinbase_spend (outpoint : OutPoint) (restriction : CoinbaseSpendRestriction) (u : Utxo)
    : Fallible SpendError.t () :=
  if u.(from_coinbase) then
    match restriction with
    | CheckCoinbaseMaturity spend_height =>
        min_spend_height ← expect_some (height_sub u.(utxo_height) (- MIN_TRANSPARENT_COINBASE_MATURITY));
        ensure (min_spend_height <=? spend_height)
          (ImmatureTransparentCoinbaseSpend outpoint spend_height min_spend_height u.(utxo_height))
    | DisallowCoinbaseSpend => fail (UnshieldedTransparentCoinbaseSpend outpoint)
    end
  else mret ().

Section checks.
Context (n : Network) (db : SpendDb) (s : Spends) (height : Z) (new_outputs : gmap OutPoint OrderedUtxo).

Definition transparent_spend_chain_order (spend : OutPoint) (spend_tx_index_in_block : nat)
    : Fallible SpendError.t OrderedUtxo :=
  match new_outputs !! spend with
  | Some output =>
      if decide (spend_tx_index_in_block ≤ output.(tx_index_in_block))%nat then fail (EarlyTransparentSpend spend)
      else mret output
  | None =>
      if decide (spend ∈ s.(spent_utxos)) then fail (DuplicateTransparentSpend spend)
      else ok_or (match unspent_utxos s !! spend with Some u => Some u | None => db.(db_utxo) !! spend end)
             (MissingTransparentOutput spend)
  end.

(** The inner and the outer loop of [transparent_spend]. *)
Fixpoint spend_inputs (i : nat) (restriction : CoinbaseSpendRestriction) (spends : list OutPoint)
    (block_spends : gmap OutPoint OrderedUtxo) : Fallible SpendError.t (gmap OutPoint OrderedUtxo) :=
  match spends with
  | [] => mret block_spends
  | spend :: spends =>
      u ← transparent_spend_chain_order spend i;
      _ ← transparent_coinbase_spend spend restriction u.(utxo);
      if decide (is_Some (block_spends !! spend)) then fail (DuplicateTransparentSpend spend)
      else spend_inputs i restriction spends (<[spend := u]> block_spends)
  end.
Fixpoint spend_transactions (i : nat) (txs : list Transaction) (block_spends : gmap OutPoint OrderedUtxo)
    : Fallible SpendError.t (gmap OutPoint OrderedUtxo) :=
  match txs with
  | [] => mret block_spends
  | tx :: txs =>
      block_spends ← spend_inputs i (coinbase_spend_restriction n height tx) (spent_outpoints tx) block_spends;
      spend_transactions (S i) txs block_spends
  end.

Fixpoint remaining_transaction_value (i : nat) (txs : list Transaction) (utxos : gmap OutPoint OrderedUtxo)
    : Fallible SpendError.t () :=
  match txs with
  | [] => mret ()
  | tx :: txs =>
      _ ← (if is_coinbase tx then mret () else
           match value_balance (outputs_from_utxos (utxos_from_ordered_utxos utxos)) tx with
           | Ret (inr vb) =>
               match ValueBalance.remaining_transaction_value vb with
               | Ret (inr _) => mret ()
               | Ret (inl (ConstraintError value range)) =>
                   if value <? 0 then fail (NegativeRemainingTransactionValue (ConstraintError value range) i)
                   else fail (CalculateRemainingTransactionValue (ConstraintError value range) i)
               | Ret (inl e) => fail (CalculateRemainingTransactionValue e i)
               | Panic => Panic
               end
           | Ret (inl e) => fail (CalculateTransactionValueBalances e i)
           | Panic => Panic
           end);
      remaining_transaction_value (S i) txs utxos
  end.

Definition transparent_spend (txs : list Transaction) : Fallible SpendError.t (gmap OutPoint OrderedUtxo) :=
  block_spends ← spend_transactions 0 txs ∅;
  _ ← remaining_transaction_value 0 txs block_spends;
  mret block_spends.

(** ** Nullifiers *)

(** [no_duplicates_in_finalized_chain] *)
Definition no_finalized (pool : NullifierPool) (finalized : gset bytes) (l : list bytes) : Fallible SpendError.t () :=
  match find (λ x, bool_decide (x ∈ finalized)) l with
  | Some x => fail (DuplicateNullifier pool x true)
  | None => mret ()
  end.
Definition no_duplicates_in_finalized_chain (txs : list Transaction) : Fallible SpendError.t () :=
  _ ← no_finalized SproutPool db.(db_sprout_nullifiers) (concat (map sprout_nullifiers txs));
  _ ← no_finalized SaplingPool db.(db_sapling_nullifiers) (concat (map sapling_nullifiers txs));
  no_finalized OrchardPool db.(db_orchard_nullifiers) (concat (map orchard_nullifiers txs)).
End checks.

Fixpoint add_to_non_finalized_chain_unique (pool : NullifierPool) (chain_nullifiers : gset bytes) (l : list bytes)
    : Fallible SpendError.t (gset bytes) :=
  match l with
  | [] => mret chain_nullifiers
  | x :: l =>
      if decide (x ∈ chain_nullifiers) then fail (DuplicateNullifier pool x false)
      else add_to_non_finalized_chain_unique pool ({[x]} ∪ chain_nullifiers) l
  end.
Fixpoint remove_from_non_finalized_chain (chain_nullifiers : gset bytes) (l : list bytes) : outcome (gset bytes) :=
  match l with
  | [] => Ret chain_nullifiers
  | x :: l =>
      _ ← assert_ (bool_decide (x ∈ chain_nullifiers));
      remove_from_non_finalized_chain (chain_nullifiers ∖ {[x]}) l
  end.

(** ** Adding a block to a chain and taking it off *)

(** The outpoints of the outputs of a transaction. *)
Definition outpoints (hash : bytes) (tx : Transaction) : list OutPoint :=
  map (λ i, (hash, Z.of_nat i)) (seq 0 (length (outputs tx))).

Section update.
Context (new_outputs : gmap OutPoint OrderedUtxo).

(** [UpdateWith] of the outputs and of the inputs of a transaction. *)
Fixpoint create_utxos (l : list OutPoint) (m : gmap OutPoint OrderedUtxo) : outcome (gmap OutPoint OrderedUtxo) :=
  match l with
  | [] => Ret m
  | o :: l =>
      u ← unwrap (new_outputs !! o);
      _ ← assert_ (bool_decide (m !! o = None));
      create_utxos l (<[o := u]> m)
  end.
Fixpoint spend_utxos (spent_outputs : gmap OutPoint OrderedUtxo) (l : list OutPoint) (spent : gset OutPoint)
    : outcome (gset OutPoint) :=
  match l with
  | [] => Ret spent
  | o :: l =>
      _ ← assert_ (bool_decide (o ∉ spent));
      _ ← assert_ (bool_decide (is_Some (spent_outputs !! o)));
      spend_utxos spent_outputs l ({[o]} ∪ spent)
  end.

(** The body of the loop over the transactions; a transaction of an older version
    is [unreachable!]. *)
Definition update_transaction (spent_outputs : gmap OutPoint OrderedUtxo) (x : HashedTx) (s : Spends)
    : Fallible SpendError.t Spends :=
  let '(hash, tx) := x in
  _ ← must (4 <=? version tx);
  _ ← must (bool_decide (hash ∉ s.(tx_loc_by_hash)));
  created ← run (create_utxos (outpoints hash tx) s.(created_utxos));
  spent ← run (spend_utxos spent_outputs (spent_outpoints tx) s.(spent_utxos));
  sprout ← add_to_non_finalized_chain_unique SproutPool s.(chain_sprout_nullifiers) (sprout_nullifiers tx);
  sapling ← add_to_non_finalized_chain_unique SaplingPool s.(chain_sapling_nullifiers) (sapling_nullifiers tx);
  orchard ← add_to_non_finalized_chain_unique OrchardPool s.(chain_orchard_nullifiers) (orchard_nullifiers tx);
  mret (mk_spends created spent ({[hash]} ∪ s.(tx_loc_by_hash)) sprout sapling orchard).
Fixpoint update_transactions (spent_outputs : gmap OutPoint OrderedUtxo) (txs : list HashedTx) (s : Spends)
    : Fallible SpendError.t Spends :=
  match txs with
  | [] => mret s
  | x :: txs => s ← update_transaction spent_outputs x s; update_transactions spent_outputs txs s
  end.

Fixpoint uncreate_utxos (l : list OutPoint) (m : gmap OutPoint OrderedUtxo) : outcome (gmap OutPoint OrderedUtxo) :=
  match l with
  | [] => Ret m
  | o :: l =>
      _ ← unwrap (new_outputs !! o);
      _ ← assert_ (bool_decide (is_Some (m !! o)));
      uncreate_utxos l (delete o m)
  end.
Fixpoint unspend_utxos (spent_outputs : gmap OutPoint OrderedUtxo) (l : list OutPoint) (spent : gset OutPoint)
    : outcome (gset OutPoint) :=
  match l with
  | [] => Ret spent
  | o :: l =>
      _ ← assert_ (bool_decide (o ∈ spent));
      _ ← assert_ (bool_decide (is_Some (spent_outputs !! o)));
      unspend_utxos spent_outputs l (spent ∖ {[o]})
  end.
(** The transactions of a block are reverted in their order in the block, at
    either end of a chain. *)
Definition revert_transaction (spent_outputs : gmap OutPoint OrderedUtxo) (x : HashedTx) (s : Spends) : outcome Spends :=
  let '(hash, tx) := x in
  _ ← assert_ (4 <=? version tx);
  created ← uncreate_utxos (outpoints hash tx) s.(created_utxos);
  spent ← unspend_utxos spent_outputs (spent_outpoints tx) s.(spent_utxos);
  _ ← assert_ (bool_decide (hash ∈ s.(tx_loc_by_hash)));
  sprout ← remove_from_non_finalized_chain s.(chain_sprout_nullifiers) (sprout_nullifiers tx);
  sapling ← remove_from_non_finalized_chain s.(chain_sapling_nullifiers) (sapling_nullifiers tx);
  orchard ← remove_from_non_finalized_chain s.(chain_orchard_nullifiers) (orchard_nullifiers tx);
  Ret (mk_spends created spent (s.(tx_loc_by_hash) ∖ {[hash]}) sprout sapling orchard).
Fixpoint revert_transactions (spent_outputs : gmap OutPoint OrderedUtxo) (txs : list HashedTx) (s : Spends) : outcome Spends :=
  match txs with
  | [] => Ret s
  | x :: txs => s ← revert_transaction spent_outputs x s; revert_transactions spent_outputs txs s
  end.
End update.

(** What [validate_and_update] does of this: the checks, then the update with what
    they looked up. *)
Definition validate_and_update_spends (n : Network) (db : SpendDb) (height : Z) (txs : list HashedTx) (s : Spends)
    : Fallible SpendError.t (gmap OutPoint OrderedUtxo * Spends) :=
  new_outputs ← run (new_ordered_outputs height txs);
  _ ← no_duplicates_in_finalized_chain db (map snd txs);
  block_spends ← transparent_spend n db s height new_outputs (map snd txs);
  s ← update_transactions new_outputs block_spends txs s;
  mret (block_spends, s).
