(* ===== verification/SpendsInv.v ===== *)
(** * SpendsInv: blocks follow the rules of a ledger

    An abstract ledger is a set of unspent outputs; a transaction takes what it
    spends out of the set and puts its outputs in.  A block that the checks accept
    is a step of the ledger, transaction by transaction, and reveals no nullifier
    twice; reverting the block undoes it. *)

From stdpp Require Import base list gmap sets.
From S2P Require Import Prelude Wire Encoding Roster Amount Staking Transparent Network Transaction Delegation DelegationInv DelegationBlock BlockValue Spends.
Import SpendError.

(** ** The ledger *)

Definition ledger_tx (utxos : gset OutPoint) (x : HashedTx) : option (gset OutPoint) :=
  let spends := spent_outpoints x.2 in
  if decide (NoDup spends ∧ list_to_set spends ⊆ utxos)
  then Some (list_to_set (outpoints x.1 x.2) ∪ (utxos ∖ list_to_set spends)) else None.
Definition ledger (utxos : gset OutPoint) (txs : list HashedTx) : option (gset OutPoint) :=
  foldl (λ u x, u ← u; ledger_tx u x) (Some utxos) txs.

Definition all_outpoints (txs : list HashedTx) : list OutPoint := concat (map (λ x, outpoints x.1 x.2) txs).
Definition all_spends (txs : list HashedTx) : list OutPoint := concat (map (λ x, spent_outpoints x.2) txs).
Definition all_of (f : Transaction → list bytes) (txs : list HashedTx) : list bytes := concat (map (λ x, f x.2) txs).

(** The unspent outputs of a chain on top of the finalized state. *)
Definition utxo_set (db : SpendDb) (s : Spends) : gset OutPoint :=
  (dom db.(db_utxo) ∪ dom s.(created_utxos)) ∖ s.(spent_utxos).

Lemma elem_of_concat_map {A B} (f : A → list B) l y : y ∈ concat (map f l) ↔ ∃ x, x ∈ l ∧ y ∈ f x.
Proof.
  induction l as [|a l IH]; cbn; [set_solver|]. rewrite elem_of_app, IH. set_solver.
Qed.

(** ** The outputs of a block *)

Lemma elem_of_outpoints hash tx o :
  o ∈ outpoints hash tx ↔ ∃ i, (i < length (outputs tx))%nat ∧ o = (hash, Z.of_nat i).
Proof.
  unfold outpoints. rewrite list_elem_of_fmap. split.
  - intros (i & -> & Hi%elem_of_seq). exists i. split; [lia|done].
  - intros (i & Hi & ->). exists i. split; [done|]. apply elem_of_seq. lia.
Qed.

Lemma add_outputs_lookup hash j height l : ∀ i m m' o,
  add_outputs hash j height i l m = Ret m' →
  (o.1 = hash ∧ (∃ k, (i ≤ k < i + length l)%nat ∧ o.2 = Z.of_nat k) →
     ∃ u, m' !! o = Some u ∧ u.(tx_index_in_block) = j) ∧
  (¬ (o.1 = hash ∧ ∃ k, (i ≤ k < i + length l)%nat ∧ o.2 = Z.of_nat k) → m' !! o = m !! o).
Proof.
  induction l as [|x l IH]; intros i m m' o; cbn [add_outputs length].
  { intros [= <-]. split; [intros (_ & k & Hk & _); lia|done]. }
  intros (_ & _ & H)%bind_Ret_inv. destruct (IH (S i) _ _ o H) as [H1 H2]. split.
  - intros [Ho (k & Hk & Hok)]. destruct (decide (k = i)) as [->|Hne].
    + rewrite H2.
      * exists (ordered_utxo x height j). split; [|done]. destruct o as [oh oi]. cbn in *. subst. apply lookup_insert_eq.
      * intros [_ (k & Hk' & Hok')]. rewrite Hok in Hok'. lia.
    + apply H1. split; [done|]. exists k. split; [lia|done].
  - intros Hn. rewrite H2.
    + apply lookup_insert_ne. intros <-. apply Hn. split; [done|]. exists i. split; [lia|done].
    + intros [Ho (k & Hk & Hok)]. apply Hn. split; [done|]. exists k. split; [lia|done].
Qed.

Lemma add_outputs_in hash tx j height m m' o :
  add_outputs hash j height 0 (outputs tx) m = Ret m' →
  if decide (o ∈ outpoints hash tx) then ∃ u, m' !! o = Some u ∧ u.(tx_index_in_block) = j else m' !! o = m !! o.
Proof.
  intros H. destruct (add_outputs_lookup _ _ _ _ _ _ _ o H) as [H1 H2]. case_decide as Ho.
  - apply elem_of_outpoints in Ho as (i & Hi & ->). apply H1. split; [done|]. exists i. split; [lia|done].
  - apply H2. intros [Hh (k & Hk & Hok)]. apply Ho, elem_of_outpoints. exists k. split; [lia|]. destruct o. cbn in *. by subst.
Qed.

(** The index of an output in its block, and where it comes from. *)
Lemma add_ordered_outputs_in height txs : ∀ j m m',
  add_ordered_outputs height j txs m = Ret m' → NoDup txs.*1 →
  (∀ i x o, txs !! i = Some x → o ∈ outpoints x.1 x.2 → ∃ u, m' !! o = Some u ∧ u.(tx_index_in_block) = (j + i)%nat) ∧
  (∀ o, o ∉ all_outpoints txs → m' !! o = m !! o).
Proof.
  induction txs as [|[hash tx] txs IH]; intros j m m'; cbn [add_ordered_outputs].
  { intros [= <-] _. split; [done|]. done. }
  intros (m1 & H1 & H)%bind_Ret_inv [Hh Hnd]%NoDup_cons. destruct (IH _ _ _ H Hnd) as [IH1 IH2].
  assert (∀ o, o ∈ outpoints hash tx → o ∉ all_outpoints txs) as Hfresh.
  { intros o (i & _ & ->)%elem_of_outpoints ([h' t'] & Hx & (k & _ & [= <- _])%elem_of_outpoints)%elem_of_concat_map.
    apply Hh. exact (list_elem_of_fmap_2 fst _ _ Hx). }
  split.
  - intros [|i] x o; cbn.
    + intros [= <-] Ho. rewrite IH2 by (by apply Hfresh).
      pose proof (add_outputs_in _ _ _ _ _ _ o H1) as E. rewrite decide_True in E by done. rewrite Nat.add_0_r. done.
    + intros Hx Ho. destruct (IH1 i x o Hx Ho) as (u & ? & ?). exists u. split; [done|lia].
  - intros o Ho. unfold all_outpoints in Ho. cbn in Ho. apply not_elem_of_app in Ho as [Ho1 Ho2]. rewrite IH2 by done.
    pose proof (add_outputs_in _ _ _ _ _ _ o H1) as E. by rewrite decide_False in E.
Qed.

Lemma new_outputs_at height txs m i x o :
  new_ordered_outputs height txs = Ret m → NoDup txs.*1 → txs !! i = Some x → o ∈ outpoints x.1 x.2 →
  ∃ u, m !! o = Some u ∧ u.(tx_index_in_block) = i.
Proof. intros H Hnd. by apply (add_ordered_outputs_in height txs 0 ∅ m H Hnd). Qed.

Lemma new_outputs_dom height txs m :
  new_ordered_outputs height txs = Ret m → NoDup txs.*1 → dom m = list_to_set (all_outpoints txs).
Proof.
  intros H Hnd. destruct (add_ordered_outputs_in height txs 0 ∅ m H Hnd) as [H1 H2]. apply set_eq. intros o.
  rewrite elem_of_dom, elem_of_list_to_set. split.
  - intros [u Hu]. destruct (decide (o ∈ all_outpoints txs)) as [|Hn]; [done|]. rewrite H2, lookup_empty in Hu by done. done.
  - intros (x & Hx & Ho)%elem_of_concat_map. apply list_elem_of_lookup in Hx as [i Hi].
    destruct (H1 i x o Hi Ho) as (u & Hu & _). by exists u.
Qed.

(** ** What the checks ensure *)

Section checks.
Context (n : Network) (db : SpendDb) (s : Spends) (height : Z) (m : gmap OutPoint OrderedUtxo).

(** A spend at index [i] that is in chain order. *)
Definition in_order (i : nat) (o : OutPoint) : Prop :=
  match m !! o with
  | Some u => (u.(tx_index_in_block) < i)%nat
  | None => o ∈ utxo_set db s
  end.

Lemma chain_order_inv o i u : transparent_spend_chain_order db s m o i = Ret (inr u) → in_order i o.
Proof.
  unfold transparent_spend_chain_order, in_order. destruct (m !! o) as [v|].
  - case_decide; [done|]. intros _. lia.
  - case_decide as Hs; [done|]. intros H%ok_or_inv. unfold utxo_set. apply elem_of_difference. split; [|done].
    apply elem_of_union. destruct (unspent_utxos s !! o) as [w|] eqn:E.
    + right. apply map_lookup_filter_Some in E as [E _]. by apply elem_of_dom_2 in E.
    + left. by apply elem_of_dom_2 in H.
Qed.

Lemma spend_inputs_inv i r l : ∀ bs bs',
  spend_inputs db s m i r l bs = Ret (inr bs') →
  NoDup l ∧ Forall (in_order i) l ∧ Forall (λ o, o ∉ dom bs) l ∧ dom bs' = dom bs ∪ list_to_set l.
Proof.
  induction l as [|o l IH]; intros bs bs'; cbn [spend_inputs].
  { intros [= <-]. split_and!; [constructor..|set_solver]. }
  intros (u & Hu%chain_order_inv & (_ & _ & H)%Fallible_bind_inv)%Fallible_bind_inv.
  case_decide as Hd; [done|]. apply IH in H as (Hnd & Ho & Hf & Hdom).
  assert (o ∉ dom bs) as Hn by (by rewrite elem_of_dom).
  assert (o ∉ l) as Hol.
  { intros Hin. rewrite Forall_forall in Hf. apply (Hf o Hin). set_solver. }
  split_and!.
  - by constructor.
  - by constructor.
  - constructor; [done|]. eapply Forall_impl; [exact Hf|]. set_solver.
  - rewrite Hdom, dom_insert_L. set_solver.
Qed.

Lemma spend_transactions_inv txs : ∀ j bs bs',
  spend_transactions n db s height m j (map snd txs) bs = Ret (inr bs') →
  NoDup (all_spends txs) ∧ Forall (λ o, o ∉ dom bs) (all_spends txs) ∧
  dom bs' = dom bs ∪ list_to_set (all_spends txs) ∧
  ∀ i x o, txs !! i = Some x → o ∈ spent_outpoints x.2 → in_order (j + i) o.
Proof.
  induction txs as [|[hash tx] txs IH]; intros j bs bs'; cbn [map spend_transactions snd].
  { intros [= <-]. split_and!; [constructor..|set_solver|done]. }
  intros (bs1 & (Hnd1 & Ho1 & Hf1 & Hd1)%spend_inputs_inv & (Hnd & Hf & Hd & Ho)%IH)%Fallible_bind_inv.
  unfold all_spends in *. cbn [map concat snd]. rewrite Hd1 in Hf, Hd. rewrite Forall_forall in Hf, Hf1, Ho1.
  split_and!.
  - apply NoDup_app. split_and!; [done| |done]. intros o Ho' Hin. apply (Hf o Hin). set_solver.
  - apply Forall_forall. intros o [Hin|Hin]%elem_of_app; [by apply Hf1|]. specialize (Hf o Hin). set_solver.
  - rewrite Hd, list_to_set_app_L. set_solver.
  - intros [|i] x o; cbn.
    + intros [= <-] Hx. rewrite Nat.add_0_r. by apply Ho1.
    + intros Hx Hox. replace (j + S i)%nat with (S j + i)%nat by lia. by eapply Ho.
Qed.
End checks.

(** ** Running the ledger *)

Lemma ledger_app u l x : ledger u (l ++ [x]) = (u' ← ledger u l; ledger_tx u' x).
Proof. unfold ledger. by rewrite foldl_app. Qed.

Lemma all_app {A} (f : HashedTx → list A) l x : concat (map f (l ++ [x])) = concat (map f l) ++ f x.
Proof. rewrite map_app, concat_app. cbn. by rewrite app_nil_r. Qed.

(** Spends that refer to what there was before the block or to the outputs of an
    earlier transaction, each once, run through the ledger. *)
Lemma ledger_run u txs :
  NoDup (all_spends txs) →
  (∀ i x o, txs !! i = Some x → o ∈ spent_outpoints x.2 → o ∈ u ∨ o ∈ all_outpoints (take i txs)) →
  (∀ i x o, txs !! i = Some x → o ∈ outpoints x.1 x.2 → o ∉ all_spends (take (S i) txs)) →
  ledger u txs = Some ((u ∪ list_to_set (all_outpoints txs)) ∖ list_to_set (all_spends txs)).
Proof.
  intros Hnd Hin Hout. induction txs as [|x txs IH] using rev_ind.
  { cbn. f_equal. set_solver. }
  unfold all_spends, all_outpoints in *. rewrite all_app in Hnd. apply NoDup_app in Hnd as (Hnd & Hdisj & Hndx).
  assert ((txs ++ [x]) !! length txs = Some x) as Hx by (by apply list_lookup_middle).
  assert (∀ o, o ∈ spent_outpoints x.2 → o ∈ u ∨ o ∈ concat (map (λ x, outpoints x.1 x.2) txs)) as Hinx.
  { intros o Ho. specialize (Hin _ _ o Hx Ho). by rewrite take_app_length in Hin. }
  assert (∀ o, o ∈ outpoints x.1 x.2 → o ∉ concat (map (λ x, spent_outpoints x.2) txs) ++ spent_outpoints x.2) as Houtx.
  { intros o Ho. specialize (Hout _ _ o Hx Ho). by rewrite take_ge, all_app in Hout by (rewrite length_app; cbn; lia). }
  rewrite ledger_app, IH; [|done|..].
  - cbn. unfold ledger_tx. rewrite decide_True.
    + f_equal. rewrite !all_app, !list_to_set_app_L. apply set_eq. intros o. specialize (Houtx o).
      rewrite elem_of_app in Houtx. set_unfold. tauto.
    + split; [done|]. intros o Ho%elem_of_list_to_set. apply elem_of_difference. rewrite elem_of_union, !elem_of_list_to_set.
      split; [by apply Hinx|]. intros Hs. by apply (Hdisj o Hs).
  - intros i y o Hi Ho. apply lookup_lt_Some in Hi as Hlt. specialize (Hin i y o).
    rewrite lookup_app_l, take_app_le in Hin by lia. by apply Hin.
  - intros i y o Hi Ho. apply lookup_lt_Some in Hi as Hlt. specialize (Hout i y o).
    rewrite lookup_app_l, take_app_le in Hout by lia. by apply Hout.
Qed.

(** ** The update, one part at a time *)

Lemma create_utxos_inv m l : ∀ c c',
  create_utxos m l c = Ret c' →
  dom c' = dom c ∪ list_to_set l ∧ Forall (λ o, o ∉ dom c) l ∧ NoDup l ∧
  (∀ o, o ∉ l → c' !! o = c !! o).
Proof.
  induction l as [|o l IH]; intros c c'; cbn [create_utxos].
  { intros [= <-]. split_and!; [set_solver|constructor..|done]. }
  intros (u & _ & (_ & Hn%assert_Ret_inv%bool_decide_eq_true & (Hd & Hf & Hnd & Hl)%IH)%bind_Ret_inv)%bind_Ret_inv.
  apply not_elem_of_dom in Hn as Hn'. rewrite dom_insert_L in Hd, Hf. rewrite Forall_forall in Hf.
  split_and!.
  - rewrite Hd. set_solver.
  - constructor; [done|]. apply Forall_forall. intros y Hy. specialize (Hf y Hy). set_solver.
  - constructor; [|done]. intros Ho. specialize (Hf o Ho). set_solver.
  - intros y [Hy Hyl]%not_elem_of_cons. rewrite Hl by done. by apply lookup_insert_ne.
Qed.

Lemma spend_utxos_inv bs l : ∀ sp sp',
  spend_utxos bs l sp = Ret sp' → sp' = sp ∪ list_to_set l ∧ Forall (λ o, o ∉ sp) l ∧ NoDup l ∧ Forall (λ o, is_Some (bs !! o)) l.
Proof.
  induction l as [|o l IH]; intros sp sp'; cbn [spend_utxos].
  { intros [= <-]. split_and!; [set_solver|constructor..]. }
  intros (_ & Hn%assert_Ret_inv%bool_decide_eq_true & (_ & Hb%assert_Ret_inv%bool_decide_eq_true & (-> & Hf & Hnd & Hbs)%IH)%bind_Ret_inv)%bind_Ret_inv.
  rewrite Forall_forall in Hf. split_and!.
  - set_solver.
  - constructor; [done|]. apply Forall_forall. intros y Hy. specialize (Hf y Hy). set_solver.
  - constructor; [|done]. intros Ho. specialize (Hf o Ho). set_solver.
  - by constructor.
Qed.

Lemma add_unique_inv pool l : ∀ c c',
  add_to_non_finalized_chain_unique pool c l = Ret (inr c') → c' = c ∪ list_to_set l ∧ Forall (λ x, x ∉ c) l ∧ NoDup l.
Proof.
  induction l as [|x l IH]; intros c c'; cbn [add_to_non_finalized_chain_unique].
  { intros [= <-]. split_and!; [set_solver|constructor..]. }
  case_decide as Hx; [done|]. intros (-> & Hf & Hnd)%IH. rewrite Forall_forall in Hf. split_and!.
  - set_solver.
  - constructor; [done|]. apply Forall_forall. intros y Hy. specialize (Hf y Hy). set_solver.
  - constructor; [|done]. intros Ho. specialize (Hf x Ho). set_solver.
Qed.

(** Lists of parts that are disjoint from a set and from each other. *)
Lemma new_parts `{Countable B} (c : gset B) (l1 l2 : list B) :
  Forall (λ x, x ∉ c) l1 → NoDup l1 → Forall (λ x, x ∉ c ∪ list_to_set l1) l2 → NoDup l2 →
  Forall (λ x, x ∉ c) (l1 ++ l2) ∧ NoDup (l1 ++ l2).
Proof.
  rewrite !Forall_forall. intros H1 Hn1 H2 Hn2. split.
  - intros x [Hx|Hx]%elem_of_app; [by apply H1|]. specialize (H2 x Hx). set_solver.
  - apply NoDup_app. split_and!; [done| |done]. intros x Hx Hx2. specialize (H2 x Hx2). set_solver.
Qed.

(** A list of new elements, and the set with them. *)
Definition extends `{Countable B} (c : gset B) (l : list B) (c' : gset B) : Prop :=
  c' = c ∪ list_to_set l ∧ Forall (λ x, x ∉ c) l ∧ NoDup l.

Lemma extends_nil `{Countable B} (c : gset B) : extends c [] c.
Proof. split_and!; [set_solver|constructor..]. Qed.
Lemma extends_app `{Countable B} (c c1 c2 : gset B) l1 l2 : extends c l1 c1 → extends c1 l2 c2 → extends c (l1 ++ l2) c2.
Proof.
  intros (-> & H1 & Hn1) (-> & H2 & Hn2). destruct (new_parts c l1 l2 H1 Hn1 H2 Hn2) as [? ?].
  split_and!; [|done..]. rewrite list_to_set_app_L. set_solver.
Qed.
Lemma extends_fresh `{Countable B} (c c' : gset B) l x : extends c l c' → x ∈ l → x ∉ c.
Proof. intros (_ & Hf & _) Hx. rewrite Forall_forall in Hf. by apply Hf. Qed.

Lemma extends_below `{Countable B} (d c c' : gset B) l :
  Forall (λ x, x ∉ d) l → extends c l c' → extends (d ∪ c) l (d ∪ c').
Proof.
  intros Hd (-> & Hf & Hnd). split_and!; [set_solver| |done]. rewrite Forall_forall in *. intros x Hx.
  specialize (Hd x Hx). specialize (Hf x Hx). set_solver.
Qed.

Record updates (m bs : gmap OutPoint OrderedUtxo) (txs : list HashedTx) (s s' : Spends) : Prop := {
  up_created : extends (dom s.(created_utxos)) (all_outpoints txs) (dom s'.(created_utxos));
  up_lookup : ∀ o, o ∉ all_outpoints txs → s'.(created_utxos) !! o = s.(created_utxos) !! o;
  up_spent : extends s.(spent_utxos) (all_spends txs) s'.(spent_utxos);
  up_spent_outputs : Forall (λ o, is_Some (bs !! o)) (all_spends txs);
  up_hashes : extends s.(tx_loc_by_hash) txs.*1 s'.(tx_loc_by_hash);
  up_sprout : extends s.(chain_sprout_nullifiers) (all_of sprout_nullifiers txs) s'.(chain_sprout_nullifiers);
  up_sapling : extends s.(chain_sapling_nullifiers) (all_of sapling_nullifiers txs) s'.(chain_sapling_nullifiers);
  up_orchard : extends s.(chain_orchard_nullifiers) (all_of orchard_nullifiers txs) s'.(chain_orchard_nullifiers);
  up_version : Forall (λ x, 4 ≤ version x.2) txs }.

Lemma must_inv {E} b u : must (E := E) b = Ret (inr u) → b = true.
Proof. by destruct b. Qed.

Lemma update_transactions_inv m bs txs : ∀ s s',
  update_transactions m bs txs s = Ret (inr s') → updates m bs txs s s'.
Proof.
  induction txs as [|[hash tx] txs IH]; intros s s'; cbn [update_transactions].
  { intros [= <-]. split; by first [apply extends_nil|constructor]. }
  intros (s1 & H1 & Hup%IH)%Fallible_bind_inv. unfold update_transaction in H1.
  apply Fallible_bind_inv in H1 as (_ & Hv%must_inv & H1).
  apply Fallible_bind_inv in H1 as (_ & Hh%must_inv%bool_decide_eq_true & H1).
  apply Fallible_bind_inv in H1 as (c & (Hcd & Hcf & Hcn & Hcl)%run_inv%create_utxos_inv & H1).
  apply Fallible_bind_inv in H1 as (sp & (Hsp & Hsf & Hsn & Hsb)%run_inv%spend_utxos_inv & H1).
  apply Fallible_bind_inv in H1 as (n1 & Hn1%add_unique_inv & H1).
  apply Fallible_bind_inv in H1 as (n2 & Hn2%add_unique_inv & H1).
  apply Fallible_bind_inv in H1 as (n3 & Hn3%add_unique_inv & H1). injection H1 as <-.
  destruct Hup as [U1 U2 U3 U4 U5 U6 U7 U8 U9]. cbn in *. split.
  - eapply (extends_app _ _ _ (outpoints hash tx)); [|exact U1]. done.
  - intros o [Ho1 Ho2]%not_elem_of_app. rewrite U2 by done. by apply Hcl.
  - eapply (extends_app _ _ _ (spent_outpoints tx)); [|exact U3]. done.
  - apply Forall_app. done.
  - eapply (extends_app _ _ _ [hash]); [|exact U5]. split_and!; [set_solver|by constructor|repeat constructor; set_solver].
  - eapply extends_app; [exact Hn1|exact U6].
  - eapply extends_app; [exact Hn2|exact U7].
  - eapply extends_app; [exact Hn3|exact U8].
  - constructor; [cbn; lia|done].
Qed.

(** ** Accepted blocks *)

(** The spent outputs of a chain were there. *)
Definition spends_known (db : SpendDb) (s : Spends) : Prop := s.(spent_utxos) ⊆ dom db.(db_utxo) ∪ dom s.(created_utxos).

(** No output of the finalized state has the hash of a transaction of the block. *)
Definition fresh_hashes (db : SpendDb) (txs : list HashedTx) : Prop :=
  Forall (λ x, ∀ i, (x.1, i) ∉ dom db.(db_utxo)) txs.

Lemma fresh_outpoints db txs o : fresh_hashes db txs → o ∈ all_outpoints txs → o ∉ dom db.(db_utxo).
Proof.
  intros Hf (x & Hx & (i & _ & ->)%elem_of_outpoints)%elem_of_concat_map. unfold fresh_hashes in Hf.
  rewrite Forall_forall in Hf. by apply Hf.
Qed.

Lemma no_finalized_inv pool finalized l u : no_finalized pool finalized l = Ret (inr u) → Forall (λ x, x ∉ finalized) l.
Proof.
  unfold no_finalized. destruct (find _ l) eqn:E; [done|]. intros _. apply Forall_forall. intros x Hx%list_elem_of_In.
  pose proof (List.find_none _ _ E x Hx) as H. by apply bool_decide_eq_false in H.
Qed.

Lemma all_of_snd f txs : all_of f txs = concat (map f (map snd txs)).
Proof. unfold all_of. by rewrite map_map. Qed.

(** The parts of [validate_and_update_spends]. *)
Lemma validate_inv n db height txs s bs s' :
  validate_and_update_spends n db height txs s = Ret (inr (bs, s')) →
  ∃ m, new_ordered_outputs height txs = Ret m ∧
    Forall (λ x, x ∉ db.(db_sprout_nullifiers)) (all_of sprout_nullifiers txs) ∧
    Forall (λ x, x ∉ db.(db_sapling_nullifiers)) (all_of sapling_nullifiers txs) ∧
    Forall (λ x, x ∉ db.(db_orchard_nullifiers)) (all_of orchard_nullifiers txs) ∧
    spend_transactions n db s height m 0 (map snd txs) ∅ = Ret (inr bs) ∧
    update_transactions m bs txs s = Ret (inr s').
Proof.
  intros (m & Hm%run_inv & ([] & Hn & (bs' & Hb & (s1 & Hs & [= <- <-])%Fallible_bind_inv)%Fallible_bind_inv)%Fallible_bind_inv)%Fallible_bind_inv.
  apply Fallible_bind_inv in Hn as (_ & Hn1%no_finalized_inv & Hn).
  apply Fallible_bind_inv in Hn as (_ & Hn2%no_finalized_inv & Hn3%no_finalized_inv).
  apply Fallible_bind_inv in Hb as (bs1 & Hb & (_ & _ & [= <-])%Fallible_bind_inv).
  exists m. rewrite !all_of_snd. done.
Qed.

(** C19: A block that passes the checks and the update of a chain is a sequence of
    steps of the ledger: each transaction spends outputs that are unspent when its
    turn comes, each once.  The ledger ends with the unspent outputs of the new
    chain, and no nullifier of the block was revealed before, in the chain, in the
    finalized state or in the block. *)
Theorem block_follows_ledger n db height txs s bs s' :
  spends_known db s → fresh_hashes db txs →
  validate_and_update_spends n db height txs s = Ret (inr (bs, s')) →
  ledger (utxo_set db s) txs = Some (utxo_set db s') ∧ spends_known db s' ∧
  dom bs = list_to_set (all_spends txs) ∧
  extends (db.(db_sprout_nullifiers) ∪ s.(chain_sprout_nullifiers)) (all_of sprout_nullifiers txs)
          (db.(db_sprout_nullifiers) ∪ s'.(chain_sprout_nullifiers)) ∧
  extends (db.(db_sapling_nullifiers) ∪ s.(chain_sapling_nullifiers)) (all_of sapling_nullifiers txs)
          (db.(db_sapling_nullifiers) ∪ s'.(chain_sapling_nullifiers)) ∧
  extends (db.(db_orchard_nullifiers) ∪ s.(chain_orchard_nullifiers)) (all_of orchard_nullifiers txs)
          (db.(db_orchard_nullifiers) ∪ s'.(chain_orchard_nullifiers)).
Proof.
  intros Hk Hfresh (m & Hm & F1 & F2 & F3 & Hsp & Hup%update_transactions_inv)%validate_inv.
  destruct Hup as [(Hc & Hcf & Hcn) _ (Hs & Hsf & Hsn) _ (_ & _ & Hhash) N1 N2 N3 _].
  apply spend_transactions_inv in Hsp as (Hnd & _ & Hdom & Hord).
  pose proof (fresh_outpoints db txs) as Hfo.
  assert (∀ o, o ∈ all_outpoints txs → o ∉ s.(spent_utxos)) as Hus.
  { intros o Ho Hos. apply Hk, elem_of_union in Hos as [Hos|Hos]; [by eapply Hfo|].
    rewrite Forall_forall in Hcf. by apply (Hcf o Ho). }
  split_and!.
  - rewrite ledger_run; [|done|..].
    + f_equal. unfold utxo_set. rewrite Hc, Hs. apply set_eq. intros o. specialize (Hus o). set_unfold. tauto.
    + intros i x o Hi Ho. specialize (Hord i x o Hi Ho). unfold in_order in Hord. destruct (m !! o) as [w|] eqn:E; [|by left].
      right. assert (o ∈ all_outpoints txs) as Hin.
      { apply elem_of_dom_2 in E. rewrite (new_outputs_dom height txs m Hm Hhash) in E. by apply elem_of_list_to_set in E. }
      apply elem_of_concat_map in Hin as (y & Hy & Hoy). apply list_elem_of_lookup in Hy as [j Hj].
      destruct (new_outputs_at height txs m j y o Hm Hhash Hj Hoy) as (w' & Hw & Hidx). rewrite E in Hw. injection Hw as <-.
      apply elem_of_concat_map. exists y. split; [|done]. apply list_elem_of_lookup. exists j. rewrite lookup_take_lt by lia. done.
    + intros j y o Hj Hoy Hin. apply elem_of_concat_map in Hin as (x & Hx & Ho).
      apply list_elem_of_lookup in Hx as [i Hi]. apply lookup_take_Some in Hi as [Hi Hlt].
      specialize (Hord i x o Hi Ho). destruct (new_outputs_at height txs m j y o Hm Hhash Hj Hoy) as (w & Hw & Hidx).
      unfold in_order in Hord. rewrite Hw in Hord. lia.
  - unfold spends_known in *. rewrite Hc, Hs. intros o [Ho|Ho]%elem_of_union; [set_solver|]. apply elem_of_list_to_set in Ho.
    apply elem_of_concat_map in Ho as (x & Hx & Ho). apply list_elem_of_lookup in Hx as [i Hi].
    specialize (Hord i x o Hi Ho). unfold in_order in Hord. destruct (m !! o) as [w|] eqn:E.
    + apply elem_of_dom_2 in E. rewrite (new_outputs_dom height txs m Hm Hhash) in E. set_solver.
    + unfold utxo_set in Hord. set_solver.
  - rewrite Hdom. set_solver.
  - apply extends_below; done.
  - apply extends_below; done.
  - apply extends_below; done.
Qed.

(** ** Reverting a block *)

Definition removable `{Countable B} (c : gset B) (l : list B) : Prop := Forall (λ x, x ∈ c) l ∧ NoDup l.

Lemma removable_app `{Countable B} (c : gset B) l1 l2 :
  removable c (l1 ++ l2) → removable c l1 ∧ removable (c ∖ list_to_set l1) l2.
Proof.
  intros [[H1 H2]%Forall_app (Hn1 & Hd & Hn2)%NoDup_app]. split; [done|]. split; [|done].
  rewrite Forall_forall in *. intros x Hx. apply elem_of_difference. split; [by apply H2|].
  rewrite elem_of_list_to_set. intros Hx1. by apply (Hd x Hx1).
Qed.
Lemma removable_cons `{Countable B} (c : gset B) x l :
  removable c (x :: l) → x ∈ c ∧ removable (c ∖ {[x]}) l.
Proof.
  intros H1. apply (removable_app c [x] l) in H1 as [[H1 _] H2]. apply Forall_cons in H1 as [? _]. split; [done|].
  by replace (c ∖ {[x]}) with (c ∖ list_to_set [x]) by set_solver.
Qed.
Lemma extends_removable `{Countable B} (c c' : gset B) l : extends c l c' → removable c' l ∧ c' ∖ list_to_set l = c.
Proof.
  intros (-> & Hf & Hnd). split; [split; [|done]|].
  - apply Forall_forall. set_solver.
  - rewrite Forall_forall in Hf. apply set_eq. intros x. specialize (Hf x). set_solver.
Qed.

Lemma remove_nullifiers l : ∀ c, removable c l → remove_from_non_finalized_chain c l = Ret (c ∖ list_to_set l).
Proof.
  induction l as [|x l IH]; intros c Hc; cbn [remove_from_non_finalized_chain]; [f_equal; set_solver|].
  apply removable_cons in Hc as [Hx Hc]. unfold assert_. rewrite bool_decide_true by done. cbn. rewrite IH by done.
  f_equal. set_solver.
Qed.

Lemma unspend_all bs l : ∀ sp,
  removable sp l → Forall (λ o, is_Some (bs !! o)) l → unspend_utxos bs l sp = Ret (sp ∖ list_to_set l).
Proof.
  induction l as [|x l IH]; intros c Hc Hb; cbn [unspend_utxos]; [f_equal; set_solver|].
  apply removable_cons in Hc as [Hx Hc]. apply Forall_cons in Hb as [Hbx Hb]. unfold assert_.
  rewrite !bool_decide_true by done. cbn. rewrite IH by done. f_equal. set_solver.
Qed.

Lemma uncreate_all m l : ∀ c,
  removable (dom c) l → Forall (λ o, o ∈ dom m) l →
  ∃ c', uncreate_utxos m l c = Ret c' ∧ dom c' = dom c ∖ list_to_set l ∧ ∀ o, o ∉ l → c' !! o = c !! o.
Proof.
  induction l as [|x l IH]; intros c Hc Hm; cbn [uncreate_utxos].
  { exists c. split_and!; [done|set_solver|done]. }
  apply removable_cons in Hc as [Hx Hc]. apply Forall_cons in Hm as [Hmx Hm]. apply elem_of_dom in Hmx as [u Hu].
  rewrite Hu. cbn. unfold assert_. rewrite bool_decide_true by (by apply elem_of_dom). cbn.
  destruct (IH (delete x c)) as (c' & Hc' & Hd & Hl); [by rewrite dom_delete_L|done|]. exists c'. split; [done|]. split.
  - rewrite Hd, dom_delete_L. set_solver.
  - intros o [Ho Hol]%not_elem_of_cons. rewrite Hl by done. by apply lookup_delete_ne.
Qed.

Lemma revert_all m bs txs : ∀ s,
  Forall (λ x, 4 ≤ version x.2) txs → Forall (λ o, o ∈ dom m) (all_outpoints txs) →
  Forall (λ o, is_Some (bs !! o)) (all_spends txs) →
  removable (dom s.(created_utxos)) (all_outpoints txs) → removable s.(spent_utxos) (all_spends txs) →
  removable s.(tx_loc_by_hash) txs.*1 →
  removable s.(chain_sprout_nullifiers) (all_of sprout_nullifiers txs) →
  removable s.(chain_sapling_nullifiers) (all_of sapling_nullifiers txs) →
  removable s.(chain_orchard_nullifiers) (all_of orchard_nullifiers txs) →
  ∃ c', revert_transactions m bs txs s = Ret
      (mk_spends c' (s.(spent_utxos) ∖ list_to_set (all_spends txs)) (s.(tx_loc_by_hash) ∖ list_to_set txs.*1)
        (s.(chain_sprout_nullifiers) ∖ list_to_set (all_of sprout_nullifiers txs))
        (s.(chain_sapling_nullifiers) ∖ list_to_set (all_of sapling_nullifiers txs))
        (s.(chain_orchard_nullifiers) ∖ list_to_set (all_of orchard_nullifiers txs))) ∧
    dom c' = dom s.(created_utxos) ∖ list_to_set (all_outpoints txs) ∧
    ∀ o, o ∉ all_outpoints txs → c' !! o = s.(created_utxos) !! o.
Proof.
  induction txs as [|[hash tx] txs IH]; intros s Hv Hm Hb Hc Hs Hh N1 N2 N3.
  { exists s.(created_utxos). destruct s. cbn. rewrite !difference_empty_L. done. }
  apply Forall_cons in Hv as [Hv1 Hv]. unfold all_outpoints, all_spends, all_of in *. cbn [map concat fst snd fmap list_fmap] in *.
  apply Forall_app in Hm as [Hm1 Hm]. apply Forall_app in Hb as [Hb1 Hb].
  apply removable_app in Hc as [Hc1 Hc], Hs as [Hs1 Hs], N1 as [N11 N1], N2 as [N21 N2], N3 as [N31 N3].
  apply removable_cons in Hh as [Hh1 Hh].
  cbn [revert_transactions]. unfold revert_transaction, assert_.
  destruct (uncreate_all m _ _ Hc1 Hm1) as (c1 & Hc1' & Hd1 & Hl1).
  rewrite (proj2 (Z.leb_le 4 (version tx))), Hc1', (unspend_all bs _ _ Hs1 Hb1), bool_decide_true by done.
  rewrite !remove_nullifiers by done. cbn [mbind outcome_bind].
  destruct (IH (mk_spends c1 (s.(spent_utxos) ∖ list_to_set (spent_outpoints tx)) (s.(tx_loc_by_hash) ∖ {[hash]})
    (s.(chain_sprout_nullifiers) ∖ list_to_set (sprout_nullifiers tx))
    (s.(chain_sapling_nullifiers) ∖ list_to_set (sapling_nullifiers tx))
    (s.(chain_orchard_nullifiers) ∖ list_to_set (orchard_nullifiers tx)))) as (c' & -> & Hd & Hl);
    cbn; [done..|by rewrite Hd1|done|done|done|done|done|].
  exists c'. cbn in *. split_and!.
  - do 2 f_equal; rewrite ?list_to_set_app_L; clear; set_solver.
  - rewrite Hd, Hd1, list_to_set_app_L. set_solver.
  - intros o [Ho1 Ho2]%not_elem_of_app. rewrite Hl by done. by apply Hl1.
Qed.

(** Taking an accepted block off its chain, with the outputs that were looked
    up when it was checked, undoes it: no assertion fails, and the chain is what it
    was. *)
Theorem revert_undoes_spends n db height txs s bs s' m :
  validate_and_update_spends n db height txs s = Ret (inr (bs, s')) → new_ordered_outputs height txs = Ret m →
  revert_transactions m bs txs s' = Ret s.
Proof.
  intros (m' & Hm & _ & _ & _ & _ & Hup%update_transactions_inv)%validate_inv Hm'. rewrite Hm in Hm'. injection Hm' as <-.
  destruct Hup as [U1 U2 U3 U4 U5 U6 U7 U8 U9].
  pose proof (extends_removable _ _ _ U1) as [R1 E1]. pose proof (extends_removable _ _ _ U3) as [R3 E3].
  pose proof (extends_removable _ _ _ U5) as [R5 E5]. pose proof (extends_removable _ _ _ U6) as [R6 E6].
  pose proof (extends_removable _ _ _ U7) as [R7 E7]. pose proof (extends_removable _ _ _ U8) as [R8 E8].
  destruct (revert_all m' bs txs s') as (c & -> & Hd & Hl); [done| |done..|].
  - rewrite Forall_forall. intros o Ho. rewrite (new_outputs_dom height txs m' Hm) by apply U5. by apply elem_of_list_to_set.
  - rewrite E3, E5, E6, E7, E8. destruct s as [created spent hashes n1 n2 n3]. cbn in *. f_equal. f_equal.
    apply map_eq. intros o. destruct (decide (o ∈ all_outpoints txs)) as [Ho|Ho].
    + assert (o ∉ dom created) as Hn by (by eapply extends_fresh). apply not_elem_of_dom in Hn as ->.
      apply not_elem_of_dom. rewrite Hd, E1. by eapply extends_fresh.
    + rewrite Hl by done. by apply U2.
Qed.

(** ** No assertion of the update fails *)

Definition addable `{Countable B} (c : gset B) (l : list B) : Prop := Forall (λ x, x ∉ c) l ∧ NoDup l.

Lemma addable_app `{Countable B} (c : gset B) l1 l2 :
  addable c (l1 ++ l2) → addable c l1 ∧ addable (c ∪ list_to_set l1) l2.
Proof.
  intros [[H1 H2]%Forall_app (Hn1 & Hd & Hn2)%NoDup_app]. split; [done|]. split; [|done].
  rewrite Forall_forall in *. intros x Hx Hin. apply elem_of_union in Hin as [Hin|Hin%elem_of_list_to_set].
  - by apply (H2 x Hx).
  - by apply (Hd x Hin).
Qed.
Lemma addable_cons `{Countable B} (c : gset B) x l : addable c (x :: l) → (x ∉ c) ∧ addable ({[x]} ∪ c) l.
Proof.
  intros H1. apply (addable_app c [x] l) in H1 as [[H1 _] H2]. apply Forall_cons in H1 as [? _]. split; [done|].
  by replace ({[x]} ∪ c) with (c ∪ list_to_set [x]) by set_solver.
Qed.

Lemma create_total m l : ∀ c,
  addable (dom c) l → Forall (λ o, o ∈ dom m) l → ∃ c', create_utxos m l c = Ret c' ∧ dom c' = dom c ∪ list_to_set l.
Proof.
  induction l as [|x l IH]; intros c Hc Hm; cbn [create_utxos]; [exists c; split; [done|set_solver]|].
  apply addable_cons in Hc as [Hx Hc]. apply Forall_cons in Hm as [[u Hu]%elem_of_dom Hm]. rewrite Hu. cbn. unfold assert_.
  rewrite bool_decide_true by (by apply not_elem_of_dom). cbn.
  destruct (IH (<[x := u]> c)) as (c' & -> & Hd); [by rewrite dom_insert_L|done|]. exists c'. split; [done|].
  rewrite Hd, dom_insert_L. set_solver.
Qed.

Lemma spend_total bs l : ∀ sp,
  addable sp l → Forall (λ o, is_Some (bs !! o)) l → spend_utxos bs l sp = Ret (sp ∪ list_to_set l).
Proof.
  induction l as [|x l IH]; intros sp Hs Hb; cbn [spend_utxos]; [f_equal; set_solver|].
  apply addable_cons in Hs as [Hx Hs]. apply Forall_cons in Hb as [Hbx Hb]. unfold assert_.
  rewrite !bool_decide_true by done. cbn. rewrite IH by done. f_equal. set_solver.
Qed.

Lemma add_unique_total pool l : ∀ c, add_to_non_finalized_chain_unique pool c l ≠ Panic.
Proof.
  induction l as [|x l IH]; intros c; cbn [add_to_non_finalized_chain_unique]; [done|].
  case_decide; [done|apply IH].
Qed.

Lemma update_total m bs txs : ∀ s,
  Forall (λ x, 4 ≤ version x.2) txs → Forall (λ o, o ∈ dom m) (all_outpoints txs) →
  Forall (λ o, is_Some (bs !! o)) (all_spends txs) →
  addable (dom s.(created_utxos)) (all_outpoints txs) → addable s.(spent_utxos) (all_spends txs) →
  addable s.(tx_loc_by_hash) txs.*1 → update_transactions m bs txs s ≠ Panic.
Proof.
  induction txs as [|[hash tx] txs IH]; intros s Hv Hm Hb Hc Hs Hh; [done|].
  apply Forall_cons in Hv as [Hv1 Hv]. unfold all_outpoints, all_spends in *. cbn [map concat fst snd fmap list_fmap] in *.
  apply Forall_app in Hm as [Hm1 Hm]. apply Forall_app in Hb as [Hb1 Hb].
  apply addable_app in Hc as [Hc1 Hc], Hs as [Hs1 Hs]. apply addable_cons in Hh as [Hh1 Hh].
  cbn [update_transactions]. unfold update_transaction.
  destruct (create_total m _ _ Hc1 Hm1) as (c1 & Hc1' & Hd1).
  rewrite (proj2 (Z.leb_le 4 (version tx))), Hc1', (spend_total bs _ _ Hs1 Hb1), bool_decide_true by done.
  cbn [must run mbind Fallible_bind mret Fallible_ret].
  destruct (add_to_non_finalized_chain_unique SproutPool _ _) as [[|n1]|] eqn:E1; cbn;
    [done| |by apply add_unique_total in E1].
  destruct (add_to_non_finalized_chain_unique SaplingPool _ _) as [[|n2]|] eqn:E2; cbn;
    [done| |by apply add_unique_total in E2].
  destruct (add_to_non_finalized_chain_unique OrchardPool _ _) as [[|n3]|] eqn:E3; cbn;
    [done| |by apply add_unique_total in E3].
  apply IH; cbn; try done. by rewrite Hd1.
Qed.

(** The transactions of a block are new to a chain. *)
Definition new_transactions (db : SpendDb) (txs : list HashedTx) (s : Spends) : Prop :=
  fresh_hashes db txs ∧ addable s.(tx_loc_by_hash) txs.*1 ∧
  Forall (λ x, ∀ i, (x.1, i) ∉ dom s.(created_utxos)) txs ∧ Forall (λ x, 4 ≤ version x.2) txs.

Lemma all_outpoints_nodup txs : NoDup txs.*1 → NoDup (all_outpoints txs).
Proof.
  induction txs as [|[hash tx] txs IH]; [constructor|]. intros [Hh Hnd]%NoDup_cons. unfold all_outpoints. cbn.
  apply NoDup_app. split_and!; [| |by apply IH].
  - assert (Inj (=) (=) (λ i, (hash, Z.of_nat i))) as Hinj by (intros i j [= E]; lia).
    apply (NoDup_fmap_2 (λ i, (hash, Z.of_nat i))), NoDup_seq.
  - intros o (i & _ & ->)%elem_of_outpoints ([h' t'] & Hx & (k & _ & [= <- _])%elem_of_outpoints)%elem_of_concat_map.
    apply Hh. exact (list_elem_of_fmap_2 fst _ _ Hx).
Qed.

(** When the transparent spends of a block of new transactions have passed their
    checks, adding the block to the chain fails none of the assertions about
    outputs, spends and transaction hashes: a nullifier that was revealed before is
    the only error. *)
Theorem checked_spends_update n db height txs s m bs :
  spends_known db s → new_transactions db txs s → new_ordered_outputs height txs = Ret m →
  spend_transactions n db s height m 0 (map snd txs) ∅ = Ret (inr bs) →
  (∃ s', update_transactions m bs txs s = Ret (inr s')) ∨
  (∃ e, update_transactions m bs txs s = Ret (inl e)).
Proof.
  intros Hk (Hf & Hh & Hc & Hv) Hm (Hnd & _ & Hdom & Hord)%spend_transactions_inv. pose proof (proj2 Hh) as Hhash.
  assert (∀ o, o ∈ all_outpoints txs → o ∉ dom s.(created_utxos)) as Hnc.
  { intros o (x & Hx & (i & _ & ->)%elem_of_outpoints)%elem_of_concat_map. rewrite Forall_forall in Hc. by apply Hc. }
  assert (update_transactions m bs txs s ≠ Panic) as Hp.
  { apply update_total; [done|..|done].
    - apply Forall_forall. intros o Ho. rewrite (new_outputs_dom height txs m Hm Hhash). by apply elem_of_list_to_set.
    - apply Forall_forall. intros o Ho. apply elem_of_dom. rewrite Hdom. set_solver.
    - split; [by apply Forall_forall|by apply all_outpoints_nodup].
    - split; [|done]. apply Forall_forall. intros o (x & Hx & Ho)%elem_of_concat_map Hs.
      apply list_elem_of_lookup in Hx as [i Hi]. specialize (Hord i x o Hi Ho). unfold in_order in Hord.
      destruct (m !! o) as [w|] eqn:E; [|unfold utxo_set in Hord; set_solver].
      apply elem_of_dom_2 in E. rewrite (new_outputs_dom height txs m Hm Hhash) in E. apply elem_of_list_to_set in E.
      apply Hk, elem_of_union in Hs as [Hs|Hs]; [by eapply fresh_outpoints|by eapply Hnc]. }
  destruct (update_transactions m bs txs s) as [[e|s']|]; [right; by exists e|left; by exists s'|done].
Qed.

(** ** An example *)

(** A coinbase transaction, one that spends a finalized output, and one that spends
    the output of that and shields it. *)
Definition example_hash (k : Z) : bytes := to_le 32 k.
Definition example_out (v : Z) : Output := {| value := v; lock_script := [] |}.
Definition example_txs : list HashedTx :=
  [(example_hash 1, V5 Nu6 unlocked 10 [Coinbase 10 0] [example_out 5] None None);
   (example_hash 2, V5 Nu6 unlocked 10 [PrevOut (example_hash 9, 0) 0] [example_out 40] None None);
   (example_hash 3, V5 Nu6 unlocked 10 [PrevOut (example_hash 2, 0) 0] [] None
      (Some {| enable_spends := true; enable_outputs := true; orchard_balance := -30; orchard_spends := [example_hash 7] |}))].
Definition example_db : SpendDb :=
  {| db_utxo := {[ (example_hash 9, 0) := ordered_utxo (example_out 50) 3 1 ]};
     db_sprout_nullifiers := ∅; db_sapling_nullifiers := ∅; db_orchard_nullifiers := {[ example_hash 8 ]} |}.

Lemma example_known : spends_known example_db no_spends.
Proof. intros o Ho. cbn in Ho. by apply not_elem_of_empty in Ho. Qed.
Lemma example_fresh : fresh_hashes example_db example_txs.
Proof. repeat constructor; intros i; cbn; rewrite dom_singleton_L; by intros [= ]%elem_of_singleton. Qed.

Lemma example_accepted :
  ∃ bs s', validate_and_update_spends Mainnet example_db 10 example_txs no_spends = Ret (inr (bs, s')).
Proof. destruct (succeeds (validate_and_update_spends Mainnet example_db 10 example_txs no_spends)) as [[bs s'] E]; [by vm_compute|by exists bs, s']. Qed.

Lemma block_follows_ledger_witness :
  ∃ bs s', validate_and_update_spends Mainnet example_db 10 example_txs no_spends = Ret (inr (bs, s')) ∧
    ledger (utxo_set example_db no_spends) example_txs = Some (utxo_set example_db s').
Proof.
  destruct example_accepted as (bs & s' & E).
  exists bs, s'. split; [done|].
  apply (block_follows_ledger Mainnet example_db 10 example_txs no_spends bs s' example_known example_fresh E).
Defined.

Lemma revert_undoes_spends_witness :
  ∃ bs s' m, new_ordered_outputs 10 example_txs = Ret m ∧ revert_transactions m bs example_txs s' = Ret no_spends.
Proof.
  destruct example_accepted as (bs & s' & E).
  destruct (returns (new_ordered_outputs 10 example_txs)) as [m Em]; [by vm_compute|].
  exists bs, s', m. split; [done|].
  by apply (revert_undoes_spends Mainnet example_db 10 example_txs no_spends bs s' m).
Defined.

Lemma checked_spends_update_witness :
  ∃ m bs, new_ordered_outputs 10 example_txs = Ret m ∧
    ((∃ s', update_transactions m bs example_txs no_spends = Ret (inr s')) ∨
     (∃ e, update_transactions m bs example_txs no_spends = Ret (inl e))).
Proof.
  destruct (returns (new_ordered_outputs 10 example_txs)) as [m Em]; [by vm_compute|].
  destruct example_accepted as (bs & s' & (m' & Em' & _ & _ & _ & E & _)%validate_inv).
  rewrite Em in Em'. injection Em' as <-.
  exists m, bs. split; [done|].
  apply (checked_spends_update Mainnet example_db 10 example_txs no_spends m bs); [exact example_known| |exact Em|exact E].
  split_and!; [exact example_fresh|split; [by repeat constructor|apply (bool_decide_unpack _); by vm_compute]|..].
  - repeat constructor; intros i; apply not_elem_of_empty.
  - by repeat constructor.
Defined.
