(* ===== verification/Merkle.v ===== *)
(** * Merkle: the transaction and authorizing data trees of a block

    Models [zebra-chain/src/block/merkle.rs].  The hash of two nodes is SHA-256d or
    BLAKE2b, of third-party crates: the argument [hash].  What is proved says that
    the trees bind a header to its transactions, or that two different pairs of nodes
    of the trees at hand have the same hash. *)

From stdpp Require Import base list sets.
From S2P Require Import Prelude.

(** ** The trees *)

(** [usize::next_power_of_two] *)
Definition next_power_of_two (n : nat) : nat := 2 ^ Nat.log2_up n.

Section trees.
Context (hash : bytes → bytes → bytes).

(** The body of the loop of [Root::from_iter]: a last hash without a partner is
    hashed with itself. *)
Fixpoint layer (hashes : list bytes) : list bytes :=
  match hashes with
  | h1 :: h2 :: hashes => hash h1 h2 :: layer hashes
  | [h1] => [hash h1 h1]
  | [] => []
  end.
(** The loop; [fuel] bounds its iterations. *)
Fixpoint climb (fuel : nat) (hashes : list bytes) : outcome bytes :=
  match hashes with
  | [] => Panic
  | [h] => Ret h
  | _ => match fuel with S fuel => climb fuel (layer hashes) | O => Panic end
  end.
Definition merkle_root (hashes : list bytes) : outcome bytes := climb (length hashes) hashes.

(** [AuthDataRoot::from_iter]: a full tree, in which an odd number of nodes is
    unreachable. *)
Fixpoint auth_layer (hashes : list bytes) : outcome (list bytes) :=
  match hashes with
  | h1 :: h2 :: hashes => rest ← auth_layer hashes; Ret (hash h1 h2 :: rest)
  | [_] => Panic
  | [] => Ret []
  end.
Fixpoint auth_climb (fuel : nat) (hashes : list bytes) : outcome bytes :=
  match hashes with
  | [] => Panic
  | [h] => Ret h
  | _ => match fuel with S fuel => l ← auth_layer hashes; auth_climb fuel l | O => Panic end
  end.
Definition pad (hashes : list bytes) : list bytes :=
  hashes ++ replicate (next_power_of_two (length hashes) - length hashes) (zeros 32).
Definition auth_data_root (hashes : list bytes) : outcome bytes :=
  _ ← assert_ (bool_decide (length (pad hashes) = next_power_of_two (length (pad hashes))));
  auth_climb (length (pad hashes)) (pad hashes).

(** ** Layers *)

(** The pairs that are hashed for a layer, and for a whole tree. *)
Fixpoint layer_pairs (hashes : list bytes) : list (bytes * bytes) :=
  match hashes with
  | h1 :: h2 :: hashes => (h1, h2) :: layer_pairs hashes
  | [h1] => [(h1, h1)]
  | [] => []
  end.
Fixpoint tree_pairs (fuel : nat) (hashes : list bytes) : list (bytes * bytes) :=
  match hashes with
  | [] | [_] => []
  | _ => match fuel with S fuel => layer_pairs hashes ++ tree_pairs fuel (layer hashes) | O => [] end
  end.

(** Two different pairs among [ps] with the same hash. *)
Definition collision_in (ps : list (bytes * bytes)) : Prop :=
  ∃ p q, p ∈ ps ∧ q ∈ ps ∧ p ≠ q ∧ hash p.1 p.2 = hash q.1 q.2.

Lemma collision_mono ps qs : ps ⊆ qs → collision_in ps → collision_in qs.
Proof. intros Hs (p & q & Hp & Hq & ?). exists p, q. split; [by apply Hs|]. split; [by apply Hs|done]. Qed.

(** Induction two elements at a time. *)
Lemma pairs_ind {A} (P : list A → Prop) :
  P [] → (∀ x, P [x]) → (∀ x y l, P l → P (x :: y :: l)) → ∀ l, P l.
Proof.
  intros H0 H1 H2 l. enough (P l ∧ ∀ x, P (x :: l)) by tauto.
  induction l as [|y l [IH1 IH2]]; [auto|]. split; [apply IH2|]. intros x. by apply H2.
Qed.

Lemma layer_length l : length (layer l) = Nat.div2 (S (length l)).
Proof. induction l as [|x|x y l IH] using pairs_ind; [done|done|]. cbn [layer length]. by rewrite IH. Qed.

Lemma hash_inj ps a b c d : (a, b) ∈ ps → (c, d) ∈ ps → hash a b = hash c d → (a = c ∧ b = d) ∨ collision_in ps.
Proof.
  intros Hp Hq H. destruct (decide ((a, b) = (c, d))) as [[= -> ->]|Hne]; [by left|]. right. by exists (a, b), (c, d).
Qed.

(** A layer determines the one below, if that has no duplicates. *)
Lemma layer_inj ps l1 : ∀ l2, layer_pairs l1 ⊆ ps → layer_pairs l2 ⊆ ps → NoDup l1 → NoDup l2 → layer l1 = layer l2 →
  l1 = l2 ∨ collision_in ps.
Proof.
  induction l1 as [|x|x y l1 IH] using pairs_ind; intros l2 P1 P2 H1 H2.
  - destruct l2 as [|? [|? ?]]; [by left|done..].
  - destruct l2 as [|a [|b l2]]; [done| |]; cbn in *; intros [= H].
    + apply (hash_inj ps) in H as [[-> _]|]; [by left|by right|set_solver..].
    + apply (hash_inj ps) in H as [[-> ->]|]; [|by right|set_solver..]. apply NoDup_cons in H2 as [H2 _]. set_solver.
  - destruct l2 as [|a [|b l2]]; [done| |]; cbn in *; intros [= H Hl].
    + apply (hash_inj ps) in H as [[-> ->]|]; [|by right|set_solver..]. apply NoDup_cons in H1 as [H1 _]. set_solver.
    + apply (hash_inj ps) in H as [[-> ->]|]; [|by right|set_solver..].
      apply NoDup_cons in H1 as [_ [_ H1]%NoDup_cons], H2 as [_ [_ H2]%NoDup_cons].
      destruct (IH l2 ltac:(set_solver) ltac:(set_solver) H1 H2 Hl) as [->|]; [by left|by right].
Qed.

Lemma layer_elem l h : h ∈ layer l → ∃ a b, h = hash a b ∧ a ∈ l ∧ b ∈ l ∧ (a, b) ∈ layer_pairs l.
Proof.
  induction l as [|x|x y l IH] using pairs_ind; cbn; [set_solver| |].
  - intros ->%list_elem_of_singleton. exists x, x. set_solver.
  - intros [->|Hh]%elem_of_cons; [exists x, y; set_solver|]. apply IH in Hh as (a & b & -> & ? & ? & ?). exists a, b. set_solver.
Qed.

Lemma layer_nodup ps l : layer_pairs l ⊆ ps → NoDup l → NoDup (layer l) ∨ collision_in ps.
Proof.
  induction l as [|x|x y l IH] using pairs_ind; cbn; intros Hps Hnd; [by left|left; apply NoDup_singleton|].
  pose proof Hnd as [Hx [Hy Hl]%NoDup_cons]%NoDup_cons. destruct (IH ltac:(set_solver) Hl) as [IHl|]; [|by right].
  destruct (decide (hash x y ∈ layer l)) as [Hin|Hn]; [|left; by constructor].
  apply layer_elem in Hin as (a & b & H & Ha & Hb & Hp). apply (hash_inj ps) in H as [[-> ->]|]; [set_solver|by right|set_solver..].
Qed.

(** ** Depth *)

Lemma log2_up_half n : (2 ≤ n)%nat → Nat.log2_up n = S (Nat.log2_up (Nat.div2 (S n))).
Proof.
  intros Hn. rewrite Nat.div2_div. pose proof (Nat.div_mod_eq (S n) 2). pose proof (Nat.mod_upper_bound (S n) 2).
  assert (n = 2 * (S n / 2) ∨ n = 2 * (S n / 2) - 1)%nat as [E|E] by lia.
  - rewrite E at 1. by rewrite Nat.log2_up_double by lia.
  - set (k := (S n / 2)%nat) in *. rewrite E at 1. rewrite !Nat.log2_up_eqn by lia.
    replace (Nat.pred (2 * k - 1)) with (2 * (k - 1))%nat by lia. replace (Nat.pred k) with (k - 1)%nat by lia.
    rewrite Nat.log2_double by lia. done.
Qed.

Lemma climb_layer fuel l : (2 ≤ length l)%nat → climb (S fuel) l = climb fuel (layer l).
Proof. destruct l as [|? [|? ?]]; cbn; [lia|lia|done]. Qed.
Lemma tree_pairs_layer fuel l : (2 ≤ length l)%nat → tree_pairs (S fuel) l = layer_pairs l ++ tree_pairs fuel (layer l).
Proof. destruct l as [|? [|? ?]]; cbn [length]; [lia|lia|done]. Qed.

(** The fuel does not matter, if it is enough. *)
Lemma climb_total fuel l :
  l ≠ [] → (Nat.log2_up (length l) ≤ fuel)%nat → ∃ r, climb fuel l = Ret r.
Proof.
  revert l. induction fuel as [|fuel IH]; intros l Hl Hf.
  - destruct l as [|x [|y l]]; [done|by exists x|]. cbn [length] in Hf. rewrite log2_up_half in Hf by lia. lia.
  - destruct (decide (2 ≤ length l)%nat) as [H2|H2].
    + rewrite climb_layer by done. apply IH.
      * by destruct l as [|x [|y l]].
      * rewrite layer_length. rewrite log2_up_half in Hf by done. lia.
    + destruct l as [|x [|y l]]; [done|by exists x|cbn in H2; lia].
Qed.

Lemma climb_inj k : ∀ f1 f2 l1 l2 r,
  Nat.log2_up (length l1) = k → Nat.log2_up (length l2) = k → NoDup l1 → NoDup l2 →
  climb f1 l1 = Ret r → climb f2 l2 = Ret r → l1 = l2 ∨ collision_in (tree_pairs f1 l1 ++ tree_pairs f2 l2).
Proof.
  induction k as [|k IH]; intros f1 f2 l1 l2 r Hk1 Hk2 Hn1 Hn2 H1 H2.
  - assert (∀ f l, Nat.log2_up (length l) = 0%nat → climb f l = Ret r → l = [r]) as Hone.
    { intros f [|x [|y l]] Hk H; [by destruct f|destruct f; by injection H as <-|]. cbn [length] in Hk.
      rewrite log2_up_half in Hk by lia. done. }
    rewrite (Hone _ _ Hk1 H1), (Hone _ _ Hk2 H2). by left.
  - assert (∀ f l, Nat.log2_up (length l) = S k → climb f l = Ret r →
              (2 ≤ length l)%nat ∧ ∃ f', f = S f' ∧ climb f' (layer l) = Ret r) as Hstep.
    { intros f l Hk H. assert (2 ≤ length l)%nat as H2l.
      { destruct l as [|x [|y l]]; cbn in *; [done|done|lia]. }
      split; [done|]. destruct f as [|f]; [by destruct l as [|x [|y l]]; cbn in *; try lia|].
      rewrite climb_layer in H by done. by exists f. }
    destruct (Hstep _ _ Hk1 H1) as (L1 & g1 & -> & G1), (Hstep _ _ Hk2 H2) as (L2 & g2 & -> & G2).
    rewrite log2_up_half in Hk1, Hk2 by done. rewrite <- layer_length in Hk1, Hk2.
    rewrite !tree_pairs_layer by done. set (ps := (_ ++ _) ++ _).
    destruct (layer_nodup ps l1 ltac:(set_solver) Hn1) as [N1|]; [|by right].
    destruct (layer_nodup ps l2 ltac:(set_solver) Hn2) as [N2|]; [|by right].
    destruct (IH g1 g2 (layer l1) (layer l2) r ltac:(lia) ltac:(lia) N1 N2 G1 G2) as [E|Hc];
      [|right; eapply collision_mono; [|exact Hc]; set_solver].
    apply (layer_inj ps); [set_solver..|done|done|done].
Qed.

(** A list of transactions has a root, unless it is empty. *)
Lemma merkle_root_total l : l ≠ [] → ∃ r, merkle_root l = Ret r.
Proof.
  intros Hl. apply climb_total; [done|]. destruct l as [|x l]; [done|]. cbn [length].
  pose proof (Nat.log2_up_le_lin (S (length l)) ltac:(lia)). lia.
Qed.

(** The pairs that are hashed for the root of a list. *)
Definition root_pairs (l : list bytes) : list (bytes * bytes) := tree_pairs (length l) l.

(** Lists without duplicates, of the same depth and with the same root are equal, or two
    pairs of nodes of their trees collide. *)
Lemma merkle_root_binds l1 l2 r :
  NoDup l1 → NoDup l2 → Nat.log2_up (length l1) = Nat.log2_up (length l2) →
  merkle_root l1 = Ret r → merkle_root l2 = Ret r → l1 = l2 ∨ collision_in (root_pairs l1 ++ root_pairs l2).
Proof. intros Hn1 Hn2 Hk. by apply (climb_inj (Nat.log2_up (length l1))). Qed.

(** ** Full trees *)

Lemma auth_layer_even l : ∀ n, length l = (2 * n)%nat → ∃ l', auth_layer l = Ret l' ∧ length l' = n.
Proof.
  induction l as [|x|x y l IH] using pairs_ind; intros n Hn; cbn in Hn; [exists []; cbn; split; [done|lia]|lia|].
  destruct (IH (n - 1)%nat ltac:(lia)) as (l' & E & Hl). cbn. rewrite E. cbn. eexists. split; [done|]. cbn. lia.
Qed.

Lemma auth_layer_eq l : ∀ l', auth_layer l = Ret l' → l' = layer l.
Proof.
  induction l as [|x|x y l IH] using pairs_ind; cbn; [by intros ? [= <-]|done|].
  intros l' (r & Hr & [= <-])%bind_Ret_inv. by rewrite (IH r Hr).
Qed.
Lemma auth_layer_inj ps l1 : ∀ l2 l, layer_pairs l1 ⊆ ps → layer_pairs l2 ⊆ ps →
  auth_layer l1 = Ret l → auth_layer l2 = Ret l → l1 = l2 ∨ collision_in ps.
Proof.
  induction l1 as [|x|x y l1 IH] using pairs_ind; intros l2 l P1 P2; cbn; [|done|].
  - intros [= <-]. destruct l2 as [|? [|? ?]]; cbn; [by left|done|]. by intros (? & _ & [=])%bind_Ret_inv.
  - intros (r1 & H1 & [= <-])%bind_Ret_inv. destruct l2 as [|a [|b l2]]; cbn in *; [done|done|].
    intros (r2 & H2 & [= H ->])%bind_Ret_inv. apply (hash_inj ps) in H as [[-> ->]|]; [|by right|set_solver..].
    destruct (IH l2 r1 ltac:(set_solver) ltac:(set_solver) H1 H2) as [->|]; [by left|by right].
Qed.

Lemma auth_climb_step fuel l : (2 ≤ length l)%nat → auth_climb (S fuel) l = (l ← auth_layer l; auth_climb fuel l).
Proof. destruct l as [|? [|? ?]]; cbn; [lia|lia|done]. Qed.

Lemma auth_climb_total k : ∀ fuel l, length l = (2 ^ k)%nat → (k ≤ fuel)%nat → ∃ r, auth_climb fuel l = Ret r.
Proof.
  induction k as [|k IH]; intros fuel l Hl Hf.
  - destruct l as [|x [|]]; [done| |done]. exists x. by destruct fuel.
  - destruct fuel as [|fuel]; [lia|]. pose proof (Nat.pow_nonzero 2 k). rewrite Nat.pow_succ_r' in Hl.
    rewrite auth_climb_step by lia. destruct (auth_layer_even l (2 ^ k)%nat Hl) as (l' & -> & Hl'). cbn.
    apply IH; [done|lia].
Qed.

Lemma auth_climb_inj k : ∀ f1 f2 l1 l2 r,
  length l1 = (2 ^ k)%nat → length l2 = (2 ^ k)%nat →
  auth_climb f1 l1 = Ret r → auth_climb f2 l2 = Ret r → l1 = l2 ∨ collision_in (tree_pairs f1 l1 ++ tree_pairs f2 l2).
Proof.
  induction k as [|k IH]; intros f1 f2 l1 l2 r L1 L2 H1 H2.
  - destruct l1 as [|x [|]], l2 as [|y [|]]; try done. left. destruct f1, f2; cbn in *; congruence.
  - pose proof (Nat.pow_nonzero 2 k). rewrite Nat.pow_succ_r' in L1, L2.
    assert (∀ f l, length l = (2 * 2 ^ k)%nat → auth_climb f l = Ret r →
      ∃ f', f = S f' ∧ auth_layer l = Ret (layer l) ∧ length (layer l) = (2 ^ k)%nat ∧ auth_climb f' (layer l) = Ret r) as Hstep.
    { intros [|f] l L Hc; [destruct l as [|? [|? ?]]; cbn in *; [lia|lia|done]|]. rewrite auth_climb_step in Hc by lia.
      destruct (auth_layer_even l _ L) as (l' & E & L'). pose proof (auth_layer_eq _ _ E) as ->. rewrite E in Hc. by exists f. }
    destruct (Hstep _ _ L1 H1) as (g1 & -> & E1 & M1 & G1), (Hstep _ _ L2 H2) as (g2 & -> & E2 & M2 & G2).
    rewrite !tree_pairs_layer by lia. set (ps := (_ ++ _) ++ _).
    destruct (IH _ _ _ _ _ M1 M2 G1 G2) as [E|Hc]; [|right; eapply collision_mono; [|exact Hc]; set_solver].
    rewrite E in E1. eapply (auth_layer_inj ps); [set_solver..|done|done].
Qed.

Lemma padded_length l : length (pad l) = next_power_of_two (length l).
Proof.
  unfold pad. rewrite length_app, length_replicate.
  assert (length l ≤ next_power_of_two (length l))%nat; [|lia]. unfold next_power_of_two.
  destruct (decide (length l ≤ 1)%nat) as [H1|H1]; [destruct l as [|? [|]]; cbn in *; lia|].
  apply Nat.log2_up_spec. lia.
Qed.
Lemma next_power_of_two_idem n : next_power_of_two (next_power_of_two n) = next_power_of_two n.
Proof. unfold next_power_of_two. by rewrite Nat.log2_up_pow2 by lia. Qed.

Lemma auth_data_root_climb l :
  auth_data_root l = auth_climb (next_power_of_two (length l)) (pad l).
Proof. unfold auth_data_root, assert_. rewrite !padded_length, bool_decide_true; [done|]. by rewrite next_power_of_two_idem. Qed.

(** Every list of digests has a root, and the root determines the digests of a list
    of known length. *)
Lemma auth_data_root_total l : ∃ r, auth_data_root l = Ret r.
Proof.
  rewrite auth_data_root_climb. apply (auth_climb_total (Nat.log2_up (length l))); [apply padded_length|].
  unfold next_power_of_two. pose proof (Nat.pow_gt_lin_r 2 (Nat.log2_up (length l))). lia.
Qed.
Lemma auth_data_root_binds l1 l2 r :
  length l1 = length l2 → auth_data_root l1 = Ret r → auth_data_root l2 = Ret r →
  l1 = l2 ∨ collision_in (root_pairs (pad l1) ++ root_pairs (pad l2)).
Proof.
  rewrite !auth_data_root_climb. unfold root_pairs. rewrite !padded_length. intros Hl H1 H2.
  destruct (auth_climb_inj (Nat.log2_up (length l1)) _ _ (pad l1) (pad l2) r (padded_length l1)
              ltac:(rewrite Hl; apply padded_length) H1 H2) as [E|]; [|by right].
  left. unfold pad in E. by apply app_inj_1 in E as [? _].
Qed.
End trees.

(** ** What the trees do not bind *)

(** A hash that joins its arguments, which has no collisions of nodes. *)
Definition join (a b : bytes) : bytes := Byte.x28 :: a ++ Byte.x2c :: b ++ [Byte.x29].

(** CVE-2012-2459: repeating the last transactions keeps the root, and no pairs of nodes
    collide. *)
Example duplicates_share_a_root :
  let '(a, b, c) := (to_le 32 1, to_le 32 2, to_le 32 3) in
  merkle_root join [a; b; c] = merkle_root join [a; b; c; c] ∧
  let ps := root_pairs join [a; b; c] ++ root_pairs join [a; b; c; c] in
  Forall (λ p, Forall (λ q, p = q ∨ join p.1 p.2 ≠ join q.1 q.2) ps) ps.
Proof. split; [vm_compute; reflexivity|]. cbv zeta. apply (bool_decide_unpack _). vm_compute. exact I. Qed.

(** A node is the root of its children and of itself. *)
Example nodes_are_leaves a b : merkle_root join [a; b] = merkle_root join [join a b].
Proof. reflexivity. Qed.
