(* ===== verification/TxVerifier.v ===== *)
(** * TxVerifier: the transaction verifier

    Models the service of [zebra-consensus/src/transaction.rs]: the checks it makes
    of a transaction in a block or for the mempool, in their order, the outputs it
    looks up and the fee it computes.

    What it asks of other services, and the proofs, scripts and signatures it has
    checked by other crates, are the class [TxServices]. *)

From stdpp Require Import base list gmap sets strings.
From S2P Require Import Prelude Wire Encoding Roster Amount Staking Transparent Network Transaction Delegation DelegationInv DelegationBlock BlockValue Spends.
Import StakingAction.

(** ** Requests and responses *)

Inductive Request :=
| BlockRequest (transaction_hash : bytes) (transaction : Transaction) (known_outpoint_hashes : gset bytes)
    (known_utxos : gmap OutPoint OrderedUtxo) (height : Z) (time : Z)
| MempoolRequest (transaction_hash : bytes) (transaction : Transaction) (height : Z).

Definition req_transaction (r : Request) : Transaction :=
  match r with BlockRequest _ tx _ _ _ _ | MempoolRequest _ tx _ => tx end.
Definition tx_mined_id (r : Request) : bytes :=
  match r with BlockRequest h _ _ _ _ _ | MempoolRequest h _ _ => h end.
Definition req_known_utxos (r : Request) : gmap OutPoint OrderedUtxo :=
  match r with BlockRequest _ _ _ k _ _ => k | MempoolRequest _ _ _ => ∅ end.
Definition req_known_outpoint_hashes (r : Request) : gset bytes :=
  match r with BlockRequest _ _ k _ _ _ => k | MempoolRequest _ _ _ => ∅ end.
Definition req_height (r : Request) : Z :=
  match r with BlockRequest _ _ _ _ h _ | MempoolRequest _ _ h => h end.
Definition req_block_time (r : Request) : option Z :=
  match r with BlockRequest _ _ _ _ _ t => Some t | MempoolRequest _ _ _ => None end.
Definition is_mempool (r : Request) : bool := match r with MempoolRequest _ _ _ => true | _ => false end.

Inductive Response :=
| BlockResponse (miner_fee : option Z) (sigops : Z)
| MempoolResponse (miner_fee : Z) (sigops : Z) (spent_mempool_outpoints : list OutPoint).

Definition response_fee (r : Response) : option Z :=
  match r with BlockResponse f _ => f | MempoolResponse f _ _ => Some f end.
Definition response_sigops (r : Response) : Z :=
  match r with BlockResponse _ s | MempoolResponse _ s _ => s end.

(** ** Other services *)

Class TxServices := {
  (** Whether there is a mempool; a verified transaction by its mined id, with its
      fee, its signature operations and the hashes of the transactions it depends on;
      an output of a transaction in the mempool. *)
  has_mempool : bool;
  transaction_with_deps : bytes → option (Z * Z * list bytes);
  mempool_await_output : OutPoint → Fallible TransactionError Output;
  (** Queries of the state. *)
  await_utxo : OutPoint → Fallible TransactionError Utxo;
  unspent_best_chain_utxo : OutPoint → Fallible TransactionError (option Utxo);
  bond_info : bytes → string + option Z;
  next_median_time_past : Fallible TransactionError Z;
  check_nullifiers_and_anchors : Transaction → Checked;
  (** [CachedFfiTransaction::new]; the checks of scripts, proofs and signatures;
      [tx.sigops()]; [VerifiedUnminedTx::new]. *)
  ffi_transaction : Transaction → list Output → NetworkUpgrade → bool;
  async_checks : Transaction → Checked;
  sigops : Transaction → Fallible TransactionError Z;
  verified_unmined : Transaction → Z → Z → Checked }.

Section verifier.
Context {P : Profile} {S : TxServices} (n : Network).

(** ** A transaction that the mempool has verified *)

(** Every output of a list is in the state. *)
Fixpoint await_all (l : list OutPoint) : Fallible TransactionError () :=
  match l with
  | [] => mret ()
  | o :: l =>
      match await_utxo o with
      | Ret (inr _) => await_all l
      | Ret (inl _) => fail TransparentInputNotFound
      | Panic => Panic
      end
  end.

(** [None] if the mempool does not have the transaction. *)
Definition find_verified_unmined_tx (r : Request) : option (Fallible TransactionError (Z * Z)) :=
  let tx := req_transaction r in
  if is_mempool r || is_coinbase tx then None
  else if negb has_mempool then None
  else
    match transaction_with_deps (tx_mined_id r) with
    | None => None
    | Some (fee, sigops, dependencies) =>
        let missing_deps := filter (λ d, d ∉ req_known_outpoint_hashes r) dependencies in
        let missing_outpoints := filter (λ o, o.1 ∈ missing_deps) (spent_outpoints tx) in
        Some (if decide (missing_deps = []) then mret (fee, sigops)
              else _ ← await_all missing_outpoints; mret (fee, sigops))
    end.

(** ** The outputs that a transaction spends *)

Fixpoint load_inputs (r : Request) (l : list Input)
    (acc : gmap OutPoint Utxo * list Output * list OutPoint)
    : Fallible TransactionError (gmap OutPoint Utxo * list Output * list OutPoint) :=
  let '(spent_utxos, spent_outputs, spent_mempool_outpoints) := acc in
  match l with
  | [] => mret acc
  | Coinbase _ _ :: l => load_inputs r l acc
  | PrevOut o _ :: l =>
      found ← (match req_known_utxos r !! o with
               | Some u => mret (Some u.(utxo))
               | None =>
                   if is_mempool r
                   then map_err (λ _, TransparentInputNotFound) (unspent_best_chain_utxo o)
                   else u ← await_utxo o; mret (Some u)
               end);
      match found with
      | Some u => load_inputs r l (<[o := u]> spent_utxos, spent_outputs ++ [u.(utxo_output)], spent_mempool_outpoints)
      | None => load_inputs r l (spent_utxos, spent_outputs, spent_mempool_outpoints ++ [o])
      end
  end.
Fixpoint load_mempool_outputs (r : Request) (l : list OutPoint) (spent_utxos : gmap OutPoint Utxo)
    (spent_outputs : list Output) : Fallible TransactionError (gmap OutPoint Utxo * list Output) :=
  match l with
  | [] => mret (spent_utxos, spent_outputs)
  | o :: l =>
      output ← mempool_await_output o;
      load_mempool_outputs r l
        (<[o := {| utxo_output := output; utxo_height := req_height r; from_coinbase := false |}]> spent_utxos)
        (spent_outputs ++ [output])
  end.
Definition spent_utxos_of (r : Request)
    : Fallible TransactionError (gmap OutPoint Utxo * list Output * list OutPoint) :=
  loaded ← load_inputs r (inputs (req_transaction r)) (∅, [], []);
  let '(spent_utxos, spent_outputs, spent_mempool_outpoints) := loaded in
  if has_mempool then
    x ← load_mempool_outputs r spent_mempool_outpoints spent_utxos spent_outputs;
    mret (x.1, x.2, spent_mempool_outpoints)
  else
    _ ← ensure (bool_decide (spent_mempool_outpoints = [])) TransparentInputNotFound;
    mret (spent_utxos, spent_outputs, spent_mempool_outpoints).

(** [tx_transparent_coinbase_spends_maturity] *)
Fixpoint coinbase_spends_maturity (restriction : CoinbaseSpendRestriction)
    (block_new_outputs : gmap OutPoint OrderedUtxo) (spent_utxos : gmap OutPoint Utxo) (l : list OutPoint) : Checked :=
  match l with
  | [] => mret ()
  | o :: l =>
      u ← expect_some (match block_new_outputs !! o with Some u => Some u.(utxo) | None => spent_utxos !! o end);
      _ ← map_err (λ _, CoinbaseSpend) (transparent_coinbase_spend o restriction u);
      coinbase_spends_maturity restriction block_new_outputs spent_utxos l
  end.
Definition check_maturity_height (r : Request) (spent_utxos : gmap OutPoint Utxo) : Checked :=
  let tx := req_transaction r in
  coinbase_spends_maturity (coinbase_spend_restriction n (req_height r) tx) (req_known_utxos r) spent_utxos
    (spent_outpoints tx).

(** ** The checks *)

(** Up to the look-up of the outputs. *)
Definition quick_checks (r : Request) : Checked :=
  let tx := req_transaction r in
  let height := req_height r in
  _ ← has_inputs_and_outputs tx;
  _ ← check_orchard_flags tx;
  _ ← consensus_branch_id n height tx;
  _ ← (if is_mempool r && is_coinbase tx then fail CoinbaseInMempool else mret ());
  _ ← (if is_coinbase tx then coinbase_tx_no_prevout_joinsplit_spend tx
       else ensure (is_valid_non_coinbase tx) NonCoinbaseHasCoinbaseInput);
  _ ← (if is_coinbase tx then coinbase_expiry_height n height tx else non_coinbase_expiry_height height tx);
  _ ← joinsplit_has_vpub_zero tx;
  _ ← disabled_add_to_sprout_pool n height tx;
  _ ← spend_conflicts tx;
  _ ← map_err Staking (Ret (check_staking_day_window (staking_action tx) height));
  _ ← map_err Staking (check_staking_action_delay bond_info (staking_action tx) height);
  match req_block_time r with
  | Some time => lock_time_has_passed height (Some time) tx
  | None =>
      time ← (if lock_time_is_time tx then t ← next_median_time_past; mret (Some t) else mret None);
      lock_time_has_passed height time tx
  end.

(** The checks that depend on the version. *)
Definition version_checks (tx : Transaction) (nu : NetworkUpgrade) : Checked :=
  match tx with
  | V1 _ _ _ | V2 _ _ _ _ | V3 _ _ _ _ _ => fail WrongVersion
  | V4 _ _ _ _ _ _ => verify_v4_transaction_network_upgrade nu
  | V5 _ _ _ _ _ _ _ | VCrosslink _ _ _ _ _ _ _ _ => verify_v5_transaction_network_upgrade nu
  end.

(** The fee of a transaction that is not a coinbase transaction. *)
Definition miner_fee_of (spent_utxos : gmap OutPoint Utxo) (tx : Transaction) : Fallible TransactionError (option Z) :=
  match value_balance (outputs_from_utxos spent_utxos) tx with
  | Panic => Panic
  | Ret balance =>
      if is_coinbase tx then mret None
      else match balance with
           | inl _ => fail IncorrectFee
           | inr vb =>
               match ValueBalance.remaining_transaction_value vb with
               | Ret (inr fee) => mret (Some fee)
               | Ret (inl _) => fail IncorrectFee
               | Panic => Panic
               end
           end
  end.

(** [call] *)
Definition verify_transaction (r : Request) : Fallible TransactionError Response :=
  let tx := req_transaction r in
  match find_verified_unmined_tx r with
  | Some result => x ← result; mret (BlockResponse (Some x.1) x.2)
  | None =>
      _ ← quick_checks r;
      loaded ← spent_utxos_of r;
      let '(spent_utxos, spent_outputs, spent_mempool_outpoints) := loaded in
      _ ← (if is_mempool r then check_maturity_height r spent_utxos else mret ());
      nu ← run (current n (req_height r));
      _ ← ensure (ffi_transaction tx spent_outputs nu) UnsupportedByNetworkUpgrade;
      _ ← version_checks tx nu;
      _ ← (if is_mempool r then check_nullifiers_and_anchors tx else mret ());
      _ ← async_checks tx;
      miner_fee ← miner_fee_of spent_utxos tx;
      ops ← sigops tx;
      if is_mempool r then
        fee ← expect_some miner_fee;
        _ ← verified_unmined tx fee ops;
        mret (MempoolResponse fee ops spent_mempool_outpoints)
      else mret (BlockResponse miner_fee ops)
  end.
End verifier.
