(* ===== verification/DelegationRevert.v ===== *)
(** * DelegationRevert: taking a block off the tip

    [revert_block] after [update_block] gives back the chain there was: the
    pools, the recorded rewards and targets and every bond, except for the
    height at which a bond that was unbonded or withdrawn last changed, which
    the code does not restore. *)

From stdpp Require Import base list gmap sets.
From S2P Require Import Prelude Wire Encoding Bft Roster Amount Staking Delegation DelegationInv DelegationBlock.
Import StakingAction Chain.

(** A bond without its last change. *)
Definition strip (v : Bond) : Bond := (moved_at v.1 (0, 0), v.2).

(** Two chains that agree up to the last change of their bonds. *)
Record same_but_created (c c' : Chain.t) : Prop := {
  sb_bonds : strip <$> c'.(delegation_bonds) = strip <$> c.(delegation_bonds);
  sb_rewards : c'.(bond_rewards) = c.(bond_rewards);
  sb_retargets : c'.(bond_retargets) = c.(bond_retargets);
  sb_pools : c'.(chain_value_pools) = c.(chain_value_pools) }.

#[global] Instance same_but_created_equiv : Equivalence same_but_created.
Proof.
  split.
  - by intros c.
  - intros c c' []. by split.
  - intros c1 c2 c3 [] []. split; by etrans.
Qed.

(** ** Rewards *)

(** Taking back a list of rewards. *)
Lemma revert_rewards_loop (r : BondKey → Bond → Z) es : ∀ d,
  NoDup es.*1 →
  (∀ x, x ∈ es → d.(delegation_bonds) !! x.1 = Some (paid x.2 (r x.1 x.2)) ∧
     0 ≤ x.2.1.(bond_amount) ∧ 0 ≤ r x.1 x.2 ∧ x.2.1.(bond_amount) + r x.1 x.2 ≤ MAX_MONEY) →
  zsum (map (λ x, r x.1 x.2) es) ≤ staking_bonded d ≤ MAX_MONEY →
  ∃ bs', for_each revert_reward (map (λ x, (x.1, r x.1 x.2)) es) d
      = Ret (set_bonded (with_bonds d bs') (staking_bonded d - zsum (map (λ x, r x.1 x.2) es))) ∧
    (∀ k, k ∉ es.*1 → bs' !! k = d.(delegation_bonds) !! k) ∧
    (∀ x, x ∈ es → bs' !! x.1 = Some x.2).
Proof.
  pose proof MAX_MONEY_i64 as HM. induction es as [|x es IH]; intros d Hnd Hin Hb.
  { exists d.(delegation_bonds). split; [|split; [done|by intros x ?%elem_of_nil]].
    cbn. unfold set_bonded, with_bonds, with_pools. cbn. rewrite Z.sub_0_r. by destruct d as [? ? ? []]. }
  cbn in Hnd. apply NoDup_cons in Hnd as [Hx Hnd]. cbn [map] in Hb |- *. rewrite zsum_cons in Hb |- *.
  destruct (Hin x (list_elem_of_here _ _)) as (Hd & Ha & Hr & Hs).
  assert (0 ≤ zsum (map (λ x, r x.1 x.2) es)).
  { apply zsum_map_nonneg. intros y Hy. apply Hin. by apply list_elem_of_further. }
  assert (∀ z, 0 ≤ z ≤ MAX_MONEY → Amount.ok NonNegative z) as Hok by done.
  set (d1 := set_bonded (with_bonds d (<[x.1 := x.2]> d.(delegation_bonds))) (staking_bonded d - r x.1 x.2)).
  assert (revert_reward d (x.1, r x.1 x.2) = Ret d1) as Hstep.
  { unfold revert_reward, u64_as_i64, Amount.as_i64, Amount.try_from. cbn [fst snd]. rewrite Hd.
    rewrite (proj2 (Z.ltb_lt _ (2 ^ 63))) by lia. cbn [unwrap mbind outcome_bind paid].
    rewrite is_i64_true by lia. rewrite validate_ok by (apply Hok; lia).
    cbn [expect mbind outcome_bind bond_amount with_amount].
    rewrite sub_exact by (apply Hok; lia). rewrite validate_ok by (apply Hok; lia).
    cbn [expect mbind outcome_bind]. change (staking_bonded (with_bonds d _)) with (staking_bonded d).
    rewrite sub_exact by (apply Hok; lia). rewrite validate_ok by (apply Hok; lia).
    cbn [expect mbind outcome_bind]. unfold d1. do 3 f_equal. unfold with_amount. cbn. rewrite Z.add_simpl_r. by destruct x as [? [[] ?]]. }
  cbn [for_each]. rewrite Hstep. cbn [mbind outcome_bind].
  destruct (IH d1) as (bs' & -> & Hout & Hbs').
  - done.
  - intros y Hy. cbn. rewrite lookup_insert_ne; [apply Hin; by apply list_elem_of_further|].
    intros E. apply Hx. rewrite E. by apply list_elem_of_fmap_2.
  - unfold staking_bonded in *. cbn. lia.
  - exists bs'. split; [|split].
    + unfold d1, set_bonded, with_bonds, with_pools, staking_bonded. cbn. do 3 f_equal. lia.
    + intros k Hk. rewrite Hout by set_solver. cbn. rewrite lookup_insert_ne; [done|set_solver].
    + intros y [->|Hy]%elem_of_cons; [|by apply Hbs']. rewrite Hout by done. cbn. by rewrite lookup_insert_eq.
Qed.

(** ** Targets *)

Lemma revert_retargets_loop ts : ∀ d,
  NoDup ts.*1 → (∀ x, x ∈ ts → is_Some (d.(delegation_bonds) !! x.1)) →
  ∃ bs', for_each revert_retarget ts d = Ret (with_bonds d bs') ∧
    (∀ k, k ∉ ts.*1 → bs' !! k = d.(delegation_bonds) !! k) ∧
    (∀ x, x ∈ ts → bs' !! x.1 = (λ v : Bond, (with_target v.1 x.2, v.2)) <$> d.(delegation_bonds) !! x.1).
Proof.
  induction ts as [|x ts IH]; intros d Hnd Hin.
  { exists d.(delegation_bonds). split; [by destruct d|]. split; [done|by intros x ?%elem_of_nil]. }
  cbn in Hnd. apply NoDup_cons in Hnd as [Hx Hnd].
  destruct (Hin x (list_elem_of_here _ _)) as [[b st] Hb].
  set (d1 := with_bonds d (<[x.1 := (with_target b x.2, st)]> d.(delegation_bonds))).
  assert (revert_retarget d x = Ret d1) as Hstep by (unfold revert_retarget; by rewrite Hb).
  cbn [for_each]. rewrite Hstep. cbn [mbind outcome_bind]. destruct (IH d1) as (bs' & -> & Hout & Hbs').
  - done.
  - intros y Hy. cbn. rewrite lookup_insert_ne; [apply Hin; by apply list_elem_of_further|].
    intros E. apply Hx. rewrite E. by apply list_elem_of_fmap_2.
  - exists bs'. split; [done|]. split.
    + intros k Hk. rewrite Hout by set_solver. cbn. rewrite lookup_insert_ne; [done|set_solver].
    + intros y [->|Hy]%elem_of_cons.
      * rewrite Hout by done. cbn. by rewrite lookup_insert_eq, Hb.
      * rewrite Hbs' by done. cbn. rewrite lookup_insert_ne; [done|].
        intros E. apply Hx. rewrite E. by apply list_elem_of_fmap_2.
Qed.

(** The targets that were recorded are those the retargeted bonds had. *)
Lemma old_targets_other bs xs m k : k ∉ map key xs → old_targets bs xs m !! k = m !! k.
Proof.
  revert m. induction xs as [|x xs IH]; intros m Hk; [done|]. cbn in Hk.
  change (old_targets bs (x :: xs) m) with (old_targets bs xs (note_target bs m x)).
  rewrite IH by set_solver. apply note_target_other. set_solver.
Qed.

Lemma old_targets_here bs xs m x :
  NoDup (map key xs) → x ∈ xs → m !! key x = None →
  old_targets bs xs m !! key x
  = if decide (x.1.(kind) = RetargetDelegationBond)
    then (λ v : Bond, v.1.(target_finalizer)) <$> bs !! key x else None.
Proof.
  revert m. induction xs as [|y xs IH]; intros m Hnd Hx Hm; [by apply elem_of_nil in Hx|].
  cbn in Hnd. apply NoDup_cons in Hnd as [Hy Hnd].
  change (old_targets bs (y :: xs) m) with (old_targets bs xs (note_target bs m y)).
  apply elem_of_cons in Hx as [->|Hx].
  - rewrite old_targets_other by done. unfold note_target. case_decide; [|done].
    destruct (bs !! key y); [by apply lookup_insert_eq|done].
  - apply IH; [done|done|]. rewrite note_target_other; [done|].
    intros E. apply Hy. rewrite E. by apply (list_elem_of_fmap_2 key).
Qed.

(** ** Actions *)

(** What reverting an action does to the bond it names. *)
Definition uneffect (x : Located) (o : option Bond) : option Bond :=
  match x.1.(kind) with
  | CreateNewDelegationBond => None
  | BeginDelegationUnbonding => (λ v : Bond, (v.1, Active)) <$> o
  | WithdrawDelegationBond => (λ v : Bond, (v.1, Unbonding)) <$> o
  | _ => o
  end.

Definition revertible (o : option Bond) (a : StakingAction.t) : Prop :=
  match a.(kind) with
  | CreateNewDelegationBond => is_Some o
  | BeginDelegationUnbonding => ∃ b, o = Some (b, Unbonding)
  | WithdrawDelegationBond => ∃ b, o = Some (b, Withdrawn)
  | _ => True
  end.

(** The pools can take [u] back from the unbonded to the bonded pool. *)
Definition can_unshift (c : Chain.t) (u : Z) : Prop :=
  0 ≤ u ≤ staking_unbonded c ∧ staking_unbonded c ≤ MAX_MONEY ∧
    0 ≤ staking_bonded c ∧ staking_bonded c + u ≤ MAX_MONEY.

Lemma revert_step c x :
  revertible (c.(delegation_bonds) !! key x) x.1 → can_unshift c (unbonded c.(delegation_bonds) x) →
  revert_delegation_bond c x.1
  = Ret (Chain.mk (act_by uneffect c.(delegation_bonds) x) c.(bond_rewards) c.(bond_retargets)
           (shift c.(chain_value_pools) (- unbonded c.(delegation_bonds) x))).
Proof.
  intros He Hc. destruct c as [bs rew tgts pools]. cbn in He, Hc |- *.
  unfold revert_delegation_bond. fold (key x). unfold unbonded in *.
  cbn [delegation_bonds chain_value_pools bond_rewards bond_retargets] in *. unfold revertible in He.
  assert (∀ z, 0 ≤ z ≤ MAX_MONEY → Amount.ok NonNegative z) as Hok by done.
  destruct (kind x.1) eqn:Ek; known_decide; rewrite ?Z.opp_0, ?shift_zero;
    try (rewrite act_id by (unfold uneffect; by rewrite Ek); done).
  - destruct He as [v Hv]. rewrite Hv. cbn. unfold with_bonds. cbn. do 2 f_equal.
    apply map_eq. intros k. unfold act_by, uneffect. rewrite Ek. destruct (decide (key x = k)) as [<-|Hne];
                                                                   [by rewrite lookup_partial_alter_eq, lookup_delete_eq|by rewrite lookup_partial_alter_ne, lookup_delete_ne].
  - destruct He as [b Hb]. erewrite act_insert by (unfold uneffect; by rewrite Ek, Hb).
    rewrite decide_True in Hc by done. rewrite Hb in Hc |- *. cbn in Hc. known_decide. cbn.
    destruct Hc as (Hu & Hbd & Hub & Hm). unfold staking_bonded, staking_unbonded in *.
    cbn [chain_value_pools with_bonds] in *.
    rewrite add_exact by (apply Hok; lia). rewrite validate_ok by (apply Hok; lia).
    cbn [expect mbind outcome_bind]. unfold set_bonded, with_pools, with_bonds.
    cbn [chain_value_pools ValueBalance.set_staking_bonded_amount ValueBalance.staking_unbonded].
    rewrite sub_exact by (apply Hok; lia). rewrite validate_ok by (apply Hok; lia).
    cbn. unfold set_unbonded, shift, with_pools. cbn. rewrite decide_True by done.
    by rewrite Z.sub_opp_r, Z.add_opp_r.
  - destruct He as [b Hb]. erewrite act_insert by (unfold uneffect; by rewrite Ek, Hb). rewrite Hb. cbn.
    by known_decide.
Qed.

(** The loop over the transactions of the block. *)
Definition revert_actions : list (option StakingAction.t) → Chain.t → outcome Chain.t :=
  for_each (λ c tx, match tx with Some a => revert_delegation_bond c a | None => Ret c end).

Lemma revert_actions_eq height txs : ∀ i c,
  let xs := located height i txs in
  let bs := c.(delegation_bonds) in
  NoDup (map key xs) → Forall (λ x, revertible (bs !! key x) x.1) xs →
  Forall (λ x, 0 ≤ unbonded bs x) xs → can_unshift c (zsum (map (unbonded bs) xs)) →
  revert_actions txs c
  = Ret (Chain.mk (acts_by uneffect xs bs) c.(bond_rewards) c.(bond_retargets)
           (shift c.(chain_value_pools) (- zsum (map (unbonded bs) xs)))).
Proof.
  induction txs as [|[a|] txs IH]; intros i c xs bs Hnd He Hpos Hc; cbn [located] in xs.
  - subst xs bs. cbn. rewrite shift_zero. by destruct c.
  - set (ys := located height (i + 1) txs) in *. set (x := (a, (height, i))) in *. subst xs.
    cbn [map] in Hnd, Hc |- *. rewrite zsum_cons in Hc |- *. apply NoDup_cons in Hnd as [Hx Hnd].
    apply Forall_cons in He as [Hex He]. apply Forall_cons in Hpos as [Hpx Hpos].
    assert (0 ≤ zsum (map (unbonded bs) ys)) by (apply zsum_map_nonneg; by apply Forall_forall).
    assert (can_unshift c (unbonded bs x)) as Hcx by (unfold can_unshift in *; lia).
    pose proof (revert_step c x Hex Hcx) as Hstep. unfold x in Hstep at 1. cbn [fst] in Hstep.
    unfold revert_actions. cbn [for_each]. rewrite Hstep. fold bs. cbn [mbind outcome_bind].
    fold revert_actions. set (c1 := Chain.mk _ _ _ _).
    pose proof (act_keeps (f := uneffect) bs x ys Hx) as Hk.
    rewrite (IH (i + 1) c1); fold ys; cbn [delegation_bonds c1 bond_rewards bond_retargets chain_value_pools].
    + rewrite acts_cons, (unbonded_sum_act _ _ _ Hx), shift_shift. do 3 f_equal. lia.
    + done.
    + rewrite Forall_forall in He |- *. intros y Hy. rewrite Hk by done. by apply He.
    + rewrite Forall_forall in Hpos |- *. intros y Hy.
      rewrite (unbonded_ext _ bs) by (by apply Hk). by apply Hpos.
    + rewrite (unbonded_sum_act _ _ _ Hx). unfold can_unshift, staking_bonded, staking_unbonded in *.
      cbn in *. lia.
  - subst xs. unfold revert_actions. cbn [for_each mbind outcome_bind]. by apply (IH (i + 1)).
Qed.

(** ** A whole block *)

Section revert.
Context {P : Profile} (iter : Bonds → Items) `{Iteration iter}.
Context (iter_targets : gmap BondKey bytes → list (BondKey * bytes)).
Context (Htargets : ∀ m, iter_targets m ≡ₚ map_to_list m).
Context (c : Chain.t) (height : Z) (txs : list (option StakingAction.t)) (change : ValueBalance.t).
Context (Hbal : balanced c) (Hfit : fits c (located height 0 txs) change).

Let xs := located height 0 txs.
Let bs := c.(delegation_bonds).
Let A := acts xs bs.
Let U := zsum (map (unbonded bs) xs).
Let br := before_reward c height txs change.

(** The entries that were rewarded are the active bonds. *)
Lemma recorded_in es x :
  es ≡ₚ filter (λ x, active x = true) (map_to_list A) → x ∈ es ↔ A !! x.1 = Some x.2 ∧ x.2.2 = Active.
Proof.
  intros Hes. destruct x as [k v]. rewrite Hes, list_elem_of_filter, elem_of_map_to_list. unfold active.
  rewrite bool_decide_eq_true. cbn. tauto.
Qed.

Lemma recorded_keys es :
  es ≡ₚ filter (λ x, active x = true) (map_to_list A) → NoDup es.*1.
Proof.
  intros Hes. apply NoDup_fmap_fst; [|rewrite Hes; apply NoDup_filter, NoDup_map_to_list].
  intros k v1 v2 H1 H2. apply (recorded_in es _ Hes) in H1 as [H1 _], H2 as [H2 _]. cbn in *. congruence.
Qed.

Lemma recorded_missing es k :
  es ≡ₚ filter (λ x, active x = true) (map_to_list A) →
  (∀ v, A !! k = Some v → v.2 ≠ Active) → k ∉ es.*1.
Proof.
  intros Hes Hk ([k' v] & -> & [Hx Hv]%(recorded_in es _ Hes))%list_elem_of_fmap. by apply (Hk v).
Qed.

Lemma rewarded_lookup m k : rewarded A m !! k = (λ v, paid v (reward A m k v)) <$> A !! k.
Proof. unfold rewarded. rewrite map_lookup_imap. by destruct (A !! k). Qed.

(** Putting the rewarded bonds back gives the bonds before the reward. *)
Lemma rewarded_restored m es bs' :
  es ≡ₚ filter (λ x, active x = true) (map_to_list A) →
  (∀ k, k ∉ es.*1 → bs' !! k = rewarded A m !! k) → (∀ x, x ∈ es → bs' !! x.1 = Some x.2) → bs' = A.
Proof.
  intros Hes Hout Hbs'. apply map_eq. intros k. destruct (A !! k) as [v|] eqn:Hk.
  - destruct (decide (v.2 = Active)) as [Hv|Hv].
    { apply (Hbs' (k, v)). by apply (recorded_in es _ Hes). }
    rewrite Hout by (apply recorded_missing; [done|congruence]). rewrite rewarded_lookup, Hk. cbn. f_equal.
    unfold reward. rewrite decide_False by done. apply paid_zero.
  - rewrite Hout by (apply recorded_missing; [done|congruence]). by rewrite rewarded_lookup, Hk.
Qed.

(** A rewarded bond is still within the money supply. *)
Lemma rewarded_fits m k v :
  payable_bonds A → is_max A m → A !! k = Some v → v.2 = Active →
  0 ≤ v.1.(bond_amount) ∧ 0 ≤ reward A m k v ∧ v.1.(bond_amount) + reward A m k v ≤ MAX_MONEY.
Proof.
  intros Hpb Hm Hk Hv. pose proof (pb_amounts _ Hpb) as Hpos.
  assert (∀ k v, rewarded A m !! k = Some v → 0 ≤ v.1.(bond_amount)) as Hpos'.
  { intros k' v'. rewrite rewarded_lookup. intros (v0 & Hv0 & ->)%fmap_Some. cbn.
    pose proof (Hpos _ _ Hv0). pose proof (reward_nonneg c height txs m k' v0 Hpb Hm Hv0) as Hr0.
    fold xs bs A in Hr0. lia. }
  split; [by eapply Hpos|]. split; [by apply (reward_nonneg c height txs)|].
  assert (rewarded A m !! k = Some (paid v (reward A m k v))) as Hr by (by rewrite rewarded_lookup, Hk).
  pose proof (weight_le_total _ Hpos' Active k _ Hr) as Hw. unfold weight, paid in Hw. cbn in Hw.
  rewrite decide_True in Hw by done. pose proof (rewarded_total A m Hm). pose proof (pb_supply _ Hpb). lia.
Qed.

(** Taking the rewards back. *)
Lemma rewards_reverted m es :
  payable_bonds A → is_max A m → es ≡ₚ filter (λ x, active x = true) (map_to_list A) →
  for_each revert_reward (map (λ x, (x.1, reward A m x.1 x.2)) es)
  (with_rewards (rewarded_chain c height txs change m es) c.(bond_rewards)) = Ret br.
Proof.
  intros Hpb Hm Hes. set (d := with_rewards _ _).
  assert (zsum (map (λ x, reward A m x.1 x.2) es) = BOND_REWARD_TOTAL) as Hsum.
  { rewrite (zsum_perm _ _ (Permutation_map _ Hes)), recorded_sum. by apply reward_sum. }
  pose proof (moved_pools_staking c height txs change Hbal Hfit) as [Hsb _]. fold xs bs A in Hsb.
  pose proof (total_nonneg A (pb_amounts _ Hpb) Active) as Ht0. pose proof (pb_supply _ Hpb) as Hsup.
  assert (staking_bonded d = total Active A + BOND_REWARD_TOTAL) as Hd by (rewrite <- Hsb; done).
  destruct (revert_rewards_loop (reward A m) es d) as (bs' & Hloop & Hout & Hbs').
  - by apply recorded_keys.
  - intros [k v] [Hk Hv]%(recorded_in es _ Hes). cbn in Hk, Hv. cbn [fst snd].
    split; [|by apply rewarded_fits]. change (rewarded A m !! k = Some (paid v (reward A m k v))).
    by rewrite rewarded_lookup, Hk.
  - rewrite Hsum, Hd. lia.
  - rewrite Hloop, Hsum, Hd, Z.add_simpl_r, (rewarded_restored m es bs' Hes Hout Hbs'). f_equal.
    unfold br, before_reward. fold xs bs A. rewrite <- Hsb.
    unfold d, set_bonded, with_bonds, with_pools, with_rewards, rewarded_chain. cbn. done.
Qed.

(** The bonds after the targets were put back. *)
Lemma retargets_reverted : ∃ B,
  for_each revert_retarget (iter_targets (old_targets bs xs ∅))
  (with_retargets br c.(bond_retargets)) = Ret (with_bonds (with_retargets br c.(bond_retargets)) B) ∧
  (∀ k, k ∉ map key xs → B !! k = bs !! k) ∧
  (∀ x, x ∈ xs → B !! key x
   = if decide (x.1.(kind) = RetargetDelegationBond) then bs !! key x else effect x (bs !! key x)).
Proof.
  set (ot := old_targets bs xs ∅). pose proof (ft_keys _ _ _ Hfit) as Hnd. fold xs in Hnd.
  assert (∀ k t, (k, t) ∈ iter_targets ot ↔ ot !! k = Some t) as Hel.
  { intros k t. rewrite (Htargets ot). apply elem_of_map_to_list. }
  assert (∀ k, k ∈ (iter_targets ot).*1 ↔ is_Some (ot !! k)) as Hkeys.
  { intros k. rewrite list_elem_of_fmap. split.
    - intros ([k' t] & -> & Ht%Hel). by exists t.
    - intros [t Ht]. exists (k, t). split; [done|by apply Hel]. }
  assert (∀ x, x ∈ xs → ot !! key x = if decide (x.1.(kind) = RetargetDelegationBond)
    then (λ v : Bond, v.1.(target_finalizer)) <$> bs !! key x else None) as Hot.
  { intros x Hx. apply old_targets_here; [done|done|apply lookup_empty]. }
  assert (∀ k, k ∉ map key xs → ot !! k = None) as Hot'.
  { intros k Hk. unfold ot. rewrite old_targets_other by done. apply lookup_empty. }
  destruct (revert_retargets_loop (iter_targets ot) (with_retargets br c.(bond_retargets)))
    as (B & Hloop & Hout & HB).
  - rewrite (Permutation_map fst (Htargets ot)). apply NoDup_fst_map_to_list.
  - intros [k t] Ht%Hel. cbn. fold xs bs A.
    destruct (decide (k ∈ map key xs)) as [(x & -> & Hx)%list_elem_of_fmap|Hn];
      [|rewrite Hot' in Ht by done; done].
    unfold A. rewrite acts_here by done. rewrite Hot in Ht by done. case_decide as Hk; [|done].
    apply fmap_Some in Ht as (v & Hv & _). unfold effect. rewrite Hk, Hv. cbn. by eexists.
  - exists B. split; [done|]. cbn [delegation_bonds with_retargets br before_reward] in Hout, HB.
    fold xs bs A in Hout, HB. split.
    + intros k Hk. rewrite Hout; [by apply acts_other|]. rewrite Hkeys, Hot' by done. by intros [].
    + intros x Hx. case_decide as Hk.
      * pose proof (ft_enabled _ _ _ Hfit) as He. eapply Forall_forall in He; [|exact Hx].
        unfold enabled in He. rewrite Hk in He. destruct He as [b Hb]. fold bs in Hb.
        assert (ot !! key x = Some b.(target_finalizer)) as Hbx.
        { rewrite Hot, decide_True, Hb by done. done. }
        pose proof (HB (key x, b.(target_finalizer)) ltac:(by apply Hel)) as HBx.
        cbn [fst snd] in HBx. rewrite HBx. unfold A. rewrite acts_here by done. unfold effect. rewrite Hk, Hb. cbn. by destruct b.
      * rewrite Hout; [by apply acts_here|]. rewrite Hkeys, Hot, decide_False by done. by intros [].
Qed.

(** The bond of every action, before and after reverting it. *)
Lemma action_reverted x B :
  enabled (bs !! key x) x.1 →
  B = (if decide (x.1.(kind) = RetargetDelegationBond) then bs !! key x else effect x (bs !! key x)) →
  revertible B x.1 ∧ strip <$> uneffect x B = strip <$> bs !! key x ∧
  (x.1.(kind) = BeginDelegationUnbonding →
   from_option (λ v : Bond, v.1.(bond_amount)) 0 B
   = from_option (λ v : Bond, v.1.(bond_amount)) 0 (bs !! key x)).
Proof.
  unfold enabled, revertible, uneffect, effect. intros He ->. destruct (kind x.1) eqn:Ek; known_decide; cbn.
  - done.
  - destruct He as [-> _]. split; [by eexists|done].
  - destruct He as [b ->]. cbn. split; [by eexists|done].
  - destruct He as (b & -> & _). cbn. split; [by eexists|done].
  - done.
  - done.
  - done.
  - done.
Qed.

(** Reverting, once the rewards are taken back. *)
Lemma revert_block_split c' :
  update_block iter height txs change c = Ret (inr c') →
  revert_block iter_targets txs change c' =
  (d ← for_each revert_retarget (iter_targets (old_targets bs xs ∅)) (with_retargets br c.(bond_retargets));
   d ← revert_actions txs d;
   n ← ValueBalance.neg change;
   pools ← expect (ValueBalance.add_chain_value_pool_change d.(chain_value_pools) n);
   Ret (with_pools d pools)).
Proof.
  intros Hupd. destruct (update_block_eq iter c height txs change Hbal Hfit)
                 as [[Hu _]|(m & es & Hu & Hpb & Hm & Hes)]; rewrite Hupd in Hu; injection Hu as ->;
                 unfold revert_block; cbn [bond_rewards unrewarded rewarded_chain with_rewards];
                 rewrite last_snoc; cbn [unwrap mbind outcome_bind];
                 rewrite length_app, Nat.add_sub, take_app_length; [cbn [for_each mbind outcome_bind]|];
                 [|fold xs bs A in Hpb, Hm, Hes |- *; rewrite (rewards_reverted m es Hpb Hm Hes); cbn [mbind outcome_bind]];
                 cbn [bond_retargets br before_reward with_rewards unrewarded]; rewrite last_snoc;
                 cbn [unwrap mbind outcome_bind]; rewrite length_app, Nat.add_sub, take_app_length; done.
Qed.

(** The pools can give back what was unbonded. *)
Lemma moved_can_unshift B : can_unshift (with_bonds (with_retargets br c.(bond_retargets)) B) U.
Proof.
  pose proof (moved_pools_staking c height txs change Hbal Hfit) as [Hsb Hsu]. fold xs bs in Hsb, Hsu.
  destruct (acts_total xs bs (ft_keys _ _ _ Hfit) (ft_enabled _ _ _ Hfit)) as [HtA HtU]. fold U in HtA, HtU.
  pose proof (unbonded_bounds c height txs change Hbal Hfit) as [HUb HWb]. fold xs bs U in HUb, HWb.
  pose proof (created_nonneg c height txs change Hbal Hfit) as [HC HW]. fold xs in HC, HW.
  pose proof (ft_supply _ _ _ Hfit) as Hsup. fold xs bs in Hsup. unfold BOND_REWARD_TOTAL in Hsup.
  pose proof (total_nonneg bs (bl_amounts _ Hbal) Unbonding).
  unfold can_unshift, staking_bonded, staking_unbonded.
  cbn [chain_value_pools with_bonds with_retargets br before_reward]. rewrite Hsb, Hsu, HtA, HtU. lia.
Qed.

(** Undoing the moves and the change gives the pools there were. *)
Lemma pools_reverted :
  expect (ValueBalance.add_chain_value_pool_change (shift (moved_pools c height txs change) (- U))
          (ValueBalance.opp change)) = Ret c.(chain_value_pools).
Proof.
  assert (shift (moved_pools c height txs change) (- U) = ValueBalance.plus c.(chain_value_pools) change) as ->.
  { unfold moved_pools, shift, ValueBalance.plus, ValueBalance.set_staking_bonded_amount,
      ValueBalance.set_staking_unbonded_amount. fold xs bs U. cbn. f_equal; lia. }
  rewrite (proj2 (pool_change_inr (ValueBalance.plus c.(chain_value_pools) change)
       (ValueBalance.opp change) c.(chain_value_pools) (ft_after _ _ _ Hfit)
       (ok_opp _ (ft_change _ _ _ Hfit)))); [done|]. rewrite plus_opp. split; [done|apply Hfit].
Qed.

Lemma block_reverted c' :
  update_block iter height txs change c = Ret (inr c') →
  ∃ c'', revert_block iter_targets txs change c' = Ret c'' ∧ same_but_created c c''.
Proof.
  intros Hupd. rewrite (revert_block_split c' Hupd).
  destruct retargets_reverted as (B & -> & Hout & HB). cbn [mbind outcome_bind].
  pose proof (ft_keys _ _ _ Hfit) as Hnd. fold xs in Hnd.
  pose proof (ft_enabled _ _ _ Hfit) as He. fold xs bs in He. rewrite Forall_forall in He.
  assert (∀ x, x ∈ xs → unbonded B x = unbonded bs x) as HU.
  { intros x Hx. unfold unbonded. case_decide as Hk; [|done].
    by apply (action_reverted x (B !! key x) (He x Hx) (HB x Hx)). }
  assert (zsum (map (unbonded B) xs) = U) as HsumU.
  { unfold U. f_equal. apply map_ext_in. intros x Hx%list_elem_of_In. by apply HU. }
  set (d := with_bonds _ B). rewrite (revert_actions_eq height txs 0 d); fold xs; cbn [delegation_bonds with_bonds d].
  - rewrite HsumU. cbn [mbind outcome_bind chain_value_pools with_bonds with_retargets br before_reward d bond_rewards bond_retargets].
    rewrite (vb_neg_exact NegativeAllowed) by apply Hfit. cbn [mbind outcome_bind].
    rewrite pools_reverted. cbn [mbind outcome_bind]. eexists. split; [done|]. split; [|done|done|done].
    cbn. apply map_eq. intros k. rewrite !lookup_fmap.
    destruct (decide (k ∈ map key xs)) as [(x & -> & Hx)%list_elem_of_fmap|Hn].
    + rewrite acts_here by done. by apply (action_reverted x (B !! key x) (He x Hx) (HB x Hx)).
    + by rewrite acts_other, Hout by done.
  - done.
  - apply Forall_forall. intros x Hx. by apply (action_reverted x (B !! key x) (He x Hx) (HB x Hx)).
  - apply Forall_forall. intros x Hx. rewrite HU by done.
    pose proof (unbonded_nonneg c height txs Hbal) as HU0. eapply Forall_forall in HU0; [exact HU0|done].
  - rewrite HsumU. apply moved_can_unshift.
Qed.
End revert.

Section revert_theorems.
Context {P : Profile}.

(** C15: Taking a block off the tip undoes it: after adding a validated block that names no bond
    twice and is affordable ([affordable]: its pool change carries exactly the stake it
    creates and withdraws, the pools stay valid, the bonds with what is created and the
    reward stay within [MAX_MONEY], and bonds that are active afterwards do not all hold
    nothing), reverting it does not panic and gives back the chain there was, whatever the
    order in which bonds and recorded targets are iterated: the same pools, recorded rewards
    and targets, and the same bonds up to the height of their last change. *)
Theorem revert_undoes_block iter iter_targets c db height txs change :
  Iteration iter → (∀ m, iter_targets m ≡ₚ map_to_list m) → balanced c → holds_finalized c db →
  validate_delegation_bonds c db height txs = Ret (inr ()) →
  NoDup (map arg32_0 (actions txs)) → affordable c (located height 0 txs) change →
  ∃ c' c'', update_block iter height txs change c = Ret (inr c') ∧
  revert_block iter_targets txs change c' = Ret c'' ∧ same_but_created c c''.
Proof.
  intros Hit Htg Hbal Hdb Hv Hnd Ha.
  assert (fits c (located height 0 txs) change) as Hfit by (by eapply validated_fits).
  destruct (update_block_balanced iter c height txs change Hbal Hfit) as (c' & Hu & _).
  destruct (block_reverted iter iter_targets Htg c height txs change Hbal Hfit c' Hu) as (c'' & Hr & Hs).
  by exists c', c''.
Qed.
End revert_theorems.
