(* ===== verification/DiskFormat.v ===== *)
(** * DiskFormat: how bonds and value pools are stored

    Models the encodings of the database of finalized blocks that the delegation
    bonds use: heights, transaction indexes and locations
    ([disk_format/block.rs]), bonds and their statuses
    ([disk_format/delegation.rs]), value pools and block information
    ([disk_format/chain.rs]), over the big-endian helpers of [disk_format.rs].

    The theorems show that what is written is read back, and that the stored
    locations sort like the locations. *)

From stdpp Require Import base list.
From S2P Require Import Prelude Wire Encoding Roster Amount Staking Delegation.

(** ** Big-endian bytes *)

Definition to_be (n : nat) (z : Z) : bytes := reverse (to_le n z).
Definition from_be (bs : bytes) : Z := foldl (λ acc b, 256 * acc + byte.unsigned b) 0 bs.

Definition truncate_zero_be_bytes (mem_bytes : bytes) (disk_len : nat) : outcome (option bytes) :=
  if decide (length mem_bytes < disk_len)%nat then Panic else
  let discarded_bytes := (length mem_bytes - disk_len)%nat in
  if decide (discarded_bytes = 0)%nat then Ret (Some mem_bytes)
  else if forallb (λ b, byte.unsigned b =? 0) (take discarded_bytes mem_bytes)
  then Ret (Some (drop discarded_bytes mem_bytes)) else Ret None.

Definition expand_zero_be_bytes (disk_bytes : bytes) (mem_len : nat) : outcome bytes :=
  if decide (mem_len < length disk_bytes)%nat then Panic
  else Ret (zeros (mem_len - length disk_bytes) ++ disk_bytes).

(** ** The traits *)

Class IntoDisk (A : Type) : Type := as_bytes : A → outcome bytes.
Class FromDisk (A : Type) : Type := from_bytes : bytes → outcome A.

(** What the database relies on: valid values are read back as they were
    written. *)
Class DiskFormat (A : Type) {I : IntoDisk A} {F : FromDisk A} (valid : A → Prop) : Prop :=
  disk_roundtrip a : valid a → ∃ bs, as_bytes a = Ret bs ∧ from_bytes bs = Ret a.

(** An array of [n] bytes from a slice, [try_into().unwrap()]. *)
Definition array (n : nat) (bs : bytes) : outcome bytes :=
  if decide (length bs = n) then Ret bs else Panic.

(** ** Heights, indexes and locations *)

Definition HEIGHT_DISK_BYTES : nat := 3.
Definition TX_INDEX_DISK_BYTES : nat := 2.
Definition TRANSACTION_LOCATION_DISK_BYTES : nat := HEIGHT_DISK_BYTES + TX_INDEX_DISK_BYTES.
Definition MAX_ON_DISK_HEIGHT : Z := 2 ^ (8 * Z.of_nat HEIGHT_DISK_BYTES) - 1.

Definition height_as_bytes (h : Z) : outcome bytes :=
  disk_bytes ← truncate_zero_be_bytes (to_be 4 h) HEIGHT_DISK_BYTES;
  match disk_bytes with
  | Some b => array HEIGHT_DISK_BYTES b
  | None => b ← truncate_zero_be_bytes (to_be 4 MAX_ON_DISK_HEIGHT) HEIGHT_DISK_BYTES;
            b ← unwrap b; array HEIGHT_DISK_BYTES b
  end.
Definition height_from_bytes (bs : bytes) : outcome Z :=
  mem_bytes ← expand_zero_be_bytes bs 4;
  mem_bytes ← array 4 mem_bytes;
  Ret (from_be mem_bytes).

Definition index_as_bytes (i : Z) : outcome bytes := Ret (to_be TX_INDEX_DISK_BYTES i).
Definition index_from_bytes (bs : bytes) : outcome Z :=
  bs ← array TX_INDEX_DISK_BYTES bs; Ret (from_be bs).

#[global] Instance location_into_disk : IntoDisk TransactionLocation := λ l,
  height_bytes ← height_as_bytes l.1;
  index_bytes ← index_as_bytes l.2;
  array TRANSACTION_LOCATION_DISK_BYTES (height_bytes ++ index_bytes).
#[global] Instance location_from_disk : FromDisk TransactionLocation := λ bs,
  if decide (length bs < HEIGHT_DISK_BYTES)%nat then Panic else
  height ← height_from_bytes (take HEIGHT_DISK_BYTES bs);
  index ← index_from_bytes (drop HEIGHT_DISK_BYTES bs);
  Ret (height, index).

(** ** Bonds *)

#[global] Instance bond_key_into_disk : IntoDisk BondKey := Ret.
#[global] Instance bond_key_from_disk : FromDisk BondKey := array 32.

Definition DELEGATION_BOND_DISK_BYTES : nat := 8 + 32 + TRANSACTION_LOCATION_DISK_BYTES.

(** The amount is an [i64], written in two's complement. *)
#[global] Instance bond_into_disk : IntoDisk DelegationBond := λ b,
  created_at ← as_bytes b.(created_at);
  Ret (to_be 8 (b.(bond_amount) mod 2 ^ 64) ++ b.(target_finalizer) ++ created_at).
#[global] Instance bond_from_disk : FromDisk DelegationBond := λ bs,
  if decide (length bs < DELEGATION_BOND_DISK_BYTES)%nat then Panic else
  amount_bytes ← slice bs 0 8;
  amount ← expect (Amount.try_from NonNegative (from_be amount_bytes));
  target_finalizer ← slice bs 8 40;
  created_at ← slice bs 40 45;
  created_at ← from_bytes (A := TransactionLocation) created_at;
  Ret {| bond_amount := amount; target_finalizer := target_finalizer; created_at := created_at |}.

#[global] Instance status_into_disk : IntoDisk BondStatus := λ s,
  match s with
  | DbActive => Ret (to_le 1 0)
  | DbUnbonding unbonded_at => l ← as_bytes unbonded_at; Ret (to_le 1 1 ++ l)
  | DbWithdrawn withdrawn_at => l ← as_bytes withdrawn_at; Ret (to_le 1 2 ++ l)
  end.

(** The location after the tag. *)
Definition status_location (bs : bytes) : outcome TransactionLocation :=
  if decide (length bs < 1 + TRANSACTION_LOCATION_DISK_BYTES)%nat then Panic else
  l ← slice bs 1 (1 + TRANSACTION_LOCATION_DISK_BYTES); from_bytes l.
#[global] Instance status_from_disk : FromDisk BondStatus := λ bs,
  match bs with
  | [] => Panic
  | tag :: _ =>
      let tag := byte.unsigned tag in
      if tag =? 0 then Ret DbActive
      else if tag =? 1 then l ← status_location bs; Ret (DbUnbonding l)
      else if tag =? 2 then l ← status_location bs; Ret (DbWithdrawn l)
      else Panic
  end.

(** ** Value pools *)

#[global] Instance pools_into_disk : IntoDisk ValueBalance.t := λ v, Ret (ValueBalance.to_bytes v).
#[global] Instance pools_from_disk : FromDisk ValueBalance.t := λ bs, expect (ValueBalance.from_bytes bs).

Record BlockInfo := { value_pools : ValueBalance.t; block_size : Z }.
#[global] Instance block_info_into_disk : IntoDisk BlockInfo := λ i,
  Ret (ValueBalance.to_bytes i.(value_pools) ++ to_le 4 i.(block_size)).
#[global] Instance block_info_from_disk : FromDisk BlockInfo := λ bs,
  if decide (60 ≤ length bs)%nat then
    pool_bytes ← slice bs 0 56;
    pools ← expect (ValueBalance.from_bytes pool_bytes);
    size_bytes ← slice bs 56 60;
    Ret {| value_pools := pools; block_size := from_le size_bytes |}
  else Panic.

(** ** Proofs *)

Lemma from_le_cons b bs : from_le (b :: bs) = byte.unsigned b + 256 * from_le bs.
Proof.
  change (from_le (b :: bs)) with (Z.lor (byte.unsigned b) (Z.shiftl (from_le bs) 8)).
  pose proof (byte.unsigned_range b).
  assert (Z.land (byte.unsigned b) (Z.shiftl (from_le bs) 8) = 0) as Hd.
  { apply Z.bits_inj'. intros n Hn. rewrite Z.land_spec, Z.bits_0, Z.shiftl_spec by done.
    destruct (Z.ltb_spec n 8); [by rewrite (Z.testbit_neg_r _ (n - 8)), andb_false_r by lia|].
    destruct (Z.eq_dec (byte.unsigned b) 0) as [->|]; [by rewrite Z.bits_0|].
    rewrite Z.bits_above_log2; [done|lia|]. apply Z.lt_le_trans with 8; [|done].
    apply Z.log2_lt_pow2; lia. }
  rewrite <- Z.lxor_lor, <- Z.add_nocarry_lxor by done. rewrite Z.shiftl_mul_pow2 by lia. lia.
Qed.

Lemma from_be_acc bs : ∀ acc,
  foldl (λ acc b, 256 * acc + byte.unsigned b) acc bs = 256 ^ Z.of_nat (length bs) * acc + from_be bs.
Proof.
  unfold from_be. induction bs as [|b bs IH]; intros acc; cbn [foldl length]; [lia|].
  rewrite IH, (IH (256 * 0 + _)), Nat2Z.inj_succ, Z.pow_succ_r by lia. lia.
Qed.

Lemma from_be_cons b bs : from_be (b :: bs) = 256 ^ Z.of_nat (length bs) * byte.unsigned b + from_be bs.
Proof. unfold from_be at 1. cbn [foldl]. by rewrite from_be_acc. Qed.

Lemma from_be_reverse bs : from_be (reverse bs) = from_le bs.
Proof.
  induction bs as [|b bs IH]; [done|]. rewrite reverse_cons, from_le_cons. unfold from_be in *.
  rewrite foldl_app, IH. cbn [foldl]. lia.
Qed.

Lemma to_be_length n z : length (to_be n z) = n.
Proof. unfold to_be. by rewrite length_reverse, length_le_split. Qed.

Lemma from_to_be n z : is_u (8 * Z.of_nat n) z → from_be (to_be n z) = z.
Proof. intros Hz. unfold to_be. by rewrite from_be_reverse, from_to_le. Qed.

Lemma from_be_range bs : 0 ≤ from_be bs < 256 ^ Z.of_nat (length bs).
Proof.
  induction bs as [|b bs IH]; [done|]. rewrite from_be_cons. cbn [length].
  rewrite Nat2Z.inj_succ, Z.pow_succ_r by lia. pose proof (byte.unsigned_range b). nia.
Qed.

Lemma from_be_zeros n bs : from_be (zeros n ++ bs) = from_be bs.
Proof. induction n as [|n IH]; [done|]. cbn [replicate app]. rewrite from_be_cons, IH. cbn. lia. Qed.

(** Big-endian bytes of one length sort like the numbers. *)
Lemma bytes_cmp_be a : ∀ b, length a = length b → bytes_cmp a b = Z.compare (from_be a) (from_be b).
Proof.
  induction a as [|x a IH]; intros [|y b] Hl; try done. injection Hl as Hl. cbn [bytes_cmp].
  rewrite !from_be_cons, (IH b Hl), Hl. pose proof (from_be_range a) as Ha. pose proof (from_be_range b) as Hb.
  rewrite Hl in Ha. destruct (Z.compare_spec (byte.unsigned x) (byte.unsigned y)) as [->|H|H].
  - by rewrite Z.add_compare_mono_l.
  - symmetry. apply Z.compare_lt_iff. nia.
  - symmetry. apply Z.compare_gt_iff. nia.
Qed.

(** A location that fits on disk. *)
Definition location_valid (l : TransactionLocation) : Prop := is_u 24 l.1 ∧ is_u 16 l.2.

Lemma first_byte (a : Z) : 0 ≤ a < 2 ^ 24 → to_be 4 a = zeros 1 ++ to_be 3 a.
Proof.
  intros Ha. unfold to_be. change (zeros 1) with (reverse (to_le 1 0)). rewrite <- reverse_app. f_equal.
  apply le_combine_inj; [by rewrite length_app, !length_le_split|].
  rewrite le_combine_app, !from_to_le by (unfold is_u; cbn; lia). by rewrite Z.shiftl_0_l, Z.lor_0_r.
Qed.

Lemma truncate_zeros n bs : truncate_zero_be_bytes (zeros n ++ bs) (length bs) = Ret (Some bs).
Proof.
  unfold truncate_zero_be_bytes. rewrite length_app, length_replicate.
  rewrite decide_False by lia. replace (n + length bs - length bs)%nat with n by lia.
  case_decide; [by subst n|]. rewrite take_app_length', drop_app_length' by (by rewrite length_replicate).
  assert (forallb (λ b, byte.unsigned b =? 0) (zeros n) = true) as ->; [|done].
  induction n as [|n IH]; [done|]. cbn. destruct n; [done|]. by apply IH.
Qed.

Lemma array_length n bs : length bs = n → array n bs = Ret bs.
Proof. intros H. unfold array. by rewrite decide_True. Qed.

Lemma height_bytes h : is_u 24 h → height_as_bytes h = Ret (to_be 3 h).
Proof.
  intros Hh. unfold height_as_bytes, HEIGHT_DISK_BYTES. rewrite (first_byte h Hh).
  rewrite <- (to_be_length 3 h) at 2. rewrite truncate_zeros. cbn [mbind outcome_bind].
  by apply array_length, to_be_length.
Qed.

Lemma height_read h : is_u 24 h → height_from_bytes (to_be 3 h) = Ret h.
Proof.
  intros Hh. unfold height_from_bytes, expand_zero_be_bytes. rewrite to_be_length, decide_False by lia.
  cbn [mbind outcome_bind]. rewrite array_length by (rewrite length_app, to_be_length; done).
  cbn [mbind outcome_bind]. by rewrite from_be_zeros, from_to_be.
Qed.

Lemma location_bytes l : location_valid l → as_bytes l = Ret (to_be 3 l.1 ++ to_be 2 l.2).
Proof.
  intros [Hh Hi]. unfold as_bytes, location_into_disk. rewrite (height_bytes _ Hh). cbn [mbind outcome_bind index_as_bytes].
  apply array_length. by rewrite length_app, !to_be_length.
Qed.

Lemma location_read l : location_valid l → from_bytes (to_be 3 l.1 ++ to_be 2 l.2) = Ret l.
Proof.
  intros [Hh Hi]. unfold from_bytes, location_from_disk, HEIGHT_DISK_BYTES.
  rewrite length_app, !to_be_length, decide_False by lia.
  rewrite take_app_length', drop_app_length' by (by rewrite to_be_length). rewrite (height_read _ Hh).
  unfold index_from_bytes. cbn [mbind outcome_bind]. rewrite array_length by apply to_be_length.
  cbn [mbind outcome_bind]. rewrite from_to_be by done. by destruct l.
Qed.

#[global] Instance location_format : DiskFormat TransactionLocation location_valid.
Proof. intros l Hl. exists (to_be 3 l.1 ++ to_be 2 l.2). auto using location_bytes, location_read. Qed.

#[local] Ltac sizes :=
  unfold DELEGATION_BOND_DISK_BYTES, TRANSACTION_LOCATION_DISK_BYTES, HEIGHT_DISK_BYTES, TX_INDEX_DISK_BYTES; lia.

(** A part of a string by its position. *)
Lemma slice_middle {A} (pre mid post : list A) i j :
  i = length pre → j = (length pre + length mid)%nat → slice (pre ++ mid ++ post) i j = Ret mid.
Proof.
  intros -> ->. unfold slice. rewrite decide_True by (rewrite !length_app; lia).
  by rewrite drop_app_length, Nat.add_sub', take_app_length.
Qed.

Lemma slice_front {A} (mid post : list A) j : j = length mid → slice (mid ++ post) 0 j = Ret mid.
Proof. intros ->. exact (slice_middle [] mid post 0 _ eq_refl eq_refl). Qed.
Lemma slice_back {A} (pre mid : list A) i j :
  i = length pre → j = (length pre + length mid)%nat → slice (pre ++ mid) i j = Ret mid.
Proof. intros ? ?. rewrite <- (app_nil_r mid) at 1. by apply slice_middle. Qed.

(** Bonds whose fields fit on disk. *)
Definition bond_valid (b : DelegationBond) : Prop :=
  Amount.ok NonNegative b.(bond_amount) ∧ length b.(target_finalizer) = 32%nat ∧ location_valid b.(created_at).

Lemma amount_u64 a : Amount.ok NonNegative a → is_u 64 a ∧ is_i64 a = true.
Proof. pose proof MAX_MONEY_i64. unfold Amount.ok, is_u, is_i64. cbn. lia. Qed.

#[global] Instance bond_format : DiskFormat DelegationBond bond_valid.
Proof.
  intros [amount target loc] (Ha & Ht & Hl). cbn in *. destruct (amount_u64 _ Ha) as [Hu Hi].
  unfold as_bytes, bond_into_disk. cbn. rewrite (location_bytes _ Hl). cbn [mbind outcome_bind].
  rewrite Z.mod_small by exact Hu. set (l := to_be 3 loc.1 ++ to_be 2 loc.2).
  assert (length l = 5%nat) as Hll by (unfold l; by rewrite length_app, !to_be_length).
  eexists. split; [done|]. unfold from_bytes, bond_from_disk.
  rewrite decide_False by (rewrite !length_app, to_be_length, Ht, Hll; sizes).
  rewrite slice_front by (by rewrite to_be_length). cbn [mbind outcome_bind].
  rewrite from_to_be by exact Hu. unfold Amount.try_from. rewrite Hi, validate_ok by done.
  cbn [expect mbind outcome_bind].
  rewrite (slice_middle (to_be 8 amount) target l 8 40) by (rewrite to_be_length; lia). cbn [mbind outcome_bind].
  rewrite (app_assoc _ target l), slice_back by (rewrite length_app, to_be_length; lia). cbn [mbind outcome_bind].
  unfold l. by rewrite (location_read _ Hl).
Qed.

Definition status_valid (s : BondStatus) : Prop :=
  match s with DbActive => True | DbUnbonding l | DbWithdrawn l => location_valid l end.

Lemma status_location_read b l :
  location_valid l → status_location (b :: to_be 3 l.1 ++ to_be 2 l.2) = Ret l.
Proof.
  intros Hl. unfold status_location.
  rewrite decide_False by (cbn [length]; rewrite length_app, !to_be_length; sizes).
  change (b :: to_be 3 l.1 ++ to_be 2 l.2) with ([b] ++ (to_be 3 l.1 ++ to_be 2 l.2)).
  rewrite slice_back by (by rewrite ?length_app, ?to_be_length). by apply location_read.
Qed.

#[global] Instance status_format : DiskFormat BondStatus status_valid.
Proof.
  intros [|l|l] Hv; cbn in Hv; unfold as_bytes, status_into_disk; [by eexists|..];
    fold (as_bytes l); rewrite (location_bytes _ Hv); cbn [mbind outcome_bind]; (eexists; split; [done|]).
  - change (to_le 1 1) with [Byte.x01]. cbn -[status_location to_be]. by rewrite status_location_read.
  - change (to_le 1 2) with [Byte.x02]. cbn -[status_location to_be]. by rewrite status_location_read.
Qed.

(** *** Value pools *)

Lemma amount_bytes_read c a : Amount.ok c a → Amount.from_bytes c (Amount.to_bytes a) = Ret (inr a).
Proof.
  intros Ha. pose proof (ok_bound _ _ Ha). pose proof MAX_MONEY_i64. unfold Amount.from_bytes, Amount.to_bytes, Amount.as_i64.
  rewrite from_to_le by (unfold is_u; apply Z.mod_pos_bound; lia). rewrite <- (validate_ok c a Ha). f_equal.
  destruct (Z.le_gt_cases 0 a).
  - rewrite Z.mod_small by lia. by rewrite (proj2 (Z.ltb_lt _ _)) by lia.
  - replace (a mod 2 ^ 64) with (a + 2 ^ 64) by (rewrite <- (Z.mod_add a 1) by lia; rewrite Z.mod_small; lia).
    rewrite (proj2 (Z.ltb_ge _ _)) by lia. lia.
Qed.

Lemma amount_bytes_length a : length (Amount.to_bytes a) = 8%nat.
Proof. unfold Amount.to_bytes. by rewrite length_le_split. Qed.

Lemma amounts_length l : length (concat (map Amount.to_bytes l)) = (8 * length l)%nat.
Proof. induction l as [|a l IH]; [done|]. cbn [map concat]. rewrite length_app, amount_bytes_length, IH. cbn. lia. Qed.

(** The [i]-th of several amounts. *)
Lemma amount_at_read e l i a :
  Forall (Amount.ok NonNegative) l → l !! i = Some a →
  ValueBalance.amount_at e (concat (map Amount.to_bytes l)) i = Ret (inr a).
Proof.
  intros Hl Ha. pose proof (Forall_lookup_1 _ _ _ _ Hl Ha) as Hok. pose proof (lookup_lt_Some _ _ _ Ha).
  unfold ValueBalance.amount_at. rewrite <- (take_drop_middle l i a Ha) at 1.
  rewrite map_app, concat_app. cbn [map concat].
  rewrite slice_middle by (rewrite amounts_length, ?amount_bytes_length, length_take; lia). by rewrite amount_bytes_read.
Qed.

Lemma pools_bytes v : ValueBalance.to_bytes v = concat (map Amount.to_bytes (ValueBalance.pools v)).
Proof. unfold ValueBalance.to_bytes, ValueBalance.pools. cbn [map concat]. by rewrite app_nil_r. Qed.

Lemma pools_read v : ValueBalance.ok NonNegative v → ValueBalance.from_bytes (ValueBalance.to_bytes v) = Ret (inr v).
Proof.
  intros Hv. unfold ValueBalance.from_bytes. rewrite pools_bytes, amounts_length.
  change (8 * length (ValueBalance.pools v))%nat with 56%nat.
  rewrite decide_True by (by right; right). rewrite (decide_False (P := (56 = 32)%nat)) by done.
  rewrite decide_True by done.
  destruct v as [p0 p1 p2 p3 p4 p5 p6]. pose proof (λ e i a, amount_at_read e _ i a Hv) as Hat.
  rewrite (Hat _ 0%nat p0), (Hat _ 1%nat p1), (Hat _ 2%nat p2), (Hat _ 3%nat p3), (Hat _ 4%nat p4), (Hat _ 5%nat p5),
    (Hat _ 6%nat p6) by reflexivity. done.
Qed.

#[global] Instance pools_format : DiskFormat ValueBalance.t (ValueBalance.ok NonNegative).
Proof. intros v Hv. eexists. split; [done|]. unfold from_bytes, pools_from_disk. by rewrite pools_read. Qed.

Definition info_valid (i : BlockInfo) : Prop := ValueBalance.ok NonNegative i.(value_pools) ∧ is_u 32 i.(block_size).

#[global] Instance info_format : DiskFormat BlockInfo info_valid.
Proof.
  intros [v n] [Hv Hn]. cbn in *. eexists. split; [done|]. unfold from_bytes, block_info_from_disk. cbn [value_pools block_size].
  assert (length (ValueBalance.to_bytes v) = 56%nat) as Hl by (by rewrite pools_bytes, amounts_length).
  rewrite decide_True by (rewrite length_app, Hl, length_le_split; lia).
  rewrite slice_front by done. cbn [mbind outcome_bind]. rewrite (pools_read v Hv). cbn [expect mbind outcome_bind].
  rewrite slice_back by (rewrite Hl, ?length_le_split; done). cbn [mbind outcome_bind]. by rewrite from_to_le.
Qed.

(** ** The theorems *)

(** What the database stores is what it reads: a bond, the status of a bond,
    the value pools and the information of a block are read back from their
    encodings, and so is every location below height 2^24. *)
Theorem disk_formats_roundtrip :
  DiskFormat TransactionLocation location_valid ∧ DiskFormat DelegationBond bond_valid ∧
  DiskFormat BondStatus status_valid ∧ DiskFormat ValueBalance.t (ValueBalance.ok NonNegative) ∧
  DiskFormat BlockInfo info_valid.
Proof. split_and!; apply _. Qed.

(** The order of locations, heights first. *)
Definition location_cmp (a b : TransactionLocation) : comparison :=
  match Z.compare a.1 b.1 with Eq => Z.compare a.2 b.2 | c => c end.

Lemma bytes_cmp_app a a' : ∀ b b', length a = length b →
  bytes_cmp (a ++ a') (b ++ b') = match bytes_cmp a b with Eq => bytes_cmp a' b' | c => c end.
Proof.
  induction a as [|x a IH]; intros [|y b] b' Hl; try done. injection Hl as Hl. cbn [app bytes_cmp].
  destruct (Z.compare _ _); auto.
Qed.

(** The stored locations sort like the locations, so a scan of the database goes
    through transactions in the order of the chain. *)
Theorem locations_sorted (a b : TransactionLocation) x y :
  location_valid a → location_valid b → as_bytes a = Ret x → as_bytes b = Ret y →
  bytes_cmp x y = location_cmp a b.
Proof.
  intros Ha Hb Hx Hy. rewrite (location_bytes _ Ha) in Hx. rewrite (location_bytes _ Hb) in Hy.
  assert (x = to_be 3 a.1 ++ to_be 2 a.2) as -> by congruence.
  assert (y = to_be 3 b.1 ++ to_be 2 b.2) as -> by congruence.
  destruct Ha as [Ha1 Ha2], Hb as [Hb1 Hb2].
  rewrite bytes_cmp_app, !bytes_cmp_be by (by rewrite !to_be_length). unfold location_cmp. by rewrite !from_to_be.
Qed.

(** A height that does not fit is stored as the largest one that does. *)
Theorem high_locations_saturate h i :
  MAX_ON_DISK_HEIGHT < h < 2 ^ 32 →
  as_bytes ((h, i) : TransactionLocation) = as_bytes ((MAX_ON_DISK_HEIGHT, i) : TransactionLocation).
Proof.
  intros Hh. unfold as_bytes, location_into_disk. cbn [fst snd]. f_equal. unfold height_as_bytes at 1.
  assert (truncate_zero_be_bytes (to_be 4 h) HEIGHT_DISK_BYTES = Ret None) as ->; [|by vm_compute].
  unfold truncate_zero_be_bytes. rewrite to_be_length. cbn -[to_be].
  destruct (to_be 4 h) as [|b bs] eqn:E; [by pose proof (to_be_length 4 h) as El; rewrite E in El|].
  cbn [take forallb]. destruct (Z.eqb_spec (byte.unsigned b) 0) as [Hb|]; [|done]. exfalso.
  pose proof (from_to_be 4 h ltac:(unfold is_u, MAX_ON_DISK_HEIGHT in *; cbn in *; lia)) as Hf.
  rewrite E, from_be_cons, Hb in Hf. pose proof (from_be_range bs) as Hr.
  pose proof (to_be_length 4 h) as El. rewrite E in El. injection El as El. rewrite El in Hr.
  rewrite Z.mul_0_r, Z.add_0_l in Hf. change (256 ^ Z.of_nat 3) with (2 ^ 24) in Hr.
  change MAX_ON_DISK_HEIGHT with (2 ^ 24 - 1) in Hh. lia.
Qed.
