(* ===== verification/Finalize.v ===== *)
(** * Finalize: the database of finalized bonds

    Models what is written when a block is finalized: the batches of
    [zebra_db/delegation.rs] and [zebra_db/chain.rs], the write of a block in
    [zebra_db/block.rs] and [finalized_state.rs], and the queries about bonds of
    [read/delegation.rs] and [service.rs].

    Of a block the model keeps its hash, its parent, its height, the staking
    actions of its transactions, its value pool change and its work.  The note
    commitment trees, UTXOs and history are not modelled. *)

From stdpp Require Import base list gmap sets sorting.
From S2P Require Import Prelude Wire Encoding Bft Roster Amount Staking Delegation.
Import StakingAction Chain.

(** ** The database batch *)

Inductive FinalizeError :=
| AmountOutOfRange (e : AmountError)
| BondNotFound (k : BondKey)
| BondNotActive (k : BondKey)
| BondNotUnbonding (k : BondKey)
| BondNotFoundForRetarget (k : BondKey)
| ValuePoolError (e : ValueBalanceError).

(** [DiskWriteBatch]: what will be written, a later write to a key replacing an
    earlier one. *)
Record DiskWriteBatch := {
  batch_bonds : gmap BondKey DelegationBond;
  batch_status : gmap BondKey BondStatus }.

Definition empty_batch : DiskWriteBatch := {| batch_bonds := ∅; batch_status := ∅ |}.
Definition insert_bond (b : DiskWriteBatch) (k : BondKey) (v : DelegationBond) : DiskWriteBatch :=
  {| batch_bonds := <[k := v]> b.(batch_bonds); batch_status := b.(batch_status) |}.
Definition insert_status (b : DiskWriteBatch) (k : BondKey) (v : BondStatus) : DiskWriteBatch :=
  {| batch_bonds := b.(batch_bonds); batch_status := <[k := v]> b.(batch_status) |}.

(** The database after a batch was written. *)
Definition write_batch (db : ZebraDb) (b : DiskWriteBatch) : ZebraDb :=
  {| delegation_bond_by_key := b.(batch_bonds) ∪ db.(delegation_bond_by_key);
     bond_status_by_key := b.(batch_status) ∪ db.(bond_status_by_key) |}.

Definition prepare_new_delegation_bond (b : DiskWriteBatch) (k : BondKey) (bond : DelegationBond)
    : DiskWriteBatch := insert_status (insert_bond b k bond) k DbActive.

Section batch.
Context (db : ZebraDb).

Definition prepare_unbonding_delegation_bond (b : DiskWriteBatch) (k : BondKey)
    (loc : TransactionLocation) : Fallible FinalizeError DiskWriteBatch :=
  current_status ← ok_or (db.(bond_status_by_key) !! k) (BondNotFound k);
  if is_active current_status then mret (insert_status b k (DbUnbonding loc))
  else fail (BondNotActive k).

Definition prepare_withdrawn_delegation_bond (b : DiskWriteBatch) (k : BondKey)
    (loc : TransactionLocation) : Fallible FinalizeError DiskWriteBatch :=
  current_status ← ok_or (db.(bond_status_by_key) !! k) (BondNotFound k);
  if is_unbonding current_status then mret (insert_status b k (DbWithdrawn loc))
  else fail (BondNotUnbonding k).

(** The bonds written earlier in the block come before those of the
    database. *)
Definition current_bond (created : gmap BondKey DelegationBond) (k : BondKey) : option DelegationBond :=
  match created !! k with Some bond => Some bond | None => db.(delegation_bond_by_key) !! k end.

Definition prepare_retarget_delegation_bond (b : DiskWriteBatch) (k : BondKey) (new_target : bytes)
    (created : gmap BondKey DelegationBond)
    : Fallible FinalizeError (DiskWriteBatch * gmap BondKey DelegationBond) :=
  bond ← ok_or (current_bond created k) (BondNotFoundForRetarget k);
  let bond := with_target bond new_target in
  mret (insert_bond b k bond, <[k := bond]> created).

(** The [match] on the staking action of a transaction. *)
Definition prepare_action (a : StakingAction.t) (loc : TransactionLocation)
    (acc : DiskWriteBatch * gmap BondKey DelegationBond)
    : Fallible FinalizeError (DiskWriteBatch * gmap BondKey DelegationBond) :=
  let '(b, created) := acc in
  let k : BondKey := a.(arg32_0) in
  match a.(kind) with
  | CreateNewDelegationBond =>
      amount ← map_err AmountOutOfRange (Amount.try_from NonNegative a.(amount_zats));
      let bond := {| bond_amount := amount; target_finalizer := a.(arg32_2); created_at := loc |} in
      mret (prepare_new_delegation_bond b k bond, <[k := bond]> created)
  | BeginDelegationUnbonding =>
      b ← prepare_unbonding_delegation_bond b k loc; mret (b, created)
  | WithdrawDelegationBond =>
      b ← prepare_withdrawn_delegation_bond b k loc; mret (b, created)
  | RetargetDelegationBond => prepare_retarget_delegation_bond b k a.(arg32_2) created
  | _ => mret (b, created)
  end.

Fixpoint prepare_actions (height i : Z) (txs : list (option StakingAction.t))
    (acc : DiskWriteBatch * gmap BondKey DelegationBond)
    : Fallible FinalizeError (DiskWriteBatch * gmap BondKey DelegationBond) :=
  match txs with
  | [] => mret acc
  | tx :: txs =>
      acc ← (match tx with
             | Some a => prepare_action a (height, i) acc
             | None => mret acc
             end);
      prepare_actions height (i + 1) txs acc
  end.

(** "Apply bond rewards accumulated in the non-finalized state" *)
Fixpoint prepare_rewards (created : gmap BondKey DelegationBond) (rewards : list (BondKey * Z))
    (b : DiskWriteBatch) : Fallible FinalizeError DiskWriteBatch :=
  match rewards with
  | [] => mret b
  | (k, reward_amount) :: rewards =>
      b ← (match current_bond created k with
           | Some bond =>
               v ← map_err AmountOutOfRange (Amount.validate NonNegative (u64_as_i64 reward_amount));
               amount ← map_err AmountOutOfRange (Amount.add NonNegative bond.(bond_amount) v);
               mret (insert_bond b k (with_amount bond amount))
           | None => mret b
           end);
      prepare_rewards created rewards b
  end.

Definition prepare_delegation_bonds_batch (height : Z) (txs : list (option StakingAction.t))
    (rewards : list (BondKey * Z)) : Fallible FinalizeError DiskWriteBatch :=
  '(b, created) ← prepare_actions height 0 txs (empty_batch, ∅);
  prepare_rewards created rewards b.
End batch.

(** ** The value pools of the database *)

(** One unbonding: its amount moves from the bonded to the unbonded pool. *)
Definition move_unbonding (pool : ValueBalance.t) (x : BondKey * Z)
    : Fallible FinalizeError ValueBalance.t :=
  amount ← map_err AmountOutOfRange (Amount.validate NonNegative (u64_as_i64 x.2));
  match Amount.sub NonNegative pool.(ValueBalance.staking_bonded) amount with
  | Ret (inr new_bonded) =>
      let pool := ValueBalance.set_staking_bonded_amount pool new_bonded in
      match Amount.add NonNegative pool.(ValueBalance.staking_unbonded) amount with
      | Ret (inr new_unbonded) => mret (ValueBalance.set_staking_unbonded_amount pool new_unbonded)
      | _ => Panic
      end
  | _ => Panic
  end.

Fixpoint move_unbondings (amounts : list (BondKey * Z)) (pool : ValueBalance.t)
    : Fallible FinalizeError ValueBalance.t :=
  match amounts with
  | [] => mret pool
  | x :: amounts => pool ← move_unbonding pool x; move_unbondings amounts pool
  end.

Definition prepare_chain_value_pools_batch `{Profile} (change : ValueBalance.t)
    (rewards amounts : list (BondKey * Z)) (value_pool : ValueBalance.t)
    : Fallible FinalizeError ValueBalance.t :=
  pool ← map_err ValuePoolError (ValueBalance.add_chain_value_pool_change value_pool change);
  match for_each (λ acc x, arith 64 (acc + x.2)) rewards 0 with
  | Panic => Panic
  | Ret total_rewards =>
      pool ← (if 0 <? total_rewards then
                v ← map_err AmountOutOfRange (Amount.validate NonNegative (u64_as_i64 total_rewards));
                match Amount.add NonNegative pool.(ValueBalance.staking_bonded) v with
                | Ret (inr new_bonded) => mret (ValueBalance.set_staking_bonded_amount pool new_bonded)
                | _ => Panic
                end
              else mret pool);
      move_unbondings amounts pool
  end.

(** ** Blocks and the finalized state *)

Record Block := {
  blk_hash : bytes;
  blk_parent : bytes;
  blk_height : Z;
  blk_txs : list (option StakingAction.t);
  blk_change : ValueBalance.t;
  blk_work : Z }.
#[global] Instance Block_eq_dec : EqDecision Block.
Proof. solve_decision. Defined.

(** The finalized state: the bonds, the value pools and the blocks committed so
    far, the tip first. *)
Module FinalizedState.
Record t := mk {
  db : ZebraDb;
  pools : ValueBalance.t;
  committed : list (Z * bytes) }.
End FinalizedState.

(** [prepare_block_batch] and the write: the bonds are skipped at the genesis
    height, where [height.is_min()]. *)
Definition write_block `{Profile} (fin : FinalizedState.t) (blk : Block)
    (rewards amounts : list (BondKey * Z)) : Fallible FinalizeError FinalizedState.t :=
  b ← (if blk.(blk_height) =? 0 then mret empty_batch
       else prepare_delegation_bonds_batch fin.(FinalizedState.db) blk.(blk_height) blk.(blk_txs) rewards);
  pools ← prepare_chain_value_pools_batch blk.(blk_change) rewards amounts fin.(FinalizedState.pools);
  mret (FinalizedState.mk (write_batch fin.(FinalizedState.db) b) pools
          ((blk.(blk_height), blk.(blk_hash)) :: fin.(FinalizedState.committed))).

(** The parent of the genesis block. *)
Definition GENESIS_PREVIOUS_BLOCK_HASH : bytes := zeros 32.

(** [commit_finalized_direct]: the block must be the next one. *)
Definition commit_finalized_direct `{Profile} (fin : FinalizedState.t) (blk : Block)
    (rewards amounts : list (BondKey * Z)) : Fallible FinalizeError FinalizedState.t :=
  _ ← must (match fin.(FinalizedState.committed) with
            | [] => bool_decide (blk.(blk_parent) = GENESIS_PREVIOUS_BLOCK_HASH) && (blk.(blk_height) =? 0)
            | (h, hash) :: _ => (h + 1 =? blk.(blk_height)) && bool_decide (blk.(blk_parent) = hash)
            end);
  write_block fin blk rewards amounts.

(** ** The bonds of the database *)

Definition key_le (x y : BondKey * BondStatus) : Prop := bytes_cmp x.1 y.1 ≠ Gt.
#[global] Instance key_le_dec : RelDecision key_le.
Proof. intros x y. unfold key_le. apply _. Defined.

(** [all_bonds]: the statuses in the order of their keys, with their bonds. *)
Definition all_bonds (db : ZebraDb) : list (BondKey * DelegationBond * BondStatus) :=
  omap (λ x, bond ← db.(delegation_bond_by_key) !! x.1; Some (x.1, bond, x.2))
    (merge_sort key_le (map_to_list db.(bond_status_by_key))).
Definition active_bonds (db : ZebraDb) : list (BondKey * DelegationBond) :=
  map (λ x, (x.1.1, x.1.2)) (filter (λ x, is_active x.2 = true) (all_bonds db)).
Definition active_bond_count (db : ZebraDb) : nat := length (active_bonds db).

(** ** Queries *)

Section queries.
Context (finalized_state : ZebraDb) (non_finalized_state : option Chain.t).

(** What the chain knows of a bond. *)
Definition chain_bond (k : BondKey) : option (DelegationBond * BondStatusInChain) :=
  chain ← non_finalized_state; chain.(delegation_bonds) !! k.

(** The status of a bond of the chain as a database status: its last change
    stands for the transaction that unbonded or withdrew it. *)
Definition finalized_status (x : DelegationBond * BondStatusInChain) : BondStatus :=
  match x.2 with
  | Active => DbActive
  | Unbonding => DbUnbonding x.1.(created_at)
  | Withdrawn => DbWithdrawn x.1.(created_at)
  end.

Definition delegation_bond (k : BondKey) : option (DelegationBond * BondStatus) :=
  match chain_bond k with
  | Some x => Some (x.1, finalized_status x)
  | None => bond ← finalized_state.(delegation_bond_by_key) !! k;
      status ← finalized_state.(bond_status_by_key) !! k;
      Some (bond, status)
  end.

(** The three questions about the status of a bond. *)
Definition has_status (st : BondStatusInChain) (is_st : BondStatus → bool) (k : BondKey) : bool :=
  match chain_bond k with
  | Some x => bool_decide (x.2 = st)
  | None => match finalized_state.(bond_status_by_key) !! k with Some s => is_st s | None => false end
  end.
Definition is_withdrawn (s : BondStatus) : bool := match s with DbWithdrawn _ => true | _ => false end.
Definition is_bond_active : BondKey → bool := has_status Active is_active.
Definition is_bond_unbonding : BondKey → bool := has_status Unbonding is_unbonding.
Definition is_bond_withdrawn : BondKey → bool := has_status Withdrawn is_withdrawn.
Definition bond_exists (k : BondKey) : bool :=
  match chain_bond k with
  | Some _ => true
  | None => bool_decide (is_Some (finalized_state.(delegation_bond_by_key) !! k))
  end.

(** [ReadRequest::BondInfo], which only looks at the best chain. *)
Record BondInfoResponse := {
  info_amount : Z;
  info_status : Z;
  last_action_height : Z }.
Definition bond_info (k : BondKey) : option BondInfoResponse :=
  x ← chain_bond k;
  Some {| info_amount := x.1.(bond_amount);
          info_status := match x.2 with Active => 0 | Unbonding => 1 | Withdrawn => 2 end;
          last_action_height := x.1.(created_at).1 |}.
End queries.
