(* ===== verification/NonFinalized.v ===== *)
(** * NonFinalized: the chains above the finalized tip

    Models the set of non-finalized chains ([non_finalized_state.rs] and the
    operations of [non_finalized_state/chain.rs] on whole blocks) and the task
    that writes blocks ([write.rs]): committing a block to the tip of a chain or
    to a fork of it, finalizing the root of the best chain, finalizing up to the
    hash that the finality service decided, invalidating and reconsidering
    blocks.

    The checks of a block that do not concern staking are the parameters of
    [ContextChecks]. *)

From stdpp Require Import base list gmap sets sorting.
From S2P Require Import Prelude Wire Encoding Bft Roster Amount Staking Delegation Finalize.
Import StakingAction Chain.

(** ** Chains *)

(** A chain of the non-finalized state: its blocks from the root up and the
    state at its tip. *)
Record NonFinalizedChain := {
  nf_blocks : list Block;
  nf_inner : Chain.t }.

Definition non_finalized_tip_hash (nc : NonFinalizedChain) : outcome bytes :=
  b ← unwrap (last nc.(nf_blocks)); Ret b.(blk_hash).
Definition non_finalized_root_hash (nc : NonFinalizedChain) : outcome bytes :=
  b ← unwrap (head nc.(nf_blocks)); Ret b.(blk_hash).
Definition contains_block_hash (hash : bytes) (nc : NonFinalizedChain) : bool :=
  existsb (λ b, bool_decide (b.(blk_hash) = hash)) nc.(nf_blocks).
Definition height_by_hash (nc : NonFinalizedChain) (hash : bytes) : option Z :=
  blk_height <$> find (λ b, bool_decide (b.(blk_hash) = hash)) nc.(nf_blocks).
Definition child_blocks (height : Z) (nc : NonFinalizedChain) : list Block :=
  filter (λ b, height ≤ b.(blk_height)) nc.(nf_blocks).

(** [partial_cumulative_work] *)
Definition partial_cumulative_work (nc : NonFinalizedChain) : Z := zsum (map blk_work nc.(nf_blocks)).

(** [Chain::cmp]: the work decides, then the hash of the tip; chains that tie
    are [unreachable!]. *)
Definition chain_cmp (a b : NonFinalizedChain) : outcome comparison :=
  if partial_cumulative_work a =? partial_cumulative_work b then
    x ← non_finalized_tip_hash a;
    y ← non_finalized_tip_hash b;
    match bytes_cmp x y with Eq => Panic | ord => Ret ord end
  else Ret (Z.compare (partial_cumulative_work a) (partial_cumulative_work b)).

(** The amounts of the bonds that a block unbonds, from the tip of the chain. *)
Definition unbonding_amounts (bs : Bonds) (txs : list (option StakingAction.t))
    : outcome (list (BondKey * Z)) :=
  for_each (λ acc tx,
    match tx with
    | Some a =>
        if decide (a.(kind) = BeginDelegationUnbonding) then
          x ← unwrap (bs !! (a.(arg32_0) : BondKey));
          Ret (acc ++ [(a.(arg32_0), x.1.(bond_amount))])
        else Ret acc
    | None => Ret acc
    end) txs [].

(** [pop_root]: the root block leaves with its rewards and the amounts it
    unbonds; the bonds and pools of the chain stay. *)
Definition pop_root (nc : NonFinalizedChain)
    : outcome (NonFinalizedChain * (Block * list (BondKey * Z) * list (BondKey * Z))) :=
  match nc.(nf_blocks) with
  | [] => Panic
  | blk :: blocks =>
      let c := nc.(nf_inner) in
      let rewards := default [] (head c.(bond_rewards)) in
      let c := with_rewards c (tail c.(bond_rewards)) in
      let c := with_retargets c (tail c.(bond_retargets)) in
      amounts ← unbonding_amounts c.(delegation_bonds) blk.(blk_txs);
      Ret ({| nf_blocks := blocks; nf_inner := c |}, (blk, rewards, amounts))
  end.

Section chains.
Context `{Profile} (iter : Bonds → Items) (iter_targets : gmap BondKey bytes → list (BondKey * bytes)).

(** [push]: the hash must be new and the work must not overflow. *)
Definition push (nc : NonFinalizedChain) (blk : Block) : Fallible InvalidDelegationBond NonFinalizedChain :=
  _ ← must (negb (contains_block_hash blk.(blk_hash) nc));
  _ ← must (bool_decide (is_u 128 (partial_cumulative_work nc + blk.(blk_work))));
  c ← update_block iter blk.(blk_height) blk.(blk_txs) blk.(blk_change) nc.(nf_inner);
  mret {| nf_blocks := nc.(nf_blocks) ++ [blk]; nf_inner := c |}.

Definition pop_tip (nc : NonFinalizedChain) : outcome NonFinalizedChain :=
  blk ← unwrap (last nc.(nf_blocks));
  let blocks := take (length nc.(nf_blocks) - 1) nc.(nf_blocks) in
  if decide (blocks = []) then Panic else
  c ← revert_block iter_targets blk.(blk_txs) blk.(blk_change) nc.(nf_inner);
  Ret {| nf_blocks := blocks; nf_inner := c |}.

(** The loop of [fork]; it takes off at most the blocks there are. *)
Fixpoint fork_loop (n : nat) (fork_tip : bytes) (nc : NonFinalizedChain) : outcome NonFinalizedChain :=
  hash ← non_finalized_tip_hash nc;
  if decide (hash = fork_tip) then Ret nc else
  match n with
  | O => Panic
  | S n => nc ← pop_tip nc; fork_loop n fork_tip nc
  end.
Definition fork (fork_tip : bytes) (nc : NonFinalizedChain) : outcome (option NonFinalizedChain) :=
  if contains_block_hash fork_tip nc
  then nc ← fork_loop (length nc.(nf_blocks)) fork_tip nc; Ret (Some nc)
  else Ret None.

(** [Chain::invalidate_block] *)
Definition chain_invalidate_block (hash : bytes) (nc : NonFinalizedChain)
    : outcome (option (NonFinalizedChain * list Block)) :=
  match height_by_hash nc hash with
  | None => Ret None
  | Some height =>
      forked ← fork hash nc;
      match forked with
      | None => Ret None
      | Some forked => forked ← pop_tip forked; Ret (Some (forked, child_blocks height nc))
      end
  end.
End chains.

(** ** The set of chains *)

Definition MAX_NON_FINALIZED_CHAIN_FORKS : nat := 10.
Definition MAX_INVALIDATED_BLOCKS : nat := 100.

(** The chains in ascending order, the best one last, and the blocks that were
    invalidated, by the height of the first. *)
Record NonFinalizedState := {
  chain_set : list NonFinalizedChain;
  invalidated_blocks : list (Z * list Block) }.

Definition with_chains (s : NonFinalizedState) (l : list NonFinalizedChain) : NonFinalizedState :=
  {| chain_set := l; invalidated_blocks := s.(invalidated_blocks) |}.
Definition with_invalidated (s : NonFinalizedState) (l : list (Z * list Block)) : NonFinalizedState :=
  {| chain_set := s.(chain_set); invalidated_blocks := l |}.

(** [BTreeSet::insert] and [BTreeSet::remove] on an ordered list. *)
Fixpoint chain_insert (nc : NonFinalizedChain) (l : list NonFinalizedChain) : outcome (list NonFinalizedChain) :=
  match l with
  | [] => Ret [nc]
  | x :: l =>
      ord ← chain_cmp nc x;
      match ord with
      | Lt => Ret (nc :: x :: l)
      | Eq => Ret (x :: l)
      | Gt => l ← chain_insert nc l; Ret (x :: l)
      end
  end.
Fixpoint chain_remove (nc : NonFinalizedChain) (l : list NonFinalizedChain) : outcome (list NonFinalizedChain) :=
  match l with
  | [] => Ret []
  | x :: l =>
      ord ← chain_cmp nc x;
      match ord with
      | Lt => Ret (x :: l)
      | Eq => Ret l
      | Gt => l ← chain_remove nc l; Ret (x :: l)
      end
  end.

(** [retain] and [find] with a predicate that may panic. *)
Fixpoint retain {A} (p : A → outcome bool) (l : list A) : outcome (list A) :=
  match l with
  | [] => Ret []
  | x :: l => b ← p x; l ← retain p l; Ret (if (b : bool) then x :: l else l)
  end.
Fixpoint find_m {A} (p : A → outcome bool) (l : list A) : outcome (option A) :=
  match l with
  | [] => Ret None
  | x :: l => b ← p x; if (b : bool) then Ret (Some x) else find_m p l
  end.
Fixpoint find_map_m {A B} (f : A → outcome (option B)) (l : list A) : outcome (option B) :=
  match l with
  | [] => Ret None
  | x :: l => r ← f x; match r with Some y => Ret (Some y) | None => find_map_m f l end
  end.

Definition find_chain (p : NonFinalizedChain → outcome bool) (s : NonFinalizedState)
    : outcome (option NonFinalizedChain) := find_m p (reverse s.(chain_set)).
Definition best_chain (s : NonFinalizedState) : option NonFinalizedChain := last s.(chain_set).

(** [insert_with]: the chains with the least work are dropped first. *)
Definition insert_with (nc : NonFinalizedChain)
    (chain_filter : list NonFinalizedChain → outcome (list NonFinalizedChain)) (s : NonFinalizedState)
    : outcome NonFinalizedState :=
  l ← chain_insert nc s.(chain_set);
  l ← chain_filter l;
  Ret (with_chains s (drop (length l - MAX_NON_FINALIZED_CHAIN_FORKS) l)).
Definition insert_chain (nc : NonFinalizedChain) (s : NonFinalizedState) : outcome NonFinalizedState :=
  insert_with nc Ret s.

(** [NonFinalizedState::finalize] *)
Definition finalize_side (hash : bytes) (s : NonFinalizedState) (nc : NonFinalizedChain)
    : outcome NonFinalizedState :=
  root ← non_finalized_root_hash nc;
  if decide (root = hash) then
    '(nc, (blk, _, _)) ← pop_root nc;
    if decide (blk.(blk_hash) = hash) then insert_chain nc s else Panic
  else Ret s.
Definition finalize (s : NonFinalizedState)
    : outcome (NonFinalizedState * (Block * list (BondKey * Z) * list (BondKey * Z))) :=
  best ← unwrap (last s.(chain_set));
  let side := take (length s.(chain_set) - 1) s.(chain_set) in
  '(best, (blk, rewards, amounts)) ← pop_root best;
  let s := with_chains s [] in
  s ← (if decide (best.(nf_blocks) = []) then Ret s else insert_chain best s);
  s ← for_each (finalize_side blk.(blk_hash)) (reverse side) s;
  let s := with_invalidated s (filter (λ x, blk.(blk_height) ≤ x.1) s.(invalidated_blocks)) in
  Ret (s, (blk, rewards, amounts)).

(** [crosslink_finalize]: the blocks to finalize; only the chains that contain
    the last of them stay. *)
Definition crosslink_finalize (hash : bytes) (s : NonFinalizedState)
    : outcome (NonFinalizedState * option (list Block)) :=
  found ← find_chain (λ nc, Ret (bool_decide (is_Some (height_by_hash nc hash)))) s;
  match found with
  | None => Ret (s, None)
  | Some nc =>
      height ← unwrap (height_by_hash nc hash);
      Ret (with_chains s (filter (λ nc, contains_block_hash hash nc = true) s.(chain_set)),
           Some (filter (λ b, b.(blk_height) ≤ height) nc.(nf_blocks)))
  end.

(** [IndexMap]: a new key goes to the end. *)
Fixpoint index_insert {K V} `{EqDecision K} (k : K) (v : V) (l : list (K * V)) : list (K * V) :=
  match l with
  | [] => [(k, v)]
  | x :: l => if decide (x.1 = k) then (k, v) :: l else x :: index_insert k v l
  end.
Definition index_get {K V} `{EqDecision K} (k : K) (l : list (K * V)) : option V :=
  snd <$> find (λ x, bool_decide (x.1 = k)) l.

(** ** Committing blocks *)

Inductive ValidateContextError :=
| OrphanedBlock (candidate finalized_tip : Z)
| NotReadyToBeCommitted
| NonSequentialBlock (candidate parent : Z)
| InvalidContext
| BlockPreviouslyInvalidated (hash : bytes)
| InvalidSpends
| InvalidBonds (e : InvalidDelegationBond)
| InvalidTrees.

Inductive InvalidateError := HashNotFound.

(** The checks of a block that do not concern staking: its difficulty, time and
    nullifiers; its transparent spends; its anchors, value balance and
    commitments. *)
Class ContextChecks := {
  recent_chain_valid : NonFinalizedState → FinalizedState.t → Block → bool;
  spends_valid : NonFinalizedChain → FinalizedState.t → Block → bool;
  trees_valid : NonFinalizedChain → FinalizedState.t → Block → bool }.

(** The tip of the finalized state. *)
Definition finalized_tip_hash (fin : FinalizedState.t) : bytes :=
  match fin.(FinalizedState.committed) with
  | [] => GENESIS_PREVIOUS_BLOCK_HASH
  | (_, hash) :: _ => hash
  end.
Definition finalized_tip_height (fin : FinalizedState.t) : option Z :=
  fst <$> head fin.(FinalizedState.committed).
Definition db_height_by_hash (fin : FinalizedState.t) (hash : bytes) : option Z :=
  fst <$> find (λ x, bool_decide (x.2 = hash)) fin.(FinalizedState.committed).

(** A chain that starts at the finalized tip. *)
Definition new_chain (fin : FinalizedState.t) : NonFinalizedChain :=
  {| nf_blocks := []; nf_inner := Chain.new fin.(FinalizedState.db) fin.(FinalizedState.pools) |}.

(** [?] on a result. *)
Definition bail {E A} (b : bool) (e : E) (k : Fallible E A) : Fallible E A := if b then k else fail e.

Section commit.
Context `{Profile, ContextChecks}.
Context (iter : Bonds → Items) (iter_targets : gmap BondKey bytes → list (BondKey * bytes)).

(** The height of the parent, the first block of [any_ancestor_blocks]: in the
    best chain that contains it, or else in the database. *)
Definition parent_height (fin : FinalizedState.t) (s : NonFinalizedState) (hash : bytes) : outcome (option Z) :=
  found ← find_chain (λ nc, Ret (contains_block_hash hash nc)) s;
  Ret (match nc ← found; height_by_hash nc hash with
       | Some h => Some h
       | None => db_height_by_hash fin hash
       end).

Definition block_is_not_orphaned (finalized_tip_height candidate_height : Z)
    : Fallible ValidateContextError () :=
  if candidate_height <=? finalized_tip_height
  then fail (OrphanedBlock candidate_height finalized_tip_height) else mret ().

Definition height_one_more_than_parent_height (parent_height candidate_height : Z)
    : Fallible ValidateContextError () :=
  if parent_height + 1 =? candidate_height
  then mret () else fail (NonSequentialBlock candidate_height parent_height).

(** [block_is_valid_for_recent_chain] *)
Definition block_is_valid_for_recent_chain (fin : FinalizedState.t) (s : NonFinalizedState) (blk : Block)
    (finalized_tip_height : option Z) (parent : option Z) : Fallible ValidateContextError () :=
  tip ← expect_some finalized_tip_height;
  _ ← block_is_not_orphaned tip blk.(blk_height);
  h ← ok_or parent NotReadyToBeCommitted;
  _ ← height_one_more_than_parent_height h blk.(blk_height);
  bail (recent_chain_valid s fin blk) InvalidContext (mret ()).

(** [initial_contextual_validity] *)
Definition initial_contextual_validity (fin : FinalizedState.t) (s : NonFinalizedState) (blk : Block)
    : Fallible ValidateContextError () :=
  match parent_height fin s blk.(blk_parent) with
  | Panic => Panic
  | Ret parent => block_is_valid_for_recent_chain fin s blk (finalized_tip_height fin) parent
  end.

(** [parent_chain] *)
Definition parent_chain (parent_hash : bytes) (s : NonFinalizedState)
    : Fallible ValidateContextError NonFinalizedChain :=
  match find_chain (λ nc, h ← non_finalized_tip_hash nc; Ret (bool_decide (h = parent_hash))) s with
  | Panic => Panic
  | Ret (Some nc) => mret nc
  | Ret None =>
      match find_map_m (fork iter_targets parent_hash) (reverse s.(chain_set)) with
      | Panic => Panic
      | Ret o => ok_or o NotReadyToBeCommitted
      end
  end.

(** [validate_and_commit]; the block is pushed while its commitments are
    checked. *)
Definition validate_and_commit (fin : FinalizedState.t) (s : NonFinalizedState) (nc : NonFinalizedChain)
    (blk : Block) : Fallible ValidateContextError NonFinalizedChain :=
  bail (negb (bool_decide (blk.(blk_height) ∈ s.(invalidated_blocks).*1)))
    (BlockPreviouslyInvalidated blk.(blk_hash)) (
    bail (spends_valid nc fin blk) InvalidSpends (
      _ ← map_err InvalidBonds (validate_delegation_bonds nc.(nf_inner) fin.(FinalizedState.db)
                                blk.(blk_height) blk.(blk_txs));
      match push iter nc blk with
      | Panic => Panic
      | pushed => bail (trees_valid nc fin blk) InvalidTrees (map_err InvalidBonds pushed)
      end)).

(** The set without the chains that end at [hash]. *)
Definition retain_other_tips (hash : bytes) : list NonFinalizedChain → outcome (list NonFinalizedChain) :=
  retain (λ nc, h ← non_finalized_tip_hash nc; Ret (bool_decide (h ≠ hash))).

Definition lift {A} (m : outcome A) : Fallible ValidateContextError A :=
  match m with Ret a => mret a | Panic => Panic end.

Definition commit_block (fin : FinalizedState.t) (blk : Block) (s : NonFinalizedState)
    : Fallible ValidateContextError NonFinalizedState :=
  nc ← parent_chain blk.(blk_parent) s;
  nc ← validate_and_commit fin s nc blk;
  lift (insert_with nc (retain_other_tips blk.(blk_parent)) s).

Definition commit_new_chain (fin : FinalizedState.t) (blk : Block) (s : NonFinalizedState)
    : Fallible ValidateContextError NonFinalizedState :=
  _ ← expect_some (finalized_tip_height fin);
  nc ← validate_and_commit fin s (new_chain fin) blk;
  lift (insert_chain nc s).

Definition validate_and_commit_non_finalized (fin : FinalizedState.t) (s : NonFinalizedState) (blk : Block)
    : Fallible ValidateContextError NonFinalizedState :=
  _ ← initial_contextual_validity fin s blk;
  if decide (finalized_tip_hash fin = blk.(blk_parent)) then commit_new_chain fin blk s
  else commit_block fin blk s.

(** ** Invalidating and reconsidering *)

(** [NonFinalizedState::invalidate_block] *)
Definition invalidate_block (hash : bytes) (s : NonFinalizedState)
    : outcome (NonFinalizedState * (InvalidateError + bytes)) :=
  found ← find_chain (λ nc, Ret (contains_block_hash hash nc)) s;
  match found with
  | None => Ret (s, inl HashNotFound)
  | Some nc =>
      root ← non_finalized_root_hash nc;
      '(s, blocks) ← (if decide (root = hash) then
                      l ← chain_remove nc s.(chain_set); Ret (with_chains s l, nc.(nf_blocks))
                      else
                      r ← chain_invalidate_block iter_targets hash nc;
                      '(new_chain, blocks) ← unwrap r;
                      s ← insert_with new_chain
                        (λ l, Ret (filter (λ c, contains_block_hash hash c = false) l)) s;
                      Ret (s, blocks));
      first ← unwrap (head blocks);
      let l := index_insert first.(blk_height) blocks s.(invalidated_blocks) in
      Ret (with_invalidated s (drop (length l - MAX_INVALIDATED_BLOCKS) l), inr hash)
  end.

Inductive ReconsiderError :=
| MissingInvalidatedBlock (hash : bytes)
| InvalidatedBlocksEmpty
| ParentChainNotFound (hash : bytes)
| ReconsiderInvalid (e : InvalidDelegationBond).

Fixpoint push_all (nc : NonFinalizedChain) (blocks : list Block) : Fallible InvalidDelegationBond NonFinalizedChain :=
  match blocks with
  | [] => mret nc
  | blk :: blocks => nc ← push iter nc blk; push_all nc blocks
  end.

(** [NonFinalizedState::reconsider_block]; the blocks stay in the list of
    invalidated ones, from a copy of which they are taken. *)
Definition reconsider_block (hash : bytes) (fin : FinalizedState.t) (s : NonFinalizedState)
    : Fallible ReconsiderError (NonFinalizedState * list bytes) :=
  blocks ← ok_or (snd <$> find (λ x, match head x.2 with
                                     | Some b => bool_decide (b.(blk_hash) = hash)
                                     | None => false
                                     end) s.(invalidated_blocks)) (MissingInvalidatedBlock hash);
  root ← ok_or (head blocks) InvalidatedBlocksEmpty;
  nc ← (if decide (root.(blk_parent) = finalized_tip_hash fin) then
        _ ← ok_or (finalized_tip_height fin) (ParentChainNotFound hash); mret (new_chain fin)
        else map_err (λ _, ParentChainNotFound hash) (parent_chain root.(blk_parent) s));
  nc ← map_err ReconsiderInvalid (push_all nc blocks);
  match non_finalized_tip_hash nc with
  | Panic => Panic
  | Ret _ =>
      let s := match finalized_tip_height fin with
               | Some h => with_invalidated s (filter (λ x, h ≤ x.1) s.(invalidated_blocks))
               | None => s
               end in
      match insert_with nc (retain_other_tips root.(blk_parent)) s with
      | Panic => Panic
      | Ret s => mret (s, map blk_hash blocks)
      end
  end.
End commit.

(** ** The task that writes blocks *)

Definition MAX_BLOCK_REORG_HEIGHT : Z := 99.
Definition PARENT_ERROR_MAP_LIMIT : nat := 198.

(** [WriteBlockWorkerTask] with the errors it remembers. *)
Record WriteState := {
  ws_non_finalized : NonFinalizedState;
  ws_finalized : FinalizedState.t;
  parent_error_map : list (bytes * ValidateContextError) }.

Inductive NonFinalizedWriteMessage :=
| Commit (blk : Block)
| CrosslinkFinalized (hash : bytes)
| Invalidate (hash : bytes)
| Reconsider (hash : bytes).

Inductive CrosslinkError := CouldntFindFinalizedBlock.

(** What is sent back. *)
Inductive WriteResponse :=
| Committed (r : ValidateContextError + bytes)
| Finalized (r : CrosslinkError + bytes * list (bytes * Z))
| Invalidated (r : InvalidateError + bytes)
| Reconsidered (r : ReconsiderError + list bytes).

Section write.
Context `{Profile}.

(** Finalizing the root of the best chain; a commit that fails is
    [unreachable!]. *)
Definition finalize_next (s : NonFinalizedState * FinalizedState.t)
    : outcome (NonFinalizedState * FinalizedState.t) :=
  '(nf, (blk, rewards, amounts)) ← finalize s.1;
  fin ← expect (commit_finalized_direct s.2 blk rewards amounts);
  Ret (nf, fin).

Definition best_chain_len (s : NonFinalizedState) : option Z :=
  (λ nc, Z.of_nat (length nc.(nf_blocks))) <$> best_chain s.

(** "finalizing block past the reorg limit": every round takes one block off the
    best chain, of which there are [n]. *)
Fixpoint reorg_limit_loop (n : nat) (s : NonFinalizedState * FinalizedState.t)
    : outcome (NonFinalizedState * FinalizedState.t) :=
  len ← unwrap (best_chain_len s.1);
  if MAX_BLOCK_REORG_HEIGHT <? len then
    match n with
    | O => Panic
    | S n => s ← finalize_next s; reorg_limit_loop n s
    end
  else Ret s.

(** "Aggregate active bonds by target_finalizer"; [iter_stakes] is the order in
    which the hash map of stakes is iterated. *)
Definition aggregated_stakes (iter_stakes : gmap bytes Z → list (bytes * Z)) (db : ZebraDb)
    : outcome (list (bytes * Z)) :=
  m ← for_each (λ m x, v ← arith 64 (default 0 (m !! x.2.(target_finalizer)) + x.2.(bond_amount));
                 Ret (<[x.2.(target_finalizer) := v]> m))
  (active_bonds db) (∅ : gmap bytes Z);
  Ret (iter_stakes m).

(** [update_latest_chain_channels]: there must be a block. *)
Definition update_latest_chain_channels (s : NonFinalizedState) : outcome Z :=
  nc ← unwrap (best_chain s);
  tip ← unwrap (last nc.(nf_blocks));
  Ret tip.(blk_height).

(** [NonFinalizedWriteMessage::CrosslinkFinalized] *)
Definition crosslink_finalized (iter_stakes : gmap bytes Z → list (bytes * Z)) (hash : bytes)
    (s : NonFinalizedState * FinalizedState.t)
    : outcome (NonFinalizedState * FinalizedState.t * (CrosslinkError + bytes * list (bytes * Z))) :=
  '(nf, found) ← crosslink_finalize hash s.1;
  match found with
  | Some newly_finalized_blocks =>
      _ ← update_latest_chain_channels nf;
      s ← for_each (λ s _, finalize_next s) newly_finalized_blocks (nf, s.2);
      stakes ← aggregated_stakes iter_stakes s.2.(FinalizedState.db);
      Ret (s, inr (hash, stakes))
  | None =>
      if decide (hash ∈ s.2.(FinalizedState.committed).*2) then Ret (nf, s.2, inr (hash, []))
      else Ret (nf, s.2, inl CouldntFindFinalizedBlock)
  end.

Context `{ContextChecks}.
Context (iter : Bonds → Items) (iter_targets : gmap BondKey bytes → list (BondKey * bytes)).
Context (iter_stakes : gmap bytes Z → list (bytes * Z)).

(** [NonFinalizedWriteMessage::Commit] *)
Definition write_commit (blk : Block) (s : WriteState) : outcome (WriteState * WriteResponse) :=
  result ← (match index_get blk.(blk_parent) s.(parent_error_map) with
            | Some e => Ret (inl e)
            | None => validate_and_commit_non_finalized iter iter_targets s.(ws_finalized)
                  s.(ws_non_finalized) blk
            end);
  match result with
  | inl e =>
      let l := index_insert blk.(blk_hash) e s.(parent_error_map) in
      let l := if decide (PARENT_ERROR_MAP_LIMIT < length l)%nat then tail l else l in
      Ret ({| ws_non_finalized := s.(ws_non_finalized); ws_finalized := s.(ws_finalized);
              parent_error_map := l |}, Committed (inl e))
  | inr nf =>
      _ ← update_latest_chain_channels nf;
      best ← unwrap (best_chain nf);
      '(nf, fin) ← reorg_limit_loop (length best.(nf_blocks)) (nf, s.(ws_finalized));
      Ret ({| ws_non_finalized := nf; ws_finalized := fin;
              parent_error_map := s.(parent_error_map) |}, Committed (inr blk.(blk_hash)))
  end.

(** One message. *)
Definition handle_message (msg : NonFinalizedWriteMessage) (s : WriteState)
    : outcome (WriteState * WriteResponse) :=
  match msg with
  | Commit blk => write_commit blk s
  | CrosslinkFinalized hash =>
      '(nf, fin, r) ← crosslink_finalized iter_stakes hash (s.(ws_non_finalized), s.(ws_finalized));
      Ret ({| ws_non_finalized := nf; ws_finalized := fin; parent_error_map := s.(parent_error_map) |},
           Finalized r)
  | Invalidate hash =>
      '(nf, r) ← invalidate_block iter_targets hash s.(ws_non_finalized);
      _ ← update_latest_chain_channels nf;
      Ret ({| ws_non_finalized := nf; ws_finalized := s.(ws_finalized);
              parent_error_map := s.(parent_error_map) |}, Invalidated r)
  | Reconsider hash =>
      r ← reconsider_block iter iter_targets hash s.(ws_finalized) s.(ws_non_finalized);
      let nf := match r with inr (nf, _) => nf | inl _ => s.(ws_non_finalized) end in
      _ ← update_latest_chain_channels nf;
      Ret ({| ws_non_finalized := nf; ws_finalized := s.(ws_finalized);
              parent_error_map := s.(parent_error_map) |},
           Reconsidered (match r with inr (_, hashes) => inr hashes | inl e => inl e end))
  end.
End write.
