(* ===== verification/FinalizeInv.v ===== *)
(** * FinalizeInv: the database follows the chain

    Finalizing the root of a chain writes to the database exactly what adding
    that block did to the chain, up to the height of the last change of a bond:
    the bonds, their statuses and the value pools agree.  The relation between
    the two is a simulation ([follows]). *)

From stdpp Require Import base list gmap sets sorting.
From S2P Require Import Prelude Wire Encoding Bft Roster Amount Staking Delegation DelegationInv DelegationBlock DelegationRevert Finalize NonFinalized.
Import StakingAction Chain.

(** ** The relation between the database and a map of bonds *)

Definition status_of (s : BondStatus) : BondStatusInChain :=
  match s with DbActive => Active | DbUnbonding _ => Unbonding | DbWithdrawn _ => Withdrawn end.

Inductive entry : option DelegationBond → option BondStatus → option Bond → Prop :=
| entry_none : entry None None None
| entry_some b s v : strip (b, status_of s) = strip v → entry (Some b) (Some s) (Some v).

Definition follows (db : ZebraDb) (bs : Bonds) : Prop :=
  ∀ k, entry (db.(delegation_bond_by_key) !! k) (db.(bond_status_by_key) !! k) (bs !! k).

Lemma entry_inv_some ob os v :
  entry ob os (Some v) → ∃ b s, ob = Some b ∧ os = Some s ∧ strip (b, status_of s) = strip v.
Proof. inversion 1; subst. eauto. Qed.

Lemma strip_eq (b : DelegationBond) (st : BondStatusInChain) (v : Bond) :
  strip (b, st) = strip v ↔
  b.(bond_amount) = v.1.(bond_amount) ∧ b.(target_finalizer) = v.1.(target_finalizer) ∧ st = v.2.
Proof.
  destruct b as [a t c], v as [[a' t' c'] st']. unfold strip, moved_at. cbn.
  split; [by intros [= -> -> ->]|by intros (-> & -> & ->)].
Qed.

Lemma write_batch_bond db b k v :
  b.(batch_bonds) !! k = Some v → (write_batch db b).(delegation_bond_by_key) !! k = Some v.
Proof. intros Hk. cbn. by apply lookup_union_Some_l. Qed.

Lemma write_batch_untouched db b k :
  b.(batch_bonds) !! k = None → b.(batch_status) !! k = None →
  (write_batch db b).(delegation_bond_by_key) !! k = db.(delegation_bond_by_key) !! k ∧
  (write_batch db b).(bond_status_by_key) !! k = db.(bond_status_by_key) !! k.
Proof. intros H1 H2. cbn. by rewrite !lookup_union_r. Qed.

Lemma current_bond_written db b k :
  current_bond db b.(batch_bonds) k = (write_batch db b).(delegation_bond_by_key) !! k.
Proof.
  unfold current_bond. cbn. rewrite lookup_union.
  destruct (batch_bonds b !! k), (delegation_bond_by_key db !! k); done.
Qed.

Lemma write_batch_empty db : write_batch db empty_batch = db.
Proof. unfold write_batch. cbn. rewrite !(left_id_L ∅ (∪)). by destruct db. Qed.

(** ** The actions of a block *)

Lemma write_insert_bond db b k v :
  write_batch db (insert_bond b k v)
  = {| delegation_bond_by_key := <[k := v]> (write_batch db b).(delegation_bond_by_key);
       bond_status_by_key := (write_batch db b).(bond_status_by_key) |}.
Proof. unfold write_batch, insert_bond. cbn. by rewrite insert_union_l. Qed.

Lemma write_insert_status db b k v :
  write_batch db (insert_status b k v)
  = {| delegation_bond_by_key := (write_batch db b).(delegation_bond_by_key);
       bond_status_by_key := <[k := v]> (write_batch db b).(bond_status_by_key) |}.
Proof. unfold write_batch, insert_status. cbn. by rewrite insert_union_l. Qed.

(** Two states that follow each other still do after one entry is replaced. *)
Lemma follows_at db db' bs bs' k :
  follows db bs →
  (∀ k', k' ≠ k → db'.(delegation_bond_by_key) !! k' = db.(delegation_bond_by_key) !! k' ∧
                  db'.(bond_status_by_key) !! k' = db.(bond_status_by_key) !! k' ∧
                  bs' !! k' = bs !! k') →
  entry (db'.(delegation_bond_by_key) !! k) (db'.(bond_status_by_key) !! k) (bs' !! k) →
  follows db' bs'.
Proof.
  intros Hf Ho He k'. destruct (decide (k' = k)) as [->|Hne]; [done|].
  destruct (Ho k' Hne) as (-> & -> & ->). apply Hf.
Qed.

Section actions.
Context (db : ZebraDb).

(** A batch that has not touched a bond. *)
Definition untouched (b : DiskWriteBatch) (k : BondKey) : Prop :=
  b.(batch_bonds) !! k = None ∧ b.(batch_status) !! k = None.

Lemma prepare_action_ok b bs x :
  follows (write_batch db b) bs → untouched b (key x) → enabled (bs !! key x) x.1 →
  ∃ b', prepare_action db x.1 x.2 (b, b.(batch_bonds)) = Ret (inr (b', b'.(batch_bonds))) ∧
  follows (write_batch db b') (act bs x) ∧ (∀ k, k ≠ key x → untouched b k → untouched b' k).
Proof.
  intros Hf [Hu1 Hu2] He. pose proof (Hf (key x)) as Hk.
  destruct (write_batch_untouched db b (key x) Hu1 Hu2) as [Hdb Hst]. rewrite Hdb, Hst in Hk.
  assert (∀ e b', effect x (bs !! key x) = e → (∀ k', k' ≠ key x →
    (write_batch db b').(delegation_bond_by_key) !! k' = (write_batch db b).(delegation_bond_by_key) !! k' ∧
    (write_batch db b').(bond_status_by_key) !! k' = (write_batch db b).(bond_status_by_key) !! k') →
    entry ((write_batch db b').(delegation_bond_by_key) !! key x)
    ((write_batch db b').(bond_status_by_key) !! key x) e →
    follows (write_batch db b') (act bs x)) as Hgo.
  { intros e b' <- Ho Hen. eapply follows_at; [exact Hf| |by rewrite act_here].
    intros k' Hne. destruct (Ho k' Hne). split; [done|]. split; [done|]. by rewrite act_other. }
  unfold prepare_action. fold (key x). unfold enabled in He.
  destruct (kind x.1) eqn:Ek.
  all: try (exists b; split; [reflexivity|]; split; [|done];
      eapply Hgo; [unfold effect; by rewrite Ek|done|by rewrite Hdb, Hst]).
  - destruct He as [Hn Ha]. pose proof MAX_MONEY_i64. unfold Amount.try_from.
    rewrite is_i64_true by lia. rewrite validate_ok by (unfold Amount.ok; cbn; lia).
    eexists (insert_status (insert_bond b _ _) _ _). split; [reflexivity|]. split.
    + eapply Hgo; [unfold effect; by rewrite Ek|..];
        rewrite write_insert_status, write_insert_bond; cbn [delegation_bond_by_key bond_status_by_key].
      * intros k' Hne. by rewrite !lookup_insert_ne.
      * rewrite !lookup_insert_eq. by constructor.
    + intros k Hne [? ?]. split; cbn; by rewrite lookup_insert_ne.
  - destruct He as [bd Hb]. rewrite Hb in Hk. apply entry_inv_some in Hk as (d & s & Hd & Hs & Heq).
    apply strip_eq in Heq as (Ha & Ht & Hact). cbn in Hact. unfold prepare_unbonding_delegation_bond.
    rewrite Hs. destruct s; try done. exists (insert_status b (key x) (DbUnbonding x.2)). split; [reflexivity|]. split.
    + eapply Hgo; [unfold effect; by rewrite Ek, Hb|..]; rewrite write_insert_status; cbn [delegation_bond_by_key bond_status_by_key].
      * intros k' Hne. by rewrite lookup_insert_ne.
      * rewrite lookup_insert_eq, Hdb, Hd. constructor. by apply strip_eq.
    + intros k Hne [? ?]. split; cbn; by rewrite ?lookup_insert_ne.
  - destruct He as (bd & Hb & _). rewrite Hb in Hk. apply entry_inv_some in Hk as (d & s & Hd & Hs & Heq).
    apply strip_eq in Heq as (Ha & Ht & Hact). cbn in Hact. unfold prepare_withdrawn_delegation_bond.
    rewrite Hs. destruct s; try done. exists (insert_status b (key x) (DbWithdrawn x.2)). split; [reflexivity|]. split.
    + eapply Hgo; [unfold effect; by rewrite Ek, Hb|..]; rewrite write_insert_status; cbn [delegation_bond_by_key bond_status_by_key].
      * intros k' Hne. by rewrite lookup_insert_ne.
      * rewrite lookup_insert_eq, Hdb, Hd. constructor. by apply strip_eq.
    + intros k Hne [? ?]. split; cbn; by rewrite ?lookup_insert_ne.
  - destruct He as [bd Hb]. rewrite Hb in Hk. apply entry_inv_some in Hk as (d & s & Hd & Hs & Heq).
    apply strip_eq in Heq as (Ha & Ht & Hact). cbn in Hact. unfold prepare_retarget_delegation_bond.
    rewrite current_bond_written, Hdb, Hd.
    exists (insert_bond b (key x) (with_target d x.1.(arg32_2))). split; [reflexivity|]. split.
    + eapply Hgo; [unfold effect; by rewrite Ek, Hb|..]; rewrite write_insert_bond; cbn [delegation_bond_by_key bond_status_by_key].
      * intros k' Hne. by rewrite lookup_insert_ne.
      * rewrite lookup_insert_eq, Hst, Hs. constructor. by apply strip_eq.
    + intros k Hne [? ?]. split; cbn; by rewrite ?lookup_insert_ne.
Qed.

Lemma prepare_actions_ok height txs : ∀ i b bs,
  let xs := located height i txs in
  follows (write_batch db b) bs → NoDup (map key xs) → Forall (λ x, untouched b (key x)) xs →
  Forall (λ x, enabled (bs !! key x) x.1) xs →
  ∃ b', prepare_actions db height i txs (b, b.(batch_bonds)) = Ret (inr (b', b'.(batch_bonds))) ∧
  follows (write_batch db b') (acts xs bs).
Proof.
  induction txs as [|[a|] txs IH]; intros i b bs xs Hf Hnd Hu He; cbn [located] in xs; subst xs.
  - by exists b.
  - set (ys := located height (i + 1) txs) in *. set (x := (a, (height, i))) in *.
    cbn [map] in Hnd. apply NoDup_cons in Hnd as [Hx Hnd].
    apply Forall_cons in He as [Hex He]. apply Forall_cons in Hu as [Hux Hu].
    destruct (prepare_action_ok b bs x Hf Hux Hex) as (b1 & Hstep & Hf1 & Hu1).
    unfold x in Hstep at 1 2. cbn [fst snd] in Hstep. cbn [prepare_actions]. rewrite Hstep.
    cbn [mbind Fallible_bind]. rewrite acts_cons. apply IH; fold ys; [done|done| |by apply enabled_act].
    rewrite Forall_forall in Hu |- *. intros y Hy. apply Hu1; [|by apply Hu].
    intros E. apply Hx. rewrite <- E. by apply (list_elem_of_fmap_2 key).
  - cbn [prepare_actions mbind Fallible_bind mret Fallible_ret]. by apply IH.
Qed.
End actions.

(** ** The rewards of a block *)

Section rewards.
Context (db : ZebraDb).

Lemma as_i64_small r : 0 ≤ r ≤ MAX_MONEY → u64_as_i64 r = r.
Proof.
  intros Hr. pose proof MAX_MONEY_i64. unfold u64_as_i64, Amount.as_i64.
  by rewrite (proj2 (Z.ltb_lt _ (2 ^ 63))) by lia.
Qed.

(** Every entry of [es] is a bond that is paid [r]. *)
Lemma prepare_rewards_ok (r : BondKey → Bond → Z) created es : ∀ b B,
  follows (write_batch db b) B → NoDup es.*1 →
  (∀ x, x ∈ es → current_bond db created x.1 = (write_batch db b).(delegation_bond_by_key) !! x.1 ∧
   B !! x.1 = Some x.2 ∧
   0 ≤ x.2.1.(bond_amount) ∧ 0 ≤ r x.1 x.2 ∧ x.2.1.(bond_amount) + r x.1 x.2 ≤ MAX_MONEY) →
  ∃ b' B', prepare_rewards db created (map (λ x, (x.1, r x.1 x.2)) es) b = Ret (inr b') ∧
  follows (write_batch db b') B' ∧ (∀ k, k ∉ es.*1 → B' !! k = B !! k) ∧
  (∀ x, x ∈ es → B' !! x.1 = Some (paid x.2 (r x.1 x.2))).
Proof.
  induction es as [|x es IH]; intros b B Hf Hnd Hin.
  { exists b, B. split; [done|]. split; [done|]. split; [done|]. by intros x ?%elem_of_nil. }
  cbn in Hnd. apply NoDup_cons in Hnd as [Hx Hnd].
  destruct (Hin x (list_elem_of_here _ _)) as (Hcur & HB & Ha & Hr & Hs).
  pose proof (Hf x.1) as He. rewrite HB in He. apply entry_inv_some in He as (d & s & Hd & Hst & Heq).
  apply strip_eq in Heq as (Hda & Hdt & Hds). cbn [map prepare_rewards]. rewrite Hcur, Hd.
  rewrite as_i64_small by lia. rewrite validate_ok by (unfold Amount.ok; cbn; lia).
  cbn [map_err mbind Fallible_bind].
  rewrite add_exact by (unfold Amount.ok; cbn; lia). rewrite validate_ok by (unfold Amount.ok; cbn; lia).
  cbn [map_err mbind Fallible_bind mret Fallible_ret].
  set (d' := with_amount d _). set (B1 := <[x.1 := paid x.2 (r x.1 x.2)]> B).
  assert (∀ y, y ∈ es → y.1 ≠ x.1) as Hother.
  { intros y Hy E. apply Hx. rewrite <- E. by apply list_elem_of_fmap_2. }
  destruct (IH (insert_bond b x.1 d') B1) as (b' & B' & -> & Hf' & Hout & HB').
  - eapply (follows_at _ _ _ _ x.1); [exact Hf| |]; rewrite write_insert_bond;
      cbn [delegation_bond_by_key bond_status_by_key].
    + intros k Hne. unfold B1. by rewrite !lookup_insert_ne.
    + unfold B1. rewrite !lookup_insert_eq, Hst. constructor. apply strip_eq. cbn. by rewrite Hda.
  - done.
  - intros y Hy. unfold B1. rewrite lookup_insert_ne by (by apply not_eq_sym, Hother).
    destruct (Hin y) as (Hc & ?); [by apply list_elem_of_further|]. split; [|done].
    rewrite write_insert_bond. cbn [delegation_bond_by_key].
    by rewrite lookup_insert_ne by (by apply not_eq_sym, Hother).
  - exists b', B'. split; [done|]. split; [done|]. split.
    + intros k Hk. rewrite Hout by set_solver. unfold B1. rewrite lookup_insert_ne; [done|set_solver].
    + intros y [->|Hy]%elem_of_cons; [|by apply HB']. rewrite Hout by done. unfold B1. by rewrite lookup_insert_eq.
Qed.
End rewards.

(** ** The amounts a block unbonds *)

Definition unbonds (x : Located) : Prop := x.1.(kind) = BeginDelegationUnbonding.
#[global] Instance unbonds_dec x : Decision (unbonds x).
Proof. unfold unbonds. apply _. Defined.

(** The amounts of the bonds [bs] that the actions unbond. *)
Definition amounts_of (bs : Bonds) (xs : list Located) : list (BondKey * Z) :=
  map (λ x, (key x, unbonded bs x)) (filter unbonds xs).

Lemma amounts_of_sum bs xs : zsum (map snd (amounts_of bs xs)) = zsum (map (unbonded bs) xs).
Proof.
  unfold amounts_of. rewrite map_map. cbn. induction xs as [|x xs IH]; [done|].
  cbn [map]. rewrite filter_cons, zsum_cons. case_decide as Hx.
  - cbn [map]. by rewrite zsum_cons, IH.
  - rewrite IH. unfold unbonded at 2. by rewrite decide_False.
Qed.

Lemma unbonding_amounts_eq bs height txs i :
  (∀ x, x ∈ located height i txs → unbonds x → is_Some (bs !! key x)) →
  unbonding_amounts bs txs = Ret (amounts_of bs (located height i txs)).
Proof.
  unfold unbonding_amounts. set (body := λ _ _, _).
  enough (∀ i acc, (∀ x, x ∈ located height i txs → unbonds x → is_Some (bs !! key x)) →
    for_each body txs acc = Ret (acc ++ amounts_of bs (located height i txs))) as Hloop by (by apply Hloop).
  clear i. induction txs as [|[a|] txs IH]; intros i acc Hin; cbn [for_each located] in *.
  - unfold amounts_of. cbn. by rewrite app_nil_r.
  - set (x := (a, (height, i))) in *.
    assert (body acc (Some a) = Ret (acc ++ if decide (unbonds x) then [(key x, unbonded bs x)] else [])) as ->.
    { cbn. unfold unbonded. destruct (decide (kind a = BeginDelegationUnbonding)) as [Hx|Hx].
      - rewrite (decide_True (P := unbonds x)) by done. destruct (Hin x) as [v Hv]; [set_solver|done|].
        unfold key in *. cbn in *. by rewrite decide_True, Hv.
      - rewrite (decide_False (P := unbonds x)) by done. by rewrite app_nil_r. }
    cbn [mbind outcome_bind]. rewrite (IH (i + 1)) by (intros y ??; apply Hin; [set_solver|done]).
    unfold amounts_of. rewrite filter_cons, <- app_assoc. by destruct (decide (unbonds x)).
  - cbn [mbind outcome_bind]. by apply IH.
Qed.

(** ** The value pools *)

Lemma move_unbondings_eq l : ∀ v,
  Forall (λ x, 0 ≤ x.2) l → zsum (map snd l) ≤ ValueBalance.staking_bonded v ≤ MAX_MONEY →
  0 ≤ ValueBalance.staking_unbonded v → ValueBalance.staking_unbonded v + zsum (map snd l) ≤ MAX_MONEY →
  move_unbondings l v = Ret (inr (shift v (zsum (map snd l)))).
Proof.
  assert (∀ z, 0 ≤ z ≤ MAX_MONEY → Amount.ok NonNegative z) as Hok by done.
  induction l as [|x l IH]; intros v Hp Hb Hu Hs; [by rewrite shift_zero|].
  apply Forall_cons in Hp as [Hx Hp]. cbn [map] in Hb, Hs |- *. rewrite zsum_cons in Hb, Hs |- *.
  assert (0 ≤ zsum (map snd l)) by (apply zsum_map_nonneg; by apply Forall_forall).
  cbn [move_unbondings]. unfold move_unbonding. rewrite as_i64_small by lia.
  rewrite validate_ok by (apply Hok; lia). cbn [map_err mbind Fallible_bind].
  rewrite sub_exact by (apply Hok; lia). rewrite validate_ok by (apply Hok; lia).
  cbn [ValueBalance.staking_unbonded ValueBalance.set_staking_bonded_amount].
  rewrite add_exact by (apply Hok; lia). rewrite validate_ok by (apply Hok; lia).
  cbn [mret Fallible_ret mbind Fallible_bind]. fold (shift v x.2).
  rewrite IH by (try done; cbn; lia). by rewrite shift_shift.
Qed.

Lemma sum_rewards_eq {P : Profile} (l : list (BondKey * Z)) : ∀ acc,
  Forall (λ x, 0 ≤ x.2) l → 0 ≤ acc → acc + zsum (map snd l) ≤ MAX_MONEY →
  for_each (λ acc x, arith 64 (acc + x.2)) l acc = Ret (acc + zsum (map snd l)).
Proof. pose proof MAX_MONEY_i64. intros acc ???. apply (for_each_sum snd); try done. lia. Qed.

Lemma set_bonded_same v :
  ValueBalance.set_staking_bonded_amount v (ValueBalance.staking_bonded v + 0) = v.
Proof. destruct v. unfold ValueBalance.set_staking_bonded_amount. cbn. by rewrite Z.add_0_r. Qed.

(** The three updates of the pools commute. *)
Lemma prepare_pools_eq {P : Profile} v change rewards amounts :
  let R := zsum (map snd rewards) in let U := zsum (map snd amounts) in
  let w := ValueBalance.plus v change in
  ValueBalance.ok NonNegative v → ValueBalance.ok NegativeAllowed change → ValueBalance.ok NonNegative w →
  Forall (λ x, 0 ≤ x.2) rewards → Forall (λ x, 0 ≤ x.2) amounts →
  U ≤ ValueBalance.staking_bonded w + R ≤ MAX_MONEY → ValueBalance.staking_unbonded w + U ≤ MAX_MONEY →
  prepare_chain_value_pools_batch change rewards amounts v
  = Ret (inr (ValueBalance.set_staking_bonded_amount (shift w U) (ValueBalance.staking_bonded (shift w U) + R))).
Proof.
  intros R U w Hv Hc Hw Hr Hu Hb Hub. pose proof MAX_MONEY_i64.
  assert (∀ z, 0 ≤ z ≤ MAX_MONEY → Amount.ok NonNegative z) as Hok by done.
  assert (0 ≤ R) by (apply zsum_map_nonneg; by apply Forall_forall).
  assert (0 ≤ ValueBalance.staking_bonded w ∧ 0 ≤ ValueBalance.staking_unbonded w) as [Hb0 Hu0].
  { unfold ValueBalance.ok, ValueBalance.pools, Amount.ok in Hw. cbn in Hw |- *.
    rewrite !Forall_cons in Hw. lia. }
  unfold prepare_chain_value_pools_batch.
  rewrite (proj2 (pool_change_inr v change w Hv Hc)) by done. cbn [map_err mbind Fallible_bind].
  rewrite sum_rewards_eq by (done || lia). fold R. rewrite Z.add_0_l.
  set (u := ValueBalance.set_staking_bonded_amount w (ValueBalance.staking_bonded w + R)).
  assert (move_unbondings amounts u = Ret (inr (shift u U))) as Hmove.
  { apply move_unbondings_eq; [done|..]; fold U; unfold u;
      cbn [ValueBalance.staking_bonded ValueBalance.staking_unbonded ValueBalance.set_staking_bonded_amount]; lia. }
  assert (shift u U = ValueBalance.set_staking_bonded_amount (shift w U)
      (ValueBalance.staking_bonded (shift w U) + R)) as <-.
  { unfold u, shift, ValueBalance.set_staking_unbonded_amount, ValueBalance.set_staking_bonded_amount.
    cbn. f_equal; lia. }
  destruct (Z.ltb_spec 0 R) as [HR|HR].
  - rewrite as_i64_small by lia. rewrite validate_ok by (apply Hok; lia). cbn [map_err mbind Fallible_bind].
    rewrite add_exact by (apply Hok; lia). rewrite validate_ok by (apply Hok; lia). done.
  - cbn [mret Fallible_ret mbind Fallible_bind]. rewrite <- Hmove. f_equal.
    unfold u. replace R with 0 by lia. by rewrite set_bonded_same.
Qed.

(** ** A whole block *)

Section block.
Context {P : Profile} (iter : Bonds → Items) `{Iteration iter}.
Context (c : Chain.t) (height : Z) (txs : list (option StakingAction.t)) (change : ValueBalance.t).
Context (Hbal : balanced c) (Hfit : fits c (located height 0 txs) change).
Context (db : ZebraDb) (Hdb : follows db c.(delegation_bonds)).

Let xs := located height 0 txs.
Let bs := c.(delegation_bonds).
Let A := acts xs bs.

Lemma batch_actions : ∃ b,
  prepare_actions db height 0 txs (empty_batch, ∅) = Ret (inr (b, b.(batch_bonds))) ∧
  follows (write_batch db b) A.
Proof.
  apply (prepare_actions_ok db height txs 0 empty_batch bs).
  - by rewrite write_batch_empty.
  - apply Hfit.
  - apply Forall_true. intros x. split; apply lookup_empty.
  - apply Hfit.
Qed.

(** The rewards are written as they were paid. *)
Lemma batch_rewards b m es :
  follows (write_batch db b) A → payable_bonds A → is_max A m →
  es ≡ₚ filter (λ x, active x = true) (map_to_list A) →
  ∃ b', prepare_rewards db b.(batch_bonds) (map (λ x, (x.1, reward A m x.1 x.2)) es) b = Ret (inr b') ∧
  follows (write_batch db b') (rewarded A m).
Proof.
  intros Hf Hpb Hm Hes.
  destruct (prepare_rewards_ok db (reward A m) b.(batch_bonds) es b A) as (b' & B' & Hp & Hf' & Hout & HB').
  - done.
  - by apply (recorded_keys c height txs).
  - intros [k v] [Hk Hv]%(recorded_in c height txs es _ Hes). split; [by rewrite current_bond_written|].
    split; [done|]. by apply (rewarded_fits c height txs).
  - exists b'. split; [done|]. replace (rewarded A m) with B'; [done|].
    apply map_eq. intros k. unfold A, xs, bs. rewrite (rewarded_lookup c height txs m k). fold xs bs A.
    destruct (A !! k) as [v|] eqn:Hk; cbn.
    + destruct (decide (v.2 = Active)) as [Hv|Hv].
      { apply (HB' (k, v)). by apply (recorded_in c height txs es _ Hes). }
      rewrite Hout by (apply (recorded_missing c height txs); [done|fold xs bs A; congruence]).
      unfold reward. rewrite decide_False by done. by rewrite paid_zero.
    + rewrite Hout by (apply (recorded_missing c height txs); [done|fold xs bs A; congruence]). done.
Qed.

(** The pools are written as they were computed, whatever the rewards. *)
Lemma pools_written rw :
  Forall (λ x, 0 ≤ x.2) rw → zsum (map snd rw) ≤ BOND_REWARD_TOTAL →
  prepare_chain_value_pools_batch change rw (amounts_of bs xs) c.(chain_value_pools)
  = Ret (inr (ValueBalance.set_staking_bonded_amount (moved_pools c height txs change)
              (ValueBalance.staking_bonded (moved_pools c height txs change) + zsum (map snd rw)))).
Proof.
  intros Hrw Hle. pose proof (unbonded_bounds c height txs change Hbal Hfit) as [HU HW].
  pose proof (created_nonneg c height txs change Hbal Hfit) as [HC HW0].
  pose proof (ft_supply _ _ _ Hfit) as Hsup. pose proof (total_nonneg bs (bl_amounts _ Hbal) Unbonding).
  pose proof (bl_bonded _ Hbal) as Hb. pose proof (bl_unbonded _ Hbal) as Hub.
  unfold staking_bonded, staking_unbonded in Hb, Hub. fold xs bs in HU, HW, HC, HW0, Hsup, Hb, Hub.
  rewrite prepare_pools_eq; try apply Hfit; try done.
  - rewrite amounts_of_sum. do 2 f_equal. unfold moved_pools, shift, ValueBalance.plus,
                                            ValueBalance.set_staking_bonded_amount, ValueBalance.set_staking_unbonded_amount.
    cbn [ValueBalance.staking_bonded ValueBalance.staking_unbonded ValueBalance.transparent ValueBalance.sprout
      ValueBalance.sapling ValueBalance.orchard ValueBalance.deferred]. fold xs bs. f_equal; lia.
  - apply Forall_map. apply Forall_forall. intros x [_ Hx]%list_elem_of_filter.
    pose proof (unbonded_nonneg c height txs Hbal) as Hn. eapply Forall_forall in Hn; [exact Hn|done].
  - assert (0 ≤ zsum (map snd rw)) by (apply zsum_map_nonneg; by apply Forall_forall).
    rewrite amounts_of_sum. unfold ValueBalance.plus. cbn [ValueBalance.staking_bonded].
    rewrite Hb, (ft_created _ _ _ Hfit). fold xs. lia.
  - rewrite amounts_of_sum. unfold ValueBalance.plus. cbn [ValueBalance.staking_unbonded].
    rewrite Hub, (ft_withdrawn _ _ _ Hfit). unfold BOND_REWARD_TOTAL in Hsup. fold xs. lia.
Qed.

(** What is written to the database for a block is what the block did to the
    chain. *)
Lemma block_written c' :
  update_block iter height txs change c = Ret (inr c') →
  ∃ rw b, c'.(bond_rewards) = c.(bond_rewards) ++ [rw] ∧
  prepare_delegation_bonds_batch db height txs rw = Ret (inr b) ∧
  follows (write_batch db b) c'.(delegation_bonds) ∧
  prepare_chain_value_pools_batch change rw (amounts_of bs xs) c.(chain_value_pools)
  = Ret (inr c'.(chain_value_pools)).
Proof.
  intros Hu. destruct batch_actions as (b & Hacts & Hf).
  unfold prepare_delegation_bonds_batch. rewrite Hacts. cbn [mbind Fallible_bind].
  destruct (update_block_eq iter c height txs change Hbal Hfit)
    as [[Hu' _]|(m & es & Hu' & Hpb & Hm & Hes)]; rewrite Hu in Hu'; injection Hu' as ->.
  - exists [], b. split; [done|]. split; [done|]. split; [done|]. rewrite pools_written; [|done|done].
    cbn [map zsum foldr]. by rewrite set_bonded_same.
  - fold xs bs A in Hpb, Hm, Hes. destruct (batch_rewards b m es Hf Hpb Hm Hes) as (b' & Hrw & Hf').
    set (rw := map (λ x : BondKey * Bond, (x.1, reward A m x.1 x.2)) es).
    assert (zsum (map snd rw) = BOND_REWARD_TOTAL) as Hsum.
    { unfold rw. rewrite map_map. cbn [snd].
      rewrite (zsum_perm _ _ (Permutation_map _ Hes)), recorded_sum. by apply reward_sum. }
    exists rw, b'. split; [done|]. split; [done|]. split; [done|].
    rewrite pools_written; [by rewrite Hsum| |by rewrite Hsum].
    apply Forall_map, Forall_forall. intros [k v] [Hk Hv]%(recorded_in c height txs es _ Hes).
    by apply (reward_nonneg c height txs m k v).
Qed.
End block.

Section block_theorem.
Context {P : Profile}.

(** C13: Finalizing a block does to the database what adding it did to the chain, if the block
    fits the chain ([fits]): it names no bond twice, and only bonds that are there, in the
    status the action asks for; its pool change carries exactly the stake it creates and
    withdraws; pools and bonds, reward included, stay within the supply; and bonds that are
    active afterwards hold something.  Then the batch that is prepared with the rewards
    recorded by the chain succeeds and leaves the same bonds, statuses and targets, and the
    value pools of the database become those of the chain.  A block that creates and unbonds
    the same bond does not fit, and its batch fails ([created_and_unbonded_aborts]). *)
Theorem finalized_as_applied iter c db height txs change c' :
  Iteration iter → balanced c → fits c (located height 0 txs) change → follows db c.(delegation_bonds) →
  update_block iter height txs change c = Ret (inr c') →
  ∃ rewards b, last c'.(bond_rewards) = Some rewards ∧
  prepare_delegation_bonds_batch db height txs rewards = Ret (inr b) ∧
  follows (write_batch db b) c'.(delegation_bonds) ∧
  prepare_chain_value_pools_batch change rewards (amounts_of c.(delegation_bonds) (located height 0 txs))
  c.(chain_value_pools) = Ret (inr c'.(chain_value_pools)).
Proof.
  intros Hi Hbal Hfit Hf Hu.
  destruct (block_written iter c height txs change Hbal Hfit db Hf c' Hu) as (rw & b & Hr & Hb & Hf' & Hp).
  exists rw, b. split; [by rewrite Hr, last_snoc|]. done.
Qed.
End block_theorem.
