(* ===== verification/ChainGrowth.v ===== *)
(** * ChainGrowth: chains that grow from the database

    The database and the chains only agree on bonds up to the height of their
    last change, which the database drops and a revert does not restore.  This
    file shows that nothing else depends on that height: adding a block to two
    chains whose bonds agree gives chains whose bonds agree ([agrees] is a
    congruence).  [grows] is the relation between the state at the root of a
    chain and the state at its tip. *)

From stdpp Require Import base list gmap sets sorting.
From S2P Require Import Prelude Wire Encoding Bft Roster Amount Staking Delegation DelegationInv DelegationBlock DelegationRevert Finalize NonFinalized FinalizeInv.
Import StakingAction Chain.

(** ** Agreement of bonds *)

Definition agrees (bs bs' : Bonds) : Prop := strip <$> bs = strip <$> bs'.

#[global] Instance agrees_equiv : Equivalence agrees.
Proof.
  split; [done|by intros ??|]. intros b1 b2 b3 H12 H23. unfold agrees in *. by rewrite H12.
Qed.

Lemma agrees_lookup bs bs' : agrees bs bs' ↔ ∀ k, strip <$> bs !! k = strip <$> bs' !! k.
Proof.
  unfold agrees. split.
  - intros E k. by rewrite <- !lookup_fmap, E.
  - intros E. apply map_eq. intros k. by rewrite !lookup_fmap.
Qed.

Lemma strip_strip v : strip (strip v) = strip v.
Proof. done. Qed.

Lemma agrees_some bs bs' k v :
  agrees bs bs' → bs !! k = Some v →
  ∃ v', bs' !! k = Some v' ∧ v'.1.(bond_amount) = v.1.(bond_amount) ∧
    v'.1.(target_finalizer) = v.1.(target_finalizer) ∧ v'.2 = v.2.
Proof.
  intros Ha Hk. pose proof (proj1 (agrees_lookup _ _) Ha k) as E. rewrite Hk in E. cbn in E.
  symmetry in E. apply fmap_Some in E as ([b st] & Hv & Es). exists (b, st). split; [done|].
  symmetry in Es. by apply strip_eq in Es.
Qed.

(** The database determines the bonds up to agreement. *)
#[global] Instance follows_proper : Proper (eq ==> agrees ==> iff) follows.
Proof.
  assert (∀ db bs bs', agrees bs bs' → follows db bs → follows db bs') as Himp.
  { intros db bs bs' Ha Hf k. specialize (Hf k). pose proof (proj1 (agrees_lookup _ _) Ha k) as E.
    inversion Hf as [E1 E2 E3|b s v Es E1 E2 E3]; rewrite <- E3 in E; cbn in E; symmetry in E.
    - apply fmap_None in E. rewrite E. constructor.
    - apply fmap_Some in E as (v' & -> & Ev). constructor. congruence. }
  intros db _ <- bs bs' Ha. split; apply Himp; [done|by symmetry].
Qed.

Lemma follows_agrees db bs bs' : follows db bs → follows db bs' → agrees bs bs'.
Proof.
  intros H1 H2. apply agrees_lookup. intros k. specialize (H1 k). specialize (H2 k).
  inversion H1 as [E1 E2 E3|b s v Es E1 E2 E3]; inversion H2 as [F1 F2 F3|b' s' v' Es' F1 F2 F3]; cbn; congruence.
Qed.

(** ** Agreement is a congruence *)

Lemma sum_bonds_fmap g (f : Bond → Bond) (bs : Bonds) :
  sum_bonds g (f <$> bs) = sum_bonds (λ k v, g k (f v)) bs.
Proof.
  unfold sum_bonds. rewrite map_to_list_fmap. f_equal. by rewrite (map_map (prod_map id f)).
Qed.

Lemma sum_bonds_agrees g bs bs' :
  (∀ k v, g k (strip v) = g k v) → agrees bs bs' → sum_bonds g bs = sum_bonds g bs'.
Proof.
  intros Hg Ha. assert (∀ bs : Bonds, sum_bonds g bs = sum_bonds g (strip <$> bs)) as E.
  { intros m. rewrite sum_bonds_fmap. by apply sum_bonds_ext. }
  by rewrite E, Ha, <- E.
Qed.

#[global] Instance total_proper st : Proper (agrees ==> eq) (total st).
Proof. intros bs bs'. by apply sum_bonds_agrees. Qed.

#[global] Instance others_paid_proper T m : Proper (agrees ==> eq) (others_paid T m).
Proof. intros bs bs'. by apply sum_bonds_agrees. Qed.

#[global] Instance acts_proper xs : Proper (agrees ==> agrees) (acts xs).
Proof.
  induction xs as [|x xs IH]; intros bs bs' Ha; [done|]. rewrite !acts_cons. apply IH.
  apply agrees_lookup. intros k. pose proof (proj1 (agrees_lookup _ _) Ha) as E.
  destruct (decide (key x = k)) as [<-|Hne]; [|by rewrite !act_other].
  rewrite !act_here. specialize (E (key x)). unfold effect.
  destruct (bs !! key x) as [[[a t cr] st]|], (bs' !! key x) as [[[a' t' cr'] st']|]; cbn in E; try done.
  unfold strip, moved_at in E. cbn in E. injection E as -> -> ->. by destruct (kind x.1).
Qed.

Lemma is_max_agrees bs bs' m : agrees bs bs' → is_max bs m → is_max bs' m.
Proof.
  intros Ha (b & Hb & Hmax). destruct (agrees_some _ _ _ _ Ha Hb) as ([b' st] & Hb' & Ea & _ & Est).
  cbn in Est, Ea. subst st. exists b'. split; [done|]. intros k v Hk. symmetry in Ha.
  destruct (agrees_some _ _ _ _ Ha Hk) as ([w st] & Hw & Eaw & _ & Est). cbn in Est, Eaw. subst st.
  rewrite Ea, <- Eaw. by apply Hmax.
Qed.

Lemma rewarded_agrees bs bs' m : agrees bs bs' → agrees (rewarded bs m) (rewarded bs' m).
Proof.
  intros Ha. apply agrees_lookup. intros k. unfold rewarded. rewrite !map_lookup_imap.
  pose proof (proj1 (agrees_lookup _ _) Ha k) as E. unfold reward.
  rewrite (total_proper Active _ _ Ha), (others_paid_proper _ m _ _ Ha).
  destruct (bs !! k) as [[[a t cr] st]|], (bs' !! k) as [[[a' t' cr'] st']|]; cbn in E; try done.
  unfold strip, moved_at in E. cbn in E. injection E as -> -> ->. done.
Qed.

Lemma unbonded_sum_agrees bs bs' xs :
  agrees bs bs' → zsum (map (unbonded bs) xs) = zsum (map (unbonded bs') xs).
Proof.
  intros Ha. f_equal. apply map_ext. intros x. unfold unbonded. case_decide; [|done].
  pose proof (proj1 (agrees_lookup _ _) Ha (key x)) as E.
  destruct (bs !! key x) as [[[a t cr] st]|], (bs' !! key x) as [[[a' t' cr'] st']|]; cbn in E; try done.
  unfold strip, moved_at in E. cbn in E. by injection E as -> -> ->.
Qed.

(** The bonds and pools of two chains. *)
Record same_view (c c' : Chain.t) : Prop := {
  sv_bonds : agrees c.(delegation_bonds) c'.(delegation_bonds);
  sv_pools : c.(chain_value_pools) = c'.(chain_value_pools) }.

#[global] Instance same_view_equiv : Equivalence same_view.
Proof.
  split.
  - intros c. by split.
  - intros c c' [Hb Hp]. by split.
  - intros c1 c2 c3 [] []. split; by etrans.
Qed.

(** What a block needs of a chain only depends on its bonds and pools. *)
Lemma balanced_same c c' : same_view c c' → balanced c → balanced c'.
Proof.
  intros [Ha Hp] [Hpos Hb Hu]. split.
  - intros k v Hk. symmetry in Ha. destruct (agrees_some _ _ _ _ Ha Hk) as (w & Hw & <- & _).
    by eapply Hpos.
  - unfold staking_bonded in *. by rewrite <- Hp, Hb, (total_proper Active _ _ Ha).
  - unfold staking_unbonded in *. by rewrite <- Hp, Hu, (total_proper Unbonding _ _ Ha).
Qed.

Lemma enabled_agrees o o' a : strip <$> o = strip <$> o' → enabled o a → enabled o' a.
Proof.
  intros E. destruct o as [[[x t cr] st]|], o' as [[[x' t' cr'] st']|]; cbn in E; try done.
  unfold strip, moved_at in E. cbn in E. injection E as -> -> ->. unfold enabled. destruct (kind a); try done.
  - by intros [].
  - intros [b [= _ ->]]. by eexists.
  - intros (b & [= <- ->] & Hb). by eexists.
  - intros [b [= _ ->]]. by eexists.
Qed.

Lemma fits_same c c' xs change : same_view c c' → fits c xs change → fits c' xs change.
Proof.
  intros [Ha Hp] [Hk He Hc Hw Hch Hpo Haf Hs Hst]. split; try done.
  - apply (Forall_impl _ _ _ He). intros x. apply enabled_agrees. by apply agrees_lookup.
  - by rewrite <- Hp.
  - by rewrite <- Hp.
  - by rewrite <- (total_proper Active _ _ Ha), <- (total_proper Unbonding _ _ Ha).
  - assert (agrees (acts xs c'.(delegation_bonds)) (acts xs c.(delegation_bonds))) as HA
      by (by apply acts_proper; symmetry).
    intros (k & b & Hkb). destruct (agrees_some _ _ _ _ HA Hkb) as ([b' st] & Hkb' & _ & _ & Est).
    cbn in Est. subst st. rewrite (total_proper Active _ _ HA). eauto.
Qed.

(** ** Growth *)

Section growth.
Context {P : Profile}.

(** The result of a block, whatever the order of iteration. *)
Lemma update_block_same iter iter' c d height txs change c' d' :
  Iteration iter → Iteration iter' → same_view c d → balanced c → fits c (located height 0 txs) change →
  update_block iter height txs change c = Ret (inr c') →
  update_block iter' height txs change d = Ret (inr d') → same_view c' d'.
Proof.
  intros Hi Hi' Hs Hbal Hfit Hu Hu'. pose proof Hs as [Ha Hp]. set (xs := located height 0 txs) in *.
  pose proof (acts_proper xs _ _ Ha) as HA.
  assert (moved_pools c height txs change = moved_pools d height txs change) as Hmp.
  { unfold moved_pools. rewrite Hp. do 2 f_equal. by apply unbonded_sum_agrees. }
  destruct (update_block_eq iter c height txs change Hbal Hfit)
    as [[E1 N1]|(m & es & E1 & _ & Hm & _)]; rewrite Hu in E1; injection E1 as ->;
    destruct (update_block_eq iter' d height txs change (balanced_same _ _ Hs Hbal) (fits_same _ _ _ _ Hs Hfit))
    as [[E2 N2]|(m' & es' & E2 & _ & Hm' & _)]; rewrite Hu' in E2; injection E2 as ->.
  - by split.
  - destruct Hm' as (b & Hb & _). symmetry in HA. destruct (agrees_some _ _ _ _ HA Hb) as ([b' st] & Hb' & _ & _ & Est).
    cbn in Est. subst st. by apply N1 in Hb'.
  - destruct Hm as (b & Hb & _). destruct (agrees_some _ _ _ _ HA Hb) as ([b' st] & Hb' & _ & _ & Est).
    cbn in Est. subst st. by apply N2 in Hb'.
  - apply (is_max_agrees _ _ _ HA) in Hm. rewrite (is_max_unique _ _ _ Hm Hm').
    split; [by apply rewarded_agrees|].
    pose (f v := ValueBalance.set_staking_bonded_amount v (ValueBalance.staking_bonded v + BOND_REWARD_TOTAL)).
    change (f (moved_pools c height txs change) = f (moved_pools d height txs change)). by rewrite Hmp.
Qed.

(** A block with the rewards and targets recorded for it. *)
Record Logged := {
  lg_block : Block;
  lg_rewards : list (BondKey * Z);
  lg_targets : gmap BondKey bytes }.

(** The block [e] takes the state [v] to [v']. *)
Inductive step (e : Logged) (v v' : Chain.t) : Prop :=
| step_intro iter c c' :
  Iteration iter → same_view c v → balanced c →
  fits c (located e.(lg_block).(blk_height) 0 e.(lg_block).(blk_txs)) e.(lg_block).(blk_change) →
  update_block iter e.(lg_block).(blk_height) e.(lg_block).(blk_txs) e.(lg_block).(blk_change) c
  = Ret (inr c') →
  c'.(bond_rewards) = c.(bond_rewards) ++ [e.(lg_rewards)] →
  c'.(bond_retargets) = c.(bond_retargets) ++ [e.(lg_targets)] →
  same_view c' v' → step e v v'.

Inductive grows : Chain.t → list Logged → Chain.t → Prop :=
| grows_nil v v' : same_view v v' → grows v [] v'
| grows_cons e l v v1 v' : step e v v1 → grows v1 l v' → grows v (e :: l) v'.

#[global] Instance step_proper e : Proper (same_view ==> same_view ==> iff) (step e).
Proof.
  assert (∀ v v' w w', same_view v w → same_view v' w' → step e v v' → step e w w') as Himp.
  { intros v v' w w' H1 H2 [iter c c' Hi Hc Hb Hf Hu Hr Ht Hc'].
    exact (step_intro e w w' iter c c' Hi (transitivity Hc H1) Hb Hf Hu Hr Ht (transitivity Hc' H2)). }
  intros v w H1 v' w' H2. split; apply Himp; done.
Qed.

#[global] Instance grows_proper : Proper (same_view ==> eq ==> same_view ==> iff) grows.
Proof.
  assert (∀ l v v' w w', same_view v w → same_view v' w' → grows v l v' → grows w l w') as Himp.
  { intros l v v' w w' H1 H2 Hg. revert w H1 w' H2. induction Hg as [v v' Hs|e l v v1 v' He Hg IH]; intros w H1 w' H2.
    - constructor. by rewrite <- H1, Hs.
    - apply (grows_cons e l w v1); [by apply (step_proper e v w H1 v1 v1)|by apply IH]. }
  intros v w H1 l _ <- v' w' H2. split; apply Himp; done.
Qed.

Lemma step_same e e' v w v' w' :
  e.(lg_block) = e'.(lg_block) → same_view v w → step e v v' → step e' w w' → same_view v' w'.
Proof.
  intros Eb Hvw [iter c c' Hi Hc Hbal Hfit Hu _ _ Hc'] [iter' d d' Hi' Hd _ _ Hu' _ _ Hd'].
  rewrite <- Hc', <- Hd'. rewrite <- Eb in Hu'. eapply update_block_same; [exact Hi|exact Hi'| |done|exact Hfit|done|done].
  by rewrite Hc, Hvw.
Qed.

Lemma step_balanced e v v' : step e v v' → balanced v ∧ balanced v'.
Proof.
  intros [iter c c' Hi Hc Hbal Hfit Hu _ _ Hc']. split; [by eapply balanced_same|].
  destruct (update_block_balanced iter c _ _ _ Hbal Hfit) as (c2 & Hu2 & Hb2). rewrite Hu in Hu2.
  injection Hu2 as <-. by eapply balanced_same.
Qed.

(** The pools stay within the money supply. *)
Lemma step_pools e v v' : step e v v' → ValueBalance.ok NonNegative v'.(chain_value_pools).
Proof.
  intros [iter c c' Hi _ Hbal Hfit Hu _ _ [_ <-]].
  pose proof (moved_pools_ok c _ _ _ Hbal Hfit) as [_ Hok].
  destruct (update_block_eq iter c _ _ _ Hbal Hfit) as [[E _]|(m & es & E & Hpb & _)];
    rewrite Hu in E; injection E as ->; [done|].
  destruct (moved_pools_staking c _ _ _ Hbal Hfit) as [Hb _].
  pose proof (pb_supply _ Hpb) as Hs. pose proof (total_nonneg _ (pb_amounts _ Hpb) Active) as Hn.
  rewrite <- Hb in Hs, Hn. revert Hok Hs Hn.
  change (chain_value_pools (rewarded_chain c ?h ?t ?ch m es)) with
    (ValueBalance.set_staking_bonded_amount (moved_pools c h t ch)
    (ValueBalance.staking_bonded (moved_pools c h t ch) + BOND_REWARD_TOTAL)).
  generalize (moved_pools c (blk_height (lg_block e)) (blk_txs (lg_block e)) (blk_change (lg_block e))).
  intros p. unfold ValueBalance.ok, ValueBalance.pools, Amount.ok, BOND_REWARD_TOTAL. cbn.
  rewrite !Forall_cons, Forall_nil. lia.
Qed.

(** What is written for a block is what the block did. *)
Lemma step_written e v v' db :
  step e v v' → follows db v.(delegation_bonds) →
  let blk := e.(lg_block) in
  ∃ b, prepare_delegation_bonds_batch db blk.(blk_height) blk.(blk_txs) e.(lg_rewards) = Ret (inr b) ∧
  follows (write_batch db b) v'.(delegation_bonds) ∧
  prepare_chain_value_pools_batch blk.(blk_change) e.(lg_rewards)
  (amounts_of v.(delegation_bonds) (located blk.(blk_height) 0 blk.(blk_txs))) v.(chain_value_pools)
  = Ret (inr v'.(chain_value_pools)).
Proof.
  intros [iter c c' Hi [Ha Hp] Hbal Hfit Hu Hr _ [Ha' Hp']] Hf blk. rewrite <- Ha in Hf.
  destruct (block_written iter c _ _ _ Hbal Hfit db Hf c' Hu) as (rw & b & Hrw & Hb & Hf' & Hpools).
  rewrite Hr in Hrw. apply app_inj_tail in Hrw as [_ <-]. exists b. split; [done|].
  split; [by rewrite <- Ha'|]. rewrite <- Hp, <- Hp', <- Hpools. f_equal.
  unfold amounts_of. apply map_ext. intros x. f_equal. unfold unbonded. case_decide; [|done].
  pose proof (proj1 (agrees_lookup _ _) Ha (key x)) as E.
  destruct (_ !! key x) as [[[a t cr] st]|], (_ !! key x) as [[[a' t' cr'] st']|]; cbn in E; try done.
  unfold strip, moved_at in E. cbn in E. by injection E as -> -> ->.
Qed.

(** *** What a block does to one bond *)

Lemma update_block_lookup iter c height txs change c' k :
  Iteration iter → balanced c → fits c (located height 0 txs) change →
  update_block iter height txs change c = Ret (inr c') →
  ∃ r, c'.(delegation_bonds) !! k
  = (λ v, paid v (if decide (v.2 = Active) then r else 0)) <$> acts (located height 0 txs) c.(delegation_bonds) !! k.
Proof.
  intros Hi Hbal Hfit Hu. set (A := acts _ _).
  destruct (update_block_eq iter c height txs change Hbal Hfit)
    as [[E _]|(m & es & E & _ & Hm & _)]; rewrite Hu in E; injection E as ->.
  - exists 0. change (A !! k = (λ v, paid v (if decide (v.2 = Active) then 0 else 0)) <$> A !! k).
    destruct (A !! k) as [v|]; [|done]. cbn. f_equal. symmetry. destruct (decide _); apply paid_zero.
  - exists (from_option (reward A m k) 0 (A !! k)).
    change (rewarded A m !! k = (λ v, paid v (if decide (v.2 = Active) then from_option (reward A m k) 0 (A !! k)
      else 0)) <$> A !! k).
    unfold A. rewrite rewarded_lookup. fold A. destruct (A !! k) as [v|]; [|done]. cbn. do 2 f_equal.
    unfold reward. by case_decide.
Qed.

(** A bond that is not active keeps its amount, and no bond disappears. *)
Lemma step_bond e v v' k b st :
  step e v v' → v.(delegation_bonds) !! k = Some (b, st) →
  ∃ b' st', v'.(delegation_bonds) !! k = Some (b', st') ∧
  (st ≠ Active → st' ≠ Active ∧ b'.(bond_amount) = b.(bond_amount)).
Proof.
  intros [iter c c' Hi [Ha _] Hbal Hfit Hu _ _ [Ha' _]] Hk. symmetry in Ha.
  destruct (agrees_some _ _ _ _ Ha Hk) as ([bc stc] & Hc & Eab & _ & Est). cbn in Eab, Est. subst stc.
  destruct (update_block_lookup iter c _ _ _ c' k Hi Hbal Hfit Hu) as (r & Hr).
  set (xs := located _ _ _) in *.
  assert (∃ b1 st1, acts xs c.(delegation_bonds) !! k = Some (b1, st1) ∧
    (st ≠ Active → st1 ≠ Active ∧ b1.(bond_amount) = bc.(bond_amount))) as (b1 & st1 & H1 & Hf1).
  { destruct (decide (k ∈ map key xs)) as [(x & -> & Hx)%list_elem_of_fmap|Hn];
      [|exists bc, st; by rewrite acts_other].
    rewrite acts_here by (apply Hfit || done). pose proof (ft_enabled _ _ _ Hfit) as He. fold xs in He.
    eapply Forall_forall in He; [|exact Hx]. unfold enabled in He. unfold effect. rewrite Hc in He |- *.
    destruct (kind x.1); cbn; try (by eexists _, _; split; [done|]).
    by destruct He. }
  rewrite H1 in Hr. cbn in Hr.
  destruct (agrees_some _ _ _ _ Ha' Hr) as ([b' st'] & Hv' & Eb' & _ & Est'). cbn in Eb', Est'. subst st'.
  exists b', st1. split; [done|]. intros Hna. destruct (Hf1 Hna) as [Hna1 Eb1]. split; [done|].
  rewrite Eb', decide_False by done. lia.
Qed.

Lemma grows_bond v l v' k b st :
  grows v l v' → v.(delegation_bonds) !! k = Some (b, st) →
  ∃ b' st', v'.(delegation_bonds) !! k = Some (b', st') ∧
  (st ≠ Active → st' ≠ Active ∧ b'.(bond_amount) = b.(bond_amount)).
Proof.
  intros Hg. revert b st. induction Hg as [v v' [Ha _]|e l v v1 v' He Hg IH]; intros b st Hk.
  - destruct (agrees_some _ _ _ _ Ha Hk) as ([b' st'] & Hb' & Eb & _ & Est). cbn in *. subst st'. by exists b', st.
  - destruct (step_bond _ _ _ _ _ _ He Hk) as (b1 & st1 & H1 & Hf1).
    destruct (IH b1 st1 H1) as (b' & st' & H' & Hf'). exists b', st'. split; [done|]. intros Hna.
    destruct (Hf1 Hna) as [Hna1 Eb1]. destruct (Hf' Hna1) as [Hna' Eb']. split; [done|congruence].
Qed.

(** A bond that a block unbonds is not active after it, with the amount it
    had. *)
Lemma step_unbonds e v v' x :
  step e v v' → x ∈ located e.(lg_block).(blk_height) 0 e.(lg_block).(blk_txs) → unbonds x →
  ∃ b b' st', v.(delegation_bonds) !! key x = Some (b, Active) ∧
  v'.(delegation_bonds) !! key x = Some (b', st') ∧ st' ≠ Active ∧ b'.(bond_amount) = b.(bond_amount).
Proof.
  intros [iter c c' Hi [Ha _] Hbal Hfit Hu _ _ [Ha' _]] Hx Hun. set (xs := located _ _ _) in *.
  pose proof (ft_enabled _ _ _ Hfit) as He. fold xs in He. eapply Forall_forall in He; [|exact Hx].
  unfold enabled in He. rewrite Hun in He. destruct He as [bc Hc].
  destruct (agrees_some _ _ _ _ Ha Hc) as ([b st] & Hb & Eb & _ & Est). cbn in Eb, Est. subst st.
  destruct (update_block_lookup iter c _ _ _ c' (key x) Hi Hbal Hfit Hu) as (r & Hr). fold xs in Hr.
  rewrite acts_here in Hr by (apply Hfit || done). unfold effect in Hr. rewrite Hun, Hc in Hr. cbn in Hr.
  destruct (agrees_some _ _ _ _ Ha' Hr) as ([b' st'] & Hv' & Eb' & _ & Est'). cbn in Eb', Est'. subst st'.
  exists b, b', Unbonding. split; [done|]. split; [done|]. split; [done|]. rewrite Eb', <- Eb. apply Z.add_0_r.
Qed.

(** The amounts that are read at the tip when a block is finalized are those
    that the block moved. *)
Lemma amounts_at_tip e v v1 l v' :
  step e v v1 → grows v1 l v' → let blk := e.(lg_block) in
  unbonding_amounts v'.(delegation_bonds) blk.(blk_txs)
  = Ret (amounts_of v.(delegation_bonds) (located blk.(blk_height) 0 blk.(blk_txs))).
Proof.
  intros He Hg blk. set (xs := located _ _ _).
  assert (∀ x, x ∈ xs → unbonds x → ∃ b b' st, v.(delegation_bonds) !! key x = Some (b, Active) ∧
    v'.(delegation_bonds) !! key x = Some (b', st) ∧ b'.(bond_amount) = b.(bond_amount)) as Hall.
  { intros x Hx Hun. destruct (step_unbonds _ _ _ _ He Hx Hun) as (b & b1 & st1 & Hb & Hb1 & Hna & E1).
    destruct (grows_bond _ _ _ _ _ _ Hg Hb1) as (b' & st' & Hb' & Hf). destruct (Hf Hna) as [_ E'].
    exists b, b', st'. split; [done|]. split; [done|congruence]. }
  rewrite (unbonding_amounts_eq _ blk.(blk_height) _ 0); fold xs.
  - f_equal. unfold amounts_of. apply map_ext_in. intros x [Hun Hx]%list_elem_of_In%list_elem_of_filter.
    f_equal. destruct (Hall x Hx Hun) as (b & b' & st & Hb & Hb' & E). unfold unbonded. by rewrite Hb, Hb'; cbn; rewrite E.
  - intros x Hx Hun. destruct (Hall x Hx Hun) as (b & b' & st & _ & -> & _). by eexists.
Qed.

(** *** Adding a block at the tip *)

Lemma grows_trans v l1 v1 l2 v' : grows v l1 v1 → grows v1 l2 v' → grows v (l1 ++ l2) v'.
Proof.
  induction 1 as [v v1 Hs|e l v w v1 He Hg IH]; intros H2; cbn.
  - by rewrite Hs.
  - econstructor; [done|by apply IH].
Qed.

Lemma grows_one e v v' : grows v [e] v' ↔ step e v v'.
Proof.
  split.
  - inversion_clear 1 as [|? ? ? v1 ? He Hg]. inversion_clear Hg as [? ? Hs|]. by rewrite <- Hs.
  - intros He. econstructor; [done|]. by constructor.
Qed.

Lemma grows_app v l1 l2 v' : grows v (l1 ++ l2) v' → ∃ v1, grows v l1 v1 ∧ grows v1 l2 v'.
Proof.
  revert v. induction l1 as [|e l1 IH]; intros v Hg; cbn in Hg.
  - exists v. split; [by constructor|done].
  - inversion_clear Hg as [|? ? ? w ? He Hg']. destruct (IH w Hg') as (v1 & H1 & H2). exists v1.
    split; [by econstructor|done].
Qed.
End growth.

(** ** Reverting respects agreement *)

Lemma for_each_sim {A S S'} (R : S → S' → Prop) (f : S → A → outcome S) (g : S' → A → outcome S') l :
  (∀ x s s' t, R s s' → f s x = Ret t → ∃ t', g s' x = Ret t' ∧ R t t') →
  ∀ s s' t, R s s' → for_each f l s = Ret t → ∃ t', for_each g l s' = Ret t' ∧ R t t'.
Proof.
  intros Hstep. induction l as [|x l IH]; intros s s' t HR; cbn [for_each].
  - intros [= ->]. by exists s'.
  - destruct (f s x) as [s1|] eqn:E; cbn [mbind outcome_bind]; [|done]. intros Hl.
    destruct (Hstep _ _ _ _ HR E) as (s1' & -> & HR1). cbn [mbind outcome_bind]. by eapply IH.
Qed.

Lemma agrees_insert bs bs' k v v' :
  agrees bs bs' → strip v = strip v' → agrees (<[k := v]> bs) (<[k := v']> bs').
Proof. intros Ha Hv. unfold agrees in *. by rewrite !fmap_insert, Ha, Hv. Qed.

Lemma agrees_delete bs bs' k : agrees bs bs' → agrees (delete k bs) (delete k bs').
Proof. intros Ha. unfold agrees in *. by rewrite !fmap_delete, Ha. Qed.

Section revert_same.
Context (rs : list (list (BondKey * Z))) (ts : list (gmap BondKey bytes)).

(** Two chains while they are reverted. *)
Record reverting (c d : Chain.t) : Prop := {
  rv_view : same_view c d;
  rv_rewards : d.(bond_rewards) = rs;
  rv_retargets : d.(bond_retargets) = ts }.

Lemma reverting_bond c d k v :
  reverting c d → c.(delegation_bonds) !! k = Some v →
  ∃ b', d.(delegation_bonds) !! k = Some (b', v.2) ∧ b'.(bond_amount) = v.1.(bond_amount) ∧
  b'.(target_finalizer) = v.1.(target_finalizer).
Proof.
  intros [[Ha _] _ _] Hk. destruct (agrees_some _ _ _ _ Ha Hk) as ([b' st] & Hk' & Eb & Et & Est).
  cbn in *. subst st. by exists b'.
Qed.

Lemma reverting_pools c d : reverting c d → d.(chain_value_pools) = c.(chain_value_pools).
Proof. by intros [[_ ->] _ _]. Qed.

Lemma revert_reward_same r c d c' :
  reverting c d → revert_reward c r = Ret c' → ∃ d', revert_reward d r = Ret d' ∧ reverting c' d'.
Proof.
  intros Hr. unfold revert_reward. destruct (c.(delegation_bonds) !! r.1) as [[b st]|] eqn:Hk; [|done].
  destruct (reverting_bond _ _ _ _ Hr Hk) as (b' & -> & Eb & Et). cbn in Eb, Et. cbn [unwrap mbind outcome_bind].
  destruct (expect (Amount.try_from _ _)) as [v|]; [|done]. cbn [mbind outcome_bind]. rewrite Eb.
  destruct (expect (Amount.sub _ b.(bond_amount) v)) as [a|]; [|done]. cbn [mbind outcome_bind].
  unfold staking_bonded. cbn [chain_value_pools with_bonds]. rewrite (reverting_pools _ _ Hr).
  destruct (expect (Amount.sub _ _ v)) as [x|]; [|done]. intros [= <-]. eexists. split; [done|].
  destruct Hr as [[Ha Hp] ? ?]. split; [split|done|done]; cbn; [|by rewrite Hp].
  apply agrees_insert; [done|]. apply strip_eq. by cbn.
Qed.

Lemma revert_retarget_same x c d c' :
  reverting c d → revert_retarget c x = Ret c' → ∃ d', revert_retarget d x = Ret d' ∧ reverting c' d'.
Proof.
  intros Hr. unfold revert_retarget. destruct (c.(delegation_bonds) !! x.1) as [[b st]|] eqn:Hk; [|done].
  destruct (reverting_bond _ _ _ _ Hr Hk) as (b' & -> & Eb & Et). cbn in Eb, Et. cbn [unwrap mbind outcome_bind].
  intros [= <-]. eexists. split; [done|]. destruct Hr as [[Ha Hp] ? ?]. split; [split|done|done]; cbn; [|done].
  apply agrees_insert; [done|]. apply strip_eq. by cbn.
Qed.

Lemma revert_action_same a c d c' :
  reverting c d → revert_delegation_bond c a = Ret c' →
  ∃ d', revert_delegation_bond d a = Ret d' ∧ reverting c' d'.
Proof.
  intros Hr. pose proof (reverting_pools _ _ Hr) as Hpl. unfold revert_delegation_bond.
  destruct (kind a); try (intros [= <-]; by exists d).
  - destruct (c.(delegation_bonds) !! _) as [[b st]|] eqn:Hk; [|done].
    destruct (reverting_bond _ _ _ _ Hr Hk) as (b' & -> & _). intros [= <-]. eexists. split; [done|].
    destruct Hr as [[Ha Hp] ? ?]. split; [split|done|done]; cbn; [by apply agrees_delete|done].
  - destruct (c.(delegation_bonds) !! _) as [[b st]|] eqn:Hk; [|done].
    destruct (reverting_bond _ _ _ _ Hr Hk) as (b' & -> & Eb & Et). cbn in Eb, Et. cbn [unwrap mbind outcome_bind snd].
    case_decide; [|done]. unfold staking_bonded, staking_unbonded. cbn [chain_value_pools with_bonds].
    rewrite Hpl, Eb. destruct (expect (Amount.add _ _ _)) as [x|]; [|done]. cbn [mbind outcome_bind].
    cbn [chain_value_pools set_bonded with_pools with_bonds ValueBalance.staking_unbonded
      ValueBalance.set_staking_bonded_amount]. rewrite Hpl.
    destruct (expect (Amount.sub _ _ _)) as [y|]; [|done]. intros [= <-]. eexists. split; [done|].
    destruct Hr as [[Ha Hp] ? ?]. split; [split|done|done]; cbn; [|by rewrite Hp].
    apply agrees_insert; [done|]. apply strip_eq. by cbn.
  - destruct (c.(delegation_bonds) !! _) as [[b st]|] eqn:Hk; [|done].
    destruct (reverting_bond _ _ _ _ Hr Hk) as (b' & -> & Eb & Et). cbn in Eb, Et. cbn [unwrap mbind outcome_bind snd].
    case_decide; [|done]. intros [= <-]. eexists. split; [done|].
    destruct Hr as [[Ha Hp] ? ?]. split; [split|done|done]; cbn; [|done].
    apply agrees_insert; [done|]. apply strip_eq. by cbn.
Qed.
End revert_same.

Lemma revert_block_same iter_targets txs change c d rs ts rs' ts' rw rt c' :
  same_view c d → c.(bond_rewards) = rs ++ [rw] → c.(bond_retargets) = ts ++ [rt] →
  d.(bond_rewards) = rs' ++ [rw] → d.(bond_retargets) = ts' ++ [rt] →
  revert_block iter_targets txs change c = Ret c' →
  ∃ d', revert_block iter_targets txs change d = Ret d' ∧ same_view c' d' ∧
    d'.(bond_rewards) = rs' ∧ d'.(bond_retargets) = ts'.
Proof.
  intros Hs Hcr Hct Hdr Hdt. unfold revert_block.
  rewrite Hcr, Hdr, !last_snoc. cbn [unwrap mbind outcome_bind].
  rewrite !length_app, !Nat.add_sub, !take_app_length.
  destruct (for_each revert_reward rw (with_rewards c rs)) as [c1|] eqn:E1; [|done].
  destruct (for_each_sim (reverting rs' (ts' ++ [rt])) revert_reward revert_reward rw
    (revert_reward_same _ _) (with_rewards c rs) (with_rewards d rs') c1) as (d1 & -> & [Hv1 Hr1 Ht1]); [|done|].
  { destruct Hs. by split. }
  assert (c1.(bond_retargets) = ts ++ [rt]) as Hc1.
  { apply (for_each_inv (λ s, s.(bond_retargets) = ts ++ [rt]) revert_reward rw (with_rewards c rs) c1); [|done|done].
    intros s x s' _ Hinv. unfold revert_reward. destruct (_ !! _) as [[b st]|]; [|done]. cbn [unwrap mbind outcome_bind].
    destruct (expect _); [|done]. cbn [mbind outcome_bind]. destruct (expect _); [|done]. cbn [mbind outcome_bind].
    destruct (expect _); [|done]. by intros [= <-]. }
  cbn [mbind outcome_bind]. rewrite Hc1, Ht1, !last_snoc. cbn [unwrap mbind outcome_bind].
  rewrite !length_app, !Nat.add_sub, !take_app_length.
  destruct (for_each revert_retarget (iter_targets rt) _) as [c2|] eqn:E2; [|done].
  destruct (for_each_sim (reverting rs' ts') revert_retarget revert_retarget (iter_targets rt)
    (revert_retarget_same _ _) (with_retargets c1 ts) (with_retargets d1 ts') c2) as (d2 & -> & Hv2); [|done|].
  { destruct Hv1. by split. }
  cbn [mbind outcome_bind]. set (body := λ (c : Chain.t) _, _).
  destruct (for_each body txs c2) as [c3|] eqn:E3; [|done].
  destruct (for_each_sim (reverting rs' ts') body body txs) with (s := c2) (s' := d2) (t := c3)
    as (d3 & -> & [[Ha3 Hp3] Hr3 Ht3]); [|done|done|].
  { intros [a|] s s' t Hs'; cbn; [by apply revert_action_same|]. intros [= <-]. by exists s'. }
  cbn [mbind outcome_bind]. rewrite <- Hp3. destruct (ValueBalance.neg change) as [n|]; [|done].
  cbn [mbind outcome_bind]. destruct (expect _) as [p|]; [|done]. intros [= <-].
  eexists. split; [done|]. by split.
Qed.

(** Taking off the block that led to a state. *)
Lemma step_reverted {P : Profile} iter_targets e u v d rs ts :
  (∀ m, iter_targets m ≡ₚ map_to_list m) → step e u v → same_view v d →
  d.(bond_rewards) = rs ++ [e.(lg_rewards)] → d.(bond_retargets) = ts ++ [e.(lg_targets)] →
  ∃ d', revert_block iter_targets e.(lg_block).(blk_txs) e.(lg_block).(blk_change) d = Ret d' ∧
    same_view u d' ∧ d'.(bond_rewards) = rs ∧ d'.(bond_retargets) = ts.
Proof.
  intros Hit [iter c c' Hi Hc Hbal Hfit Hu Hr Ht Hc'] Hd Hdr Hdt.
  destruct (block_reverted iter iter_targets Hit c _ _ _ Hbal Hfit c' Hu) as (c'' & Hrev & [Sb _ _ Sp]).
  destruct (revert_block_same iter_targets _ _ c' d _ _ rs ts _ _ c'' (transitivity Hc' Hd) Hr Ht Hdr Hdt Hrev)
    as (d' & Hd' & Hv & Hrest).
  exists d'. split; [done|]. split; [|done]. rewrite <- Hc, <- Hv. by split.
Qed.
