(* ===== verification/NonFinalizedInv.v ===== *)
(** * NonFinalizedInv: the chains stay in step with the database

    The invariant of the write task: every chain starts at the finalized tip,
    its bonds and pools are those of the database after its blocks, no chain is
    a prefix of another, and the set is ordered.  Committing a block and
    finalizing one keep it, so the commit of a finalized block, which the code
    takes to be [unreachable!] when it fails, never fails. *)

From stdpp Require Import base list gmap sets sorting.
From S2P Require Import Prelude Wire Encoding Bft Roster Amount Staking Delegation DelegationInv DelegationBlock DelegationRevert Finalize NonFinalized FinalizeInv ChainGrowth.
Import StakingAction Chain.

(** ** One chain *)

(** Blocks that follow each other from a tip on. *)
Fixpoint linked (tip : Z * bytes) (l : list Block) : Prop :=
  match l with
  | [] => True
  | b :: l => b.(blk_height) = tip.1 + 1 ∧ b.(blk_parent) = tip.2 ∧ linked (b.(blk_height), b.(blk_hash)) l
  end.

Lemma linked_app tip l1 l2 :
  linked tip (l1 ++ l2) ↔
  linked tip l1 ∧ linked (from_option (λ b, (b.(blk_height), b.(blk_hash))) tip (last l1)) l2.
Proof.
  revert tip. induction l1 as [|b l1 IH]; intros tip; cbn [app linked]; [cbn; tauto|].
  rewrite IH, last_cons. destruct (last l1); cbn; tauto.
Qed.

Lemma linked_heights tip l b : linked tip l → b ∈ l → tip.1 < b.(blk_height).
Proof.
  revert tip. induction l as [|x l IH]; intros tip; [by intros _ ?%elem_of_nil|].
  intros (Hh & _ & Hl) [->|Hb]%elem_of_cons; [lia|]. specialize (IH _ Hl Hb). cbn in IH. lia.
Qed.

(** Every block is lower than those after it. *)
Lemma linked_lt tip l1 x l2 b : linked tip (l1 ++ x :: l2) → b ∈ l2 → x.(blk_height) < b.(blk_height).
Proof. intros [_ (_ & _ & Hl)]%linked_app Hb. by apply (linked_heights _ _ _ Hl). Qed.

Section chain.
Context {P : Profile}.

(** A chain whose blocks lead from the state [v] to its tip. *)
Definition above (v : Chain.t) (nc : NonFinalizedChain) : Prop :=
  ∃ log, grows v log nc.(nf_inner) ∧ nc.(nf_blocks) = map lg_block log ∧
    nc.(nf_inner).(bond_rewards) = map lg_rewards log ∧ nc.(nf_inner).(bond_retargets) = map lg_targets log.

(** The state of the finalized chain. *)
Record base (fin : FinalizedState.t) (v : Chain.t) : Prop := {
  bs_bonds : follows fin.(FinalizedState.db) v.(delegation_bonds);
  bs_pools : v.(chain_value_pools) = fin.(FinalizedState.pools);
  bs_balanced : balanced v;
  bs_supply : ValueBalance.ok NonNegative v.(chain_value_pools) }.

Lemma base_same fin v w : base fin v → base fin w → same_view v w.
Proof. intros [Hv Hp _ _] [Hw Hq _ _]. split; [by eapply follows_agrees|congruence]. Qed.

Lemma above_same v w nc : same_view v w → above v nc → above w nc.
Proof. intros Hs (log & Hg & Hrest). exists log. split; [by rewrite <- Hs|done]. Qed.

Definition pop (nc : NonFinalizedChain) : NonFinalizedChain :=
  {| nf_blocks := tail nc.(nf_blocks);
     nf_inner := with_retargets (with_rewards nc.(nf_inner) (tail nc.(nf_inner).(bond_rewards)))
             (tail nc.(nf_inner).(bond_retargets)) |}.

Lemma above_pop v nc blk rest :
  above v nc → nc.(nf_blocks) = blk :: rest →
  ∃ e w, e.(lg_block) = blk ∧ step e v w ∧ above w (pop nc) ∧
  pop_root nc = Ret (pop nc, (blk, e.(lg_rewards),
                              amounts_of v.(delegation_bonds) (located blk.(blk_height) 0 blk.(blk_txs)))).
Proof.
  intros (log & Hg & Hb & Hr & Ht) Hblk. rewrite Hblk in Hb.
  destruct log as [|e log]; [done|]. cbn in Hb, Hr, Ht. injection Hb as -> Hb.
  inversion_clear Hg as [|? ? ? w ? He Hg']. exists e, w. split; [done|]. split; [done|]. split.
  - exists log. unfold pop. rewrite Hblk, Hr, Ht. split; [|done].
    eapply (grows_proper w w (reflexivity _) log log eq_refl); [|exact Hg']. by split.
  - unfold pop_root, pop. rewrite Hblk, Hr, Ht. cbn [head hd_error tail default]. 
    cbn [delegation_bonds with_rewards with_retargets].
    rewrite (amounts_at_tip _ _ _ _ _ He Hg'). cbn. by rewrite Ht.
Qed.

(** Committing the root writes the state after it. *)
Lemma commit_ok fin v e w tip cs :
  base fin v → step e v w → fin.(FinalizedState.committed) = tip :: cs → 0 ≤ tip.1 →
  linked tip [e.(lg_block)] →
  let blk := e.(lg_block) in
  ∃ fin', commit_finalized_direct fin blk e.(lg_rewards)
  (amounts_of v.(delegation_bonds) (located blk.(blk_height) 0 blk.(blk_txs))) = Ret (inr fin') ∧
  base fin' w ∧
  fin'.(FinalizedState.committed) = (blk.(blk_height), blk.(blk_hash)) :: fin.(FinalizedState.committed).
Proof.
  intros [Hf Hp _ _] He Hc Ht (Hh & Hpar & _) blk. fold blk in Hh, Hpar.
  destruct (step_written e v w _ He Hf) as (b & Hb & Hf' & Hpools).
  destruct (step_balanced _ _ _ He) as [_ Hbal'].
  unfold commit_finalized_direct. rewrite Hc. destruct tip as [th thash]. cbn in Ht, Hh, Hpar.
  rewrite (proj2 (Z.eqb_eq _ _)) by lia. rewrite bool_decide_true by done. cbn [andb must mret Fallible_ret mbind Fallible_bind].
  unfold write_block. rewrite (proj2 (Z.eqb_neq _ 0)) by lia. fold blk in Hb, Hpools. rewrite Hb.
  cbn [mbind Fallible_bind]. rewrite <- Hp, Hpools. cbn [mbind Fallible_bind].
  eexists. split; [done|]. split; [split; [done|done|done|by eapply step_pools]|]. cbn. by rewrite Hc.
Qed.

(** *** Adding a block *)

Lemma new_follows fin v :
  base fin v → base fin (new_chain fin).(nf_inner) ∧ above v (new_chain fin).
Proof.
  intros [Hf Hp Hbal Hok].
  assert (follows fin.(FinalizedState.db) (new_chain fin).(nf_inner).(delegation_bonds)) as Hn.
  { intros k. cbn. rewrite lookup_merge. specialize (Hf k).
    inversion Hf as [E1 E2 E3|b s x Es E1 E2 E3]; cbn; [constructor|]. by constructor; destruct s. }
  assert (same_view v (new_chain fin).(nf_inner)) as Hs by (split; [by eapply follows_agrees|done]).
  split; [split; [done|done|by eapply balanced_same|by rewrite <- (sv_pools _ _ Hs)]|].
  exists []. split; [by constructor|done].
Qed.

Lemma above_balanced v nc : balanced v → above v nc → balanced nc.(nf_inner).
Proof.
  intros Hb (log & Hg & _). revert Hb. generalize dependent (nf_inner nc). intros c Hg.
  induction Hg as [v v' Hs|e l v v1 v' He Hg IH]; intros Hb; [by eapply balanced_same|].
  apply IH. by apply (step_balanced _ _ _ He).
Qed.

Lemma above_holds fin v nc : base fin v → above v nc → holds_finalized nc.(nf_inner) fin.(FinalizedState.db).
Proof.
  intros [Hf _ _ _] (log & Hg & _) k [b Hb]. specialize (Hf k). rewrite Hb in Hf.
  inversion Hf as [|? s [b' st] Es E1 E2 E3].
  destruct (grows_bond _ _ _ _ _ _ Hg (eq_sym E3)) as (b2 & st2 & -> & _). by eexists.
Qed.

(** What a block has to satisfy on top of a chain. *)
Record addable (nc : NonFinalizedChain) (blk : Block) : Prop := {
  ad_keys : NoDup (map arg32_0 (actions blk.(blk_txs)));
  ad_affordable : affordable nc.(nf_inner) (located blk.(blk_height) 0 blk.(blk_txs)) blk.(blk_change);
  ad_work : is_u 128 (partial_cumulative_work nc + blk.(blk_work)) }.

Lemma push_ok iter fin v nc blk :
  Iteration iter → base fin v → above v nc → addable nc blk →
  contains_block_hash blk.(blk_hash) nc = false →
  validate_delegation_bonds nc.(nf_inner) fin.(FinalizedState.db) blk.(blk_height) blk.(blk_txs) = Ret (inr ()) →
  ∃ nc', push iter nc blk = Ret (inr nc') ∧ nc'.(nf_blocks) = nc.(nf_blocks) ++ [blk] ∧ above v nc'.
Proof.
  intros Hi Hb Ha [Hk Haf Hw] Hn Hv.
  pose proof (above_balanced v nc (bs_balanced _ _ Hb) Ha) as Hbal.
  pose proof (validated_fits _ _ _ _ _ (above_holds _ _ _ Hb Ha) Hv Hk Haf) as Hfit.
  destruct (update_block_balanced iter _ _ _ _ Hbal Hfit) as (c' & Hu & _).
  unfold push. rewrite Hn, bool_decide_true by done. cbn [negb must mret Fallible_ret mbind Fallible_bind]. rewrite Hu.
  cbn [mbind Fallible_bind]. eexists. split; [done|]. split; [done|].
  destruct Ha as (log & Hg & Hbl & Hr & Ht).
  assert (∃ rw rt, c'.(bond_rewards) = nc.(nf_inner).(bond_rewards) ++ [rw] ∧
    c'.(bond_retargets) = nc.(nf_inner).(bond_retargets) ++ [rt]) as (rw & rt & Hrw & Hrt).
  { destruct (update_block_eq iter _ _ _ _ Hbal Hfit) as [[E _]|(m & es & E & _)]; rewrite Hu in E;
      injection E as ->; by eexists _, _. }
  exists (log ++ [{| lg_block := blk; lg_rewards := rw; lg_targets := rt |}]). cbn [nf_inner nf_blocks].
  rewrite !map_app, Hrw, Hrt, Hbl, Hr, Ht. split; [|done]. eapply grows_trans; [exact Hg|].
  apply grows_one. by eapply (step_intro _ _ _ iter _ c').
Qed.

(** Taking a block off the tip of a chain that has others. *)
Lemma pop_tip_ok iter_targets v nc blocks blk :
  (∀ m, iter_targets m ≡ₚ map_to_list m) → above v nc → nc.(nf_blocks) = blocks ++ [blk] → blocks ≠ [] →
  ∃ nc', pop_tip iter_targets nc = Ret nc' ∧ nc'.(nf_blocks) = blocks ∧ above v nc'.
Proof.
  intros Hit (log & Hg & Hb & Hr & Ht) Hbl Hne. rewrite Hbl in Hb.
  destruct log as [|e l _] using rev_ind; [by destruct blocks|].
  rewrite map_app in Hb, Hr, Ht. cbn in Hb, Hr, Ht. apply app_inj_tail in Hb as [-> ->].
  apply grows_app in Hg as (u & Hg & He%grows_one).
  destruct (step_reverted iter_targets e u _ nc.(nf_inner) _ _ Hit He (reflexivity _) Hr Ht)
    as (d' & Hd & Hs & Hdr & Hdt).
  unfold pop_tip. rewrite Hbl, last_snoc. cbn [unwrap mbind outcome_bind].
  rewrite length_app, Nat.add_sub, take_app_length, decide_False by done. rewrite Hd. cbn [mbind outcome_bind].
  eexists. split; [done|]. split; [done|]. exists l. cbn. split; [by rewrite <- Hs|done].
Qed.
End chain.

(** ** The set of chains *)

Definition chain_lt (a b : NonFinalizedChain) : Prop := chain_cmp a b = Ret Lt.

Lemma chain_lt_irrefl a : ¬ chain_lt a a.
Proof.
  unfold chain_lt, chain_cmp. rewrite Z.eqb_refl. destruct (non_finalized_tip_hash a) as [h|]; [|done].
  cbn. destruct (bytes_cmp h h) eqn:E; [done| |done]. pose proof (bytes_cmp_antisym h h) as E'. by rewrite E in E'.
Qed.

Lemma sorted_nodup l : StronglySorted chain_lt l → NoDup l.
Proof.
  induction 1 as [|a l Hs IH Hf]; constructor; [|done]. intros Ha. rewrite Forall_forall in Hf.
  by apply (chain_lt_irrefl a), Hf.
Qed.

Record state_ok {P : Profile} (s : NonFinalizedState) (fin : FinalizedState.t) : Prop := {
  so_tip : ∃ tip cs, fin.(FinalizedState.committed) = tip :: cs ∧ 0 ≤ tip.1 ∧
    ∀ nc, nc ∈ s.(chain_set) → linked tip nc.(nf_blocks);
  so_base : ∃ v, base fin v ∧ ∀ nc, nc ∈ s.(chain_set) → above v nc;
  so_blocks : ∀ nc, nc ∈ s.(chain_set) → nc.(nf_blocks) ≠ [];
  so_sorted : StronglySorted chain_lt s.(chain_set);
  (** A hash stands for one block, which is not finalized. *)
  so_same : ∀ nc nc' b b', nc ∈ s.(chain_set) → nc' ∈ s.(chain_set) → b ∈ nc.(nf_blocks) →
    b' ∈ nc'.(nf_blocks) → b.(blk_hash) = b'.(blk_hash) → b = b';
  so_fresh : ∀ nc b, nc ∈ s.(chain_set) → b ∈ nc.(nf_blocks) →
    b.(blk_hash) ∉ fin.(FinalizedState.committed).*2;
  (** No chain is part of another. *)
  so_tips : ∀ nc nc' b, nc ∈ s.(chain_set) → nc' ∈ s.(chain_set) →
    last nc.(nf_blocks) = Some b → b ∈ nc'.(nf_blocks) → nc = nc';
  so_length : (length s.(chain_set) ≤ MAX_NON_FINALIZED_CHAIN_FORKS)%nat }.

(** *** Popping keeps the order *)

Definition rooted (blk : Block) (nc : NonFinalizedChain) : Prop := head nc.(nf_blocks) = Some blk.
#[global] Instance rooted_dec blk nc : Decision (rooted blk nc).
Proof. unfold rooted. apply _. Defined.

Lemma rooted_blocks blk nc : rooted blk nc → nc.(nf_blocks) = blk :: (pop nc).(nf_blocks).
Proof. unfold rooted. destruct nc as [[|b l] c]; cbn; [done|]. by intros [= ->]. Qed.

Lemma pop_work blk nc :
  rooted blk nc → partial_cumulative_work nc = blk.(blk_work) + partial_cumulative_work (pop nc).
Proof. intros Hr. unfold partial_cumulative_work. by rewrite (rooted_blocks _ _ Hr). Qed.

Lemma pop_tip_hash blk nc :
  rooted blk nc → (pop nc).(nf_blocks) ≠ [] → non_finalized_tip_hash (pop nc) = non_finalized_tip_hash nc.
Proof.
  intros Hr Hne. unfold non_finalized_tip_hash. rewrite (rooted_blocks _ _ Hr).
  by destruct (pop nc).(nf_blocks).
Qed.

Lemma pop_lt blk a b :
  rooted blk a → rooted blk b → (pop a).(nf_blocks) ≠ [] → (pop b).(nf_blocks) ≠ [] →
  chain_lt a b → chain_lt (pop a) (pop b).
Proof.
  intros Ha Hb Na Nb. unfold chain_lt, chain_cmp. rewrite (pop_work _ _ Ha), (pop_work _ _ Hb).
  rewrite (pop_tip_hash _ _ Ha Na), (pop_tip_hash _ _ Hb Nb).
  set (x := partial_cumulative_work (pop a)). set (y := partial_cumulative_work (pop b)).
  destruct (Z.eqb_spec x y) as [->|Hne]; [by rewrite Z.eqb_refl|].
  rewrite (proj2 (Z.eqb_neq _ _)) by lia. intros [= E]. f_equal.
  rewrite Z.compare_lt_iff in *. lia.
Qed.

(** Inserting below the others. *)
Lemma chain_insert_lt nc l : Forall (chain_lt nc) l → chain_insert nc l = Ret (nc :: l).
Proof. destruct 1 as [|x l Hx]; [done|]. cbn. unfold chain_lt in Hx. by rewrite Hx. Qed.

Lemma insert_chain_lt nc s :
  Forall (chain_lt nc) s.(chain_set) → (length s.(chain_set) < MAX_NON_FINALIZED_CHAIN_FORKS)%nat →
  insert_chain nc s = Ret (with_chains s (nc :: s.(chain_set))).
Proof.
  intros Hlt Hlen. unfold insert_chain, insert_with. rewrite (chain_insert_lt _ _ Hlt).
  cbn [mbind outcome_bind length]. by rewrite (proj2 (Nat.sub_0_le _ _)) by lia.
Qed.

(** The side chains that are left. *)
Definition popped (blk : Block) (side : list NonFinalizedChain) : list NonFinalizedChain :=
  map pop (filter (rooted blk) side).

Lemma popped_in blk side nc : nc ∈ popped blk side ↔ ∃ x, x ∈ side ∧ rooted blk x ∧ nc = pop x.
Proof. unfold popped. rewrite list_elem_of_fmap. setoid_rewrite list_elem_of_filter. naive_solver. Qed.

Lemma popped_length blk side : (length (popped blk side) ≤ length side)%nat.
Proof. unfold popped. rewrite length_map. apply length_filter. Qed.

(** *** Finalizing *)

Lemma finalize_side_rooted blk nc s rw am :
  rooted blk nc → pop_root nc = Ret (pop nc, (blk, rw, am)) →
  finalize_side blk.(blk_hash) s nc = insert_chain (pop nc) s.
Proof.
  unfold rooted. intros Hr Hp. unfold finalize_side, non_finalized_root_hash. rewrite Hr, Hp.
  cbn [unwrap mbind outcome_bind]. by rewrite !decide_True by done.
Qed.

Lemma finalize_side_other hash nc s b :
  head nc.(nf_blocks) = Some b → b.(blk_hash) ≠ hash → finalize_side hash s nc = Ret s.
Proof.
  intros Hb Hne. unfold finalize_side, non_finalized_root_hash. rewrite Hb. cbn. by rewrite decide_False.
Qed.

Lemma side_loop s blk side : ∀ acc,
  (∀ nc, nc ∈ side → nc.(nf_blocks) ≠ []) →
  (∀ nc b, nc ∈ side → head nc.(nf_blocks) = Some b → b.(blk_hash) = blk.(blk_hash) → b = blk) →
  (∀ nc, nc ∈ side → rooted blk nc → ∃ rw am, pop_root nc = Ret (pop nc, (blk, rw, am))) →
  StronglySorted chain_lt (popped blk side ++ acc) →
  (length (popped blk side ++ acc) ≤ MAX_NON_FINALIZED_CHAIN_FORKS)%nat →
  for_each (finalize_side blk.(blk_hash)) (reverse side) (with_chains s acc)
  = Ret (with_chains s (popped blk side ++ acc)).
Proof.
  induction side as [|nc side IH] using rev_ind; intros acc Hne Hsame Hpop Hs Hlen; [done|].
  rewrite reverse_snoc. cbn [for_each]. unfold popped in Hs, Hlen |- *.
  rewrite filter_app, map_app, <- app_assoc in Hs, Hlen |- *. fold (popped blk side) in Hs, Hlen |- *.
  rewrite filter_cons in Hs, Hlen |- *. rewrite filter_nil in Hs, Hlen |- *.
  assert (∃ b, head nc.(nf_blocks) = Some b) as [b Hb].
  { specialize (Hne nc ltac:(set_solver)). destruct nc.(nf_blocks); [done|]. by eexists. }
  destruct (decide (rooted blk nc)) as [Hr|Hr]; cbn [map app] in Hs, Hlen |- *.
  - destruct (Hpop nc ltac:(set_solver) Hr) as (rw & am & Hp).
    rewrite (finalize_side_rooted _ _ _ _ _ Hr Hp), insert_chain_lt; cbn [chain_set with_chains mbind outcome_bind].
    + rewrite <- (IH (pop nc :: acc)); [done|..]; try done; intros; (eapply Hne || eapply Hsame || eapply Hpop); set_solver.
    + apply StronglySorted_app_1_r in Hs. by apply StronglySorted_cons in Hs as [? _].
    + rewrite length_app in Hlen. cbn in Hlen. lia.
  - rewrite (finalize_side_other _ _ _ _ Hb).
    + cbn [mbind outcome_bind]. apply IH; try done; intros; (eapply Hne || eapply Hsame || eapply Hpop); set_solver.
    + intros E. apply Hr. unfold rooted. by rewrite Hb, (Hsame nc b ltac:(set_solver) Hb E).
Qed.

Section finalizing.
Context {P : Profile}.

(** The chains after the root [blk] of the best chain was taken off. *)
Lemma popped_sorted blk l :
  StronglySorted chain_lt l → (∀ nc, nc ∈ l → rooted blk nc → (pop nc).(nf_blocks) ≠ []) →
  StronglySorted chain_lt (popped blk l).
Proof.
  unfold popped. induction 1 as [|a l Hs IH Hf]; intros Hne; [constructor|].
  rewrite filter_cons. case_decide as Ha; [|by apply IH; set_solver]. cbn [map]. constructor; [by apply IH; set_solver|].
  apply Forall_map, Forall_forall. intros b [Hb Hin]%list_elem_of_filter. rewrite Forall_forall in Hf.
  apply (pop_lt blk); [done|done|apply Hne; set_solver|apply Hne; set_solver|by apply Hf].
Qed.

(** The best chain, and what is left when its root is taken off. *)
Lemma best_root s fin :
  state_ok s fin → s.(chain_set) ≠ [] →
  ∃ side best blk, s.(chain_set) = side ++ [best] ∧ rooted blk best ∧
  (∀ nc, nc ∈ side → rooted blk nc → (pop nc).(nf_blocks) ≠ [] ∧ (pop best).(nf_blocks) ≠ []).
Proof.
  intros Hok Hne. destruct s.(chain_set) as [|best side _] eqn:Hset using rev_ind; [done|].
  assert (best ∈ s.(chain_set)) as Hbest by (rewrite Hset; set_solver).
  destruct best.(nf_blocks) as [|blk rest] eqn:Hb; [by destruct (so_blocks _ _ Hok best Hbest)|].
  exists side, best, blk. split; [done|]. split; [unfold rooted; by rewrite Hb|]. intros nc Hnc Hr.
  assert (nc ∈ s.(chain_set)) as Hnc' by (rewrite Hset; set_solver).
  assert (nc ≠ best) as Hd.
  { intros ->. pose proof (sorted_nodup _ (so_sorted _ _ Hok)) as Hnd. rewrite Hset in Hnd.
    apply NoDup_app in Hnd as (_ & Hnd & _). by apply (Hnd best Hnc), list_elem_of_here. }
  pose proof (rooted_blocks _ _ Hr) as Hbl. split; intros E.
  - rewrite E in Hbl. apply Hd, (so_tips _ _ Hok nc best blk Hnc' Hbest); [by rewrite Hbl|rewrite Hb; set_solver].
  - unfold pop in E. cbn in E. rewrite Hb in E. cbn in E. subst rest. apply not_eq_sym in Hd. apply Hd.
    apply (so_tips _ _ Hok best nc blk Hbest Hnc'); [by rewrite Hb|rewrite Hbl; set_solver].
Qed.

(** The chains that are left still are on top of the database. *)
Lemma popped_above s fin v e w blk nc :
  state_ok s fin → base fin v → e.(lg_block) = blk → step e v w → nc ∈ s.(chain_set) → rooted blk nc →
  above w (pop nc) ∧ ∃ rw am, pop_root nc = Ret (pop nc, (blk, rw, am)).
Proof.
  intros Hok Hv Eb He Hnc Hr. destruct (so_base _ _ Hok) as (v' & Hv' & Hab).
  pose proof (base_same _ _ _ Hv' Hv) as Hvv. specialize (Hab nc Hnc). apply (above_same _ v _ Hvv) in Hab.
  destruct (above_pop v nc blk _ Hab (rooted_blocks _ _ Hr)) as (e' & w' & Eb' & He' & Hab' & Hpop).
  split; [|by eexists _, _]. eapply above_same; [|exact Hab'].
  eapply step_same; [|reflexivity|exact He'|exact He]. congruence.
Qed.

(** What the chains are after a round of finalization. *)
Definition left_over (blk : Block) (side : list NonFinalizedChain) (best : NonFinalizedChain)
    : list NonFinalizedChain :=
  popped blk side ++ (if decide ((pop best).(nf_blocks) = []) then [] else [pop best]).

Lemma left_over_in blk side best nc :
  rooted blk best → nc ∈ left_over blk side best →
  ∃ x, x ∈ side ++ [best] ∧ rooted blk x ∧ nc = pop x.
Proof.
  intros Hr. unfold left_over. rewrite elem_of_app, popped_in. intros [(x & Hx & Hrx & ->)|Hin].
  - exists x. split; [set_solver|done].
  - case_decide; [by apply elem_of_nil in Hin|]. apply list_elem_of_singleton in Hin as ->.
    exists best. split; [set_solver|done].
Qed.

Lemma left_over_sorted s fin blk side best :
  state_ok s fin → s.(chain_set) = side ++ [best] → rooted blk best →
  (∀ nc, nc ∈ side → rooted blk nc → (pop nc).(nf_blocks) ≠ [] ∧ (pop best).(nf_blocks) ≠ []) →
  StronglySorted chain_lt (left_over blk side best) ∧
  (∀ nc, nc ∈ left_over blk side best → nc.(nf_blocks) ≠ []) ∧
  (length (left_over blk side best) ≤ length s.(chain_set))%nat.
Proof.
  intros Hok Hset Hr Hpop. pose proof (so_sorted _ _ Hok) as Hs. rewrite Hset in Hs |- *. unfold left_over. split.
  - case_decide as Hb.
    + rewrite app_nil_r. apply popped_sorted; [by eapply StronglySorted_app_1_l|]. intros nc Hnc Hrn. by apply Hpop.
    + pose proof (popped_sorted blk (side ++ [best]) Hs) as Hps. unfold popped in Hps.
      rewrite filter_app, map_app, filter_cons_True in Hps by done. apply Hps. intros nc [Hnc|Hnc]%elem_of_app Hrn.
      * by apply Hpop.
      * by apply list_elem_of_singleton in Hnc as ->.
  - split.
    + intros nc [(x & Hx & Hrx & ->)%popped_in|Hin]%elem_of_app; [by apply Hpop|].
      case_decide; [by apply elem_of_nil in Hin|]. by apply list_elem_of_singleton in Hin as ->.
    + rewrite !length_app. pose proof (popped_length blk side). case_decide; cbn; lia.
Qed.

Lemma finalize_eq s fin blk side best rw am :
  state_ok s fin → s.(chain_set) = side ++ [best] → rooted blk best →
  (∀ nc, nc ∈ side → rooted blk nc → (pop nc).(nf_blocks) ≠ [] ∧ (pop best).(nf_blocks) ≠ []) →
  (∀ nc, nc ∈ side → rooted blk nc → ∃ rw am, pop_root nc = Ret (pop nc, (blk, rw, am))) →
  pop_root best = Ret (pop best, (blk, rw, am)) →
  ∃ s', finalize s = Ret (s', (blk, rw, am)) ∧ s'.(chain_set) = left_over blk side best.
Proof.
  intros Hok Hset Hr Hpop Hside Hbest.
  destruct (left_over_sorted s fin blk side best Hok Hset Hr Hpop) as (Hs & _ & Hlen).
  pose proof (so_length _ _ Hok) as Hl.
  unfold finalize. rewrite Hset, last_snoc. cbn [unwrap mbind outcome_bind]. rewrite Hbest.
  cbn [mbind outcome_bind]. rewrite length_app, Nat.add_sub, take_app_length. unfold left_over in Hs, Hlen |- *.
  assert ((if decide ((pop best).(nf_blocks) = []) then Ret (with_chains s [])
    else insert_chain (pop best) (with_chains s [])) = Ret (with_chains s
    (if decide ((pop best).(nf_blocks) = []) then [] else [pop best]))) as ->.
  { case_decide; [done|]. rewrite insert_chain_lt; [done|by apply Forall_nil|cbn; unfold MAX_NON_FINALIZED_CHAIN_FORKS; lia]. }
  cbn [mbind outcome_bind]. rewrite side_loop; [|..|done|lia].
  - cbn [mbind outcome_bind]. eexists. split; [done|]. done.
  - intros nc Hnc. apply (so_blocks _ _ Hok). rewrite Hset. set_solver.
  - intros nc b Hnc Hb Eh. apply (so_same _ _ Hok nc best); [rewrite Hset; set_solver..| | |done].
    + destruct nc.(nf_blocks); [done|]. injection Hb as ->. set_solver.
    + rewrite (rooted_blocks _ _ Hr). set_solver.
  - done.
Qed.

(** One round of finalization: nothing fails, and the invariant is kept. *)
Lemma finalize_next_ok s fin :
  state_ok s fin → s.(chain_set) ≠ [] →
  ∃ side best blk s' fin', s.(chain_set) = side ++ [best] ∧ rooted blk best ∧
  finalize_next (s, fin) = Ret (s', fin') ∧ state_ok s' fin' ∧
  s'.(chain_set) = left_over blk side best ∧
  fin'.(FinalizedState.committed) = (blk.(blk_height), blk.(blk_hash)) :: fin.(FinalizedState.committed).
Proof.
  intros Hok Hne. destruct (best_root s fin Hok Hne) as (side & best & blk & Hset & Hr & Hpop).
  destruct (so_base _ _ Hok) as (v & Hv & Hab). destruct (so_tip _ _ Hok) as (tip & cs & Hc & Ht & Hlk).
  assert (best ∈ s.(chain_set)) as Hbest by (rewrite Hset; set_solver).
  destruct (above_pop v best blk _ (Hab best Hbest) (rooted_blocks _ _ Hr)) as (e & w & Eb & He & _ & Hpb).
  assert (∀ nc, nc ∈ s.(chain_set) → rooted blk nc →
    above w (pop nc) ∧ ∃ rw am, pop_root nc = Ret (pop nc, (blk, rw, am))) as Hall.
  { intros nc. by apply (popped_above s fin v e w blk nc). }
  edestruct (finalize_eq s fin blk side best) as (s' & Hfin & Hset'); [done|done|done|done| |exact Hpb|].
  { intros nc Hnc Hrn. apply Hall; [rewrite Hset; set_solver|done]. }
  pose proof (Hlk best Hbest) as Hlb. rewrite (rooted_blocks _ _ Hr) in Hlb.
  destruct (commit_ok fin v e w tip cs Hv He Hc Ht) as (fin' & Hcm & Hbase & Hcs).
  { rewrite Eb. destruct Hlb as (? & ? & _). by repeat split. }
  rewrite Eb in Hcm, Hcs. exists side, best, blk, s', fin'. split; [done|]. split; [done|]. split.
  { unfold finalize_next. cbn [fst snd]. rewrite Hfin. cbn [mbind outcome_bind]. rewrite Hcm. done. }
  split; [|done]. destruct (left_over_sorted s fin blk side best Hok Hset Hr Hpop) as (Hs & Hnb & Hlen).
  assert (∀ nc, nc ∈ s'.(chain_set) → ∃ x, x ∈ s.(chain_set) ∧ rooted blk x ∧ nc = pop x) as Hfrom.
  { intros nc Hnc. rewrite Hset' in Hnc. rewrite Hset. by apply (left_over_in blk side best). }
  assert (∀ x b, rooted blk x → b ∈ (pop x).(nf_blocks) → b ∈ x.(nf_blocks)) as Hsub.
  { intros x b Hrx Hb. rewrite (rooted_blocks _ _ Hrx). set_solver. }
  split.
  - exists (blk.(blk_height), blk.(blk_hash)), fin.(FinalizedState.committed). split; [done|].
    destruct Hlb as (Hh & _). split; [cbn; lia|]. intros nc (x & Hx & Hrx & ->)%Hfrom.
    pose proof (Hlk x Hx) as Hlx. rewrite (rooted_blocks _ _ Hrx) in Hlx. apply Hlx.
  - exists w. split; [done|]. intros nc (x & Hx & Hrx & ->)%Hfrom. by apply Hall.
  - intros nc Hnc. rewrite Hset' in Hnc. by apply Hnb.
  - by rewrite Hset'.
  - intros nc nc' b b' (x & Hx & Hrx & ->)%Hfrom (y & Hy & Hry & ->)%Hfrom Hb Hb'.
    apply (so_same _ _ Hok x y); [done|done|by apply Hsub|by apply Hsub].
  - intros nc b (x & Hx & Hrx & ->)%Hfrom Hb. rewrite Hcs. cbn [fmap list_fmap snd]. apply not_elem_of_cons. split.
    + intros E. pose proof (Hlk x Hx) as Hlx. rewrite (rooted_blocks _ _ Hrx) in Hlx.
      pose proof (linked_lt tip [] blk _ b Hlx Hb) as Hlt.
      assert (b = blk) as ->; [|lia]. apply (so_same _ _ Hok x x); [done|done|by apply Hsub| |done].
      rewrite (rooted_blocks _ _ Hrx). set_solver.
    + by apply (so_fresh _ _ Hok x b), Hsub.
  - intros nc nc' b (x & Hx & Hrx & ->)%Hfrom (y & Hy & Hry & ->)%Hfrom Hl Hb. f_equal.
    apply (so_tips _ _ Hok x y b); [done|done| |by apply Hsub].
    rewrite (rooted_blocks _ _ Hrx), last_cons, Hl. done.
  - rewrite Hset'. pose proof (so_length _ _ Hok). lia.
Qed.
End finalizing.

(** ** Fewer chains *)

Lemma sorted_sublist {A} (R : A → A → Prop) l l' : sublist l' l → StronglySorted R l → StronglySorted R l'.
Proof.
  induction 1 as [|x l1 l2 Hl IH|x l1 l2 Hl IH]; intros Hs; [done|..];
    apply StronglySorted_cons in Hs as [Hx Hs]; [|by apply IH]. constructor; [by apply IH|].
  rewrite Forall_forall in Hx |- *. intros y Hy. apply Hx. by eapply sublist_subseteq.
Qed.

Lemma state_ok_sublist {P : Profile} s fin l :
  state_ok s fin → sublist l s.(chain_set) → state_ok (with_chains s l) fin.
Proof.
  intros [(tip & cs & Hc & Ht & Hlk) (v & Hv & Hab) Hbl Hs Hsame Hfr Htips Hlen] Hl.
  assert (∀ nc, nc ∈ l → nc ∈ s.(chain_set)) as Hsub by (intros nc; by apply sublist_subseteq).
  split; cbn [chain_set with_chains].
  - exists tip, cs. split; [done|]. split; [done|]. intros nc Hnc. by apply Hlk, Hsub.
  - exists v. split; [done|]. intros nc Hnc. by apply Hab, Hsub.
  - intros nc Hnc. by apply Hbl, Hsub.
  - by eapply sorted_sublist.
  - intros nc nc' b b' H1 H2. by apply (Hsame nc nc'); apply Hsub.
  - intros nc b H1. by apply (Hfr nc), Hsub.
  - intros nc nc' b H1 H2. by apply Htips; apply Hsub.
  - apply sublist_length in Hl. lia.
Qed.

(** ** Finding chains and blocks *)

Lemma find_m_pure {A} (p : A → bool) l :
  find_m (λ x, Ret (p x)) l = Ret (head (filter (λ x, p x = true) l)).
Proof.
  induction l as [|x l IH]; [done|]. cbn [find_m mbind outcome_bind]. rewrite filter_cons.
  destruct (p x) eqn:E; [by rewrite decide_True|by rewrite decide_False].
Qed.

Lemma find_chain_pure p s :
  find_chain (λ x, Ret (p x)) s = Ret (last (filter (λ x, p x = true) s.(chain_set))).
Proof. unfold find_chain. by rewrite find_m_pure, filter_reverse, head_reverse. Qed.

Lemma contains_spec hash nc :
  contains_block_hash hash nc = true ↔ ∃ b, b ∈ nc.(nf_blocks) ∧ b.(blk_hash) = hash.
Proof.
  unfold contains_block_hash. rewrite existsb_exists. setoid_rewrite list_elem_of_In.
  by setoid_rewrite bool_decide_eq_true.
Qed.

Lemma height_by_hash_some nc hash h :
  height_by_hash nc hash = Some h →
  ∃ pre b post, nc.(nf_blocks) = pre ++ b :: post ∧ b.(blk_hash) = hash ∧ b.(blk_height) = h.
Proof.
  unfold height_by_hash. intros (b & Hb & ->)%fmap_Some. apply find_some in Hb as [Hin Hh].
  apply bool_decide_eq_true in Hh. apply list_elem_of_In, list_elem_of_split in Hin as (pre & post & ->).
  by exists pre, b, post.
Qed.

Lemma height_by_hash_contains nc hash :
  is_Some (height_by_hash nc hash) ↔ contains_block_hash hash nc = true.
Proof.
  rewrite contains_spec. split.
  - intros [h (pre & b & post & -> & Hb & _)%height_by_hash_some]. exists b. split; [set_solver|done].
  - intros (b & Hin & Hb). unfold height_by_hash. rewrite fmap_is_Some.
    destruct (find _ _) as [x|] eqn:E; [by eexists|]. exfalso.
    eapply find_none in E; [|by apply list_elem_of_In]. by apply bool_decide_eq_false in E.
Qed.

(** The blocks of a chain up to a height. *)
Lemma blocks_up_to tip pre b post :
  linked tip (pre ++ b :: post) →
  filter (λ x, x.(blk_height) ≤ b.(blk_height)) (pre ++ b :: post) = pre ++ [b].
Proof.
  intros Hl. rewrite filter_app, filter_cons_True by lia. f_equal; [|f_equal].
  - induction pre as [|x pre IH] in tip, Hl |- *; [done|]. rewrite filter_cons_True; [|].
    + f_equal. eapply IH, Hl.
    + apply Z.lt_le_incl. apply (linked_lt tip [] x (pre ++ b :: post) b Hl). set_solver.
  - assert (∀ x, x ∈ post → b.(blk_height) < x.(blk_height)) as Hgt by (intros x; by eapply linked_lt).
    clear Hl. induction post as [|x post IH]; [done|]. rewrite filter_cons_False.
    + apply IH. set_solver.
    + specialize (Hgt x ltac:(set_solver)). lia.
Qed.

(** ** Finalizing several blocks *)

Definition committed_as (b : Block) : Z * bytes := (b.(blk_height), b.(blk_hash)).

Section rounds.
Context {P : Profile}.

Lemma finalize_rounds {A} pre : ∀ s fin best b post (l : list A),
  state_ok s fin → last s.(chain_set) = Some best → best.(nf_blocks) = pre ++ b :: post →
  length l = S (length pre) →
  ∃ s' fin', for_each (λ s _, finalize_next s) l (s, fin) = Ret (s', fin') ∧ state_ok s' fin' ∧
  fin'.(FinalizedState.committed)
  = reverse (map committed_as (pre ++ [b])) ++ fin.(FinalizedState.committed) ∧
  (post ≠ [] → ∃ best', last s'.(chain_set) = Some best' ∧ best'.(nf_blocks) = post) ∧
  (post = [] → s'.(chain_set) = []).
Proof.
  induction pre as [|x pre IH]; intros s fin best b post l Hok Hbest Hb Hl;
    (destruct l as [|y l]; [done|]); cbn [for_each];
    (destruct (finalize_next_ok s fin Hok) as (side & best' & blk & s1 & fin1 & Hset & Hr & Hn & Hok1 & Hset1 & Hc1);
    [by intros E; rewrite E in Hbest|]);
    rewrite Hset, last_snoc in Hbest; injection Hbest as ->; rewrite Hn; cbn [mbind outcome_bind];
    pose proof (rooted_blocks _ _ Hr) as Hbl; rewrite Hb in Hbl; cbn [app] in Hbl; injection Hbl as <- Hp;
    change (tail best.(nf_blocks)) with (pop best).(nf_blocks) in Hp;
    unfold left_over in Hset1; rewrite <- Hp in Hset1.
  - destruct l; [|done]. cbn [for_each]. exists s1, fin1. split; [done|]. split; [done|]. split; [done|]. split.
    + intros Hne. rewrite decide_False in Hset1 by done. exists (pop best). rewrite Hset1, last_snoc. by rewrite <- Hp.
    + intros ->. rewrite decide_True, app_nil_r in Hset1 by done. rewrite Hset1.
      destruct (popped b side) as [|z zs] eqn:Ez; [done|]. exfalso.
      assert (z ∈ popped b side) as (nc & Hnc & Hrn & _)%popped_in by (rewrite Ez; set_solver).
      destruct (best_root s fin Hok) as (side' & best' & blk' & Hset' & Hr' & Hpop'); [rewrite Hset; by destruct side|].
      rewrite Hset in Hset'. apply app_inj_tail in Hset' as [<- <-]. unfold rooted in Hr, Hr'. rewrite Hr in Hr'.
      injection Hr' as <-. destruct (Hpop' nc Hnc Hrn) as [_ Hd]. by rewrite <- Hp in Hd.
  - cbn [length] in Hl. rewrite decide_False in Hset1 by (by destruct pre).
    destruct (IH s1 fin1 (pop best) b post l Hok1) as (s' & fin' & Hrun & Hok' & Hc' & Hrest); [|done|lia|].
    { by rewrite Hset1, last_snoc. }
    exists s', fin'. split; [done|]. split; [done|]. split; [|done].
    rewrite Hc', Hc1. cbn [map app]. rewrite reverse_cons, <- app_assoc. done.
Qed.
End rounds.
