(* ===== verification/Stakes.v ===== *)
(** * Stakes: the stakes that finalization reports

    After a block is finalized the write task sums the active bonds of the
    database by the finalizer they target ([aggregated_stakes]).  The sums are
    exact and add up to the bonded value pool, so the finality service can build
    a roster from them. *)

From stdpp Require Import base list gmap sets sorting.
From S2P Require Import Prelude Wire Encoding Bft Roster Amount Staking Delegation DelegationInv DelegationBlock DelegationRevert Finalize NonFinalized FinalizeInv ChainGrowth.
Import StakingAction Chain.

(** ** The active bonds of the database *)

Lemma all_bonds_in db k b s :
  (k, b, s) ∈ all_bonds db ↔
  db.(delegation_bond_by_key) !! k = Some b ∧ db.(bond_status_by_key) !! k = Some s.
Proof.
  unfold all_bonds. rewrite list_elem_of_omap. setoid_rewrite (merge_sort_Permutation key_le _). split.
  - intros ([k' s'] & Hin%elem_of_map_to_list & (b' & Hb & [= <- <- <-])%bind_Some). done.
  - intros [Hb Hs]. exists (k, s). split; [by apply elem_of_map_to_list|]. cbn. by rewrite Hb.
Qed.

Lemma all_bonds_keys db : NoDup (map (λ x, x.1.1) (all_bonds db)).
Proof.
  unfold all_bonds. set (l := merge_sort _ _).
  assert (NoDup l.*1) as Hnd.
  { unfold l. rewrite (merge_sort_Permutation key_le _). apply NoDup_fst_map_to_list. }
  induction l as [|[k s] l IH]; [constructor|]. cbn in Hnd. apply NoDup_cons in Hnd as [Hk Hnd]. cbn.
  destruct (_ !! k) as [b|]; cbn; [|by apply IH]. constructor; [|by apply IH].
  intros ([[k' b'] s'] & -> & Hin)%list_elem_of_fmap. cbn in Hk.
  apply list_elem_of_omap in Hin as ([k'' s''] & Hin & (? & _ & [= -> _ _])%bind_Some).
  apply Hk. by apply (list_elem_of_fmap_2 fst l (k', s'')).
Qed.

Lemma active_bonds_in db k b :
  (k, b) ∈ active_bonds db ↔
  db.(delegation_bond_by_key) !! k = Some b ∧ db.(bond_status_by_key) !! k = Some DbActive.
Proof.
  unfold active_bonds. rewrite list_elem_of_fmap. split.
  - intros ([[k' b'] s] & [= -> ->] & [Hs Hin]%list_elem_of_filter). apply all_bonds_in in Hin as [Hb Hst].
    cbn in Hs. by destruct s.
  - intros [Hb Hs]. exists (k, b, DbActive). split; [done|]. apply list_elem_of_filter. split; [done|].
    by apply all_bonds_in.
Qed.

Lemma active_bonds_keys db : NoDup (active_bonds db).*1.
Proof.
  unfold active_bonds. pose proof (all_bonds_keys db) as Hnd. revert Hnd. generalize (all_bonds db). intros l.
  induction l as [|[[k b] s] l IH]; intros Hnd; [constructor|]. cbn in Hnd. apply NoDup_cons in Hnd as [Hk Hnd].
  rewrite filter_cons. case_decide; [|by apply IH]. cbn. constructor; [|by apply IH].
  intros ([k' b'] & -> & ([[k'' b''] s''] & [= -> ->] & [_ Hin]%list_elem_of_filter)%list_elem_of_fmap)%list_elem_of_fmap.
  apply Hk. by apply (list_elem_of_fmap_2 (λ x : BondKey * DelegationBond * BondStatus, x.1.1) l (k'', b'', s'')).
Qed.

(** Seen from the chain: sums over the active bonds of the database are sums
    over the active bonds of a chain that agrees with it. *)
Lemma active_bonds_sum (g : Z → bytes → Z) db bs :
  follows db bs →
  zsum (map (λ x, g x.2.(bond_amount) x.2.(target_finalizer)) (active_bonds db))
  = sum_bonds (λ _ v, if decide (v.2 = Active) then g v.1.(bond_amount) v.1.(target_finalizer) else 0) bs.
Proof.
  intros Hf.
  set (f := λ x : BondKey * DelegationBond, (x.1, (x.2.(bond_amount), x.2.(target_finalizer)))).
  set (h := λ x : BondKey * Bond, (x.1, (x.2.1.(bond_amount), x.2.1.(target_finalizer)))).
  assert (map f (active_bonds db) ≡ₚ map h (filter (λ x, active x = true) (map_to_list bs))) as Hp.
  { apply NoDup_Permutation.
    - apply (NoDup_fmap_1 fst). change (NoDup (map fst (map f (active_bonds db)))). rewrite map_map.
      apply (active_bonds_keys db).
    - apply (NoDup_fmap_1 fst). change (NoDup (map fst (map h (filter (λ x, active x = true) (map_to_list bs))))).
      rewrite map_map. change (NoDup (filter (λ x, active x = true) (map_to_list bs)).*1).
      apply NoDup_fmap_fst; [|apply NoDup_filter, NoDup_map_to_list].
      intros k v1 v2 [_ H1%elem_of_map_to_list]%list_elem_of_filter [_ H2%elem_of_map_to_list]%list_elem_of_filter.
      congruence.
    - intros [k [a t]]. rewrite !list_elem_of_fmap. split.
      + intros ([k' b] & [= -> -> ->] & [Hb Hs]%active_bonds_in). specialize (Hf k'). rewrite Hb, Hs in Hf.
        inversion Hf as [|? ? [b' st] Es E1 E2 E3]. apply strip_eq in Es as (Ea & Et & Est). cbn in Ea, Et, Est.
        exists (k', (b', st)). split; [unfold h; cbn; congruence|]. apply list_elem_of_filter.
        split; [unfold active; cbn; by rewrite <- Est, bool_decide_true|by apply elem_of_map_to_list].
      + intros ([k' [b st]] & [= -> -> ->] & [Hact Hin%elem_of_map_to_list]%list_elem_of_filter).
        unfold active in Hact. apply bool_decide_eq_true in Hact. cbn in Hact. subst st.
        specialize (Hf k'). rewrite Hin in Hf. apply entry_inv_some in Hf as (d & s & Hd & Hs & Es).
        apply strip_eq in Es as (Ea & Et & Est). cbn in Ea, Et, Est. exists (k', d).
        split; [unfold f; cbn; congruence|]. apply active_bonds_in. split; [done|]. rewrite Hs. by destruct s. }
  set (g' := λ x : BondKey * (Z * bytes), g x.2.1 x.2.2).
  transitivity (zsum (map g' (map f (active_bonds db)))); [by rewrite map_map|].
  rewrite (zsum_perm _ _ (Permutation_map g' Hp)), map_map. unfold sum_bonds.
  clear Hp. induction (map_to_list bs) as [|[k [b st]] l IH]; [done|]. rewrite filter_cons. cbn [map]. rewrite zsum_cons.
  unfold active at 1. cbn [fst snd]. destruct (decide (st = Active)) as [->|Hst].
  - rewrite decide_True by done. cbn [map]. rewrite zsum_cons. cbn in IH |- *. by rewrite IH.
  - rewrite decide_False by (intros E%bool_decide_eq_true; done). cbn in IH |- *. by rewrite IH.
Qed.

(** ** The sums by finalizer *)

(** What a bond stakes on a finalizer. *)
Definition on (t : bytes) (x : BondKey * DelegationBond) : Z :=
  if decide (x.2.(target_finalizer) = t) then x.2.(bond_amount) else 0.

Section aggregate.
Context {P : Profile}.
Implicit Types (l : list (BondKey * DelegationBond)) (m : gmap bytes Z).

Definition map_total (m : gmap bytes Z) : Z := zsum (map snd (map_to_list m)).

Lemma map_total_insert m t v :
  map_total (<[t := v]> m) = map_total m - default 0 (m !! t) + v.
Proof.
  assert (∀ m t v, m !! t = None → map_total (<[t := v]> m) = v + map_total m) as Hnew.
  { intros m' t' v' Hn. unfold map_total.
    rewrite (zsum_perm _ _ (Permutation_map snd (map_to_list_insert m' t' v' Hn))). done. }
  destruct (m !! t) as [w|] eqn:E; cbn [default from_option id].
  - rewrite <- (insert_delete_id m t w E) at 2. rewrite <- (insert_delete_eq m t v).
    rewrite !Hnew by apply lookup_delete_eq. lia.
  - rewrite Hnew by done. lia.
Qed.

Lemma aggregate_loop l : ∀ m,
  Forall (λ x, 0 ≤ x.2.(bond_amount)) l → (∀ t v, m !! t = Some v → 0 ≤ v ≤ map_total m) → 0 ≤ map_total m →
  map_total m + zsum (map (λ x, x.2.(bond_amount)) l) ≤ MAX_MONEY →
  ∃ m', for_each (λ m x, v ← arith 64 (default 0 (m !! x.2.(target_finalizer)) + x.2.(bond_amount));
                   Ret (<[x.2.(target_finalizer) := v]> m)) l m = Ret m' ∧
  map_total m' = map_total m + zsum (map (λ x, x.2.(bond_amount)) l) ∧
  (∀ t, default 0 (m' !! t) = default 0 (m !! t) + zsum (map (on t) l)) ∧
  (∀ t, is_Some (m' !! t) ↔ is_Some (m !! t) ∨ ∃ x, x ∈ l ∧ x.2.(target_finalizer) = t) ∧
  (∀ t v, m' !! t = Some v → 0 ≤ v ≤ map_total m').
Proof.
  pose proof MAX_MONEY_i64. induction l as [|x l IH]; intros m Hp Hm H0 Hs.
  { exists m. cbn. split; [done|]. rewrite Z.add_0_r. split; [done|]. split; [intros; lia|]. split; [|done].
    intros t. split; [by left|]. by intros [?|(y & Hy%elem_of_nil & _)]. }
  apply Forall_cons in Hp as [Hx Hp]. cbn [map] in Hs |- *. rewrite zsum_cons in Hs |- *.
  assert (0 ≤ zsum (map (λ x, x.2.(bond_amount)) l)) by (apply zsum_map_nonneg; by apply Forall_forall).
  set (t0 := x.2.(target_finalizer)) in *. set (d := default 0 (m !! t0)) in *.
  assert (0 ≤ d ≤ map_total m) as Hd.
  { unfold d. destruct (m !! t0) as [w|] eqn:E; cbn; [by apply (Hm t0)|lia]. }
  cbn [for_each]. fold t0 d. rewrite arith_ok by (unfold is_u; lia). cbn [mbind outcome_bind].
  pose proof (map_total_insert m t0 (d + x.2.(bond_amount))) as Hmt. fold d in Hmt.
  destruct (IH (<[t0 := d + x.2.(bond_amount)]> m)) as (m' & Hl & Ht & Hon & Hk & Hb); [done| |lia|lia|].
  { intros t v. rewrite Hmt. destruct (decide (t = t0)) as [->|Hne].
    - rewrite lookup_insert_eq. intros [= <-]. lia.
    - rewrite lookup_insert_ne by done. intros Hv%Hm. lia. }
  exists m'. split; [done|]. split; [lia|]. split; [|split; [|done]].
  - intros t. rewrite Hon, zsum_cons. unfold on at 2. fold t0. destruct (decide (t0 = t)) as [<-|Hne].
    + rewrite lookup_insert_eq. cbn. fold d. lia.
    + by rewrite lookup_insert_ne.
  - intros t. rewrite Hk. destruct (decide (t = t0)) as [->|Hne].
    + rewrite lookup_insert_eq. split; [|by left; eexists]. intros _. right. exists x. split; [set_solver|done].
    + rewrite lookup_insert_ne by done. split.
      * intros [?|(y & Hy & ?)]; [by left|right; exists y; split; [set_solver|done]].
      * intros [?|(y & [->|Hy]%elem_of_cons & Ey)]; [by left|by destruct Hne|right; by exists y].
Qed.

(** The stakes are summed without overflow. *)
Lemma aggregated_stakes_eq iter_stakes db bs :
  follows db bs → (∀ k v, bs !! k = Some v → 0 ≤ v.1.(bond_amount)) → total Active bs ≤ MAX_MONEY →
  (∀ m, iter_stakes m ≡ₚ map_to_list m) →
  ∃ stakes, aggregated_stakes iter_stakes db = Ret stakes ∧ NoDup stakes.*1 ∧
  zsum (map snd stakes) = total Active bs ∧
  (∀ t p, (t, p) ∈ stakes ↔ p = zsum (map (on t) (active_bonds db)) ∧
   ∃ x, x ∈ active_bonds db ∧ x.2.(target_finalizer) = t).
Proof.
  intros Hf Hpos Hsup Hit.
  assert (zsum (map (λ x, x.2.(bond_amount)) (active_bonds db)) = total Active bs) as Hsum
    by (apply (active_bonds_sum (λ a _, a) db bs Hf)).
  destruct (aggregate_loop (active_bonds db) ∅) as (m & Hl & Ht & Hon & Hk & _).
  - apply Forall_forall. intros [k b] [Hb Hs]%active_bonds_in. specialize (Hf k). rewrite Hb, Hs in Hf.
    inversion Hf as [|? ? v Es E1 E2 E3]. apply strip_eq in Es as (Ea & _). cbn. rewrite Ea. by eapply Hpos.
  - intros t v. by rewrite lookup_empty.
  - done.
  - rewrite Hsum. done.
  - exists (iter_stakes m). unfold aggregated_stakes. rewrite Hl. split; [done|]. split; [|split].
    + rewrite (Hit m). apply NoDup_fst_map_to_list.
    + rewrite (zsum_perm _ _ (Permutation_map snd (Hit m))). change (map_total m = total Active bs).
      rewrite Ht, Hsum. done.
    + intros t p. rewrite (Hit m), elem_of_map_to_list. specialize (Hon t). specialize (Hk t).
      rewrite lookup_empty in Hon, Hk. cbn [default from_option id] in Hon. rewrite Z.add_0_l in Hon. split.
      * intros Hp. rewrite Hp in Hon, Hk. split; [done|]. by destruct (proj1 Hk (ltac:(by eexists))) as [[]|].
      * intros [-> Hx]. destruct (proj2 Hk (or_intror Hx)) as [w Hw]. rewrite Hw in Hon |- *. cbn in Hon. by rewrite Hon.
Qed.
End aggregate.
