(* ===== verification/WriteTask.v ===== *)
(** * WriteTask: the write task never fails

    Committing blocks and finalizing them up to a decided hash, in any order,
    keeps the invariant [state_ok] and does not panic.  The hypotheses on a
    committed block are what the checks before the state guarantee: its hash is
    new, it names no bond twice, and its value pool change carries its stake
    ([BlockValue] shows that the change of the code does). *)

From stdpp Require Import base list gmap sets sorting relations.
From S2P Require Import Prelude Wire Encoding Bft Roster Amount Staking Delegation DelegationInv DelegationBlock DelegationRevert Finalize NonFinalized FinalizeInv ChainGrowth NonFinalizedInv Stakes.
Import StakingAction Chain.

(** ** Finalizing up to a hash *)

Section crosslink.
Context {P : Profile}.

Lemma supply_bonded v : ValueBalance.ok NonNegative v → ValueBalance.staking_bonded v ≤ MAX_MONEY.
Proof. unfold ValueBalance.ok, ValueBalance.pools, Amount.ok. cbn. rewrite !Forall_cons. lia. Qed.

(** The chains that contain a hash, and the blocks up to it on the best of
    them. *)
Lemma crosslink_finalize_eq s fin hash nc0 :
  state_ok s fin → nc0 ∈ s.(chain_set) → contains_block_hash hash nc0 = true →
  ∃ s' best pre b post, crosslink_finalize hash s = Ret (s', Some (pre ++ [b])) ∧ state_ok s' fin ∧
  last s'.(chain_set) = Some best ∧ best.(nf_blocks) = pre ++ b :: post ∧ b.(blk_hash) = hash.
Proof.
  intros Hok Hnc0 Hc0. unfold crosslink_finalize. rewrite find_chain_pure.
  set (has := λ nc, contains_block_hash hash nc = true).
  assert (filter (λ nc, bool_decide (is_Some (height_by_hash nc hash)) = true) s.(chain_set)
    = filter has s.(chain_set)) as ->.
  { apply list_filter_iff. intros nc. rewrite bool_decide_eq_true. apply height_by_hash_contains. }
  assert (nc0 ∈ filter has s.(chain_set)) as Hin by (by apply list_elem_of_filter).
  destruct (filter has s.(chain_set)) as [|best l _] eqn:Ef using rev_ind; [by apply elem_of_nil in Hin|].
  assert (best ∈ filter has s.(chain_set)) as [Hhas Hbest]%list_elem_of_filter by (rewrite Ef; set_solver).
  rewrite last_snoc. cbn [mbind outcome_bind].
  destruct (proj2 (height_by_hash_contains best hash) Hhas) as [h Hh]. rewrite Hh. cbn [unwrap mbind outcome_bind].
  apply height_by_hash_some in Hh as (pre & b & post & Hb & Hbh & <-).
  destruct (so_tip _ _ Hok) as (tip & cs & _ & _ & Hlk). specialize (Hlk best Hbest). rewrite Hb in Hlk |- *.
  rewrite (blocks_up_to tip) by done. eexists (with_chains s _), best, pre, b, post.
  split; [reflexivity|]. split; [|split; [|done]].
  - apply state_ok_sublist; [done|]. rewrite <- Ef. apply sublist_filter.
  - cbn [chain_set with_chains]. by rewrite last_snoc.
Qed.

Lemma crosslink_finalized_ok iter_stakes s fin hash nc0 :
  (∀ m, iter_stakes m ≡ₚ map_to_list m) →
  state_ok s fin → nc0 ∈ s.(chain_set) → contains_block_hash hash nc0 = true →
  ∃ s' fin' stakes blocks b, crosslink_finalized iter_stakes hash (s, fin) = Ret (s', fin', inr (hash, stakes)) ∧
  state_ok s' fin' ∧ b.(blk_hash) = hash ∧
  fin'.(FinalizedState.committed) = reverse (map committed_as (blocks ++ [b])) ++ fin.(FinalizedState.committed) ∧
  NoDup stakes.*1 ∧
  zsum (map snd stakes) = ValueBalance.staking_bonded fin'.(FinalizedState.pools) ∧
  (∀ t p, (t, p) ∈ stakes ↔ p = zsum (map (on t) (active_bonds fin'.(FinalizedState.db))) ∧
   ∃ x, x ∈ active_bonds fin'.(FinalizedState.db) ∧ x.2.(target_finalizer) = t).
Proof.
  intros Hit Hok Hnc0 Hc0.
  destruct (crosslink_finalize_eq s fin hash nc0 Hok Hnc0 Hc0) as (s1 & best & pre & b & post & Hcf & Hok1 & Hl & Hb & Hh).
  destruct (finalize_rounds pre s1 fin best b post (pre ++ [b]) Hok1 Hl Hb) as (s' & fin' & Hrun & Hok' & Hcs & _).
  { rewrite length_app. cbn. lia. }
  destruct (so_base _ _ Hok') as (v & [Hf Hp Hbal Hsup] & _).
  pose proof (bl_bonded _ Hbal) as Hbd. unfold staking_bonded in Hbd. pose proof (supply_bonded _ Hsup) as Hle.
  destruct (aggregated_stakes_eq iter_stakes _ _ Hf (bl_amounts _ Hbal)) as (stakes & Hag & Hnd & Hsum & Hspec);
    [lia|done|].
  exists s', fin', stakes, pre, b. split.
  { unfold crosslink_finalized. cbn [fst snd]. rewrite Hcf. cbn [mbind outcome_bind].
    unfold update_latest_chain_channels, best_chain. rewrite Hl. cbn [unwrap mbind outcome_bind].
    destruct (last best.(nf_blocks)) as [t|] eqn:Et.
    - cbn [unwrap mbind outcome_bind]. rewrite Hrun. cbn [mbind outcome_bind snd]. by rewrite Hag.
    - apply last_None in Et. rewrite Hb in Et. by destruct pre. }
  split; [done|]. split; [done|]. split; [done|]. split; [done|]. split; [by rewrite Hsum, <- Hbd, Hp|done].
Qed.
End crosslink.

(** ** Inserting a chain *)

Section order.
Implicit Types (a b c : NonFinalizedChain).

Lemma chain_lt_spec a b :
  chain_lt a b ↔ partial_cumulative_work a < partial_cumulative_work b ∨
  partial_cumulative_work a = partial_cumulative_work b ∧
  ∃ x y, non_finalized_tip_hash a = Ret x ∧ non_finalized_tip_hash b = Ret y ∧ bytes_cmp x y = Lt.
Proof.
  unfold chain_lt, chain_cmp. destruct (Z.eqb_spec (partial_cumulative_work a) (partial_cumulative_work b)) as [E|E].
  - split.
    + intros Hc. right. split; [done|]. destruct (non_finalized_tip_hash a) as [x|]; [|done].
      destruct (non_finalized_tip_hash b) as [y|]; [|done]. exists x, y. split; [done|]. split; [done|].
      cbn in Hc. by destruct (bytes_cmp x y).
    + intros [?|(_ & x & y & -> & -> & Hxy)]; [lia|]. cbn. by rewrite Hxy.
  - split.
    + intros [= Hc]. left. by rewrite Z.compare_lt_iff in Hc.
    + intros [?|[? _]]; [|lia]. f_equal. by rewrite Z.compare_lt_iff.
Qed.

Lemma chain_lt_trans a b c : chain_lt a b → chain_lt b c → chain_lt a c.
Proof.
  rewrite !chain_lt_spec. intros [?|(? & x & y & Hx & Hy & Hxy)] [?|(? & y' & z & Hy' & Hz & Hyz)];
                            try (left; lia). right. split; [lia|]. rewrite Hy in Hy'. injection Hy' as <-. exists x, z.
  split; [done|]. split; [done|]. by eapply bytes_cmp_lt_trans.
Qed.

(** Chains with different tips can be compared. *)
Lemma chain_cmp_total a b x y :
  non_finalized_tip_hash a = Ret x → non_finalized_tip_hash b = Ret y → x ≠ y →
  (chain_cmp a b = Ret Lt ∧ chain_lt a b) ∨ (chain_cmp a b = Ret Gt ∧ chain_lt b a).
Proof.
  intros Hx Hy Hne. rewrite (chain_lt_spec b a). unfold chain_lt, chain_cmp. rewrite Hx, Hy.
  destruct (Z.eqb_spec (partial_cumulative_work a) (partial_cumulative_work b)) as [E|E]; cbn [mbind outcome_bind].
  - destruct (bytes_cmp x y) eqn:Exy; [by apply bytes_cmp_eq in Exy|by left|right]. split; [done|].
    right. split; [done|]. exists y, x. split; [done|]. split; [done|]. by rewrite bytes_cmp_antisym, Exy.
  - destruct (Z.compare_spec (partial_cumulative_work a) (partial_cumulative_work b)); [lia|by left|right].
    split; [done|]. left. lia.
Qed.

Lemma chain_insert_ok nc x l :
  non_finalized_tip_hash nc = Ret x → StronglySorted chain_lt l →
  (∀ a, a ∈ l → ∃ y, non_finalized_tip_hash a = Ret y ∧ x ≠ y) →
  ∃ l', chain_insert nc l = Ret l' ∧ l' ≡ₚ nc :: l ∧ StronglySorted chain_lt l'.
Proof.
  intros Hx. induction 1 as [|a l Hs IH Hf]; intros Hall.
  { exists [nc]. split; [done|]. split; [done|]. by repeat constructor. }
  destruct (Hall a ltac:(set_solver)) as (y & Hy & Hne). cbn [chain_insert].
  destruct (chain_cmp_total nc a x y Hx Hy Hne) as [[-> Hlt]|[-> Hgt]]; cbn [mbind outcome_bind].
  - exists (nc :: a :: l). split; [done|]. split; [done|]. constructor; [by constructor|]. constructor; [done|].
    rewrite Forall_forall in Hf |- *. intros b Hb. eapply chain_lt_trans; [exact Hlt|by apply Hf].
  - destruct IH as (l' & -> & Hp & Hs'); [intros; apply Hall; set_solver|]. cbn [mbind outcome_bind].
    exists (a :: l'). split; [done|]. split; [etrans; [apply perm_skip, Hp|apply perm_swap]|]. constructor; [done|].
    rewrite Forall_forall in Hf |- *. intros b. rewrite Hp. intros [->|Hb]%elem_of_cons; [done|by apply Hf].
Qed.
End order.

Lemma retain_eq {A} (p : A → outcome bool) (q : A → Prop) `{∀ x, Decision (q x)} l :
  (∀ x, x ∈ l → p x = Ret (bool_decide (q x))) → retain p l = Ret (filter q l).
Proof.
  induction l as [|x l IH]; intros Hp; [done|]. cbn [retain]. rewrite Hp by set_solver. cbn [mbind outcome_bind].
  rewrite IH by (intros; apply Hp; set_solver). cbn [mbind outcome_bind]. rewrite filter_cons.
  by destruct (decide (q x)) as [Hq|Hq]; [rewrite bool_decide_true by done|rewrite bool_decide_false by done].
Qed.

Lemma tip_hash_last nc b : last nc.(nf_blocks) = Some b → non_finalized_tip_hash nc = Ret b.(blk_hash).
Proof. unfold non_finalized_tip_hash. by intros ->. Qed.

Lemma tip_exists nc : nc.(nf_blocks) ≠ [] → ∃ b, last nc.(nf_blocks) = Some b.
Proof. intros Hne. apply last_is_Some in Hne as [b Hb]. by exists b. Qed.

(** ** The chain a block is added to *)

Section parent.
Context {P : Profile} (iter_targets : gmap BondKey bytes → list (BondKey * bytes)).
Context (Hit : ∀ m, iter_targets m ≡ₚ map_to_list m).

Lemma fork_loop_ok v hash post : ∀ n nc pre b,
  above v nc → nc.(nf_blocks) = pre ++ b :: post → b.(blk_hash) = hash →
  (∀ x, x ∈ post → x.(blk_hash) ≠ hash) → (length post ≤ n)%nat →
  ∃ nc', fork_loop iter_targets n hash nc = Ret nc' ∧ above v nc' ∧ nc'.(nf_blocks) = pre ++ [b].
Proof.
  induction post as [|x post IH] using rev_ind; intros n nc pre b Ha Hb Hh Hne Hn.
  - exists nc. split; [|done]. destruct n; cbn [fork_loop];
                                 rewrite (tip_hash_last nc b) by (by rewrite Hb, last_snoc); cbn [mbind outcome_bind]; by rewrite decide_True.
  - rewrite length_app in Hn. cbn in Hn. destruct n as [|n]; [lia|]. cbn [fork_loop].
    assert (nc.(nf_blocks) = (pre ++ b :: post) ++ [x]) as Hb' by (by rewrite Hb, <- app_assoc).
    rewrite (tip_hash_last nc x) by (by rewrite Hb', last_snoc). cbn [mbind outcome_bind].
    rewrite decide_False by (apply Hne; set_solver).
    destruct (pop_tip_ok iter_targets v nc (pre ++ b :: post) x Hit Ha Hb') as (nc' & -> & Hb2 & Ha2); [by destruct pre|].
    cbn [mbind outcome_bind]. apply IH; [done|done|done|set_solver|lia].
Qed.

(** The chain that ends at a hash. *)
Record ends_at (s : NonFinalizedState) (v : Chain.t) (hash : bytes) (nc : NonFinalizedChain)
  (pre : list Block) (b : Block) : Prop := {
    ea_blocks : nc.(nf_blocks) = pre ++ [b];
    ea_hash : b.(blk_hash) = hash;
    ea_above : above v nc;
    ea_from : ∃ q post, q ∈ s.(chain_set) ∧ q.(nf_blocks) = pre ++ b :: post;
    (** A chain whose tip is one of its blocks ends there too. *)
    ea_tips : ∀ q x, q ∈ s.(chain_set) → last q.(nf_blocks) = Some x → x ∈ pre ++ [b] → x.(blk_hash) = hash }.

Lemma fork_ok s fin v q hash :
  state_ok s fin → base fin v → q ∈ s.(chain_set) → contains_block_hash hash q = true →
  (∀ q x, q ∈ s.(chain_set) → last q.(nf_blocks) = Some x → x.(blk_hash) ≠ hash) →
  ∃ nc pre b, fork iter_targets hash q = Ret (Some nc) ∧ ends_at s v hash nc pre b.
Proof.
  intros Hok Hv Hq Hc Htips. unfold fork. rewrite Hc.
  apply contains_spec in Hc as (b & Hin & Hh). apply list_elem_of_split in Hin as (pre & post & Hb).
  destruct (so_tip _ _ Hok) as (tip & cs & _ & _ & Hlk). specialize (Hlk q Hq). rewrite Hb in Hlk.
  destruct (so_base _ _ Hok) as (v' & Hv' & Hab).
  pose proof (above_same _ _ _ (base_same _ _ _ Hv' Hv) (Hab q Hq)) as Ha.
  destruct (fork_loop_ok v hash post (length q.(nf_blocks)) q pre b Ha Hb Hh) as (nc & -> & Hnc & Hbl).
  - intros x Hx E. pose proof (linked_lt tip pre b post x Hlk Hx).
    assert (x = b) as ->; [|lia]. apply (so_same _ _ Hok q q); [done|done|rewrite Hb; set_solver..|congruence].
  - rewrite Hb, length_app. cbn. lia.
  - exists nc, pre, b. split; [done|]. split; [done|done|done|by exists q, post|].
    intros q' x Hq' Hx Hin. assert (q' = q) as ->.
    { apply (so_tips _ _ Hok q' q x Hq' Hq Hx). rewrite Hb. set_solver. }
    exfalso. rewrite Hb, last_app, last_cons in Hx. destruct (last post) as [y|] eqn:Ey.
    + injection Hx as ->. apply last_Some in Ey as (post' & ->).
      apply elem_of_app in Hin as [Hin|Hin].
      * apply list_elem_of_split in Hin as (p1 & p2 & ->). rewrite <- app_assoc in Hlk. cbn in Hlk.
        pose proof (linked_lt tip p1 x _ x Hlk ltac:(set_solver)). lia.
      * apply list_elem_of_singleton in Hin as ->. pose proof (linked_lt tip pre b _ b Hlk ltac:(set_solver)). lia.
    + injection Hx as <-. apply (Htips q b Hq); [|done]. by rewrite Hb, last_app, last_cons, Ey.
Qed.

Lemma find_m_ext {A} (p : A → outcome bool) (q : A → bool) l :
  (∀ x, x ∈ l → p x = Ret (q x)) → find_m p l = find_m (λ x, Ret (q x)) l.
Proof.
  induction l as [|x l IH]; intros Hp; [done|]. cbn [find_m]. rewrite Hp by set_solver. cbn [mbind outcome_bind].
  destruct (q x); [done|]. apply IH. intros; apply Hp; set_solver.
Qed.

Lemma find_map_fork s fin v hash l :
  state_ok s fin → base fin v → (∀ q, q ∈ l → q ∈ s.(chain_set)) →
  (∀ q x, q ∈ s.(chain_set) → last q.(nf_blocks) = Some x → x.(blk_hash) ≠ hash) →
  find_map_m (fork iter_targets hash) l = Ret None ∨
  ∃ nc pre b, find_map_m (fork iter_targets hash) l = Ret (Some nc) ∧ ends_at s v hash nc pre b.
Proof.
  intros Hok Hv Hl Htips. induction l as [|q l IH]; [by left|]. cbn [find_map_m].
  destruct (contains_block_hash hash q) eqn:Ec.
  - right. destruct (fork_ok s fin v q hash Hok Hv (Hl q ltac:(set_solver)) Ec Htips) as (nc & pre & b & -> & He).
    by exists nc, pre, b.
  - assert (fork iter_targets hash q = Ret None) as -> by (unfold fork; by rewrite Ec).
    cbn [mbind outcome_bind]. apply IH. set_solver.
Qed.

Lemma parent_chain_ok s fin v hash :
  state_ok s fin → base fin v →
  parent_chain iter_targets hash s = Ret (inl NotReadyToBeCommitted) ∨
  ∃ nc pre b, parent_chain iter_targets hash s = Ret (inr nc) ∧ ends_at s v hash nc pre b.
Proof.
  intros Hok Hv. unfold parent_chain.
  set (tip_is := λ nc, match last nc.(nf_blocks) with Some b => bool_decide (b.(blk_hash) = hash) | None => false end).
  assert (find_chain (λ nc, h ← non_finalized_tip_hash nc; Ret (bool_decide (h = hash))) s
    = Ret (last (filter (λ x, tip_is x = true) s.(chain_set)))) as ->.
  { rewrite <- find_chain_pure. unfold find_chain. apply find_m_ext. intros nc Hnc. rewrite elem_of_reverse in Hnc.
    destruct (tip_exists nc (so_blocks _ _ Hok nc Hnc)) as [b Hb]. rewrite (tip_hash_last nc b Hb).
    unfold tip_is. by rewrite Hb. }
  destruct (last _) as [nc|] eqn:El.
  - right. apply last_Some in El as (l & El).
    assert (nc ∈ filter (λ x, tip_is x = true) s.(chain_set)) as [Htip Hnc]%list_elem_of_filter by (rewrite El; set_solver).
    destruct (tip_exists nc (so_blocks _ _ Hok nc Hnc)) as [b Hb]. unfold tip_is in Htip. rewrite Hb in Htip.
    apply bool_decide_eq_true in Htip. pose proof Hb as Hlast. apply last_Some in Hb as (pre & Hb). exists nc, pre, b. split; [done|].
    destruct (so_base _ _ Hok) as (v' & Hv' & Hab). split; [done|done| |by exists nc, []|].
    + apply (above_same _ _ _ (base_same _ _ _ Hv' Hv)), Hab, Hnc.
    + intros q x Hq Hx Hin. rewrite <- Hb in Hin. rewrite (so_tips _ _ Hok q nc x Hq Hnc Hx Hin) in Hx. congruence.
  - destruct (find_map_fork s fin v hash (reverse s.(chain_set)) Hok Hv) as [->|(nc & pre & b & -> & He)].
    + intros q. by rewrite elem_of_reverse.
    + intros q x Hq Hx E. apply last_None in El. eapply (filter_nil_not_elem_of _ _ q El); [|done].
      unfold tip_is. rewrite Hx. by apply bool_decide_eq_true.
    + by left.
    + right. by exists nc, pre, b.
Qed.
End parent.

(** ** Committing a block *)

(** The checks of the bonds always come to a result. *)
Lemma validate_total chain db height txs : ∀ new_bonds unbonding,
  ∃ r, validate_loop chain db height txs new_bonds unbonding = Ret r.
Proof.
  induction txs as [|[a|] txs IH]; intros nb ub; [by eexists| |apply IH]. cbn [validate_loop].
  destruct (kind a); try apply IH.
  - destruct (validate_create_new_bond _ _ _ _) as [e|[]]; [by eexists|]. cbn [mbind Fallible_bind].
    unfold Amount.try_from. destruct (is_i64 _); [|by eexists].
    destruct (validate_cases NonNegative (amount_zats a)) as [[_ ->]|[_ ->]]; [apply IH|by eexists].
  - destruct (validate_bond_for_unbonding _ _ _ _ _) as [e|[]]; [by eexists|]. apply IH.
  - destruct (validate_bond_for_withdrawal _ _ _) as [e|[]]; [by eexists|]. apply IH.
  - destruct (validate_bond_for_retarget _ _ _ _) as [e|[]]; [by eexists|]. apply IH.
Qed.

(** A block that no chain contains and that is not finalized. *)
Record unknown (s : NonFinalizedState) (fin : FinalizedState.t) (blk : Block) : Prop := {
  un_chains : ∀ nc b, nc ∈ s.(chain_set) → b ∈ nc.(nf_blocks) → b.(blk_hash) ≠ blk.(blk_hash);
  un_db : blk.(blk_hash) ∉ fin.(FinalizedState.committed).*2 }.

(** A chain with a new tip finds its place in the set. *)
Lemma insert_new_tip {P : Profile} s fin blk nc :
  state_ok s fin → unknown s fin blk → last nc.(nf_blocks) = Some blk →
  ∃ l, chain_insert nc s.(chain_set) = Ret l ∧ l ≡ₚ nc :: s.(chain_set) ∧ StronglySorted chain_lt l ∧
    ∀ x, x ∈ l → x.(nf_blocks) ≠ [].
Proof.
  intros Hok Hun Hl.
  destruct (chain_insert_ok nc blk.(blk_hash) s.(chain_set) (tip_hash_last _ _ Hl) (so_sorted _ _ Hok))
    as (l & Hins & Hperm & Hs).
  - intros a Ha. destruct (tip_exists a (so_blocks _ _ Hok a Ha)) as [x Hx]. exists x.(blk_hash).
    split; [by apply tip_hash_last|]. apply not_eq_sym, (un_chains _ _ _ Hun a); [done|].
    apply last_Some in Hx as (? & ->). set_solver.
  - exists l. split; [done|]. split; [done|]. split; [done|]. intros x. rewrite Hperm.
    intros [->|Hx]%elem_of_cons; [|by apply (so_blocks _ _ Hok)]. intros E. by rewrite E in Hl.
Qed.

(** The chains that do not end at [hash]. *)
Definition tip_not (hash : bytes) (nc : NonFinalizedChain) : Prop :=
  from_option (λ b, b.(blk_hash) ≠ hash) False (last nc.(nf_blocks)).
#[global] Instance tip_not_dec hash nc : Decision (tip_not hash nc).
Proof. unfold tip_not. destruct (last nc.(nf_blocks)); apply _. Defined.

Lemma retain_tips hash l :
  (∀ x, x ∈ l → x.(nf_blocks) ≠ []) → retain_other_tips hash l = Ret (filter (tip_not hash) l).
Proof.
  intros Hne. apply retain_eq. intros a Ha. destruct (tip_exists a (Hne a Ha)) as [x Hx].
  rewrite (tip_hash_last _ _ Hx). cbn. f_equal. apply bool_decide_ext. unfold tip_not. by rewrite Hx.
Qed.

(** Putting a chain into the set: [front] are its blocks below the new one. *)
Lemma state_ok_insert {P : Profile} s fin v tip cs nc front blk l :
  state_ok s fin → base fin v → fin.(FinalizedState.committed) = tip :: cs → unknown s fin blk →
  nc.(nf_blocks) = front ++ [blk] → above v nc → linked tip nc.(nf_blocks) →
  (∀ b, b ∈ front → ∃ q, q ∈ s.(chain_set) ∧ b ∈ q.(nf_blocks)) →
  (∀ x, x ∈ l → x = nc ∨ x ∈ s.(chain_set) ∧ ∀ b, last x.(nf_blocks) = Some b → b ∉ front) →
  StronglySorted chain_lt l → (length l ≤ MAX_NON_FINALIZED_CHAIN_FORKS)%nat →
  state_ok (with_chains s l) fin.
Proof.
  intros Hok Hv Hc [Hun Hdb] Hb Ha Hlk Hfront Hl Hs Hlen.
  destruct (so_tip _ _ Hok) as (tip' & cs' & Hc' & Ht & Hlks). rewrite Hc in Hc'. injection Hc' as <- <-.
  destruct (so_base _ _ Hok) as (v' & Hv' & Hab).
  assert (∀ b, b ∈ nc.(nf_blocks) → b = blk ∨ ∃ q, q ∈ s.(chain_set) ∧ b ∈ q.(nf_blocks)) as Hin.
  { intros b. rewrite Hb, elem_of_app, list_elem_of_singleton. intros [Hf| ->]; [right; by apply Hfront|by left]. }
  split; cbn [chain_set with_chains].
  - exists tip, cs. split; [done|]. split; [done|]. intros x [->|[Hx _]]%Hl; [done|by apply Hlks].
  - exists v. split; [done|]. intros x [->|[Hx _]]%Hl; [done|].
    by apply (above_same _ _ _ (base_same _ _ _ Hv' Hv)), Hab.
  - intros x [->|[Hx _]]%Hl; [|by apply (so_blocks _ _ Hok)]. rewrite Hb. by destruct front.
  - done.
  - assert (∀ x b, x ∈ l → b ∈ x.(nf_blocks) → b = blk ∨ ∃ q, q ∈ s.(chain_set) ∧ b ∈ q.(nf_blocks)) as Hany.
    { intros x b [->|[Hx _]]%Hl Hbx; [by apply Hin|right; by exists x]. }
    intros x y b b' Hx Hy Hbx Hby E.
    destruct (Hany x b Hx Hbx) as [->|(q & Hq & Hbq)], (Hany y b' Hy Hby) as [->|(q' & Hq' & Hbq')].
    + done.
    + by destruct (Hun q' b' Hq' Hbq').
    + by destruct (Hun q b Hq Hbq).
    + by apply (so_same _ _ Hok q q').
  - intros x b [->|[Hx _]]%Hl Hbx; [|by apply (so_fresh _ _ Hok x)].
    destruct (Hin b Hbx) as [->|(q & Hq & Hbq)]; [done|by apply (so_fresh _ _ Hok q)].
  - intros x y b Hx Hy Hlast Hby. destruct (Hl x Hx) as [->|[Hxs Hxf]], (Hl y Hy) as [->|[Hys _]].
    + done.
    + rewrite Hb, last_snoc in Hlast. injection Hlast as ->. by destruct (Hun y b Hys Hby).
    + rewrite Hb, elem_of_app, list_elem_of_singleton in Hby. destruct Hby as [Hby| ->]; [by destruct (Hxf b Hlast)|].
      apply last_Some in Hlast as (l' & E). destruct (Hun x blk Hxs); [rewrite E; set_solver|done].
    + by apply (so_tips _ _ Hok x y b).
  - done.
Qed.

(** The parent of a block that passes the first checks is one block lower. *)
Lemma initial_ok {P : Profile} {CC : ContextChecks} s fin blk tip cs :
  state_ok s fin → fin.(FinalizedState.committed) = tip :: cs →
  (∃ e, initial_contextual_validity fin s blk = Ret (inl e)) ∨
  initial_contextual_validity fin s blk = Ret (inr ()) ∧
  ((∃ nc b, nc ∈ s.(chain_set) ∧ b ∈ nc.(nf_blocks) ∧ b.(blk_hash) = blk.(blk_parent) ∧
      blk.(blk_height) = b.(blk_height) + 1) ∨
   (∀ nc, nc ∈ s.(chain_set) → contains_block_hash blk.(blk_parent) nc = false) ∧
   ∃ h, db_height_by_hash fin blk.(blk_parent) = Some h ∧ blk.(blk_height) = h + 1).
Proof.
  intros Hok Hc. unfold initial_contextual_validity, parent_height, finalized_tip_height.
  rewrite Hc, find_chain_pure. cbn [head hd_error fmap option_fmap option_map mbind outcome_bind].
  unfold block_is_valid_for_recent_chain, block_is_not_orphaned, height_one_more_than_parent_height, bail, expect_some.
  cbn [mbind Fallible_bind mret Fallible_ret]. destruct (blk.(blk_height) <=? tip.1); [by left; eexists|].
  destruct (last _) as [nc|] eqn:El; cbn [mbind option_bind].
  - apply last_Some in El as (l & El).
    assert (nc ∈ filter (λ x, contains_block_hash (blk_parent blk) x = true) s.(chain_set))
      as [Hcn Hnc]%list_elem_of_filter by (rewrite El; set_solver).
    destruct (proj2 (height_by_hash_contains _ _) Hcn) as [h Hh]. rewrite Hh. cbn.
    apply height_by_hash_some in Hh as (pre & b & post & Hb & Hbh & <-).
    destruct (Z.eqb_spec (b.(blk_height) + 1) blk.(blk_height)); [|by left; eexists].
    destruct (recent_chain_valid s fin blk); [|by left; eexists]. right. split; [done|]. left.
    exists nc, b. split; [done|]. split; [rewrite Hb; set_solver|done].
  - destruct (db_height_by_hash fin _) as [h|]; [|by left; eexists]. cbn.
    destruct (Z.eqb_spec (h + 1) blk.(blk_height)); [|by left; eexists].
    destruct (recent_chain_valid s fin blk); [|by left; eexists]. right. split; [done|]. right.
    split; [|by exists h]. intros nc Hnc. apply last_None in El.
    destruct (contains_block_hash (blk_parent blk) nc) eqn:E; [|done].
    by destruct (filter_nil_not_elem_of _ _ nc El E).
Qed.

Lemma limit_length {A} (l : list A) n : (length (drop (length l - n) l) ≤ n)%nat.
Proof. rewrite length_drop. lia. Qed.

Lemma limit_nonempty {A} (l : list A) n x : x ∈ l → (0 < n)%nat → drop (length l - n) l ≠ [].
Proof.
  intros Hx Hn E. apply (f_equal length) in E. rewrite length_drop in E. cbn in E.
  destruct l; [by apply elem_of_nil in Hx|cbn in *; lia].
Qed.

Section commit.
Context {P : Profile} {CC : ContextChecks}.
Context (iter : Bonds → Items) {Hi : Iteration iter}.

Lemma validate_and_commit_ok s fin v nc blk :
  base fin v → above v nc → addable nc blk → contains_block_hash blk.(blk_hash) nc = false →
  (∃ e, validate_and_commit iter fin s nc blk = Ret (inl e)) ∨
  ∃ nc', validate_and_commit iter fin s nc blk = Ret (inr nc') ∧
  nc'.(nf_blocks) = nc.(nf_blocks) ++ [blk] ∧ above v nc'.
Proof.
  intros Hv Ha Had Hn. unfold validate_and_commit, bail. destruct (negb _); [|by left; eexists].
  destruct (spends_valid nc fin blk); [|by left; eexists].
  destruct (validate_total nc.(nf_inner) fin.(FinalizedState.db) blk.(blk_height) blk.(blk_txs) ∅ ∅) as [[e|[]] Hr];
    change (validate_loop _ _ _ _ ∅ ∅) with
    (validate_delegation_bonds nc.(nf_inner) fin.(FinalizedState.db) blk.(blk_height) blk.(blk_txs)) in Hr;
    rewrite Hr; [by left; eexists|]. cbn [map_err mbind Fallible_bind].
  destruct (push_ok iter fin v nc blk Hi Hv Ha Had Hn Hr) as (nc' & Hp & Hb & Ha').
  rewrite Hp. destruct (trees_valid nc fin blk); [|by left; eexists]. right. by exists nc'.
Qed.

Lemma commit_new_chain_ok s fin v blk tip cs :
  state_ok s fin → base fin v → fin.(FinalizedState.committed) = tip :: cs → unknown s fin blk →
  blk.(blk_height) = tip.1 + 1 → blk.(blk_parent) = tip.2 → addable (new_chain fin) blk →
  (∃ e, commit_new_chain iter fin blk s = Ret (inl e)) ∨
  ∃ s', commit_new_chain iter fin blk s = Ret (inr s') ∧ state_ok s' fin ∧ s'.(chain_set) ≠ [].
Proof.
  intros Hok Hv Hc Hun Hh Hp Had. unfold commit_new_chain, finalized_tip_height. rewrite Hc.
  cbn [head hd_error fmap option_fmap option_map expect_some mret Fallible_ret mbind Fallible_bind].
  destruct (new_follows fin v Hv) as [_ Ha].
  destruct (validate_and_commit_ok s fin v _ blk Hv Ha Had) as [[e ->]|(nc & -> & Hb & Hnc)]; [done|by left; eexists|].
  right. cbn [app] in Hb. cbn [mbind Fallible_bind]. unfold insert_chain, insert_with.
  assert (last nc.(nf_blocks) = Some blk) as Hl by (by rewrite Hb).
  destruct (insert_new_tip s fin blk nc Hok Hun Hl) as (l & -> & Hperm & Hs & _).
  cbn [mbind outcome_bind lift mret Fallible_ret]. eexists. split; [done|]. split.
  - apply (state_ok_insert s fin v tip cs nc [] blk); try done.
    + rewrite Hb. by repeat split.
    + by intros b ?%elem_of_nil.
    + intros x Hx. apply (sublist_subseteq _ _ (sublist_drop _ _)) in Hx. rewrite Hperm in Hx.
      apply elem_of_cons in Hx as [->|Hx]; [by left|right]. split; [done|]. intros b _. apply not_elem_of_nil.
    + eapply sorted_sublist; [apply sublist_drop|done].
    + apply limit_length.
  - apply (limit_nonempty l _ nc); [rewrite Hperm; set_solver|]. unfold MAX_NON_FINALIZED_CHAIN_FORKS. lia.
Qed.

Context (iter_targets : gmap BondKey bytes → list (BondKey * bytes)).
Context (Hit : ∀ m, iter_targets m ≡ₚ map_to_list m).

(** The chain that a block extends. *)
Definition extends (fin : FinalizedState.t) (s : NonFinalizedState) (blk : Block) (nc : NonFinalizedChain) : Prop :=
  if decide (finalized_tip_hash fin = blk.(blk_parent)) then nc = new_chain fin
  else parent_chain iter_targets blk.(blk_parent) s = Ret (inr nc).

Lemma commit_block_ok s fin v blk tip cs nc0 b0 :
  state_ok s fin → base fin v → fin.(FinalizedState.committed) = tip :: cs → unknown s fin blk →
  nc0 ∈ s.(chain_set) → b0 ∈ nc0.(nf_blocks) → b0.(blk_hash) = blk.(blk_parent) →
  blk.(blk_height) = b0.(blk_height) + 1 →
  (∀ nc, parent_chain iter_targets blk.(blk_parent) s = Ret (inr nc) → addable nc blk) →
  (∃ e, commit_block iter iter_targets fin blk s = Ret (inl e)) ∨
  ∃ s', commit_block iter iter_targets fin blk s = Ret (inr s') ∧ state_ok s' fin ∧ s'.(chain_set) ≠ [].
Proof.
  intros Hok Hv Hc Hun Hnc0 Hb0 Hp Hh Had. unfold commit_block.
  destruct (parent_chain_ok iter_targets Hit s fin v blk.(blk_parent) Hok Hv) as [->|(nc & pre & b & Hpc & [Hb Hbh Ha Hfrom Htips])];
    [by left; eexists|].
  rewrite Hpc. cbn [mbind Fallible_bind]. destruct Hfrom as (q & post & Hq & Hqb).
  assert (∀ x, x ∈ nc.(nf_blocks) → x ∈ q.(nf_blocks)) as Hsub by (intros x; rewrite Hb, Hqb; set_solver).
  assert (b = b0) as ->.
  { apply (so_same _ _ Hok q nc0); [done|done|rewrite Hqb; set_solver|done|congruence]. }
  destruct (validate_and_commit_ok s fin v nc blk Hv Ha (Had nc Hpc)) as [[e ->]|(nc' & -> & Hb' & Ha')].
  { destruct (contains_block_hash blk.(blk_hash) nc) eqn:E; [|done]. apply contains_spec in E as (x & Hx & Ex).
    by destruct (un_chains _ _ _ Hun q x Hq (Hsub x Hx)). }
  { by left; eexists. }
  right. cbn [mbind Fallible_bind]. unfold insert_with.
  assert (last nc'.(nf_blocks) = Some blk) as Hl by (by rewrite Hb', last_snoc).
  destruct (insert_new_tip s fin blk nc' Hok Hun Hl) as (l & -> & Hperm & Hs & Hne).
  cbn [mbind outcome_bind]. rewrite retain_tips by done.
  cbn [mbind outcome_bind lift mret Fallible_ret]. eexists. split; [done|].
  destruct (so_tip _ _ Hok) as (tip' & cs' & Hc' & _ & Hlks). rewrite Hc in Hc'. injection Hc' as <- <-. split.
  - apply (state_ok_insert s fin v tip cs nc' nc.(nf_blocks) blk); try done.
    + rewrite Hb', Hb, linked_app, last_snoc. specialize (Hlks q Hq). rewrite Hqb in Hlks.
      rewrite (app_assoc pre [b0] post : pre ++ b0 :: post = _) in Hlks. apply linked_app in Hlks as [Hlks _].
      split; [done|]. cbn. rewrite Hbh. repeat split. lia.
    + intros x Hx. exists q. split; [done|by apply Hsub].
    + intros x Hx. apply (sublist_subseteq _ _ (sublist_drop _ _)) in Hx. apply list_elem_of_filter in Hx as [Hk Hx].
      rewrite Hperm in Hx. apply elem_of_cons in Hx as [->|Hx]; [by left|right]. split; [done|].
      intros y Hy Hin. unfold tip_not in Hk. rewrite Hy in Hk. apply Hk, (Htips x y Hx Hy). by rewrite <- Hb.
    + eapply sorted_sublist; [apply sublist_drop|]. eapply sorted_sublist; [apply sublist_filter|done].
    + apply limit_length.
  - apply (limit_nonempty _ _ nc'); [|unfold MAX_NON_FINALIZED_CHAIN_FORKS; lia]. apply list_elem_of_filter.
    split; [|rewrite Hperm; set_solver]. unfold tip_not. rewrite Hl. cbn. rewrite <- Hp.
    apply not_eq_sym, (un_chains _ _ _ Hun nc0 b0 Hnc0 Hb0).
Qed.
End commit.

(** ** The reorg limit *)

Lemma reorg_limit_ok {P : Profile} n : ∀ s fin best,
  state_ok s fin → last s.(chain_set) = Some best →
  (length best.(nf_blocks) ≤ 99 + n)%nat →
  ∃ s' fin' best', reorg_limit_loop n (s, fin) = Ret (s', fin') ∧ state_ok s' fin' ∧
    fin.(FinalizedState.committed) `suffix_of` fin'.(FinalizedState.committed) ∧
    last s'.(chain_set) = Some best' ∧
    best'.(nf_blocks) = drop (length best.(nf_blocks) - 99) best.(nf_blocks).
Proof.
  induction n as [|n IH]; intros s fin best Hok Hl Hn; cbn [reorg_limit_loop];
    unfold best_chain_len, best_chain; cbn [fst]; rewrite Hl; cbn [fmap option_fmap option_map unwrap mbind outcome_bind].
  { rewrite (proj2 (Z.ltb_ge _ _)) by (unfold MAX_BLOCK_REORG_HEIGHT; lia). exists s, fin, best. split; [done|].
    split; [done|]. split; [done|]. split; [done|]. by rewrite (proj2 (Nat.sub_0_le _ _)) by lia. }
  destruct (Z.ltb_spec MAX_BLOCK_REORG_HEIGHT (Z.of_nat (length best.(nf_blocks)))) as [Hlt|Hge];
    unfold MAX_BLOCK_REORG_HEIGHT in *.
  2:{ exists s, fin, best. split; [done|]. split; [done|]. split; [done|]. split; [done|].
    by rewrite (proj2 (Nat.sub_0_le _ _)) by lia. }
  destruct (finalize_next_ok s fin Hok) as (side & best' & blk & s1 & fin1 & Hset & Hr & Hf & Hok1 & Hset1 & Hc1);
    [intros E; by rewrite E in Hl|].
  rewrite Hset, last_snoc in Hl. injection Hl as ->. rewrite Hf. cbn [mbind outcome_bind].
  pose proof (rooted_blocks _ _ Hr) as Hb. rewrite Hb in Hlt, Hn. cbn [length] in Hlt, Hn.
  unfold left_over in Hset1. rewrite decide_False in Hset1 by (intros E; rewrite E in Hlt; cbn in Hlt; lia).
  destruct (IH s1 fin1 (pop best) Hok1) as (s' & fin' & best' & Hrun & Hok' & Hsuf & Hl' & Hd);
    [by rewrite Hset1, last_snoc|lia|].
  exists s', fin', best'. split; [done|]. split; [done|]. split; [|split; [done|]].
  - etrans; [|exact Hsuf]. rewrite Hc1. by apply suffix_cons_r.
  - rewrite Hd, Hb. cbn [length]. rewrite Nat.sub_succ_l by lia. done.
Qed.

Lemma best_exists (s : NonFinalizedState) : s.(chain_set) ≠ [] → ∃ best, last s.(chain_set) = Some best.
Proof. intros Hne. apply last_is_Some in Hne as [b Hb]. by exists b. Qed.

Lemma last_in {A} (l : list A) x : last l = Some x → x ∈ l.
Proof. intros (l' & ->)%last_Some. set_solver. Qed.

(** ** The messages *)

Definition write_ok {P : Profile} (w : WriteState) : Prop := state_ok w.(ws_non_finalized) w.(ws_finalized).

(** The finalized blocks only grow. *)
Definition finalized_in (w w' : WriteState) : Prop :=
  w.(ws_finalized).(FinalizedState.committed) `suffix_of` w'.(ws_finalized).(FinalizedState.committed).

#[global] Instance finalized_in_preorder : PreOrder finalized_in.
Proof. split; [by intros w; unfold finalized_in|]. intros a b c. unfold finalized_in. apply transitivity. Qed.

Section messages.
Context {P : Profile} {CC : ContextChecks}.
Context (iter : Bonds → Items) {Hi : Iteration iter}.
Context (iter_targets : gmap BondKey bytes → list (BondKey * bytes)).
Context (Hit : ∀ m, iter_targets m ≡ₚ map_to_list m).

Lemma commit_ok_or_error s fin blk :
  state_ok s fin → unknown s fin blk → (∀ nc, extends iter_targets fin s blk nc → addable nc blk) →
  (∃ e, validate_and_commit_non_finalized iter iter_targets fin s blk = Ret (inl e)) ∨
  ∃ s', validate_and_commit_non_finalized iter iter_targets fin s blk = Ret (inr s') ∧
  state_ok s' fin ∧ s'.(chain_set) ≠ [].
Proof.
  intros Hok Hun Had. destruct (so_tip _ _ Hok) as (tip & cs & Hc & Ht & _).
  destruct (so_base _ _ Hok) as (v & Hv & _). unfold validate_and_commit_non_finalized, extends in *.
  destruct (initial_ok s fin blk tip cs Hok Hc) as [[e ->]|[-> Hpar]]; [by left; eexists|].
  cbn [mbind Fallible_bind]. destruct (decide (finalized_tip_hash fin = blk.(blk_parent))) as [Et|Et].
  - unfold finalized_tip_hash in Et. rewrite Hc in Et. destruct tip as [th thash].
    assert (∀ nc b, nc ∈ s.(chain_set) → b ∈ nc.(nf_blocks) → b.(blk_hash) ≠ blk.(blk_parent)) as Hno.
    { intros nc b Hnc Hb E. apply (so_fresh _ _ Hok nc b Hnc Hb). rewrite E, Hc, <- Et. set_solver. }
    destruct Hpar as [(nc & b & Hnc & Hb & Hbh & _)|[_ (h & Hh & Hbh)]]; [by destruct (Hno nc b)|].
    unfold db_height_by_hash in Hh. rewrite Hc in Hh. cbn [find] in Hh. rewrite bool_decide_true in Hh by done.
    injection Hh as <-. apply (commit_new_chain_ok iter s fin v blk (th, thash) cs); try done. by apply Had.
  - destruct Hpar as [(nc & b & Hnc & Hb & Hbh & Hheight)|[Hno _]].
    + by apply (commit_block_ok iter iter_targets Hit s fin v blk tip cs nc b).
    + left. unfold commit_block.
      destruct (parent_chain_ok iter_targets Hit s fin v blk.(blk_parent) Hok Hv) as [->|(nc & pre & b & _ & He)];
        [by eexists|]. destruct (ea_from _ _ _ _ _ _ He) as (q & post & Hq & Hqb).
      exfalso. specialize (Hno q Hq). apply not_true_iff_false in Hno. apply Hno, contains_spec. exists b.
      split; [rewrite Hqb; set_solver|by apply (ea_hash _ _ _ _ _ _ He)].
Qed.

Lemma write_commit_ok w blk :
  write_ok w → unknown w.(ws_non_finalized) w.(ws_finalized) blk →
  (∀ nc, extends iter_targets w.(ws_finalized) w.(ws_non_finalized) blk nc → addable nc blk) →
  ∃ w' r, write_commit iter iter_targets blk w = Ret (w', r) ∧ write_ok w' ∧ finalized_in w w'.
Proof.
  intros Hok Hun Had. unfold write_commit.
  destruct (commit_ok_or_error _ _ blk Hok Hun Had) as [[e He]|(s' & He & Hok' & Hne)].
  - assert (∃ e, (match index_get (blk_parent blk) (parent_error_map w) with Some e => Ret (inl e) | None =>
      validate_and_commit_non_finalized iter iter_targets (ws_finalized w) (ws_non_finalized w) blk end) = Ret (inl e)) as [e' ->]
      by (destruct (index_get _ _); by eexists).
    cbn [mbind outcome_bind]. eexists _, _. split; [done|]. split; [done|]. unfold finalized_in. done.
  - destruct (index_get _ _) as [e|].
    { cbn [mbind outcome_bind]. eexists _, _. split; [done|]. split; [done|]. unfold finalized_in. done. }
    rewrite He. cbn [mbind outcome_bind]. destruct (best_exists s' Hne) as [best Hl].
    destruct (tip_exists best (so_blocks _ _ Hok' best (last_in _ _ Hl))) as [t Ht].
    unfold update_latest_chain_channels, best_chain. rewrite Hl. cbn [unwrap mbind outcome_bind]. rewrite Ht.
    cbn [unwrap mbind outcome_bind].
    destruct (reorg_limit_ok (length best.(nf_blocks)) s' _ best Hok' Hl) as (s2 & fin2 & best2 & -> & Hok2 & Hsuf & _).
    { lia. }
    cbn [mbind outcome_bind]. eexists _, _. split; [done|]. split; [done|]. done.
Qed.

Context (iter_stakes : gmap bytes Z → list (bytes * Z)).
Context (Hst : ∀ m, iter_stakes m ≡ₚ map_to_list m).

Lemma crosslink_message_ok w hash :
  write_ok w → ∃ w' r, handle_message iter iter_targets iter_stakes (CrosslinkFinalized hash) w = Ret (w', r) ∧
  write_ok w' ∧ finalized_in w w'.
Proof.
  intros Hok. cbn [handle_message]. set (s := ws_non_finalized w). set (fin := ws_finalized w).
  destruct (decide (Exists (λ nc, contains_block_hash hash nc = true) s.(chain_set))) as [(nc & Hnc & Hc)%Exists_exists|Hn].
  - destruct (crosslink_finalized_ok iter_stakes s fin hash nc Hst Hok Hnc Hc)
      as (s' & fin' & stakes & bl & b & -> & Hok' & _ & Hcs & _). cbn [mbind outcome_bind].
    eexists _, _. split; [done|]. split; [done|]. unfold finalized_in. cbn. rewrite Hcs. by eexists.
  - unfold crosslink_finalized, crosslink_finalize. cbn [fst snd]. rewrite find_chain_pure.
    destruct (last _) as [nc|] eqn:El.
    { exfalso. apply last_in, list_elem_of_filter in El as [Hh Hnc]. apply Hn, Exists_exists. exists nc.
      split; [done|]. apply height_by_hash_contains. by apply bool_decide_eq_true in Hh. }
    cbn [mbind outcome_bind]. destruct (decide _); cbn [mbind outcome_bind]; eexists _, _; split; try done;
                                (split; [done|unfold finalized_in; done]).
Qed.
End messages.

(** ** Runs of the task *)

Section runs.
Context {P : Profile} {CC : ContextChecks}.
Context (iter : Bonds → Items) (iter_targets : gmap BondKey bytes → list (BondKey * bytes))
  (iter_stakes : gmap bytes Z → list (bytes * Z)).

(** Commit and finalize messages, with what is asked of the blocks: that they are new, and
    can be added to the chain they extend.  The checks of a block do not ensure the second
    ([created_and_unbonded_aborts], [empty_bonds_abort]). *)
Inductive accepted (w : WriteState) : NonFinalizedWriteMessage → Prop :=
| accepted_commit blk :
  unknown w.(ws_non_finalized) w.(ws_finalized) blk →
  (∀ nc, extends iter_targets w.(ws_finalized) w.(ws_non_finalized) blk nc → addable nc blk) →
  accepted w (Commit blk)
| accepted_finalized hash : accepted w (CrosslinkFinalized hash).

Definition handled (w w' : WriteState) : Prop :=
  ∃ msg r, accepted w msg ∧ handle_message iter iter_targets iter_stakes msg w = Ret (w', r).

Lemma handled_ok w msg :
  Iteration iter → (∀ m, iter_targets m ≡ₚ map_to_list m) → (∀ m, iter_stakes m ≡ₚ map_to_list m) →
  write_ok w → accepted w msg →
  ∃ w' r, handle_message iter iter_targets iter_stakes msg w = Ret (w', r) ∧ write_ok w' ∧ finalized_in w w'.
Proof.
  intros Hi Hit Hst Hok [blk Hun Had|hash].
  - by apply write_commit_ok.
  - by apply crosslink_message_ok.
Qed.

(** C11: As long as the blocks that are committed are new and, on the chain they extend, name no
    bond twice and are affordable ([addable]: the pool change carries exactly the stake that
    is created and withdrawn, the pools and the bonds with the reward stay within the supply,
    and active bonds hold something; [created_and_unbonded_aborts] shows a panic otherwise),
    the write task handles every commit and finalize message, in any order, without a panic:
    a block that is finalized is accepted by the database.  Afterwards every chain starts at
    the finalized tip with bonds and pools that are those of the database after its blocks,
    and what was finalized stays finalized. *)
Theorem write_task_safe w0 w msg :
  Iteration iter → (∀ m, iter_targets m ≡ₚ map_to_list m) → (∀ m, iter_stakes m ≡ₚ map_to_list m) →
  write_ok w0 → rtc handled w0 w → accepted w msg →
  ∃ w' r, handle_message iter iter_targets iter_stakes msg w = Ret (w', r) ∧ write_ok w' ∧ finalized_in w0 w'.
Proof.
  intros Hi Hit Hst H0 Hrun Hmsg.
  assert (write_ok w ∧ finalized_in w0 w) as [Hok Hfin].
  { clear Hmsg. induction Hrun as [w|w w1 w2 (m & r & Ha & Hm) Hrun IH]; [by split|].
    destruct (handled_ok w m Hi Hit Hst H0 Ha) as (w' & r' & Hm' & Hok' & Hf'). rewrite Hm in Hm'.
    injection Hm' as <- <-. destruct (IH Hok') as [Hok Hf]. split; [done|]. by etrans. }
  destruct (handled_ok w msg Hi Hit Hst Hok Hmsg) as (w' & r & Hm & Hok' & Hf').
  exists w', r. split; [done|]. split; [done|]. by etrans.
Qed.

(** The loop that finalizes blocks past the reorg limit ends, within as many
    rounds as the best chain has blocks: it finalizes all but the last 99
    blocks of the best chain. *)
Theorem reorg_loop_ends s fin best :
  state_ok s fin → last s.(chain_set) = Some best →
  ∃ s' fin' best', reorg_limit_loop (length best.(nf_blocks)) (s, fin) = Ret (s', fin') ∧ state_ok s' fin' ∧
  last s'.(chain_set) = Some best' ∧
  best'.(nf_blocks) = drop (length best.(nf_blocks) - 99) best.(nf_blocks).
Proof.
  intros Hok Hl. destruct (reorg_limit_ok (length best.(nf_blocks)) s fin best Hok Hl)
                   as (s' & fin' & best' & Hr & Hok' & _ & Hl' & Hd); [lia|]. by exists s', fin', best'.
Qed.

(** C12: In a state that satisfies the invariant of the write task ([state_ok], in which every
    block of every chain was added under the conditions of [addable]: no bond named twice,
    and affordable), when the finality service decides a hash of some chain, that block and
    all blocks below it are finalized, the remaining chains extend it, and the stakes that
    are sent back are one entry per finalizer with the sum of the active bonds that target
    it, adding up to the bonded value pool. *)
Theorem crosslink_finalizes s fin hash nc0 :
  (∀ m, iter_stakes m ≡ₚ map_to_list m) →
  state_ok s fin → nc0 ∈ s.(chain_set) → contains_block_hash hash nc0 = true →
  ∃ s' fin' stakes, crosslink_finalized iter_stakes hash (s, fin) = Ret (s', fin', inr (hash, stakes)) ∧
  finalized_tip_hash fin' = hash ∧
  fin.(FinalizedState.committed) `suffix_of` fin'.(FinalizedState.committed) ∧
  (∀ nc b, nc ∈ s'.(chain_set) → head nc.(nf_blocks) = Some b → b.(blk_parent) = hash) ∧
  NoDup stakes.*1 ∧
  zsum (map snd stakes) = ValueBalance.staking_bonded fin'.(FinalizedState.pools) ∧
  (∀ t p, (t, p) ∈ stakes ↔ p = zsum (map (on t) (active_bonds fin'.(FinalizedState.db))) ∧
   ∃ x, x ∈ active_bonds fin'.(FinalizedState.db) ∧ x.2.(target_finalizer) = t).
Proof.
  intros Hst Hok Hnc0 Hc0.
  destruct (crosslink_finalized_ok iter_stakes s fin hash nc0 Hst Hok Hnc0 Hc0)
    as (s' & fin' & stakes & bl & b & Hrun & Hok' & Hb & Hcs & Hstakes).
  rewrite map_app, reverse_app in Hcs. cbn in Hcs. exists s', fin', stakes. split; [done|].
  split; [unfold finalized_tip_hash; by rewrite Hcs|]. split.
  { rewrite Hcs. apply suffix_cons_r. by eexists. }
  split; [|done]. intros nc x Hnc Hx. destruct (so_tip _ _ Hok') as (tip & cs & Hc & _ & Hlk).
  rewrite Hcs in Hc. injection Hc as <- _. specialize (Hlk nc Hnc).
  destruct nc.(nf_blocks) as [|y l]; [done|]. injection Hx as ->. destruct Hlk as (_ & -> & _). done.
Qed.
End runs.
