(* ===== verification/Difficulty.v ===== *)
(** * Difficulty: proof-of-work targets and their adjustment

    Models [zebra-chain/src/work/difficulty.rs] (compact and expanded
    difficulties, work), what depends on the target spacing of [Network], and
    the difficulty adjustment of [zebra-state/src/service/check/difficulty.rs] with
    the check that uses it ([check.rs]).

    The 256-bit integers of the [uint] crate and the times of [chrono] are
    third-party code: their operations are the parameters [Uint] and [Chrono],
    on numbers; [UintLaws] and [ChronoLaws] state what is documented about them.
    A duration is its number of nanoseconds, a block time its number of
    seconds. *)

From stdpp Require Import base list sorting.
From S2P Require Import Prelude Transparent Network.

(** ** Third-party integers and times *)

Class Uint := {
  u_add : Z → Z → outcome Z;
  u_mul : Z → Z → outcome Z;
  u_div : Z → Z → outcome Z;
  u_pow : Z → Z → outcome Z;
  u_not : Z → Z;
  u_bits : Z → Z;
  u_shl : Z → Z → Z;
  u_shr : Z → Z → Z }.

(** Exact or a panic; a shift to the left drops the bits above the 256th. *)
Definition exactly (z : Z) : outcome Z := if in_range 256 z then Ret z else Panic.

Class UintLaws `{Uint} : Prop := {
  u_add_law a b : is_u 256 a → is_u 256 b → u_add a b = exactly (a + b);
  u_mul_law a b : is_u 256 a → is_u 256 b → u_mul a b = exactly (a * b);
  u_div_law a b : is_u 256 a → is_u 256 b → u_div a b = if b =? 0 then Panic else Ret (a / b);
  u_pow_law a n : is_u 256 a → is_u 256 n → u_pow a n = exactly (a ^ n);
  u_not_law a : is_u 256 a → u_not a = 2 ^ 256 - 1 - a;
  u_bits_law a : is_u 256 a → 0 < a → u_bits a = Z.log2 a + 1;
  u_shl_law a n : is_u 256 a → 0 ≤ n < 256 → u_shl a n = (a * 2 ^ n) mod 2 ^ 256;
  u_shr_law a n : is_u 256 a → 0 ≤ n < 256 → u_shr a n = a / 2 ^ n }.

Class Chrono := {
  seconds : Z → Z;
  num_seconds : Z → Z;
  since : Z → Z → Z;
  later : Z → Z → Z;
  d_add : Z → Z → Z;
  d_sub : Z → Z → Z;
  d_mul : Z → Z → Z;
  d_div : Z → Z → Z }.

Definition NANOS : Z := 1000000000.

(** Durations are exact on the range of block times; divisions truncate towards
    zero. *)
Class ChronoLaws `{Chrono} : Prop := {
  seconds_law s : Z.abs s < 2 ^ 33 → seconds s = s * NANOS;
  num_seconds_law d : Z.abs d < 2 ^ 40 * NANOS → num_seconds d = Z.quot d NANOS;
  since_law a b : is_u 32 a → is_u 32 b → since a b = (a - b) * NANOS;
  later_law t s : is_u 32 t → 0 ≤ s < 2 ^ 20 → later t (s * NANOS) = t + s;
  d_add_law a b : Z.abs a < 2 ^ 33 * NANOS → Z.abs b < 2 ^ 33 * NANOS → d_add a b = a + b;
  d_sub_law a b : Z.abs a < 2 ^ 33 * NANOS → Z.abs b < 2 ^ 33 * NANOS → d_sub a b = a - b;
  d_mul_law a k : Z.abs a < 2 ^ 20 * NANOS → 0 < k < 2 ^ 10 → d_mul a k = a * k;
  d_div_law a k : Z.abs a < 2 ^ 40 * NANOS → 0 < k < 2 ^ 10 → d_div a k = Z.quot a k }.

(** ** Compact and expanded difficulties *)

Definition BASE : Z := 256.
Definition OFFSET : Z := 3.
Definition PRECISION : Z := 24.
Definition SIGN_BIT : Z := Z.shiftl 1 (PRECISION - 1).
Definition UNSIGNED_MANTISSA_MASK : Z := SIGN_BIT - 1.

(** "Normalise the mantissa and exponent before multiplying." *)
Definition normalise (m e : Z) : option (Z * Z) :=
  if 32 <=? e then None
  else if (e =? 31) && (255 <? m) then None
  else if (e =? 31) && (m <=? 255) then Some (Z.shiftl m 16, e - 2)
  else if (e =? 30) && (65535 <? m) then None
  else if (e =? 30) && (m <=? 65535) then Some (Z.shiftl m 8, e - 1)
  else if e <? 0 then Some (Z.shiftr m (Z.abs e * 8), 0)
  else Some (m, e).

Section difficulty.
Context `{Uint}.

(** [CompactDifficulty::to_expanded] *)
Definition to_expanded (c : Z) : outcome (option Z) :=
  if Z.land c SIGN_BIT =? SIGN_BIT then Ret None else
  let mantissa := Z.land c UNSIGNED_MANTISSA_MASK in
  let exponent := Z.shiftr c PRECISION - OFFSET in
  match normalise mantissa exponent with
  | None => Ret None
  | Some (mantissa, exponent) =>
      p ← u_pow BASE exponent;
      result ← u_mul mantissa p;
      Ret (if result =? 0 then None else Some result)
  end.

(** [Work::try_from] *)
Definition work_try_from (expanded : Z) : outcome (option Z) :=
  s ← u_add expanded 1;
  d ← u_div (u_not expanded) s;
  result ← u_add d 1;
  Ret (if result <=? 2 ^ 128 - 1 then Some result else None).

(** [CompactDifficulty::to_work] *)
Definition to_work (c : Z) : outcome (option Z) :=
  expanded ← to_expanded c;
  match expanded with None => Ret None | Some e => work_try_from e end.

(** [ExpandedDifficulty::to_compact] *)
Definition to_compact `{Profile} (e : Z) : outcome Z :=
  _ ← assert_ (0 <? e);
  let size := u_bits e / 8 + 1 in
  mantissa ← (if e <=? UNSIGNED_MANTISSA_MASK
              then d ← arith 64 (3 - size); Ret (u_shl e (8 * d))
              else d ← arith 64 (size - 3); Ret (u_shr e (8 * d)));
  _ ← assert_ (size <? 31 + OFFSET);
  _ ← assert_ (mantissa <=? UNSIGNED_MANTISSA_MASK);
  if 0 <? mantissa then Ret (mantissa + Z.shiftl size 24) else Panic.
End difficulty.

(** ** The adjustment *)

Definition POW_MEDIAN_BLOCK_SPAN : nat := 11.
Definition POW_ADJUSTMENT_BLOCK_SPAN : nat := POW_AVERAGING_WINDOW + POW_MEDIAN_BLOCK_SPAN.
Definition POW_DAMPING_FACTOR : Z := 4.
Definition POW_MAX_ADJUST_UP_PERCENT : Z := 16.
Definition POW_MAX_ADJUST_DOWN_PERCENT : Z := 32.
Definition BLOCK_MAX_TIME_SINCE_MEDIAN : Z := 90 * 60.

Record AdjustedDifficulty := {
  candidate_time : Z;
  candidate_height : Z;
  network : Network;
  relevant_difficulty_thresholds : list Z;
  relevant_times : list Z }.

(** [median_time] *)
Definition median_time (times : list Z) : outcome Z := index (merge_sort Z.le times) (length times / 2).

Inductive DifficultyError :=
| TimeTooEarly (candidate_time median_time_past : Z)
| TimeTooLate (candidate_time block_time_max : Z)
| InvalidDifficultyThreshold (difficulty_threshold expected_difficulty : Z).

Section adjustment.
Context `{Profile, Uint, Chrono}.

Definition target_spacing (nu : NetworkUpgrade) : Z := seconds (spacing_seconds nu).
Definition averaging_window_timespan (nu : NetworkUpgrade) : Z :=
  d_mul (target_spacing nu) (Z.of_nat POW_AVERAGING_WINDOW).
Definition averaging_window_timespan_for_height (n : Network) (height : Z) : outcome Z :=
  nu ← current n height; Ret (averaging_window_timespan nu).

Definition minimum_difficulty_spacing_for_height (n : Network) (height : Z) : outcome (option Z) :=
  match n with
  | Mainnet => Ret None
  | Testnet _ =>
      if height <? TESTNET_MINIMUM_DIFFICULTY_START_HEIGHT then Ret None
      else nu ← current n height;
           Ret (Some (d_mul (target_spacing nu) TESTNET_MINIMUM_DIFFICULTY_GAP_MULTIPLIER))
  end.
Definition is_testnet_min_difficulty_block (n : Network) (height block_time previous_block_time : Z) : outcome bool :=
  gap ← minimum_difficulty_spacing_for_height n height;
  Ret (match gap with Some gap => gap <? since block_time previous_block_time | None => false end).

(** [target_difficulty_limit]; a test network stores its own. *)
Definition target_difficulty_limit (n : Network) : outcome Z :=
  match n with
  | Mainnet => c ← to_compact (2 ^ 243 - 1); e ← to_expanded c; unwrap e
  | Testnet params => Ret params.(Parameters.target_difficulty_limit)
  end.

(** [new_from_block] *)
Definition new_from_block (height time : Z) (n : Network) (context : list (Z * Z)) : outcome AdjustedDifficulty :=
  if height <=? 0 then Panic else
  let context := take POW_ADJUSTMENT_BLOCK_SPAN context in
  Ret {| candidate_time := time; candidate_height := height; network := n;
         relevant_difficulty_thresholds := context.*1; relevant_times := context.*2 |}.

Definition mean_target_difficulty (a : AdjustedDifficulty) : outcome Z :=
  if decide (POW_AVERAGING_WINDOW ≤ length a.(relevant_difficulty_thresholds))%nat then
    total ← for_each (λ acc c, e ← to_expanded c; e ← unwrap e; u_add acc e)
              (take POW_AVERAGING_WINDOW a.(relevant_difficulty_thresholds)) 0;
    u_div total (Z.of_nat POW_AVERAGING_WINDOW)
  else target_difficulty_limit a.(network).

Definition median_time_past (a : AdjustedDifficulty) : outcome Z :=
  median_time (take POW_MEDIAN_BLOCK_SPAN a.(relevant_times)).

Definition median_timespan (a : AdjustedDifficulty) : outcome Z :=
  newer_median ← median_time_past a;
  older_median ← (if decide (POW_AVERAGING_WINDOW < length a.(relevant_times))%nat
                  then median_time (take POW_MEDIAN_BLOCK_SPAN (drop POW_AVERAGING_WINDOW a.(relevant_times)))
                  else unwrap (last a.(relevant_times)));
  Ret (since newer_median older_median).

Definition median_timespan_bounded (a : AdjustedDifficulty) : outcome Z :=
  averaging_window_timespan ← averaging_window_timespan_for_height a.(network) a.(candidate_height);
  median ← median_timespan a;
  let damped_variance := d_div (d_sub median averaging_window_timespan) POW_DAMPING_FACTOR in
  let damped_variance := seconds (num_seconds damped_variance) in
  let median_timespan_damped := d_add averaging_window_timespan damped_variance in
  let min_median_timespan := d_div (d_mul averaging_window_timespan (100 - POW_MAX_ADJUST_UP_PERCENT)) 100 in
  let max_median_timespan := d_div (d_mul averaging_window_timespan (100 + POW_MAX_ADJUST_DOWN_PERCENT)) 100 in
  Ret (Z.max min_median_timespan (Z.min max_median_timespan median_timespan_damped)).

Definition threshold_bits (a : AdjustedDifficulty) : outcome Z :=
  averaging_window_timespan ← averaging_window_timespan_for_height a.(network) a.(candidate_height);
  mean ← mean_target_difficulty a;
  q ← u_div mean (num_seconds averaging_window_timespan);
  bounded ← median_timespan_bounded a;
  threshold ← u_mul q (num_seconds bounded);
  limit ← target_difficulty_limit a.(network);
  to_compact (Z.min limit threshold).

Definition expected_difficulty_threshold (a : AdjustedDifficulty) : outcome Z :=
  previous ← index a.(relevant_times) 0;
  min_difficulty ← is_testnet_min_difficulty_block a.(network) a.(candidate_height) a.(candidate_time) previous;
  if (min_difficulty : bool) then
    _ ← assert_ (match a.(network) with Mainnet => false | Testnet _ => true end);
    limit ← target_difficulty_limit a.(network); to_compact limit
  else threshold_bits a.

(** [difficulty_threshold_and_time_are_valid] *)
Definition difficulty_threshold_and_time_are_valid (difficulty_threshold : Z) (a : AdjustedDifficulty)
    : outcome (DifficultyError + ()) :=
  median ← median_time_past a;
  let block_time_max := later median (seconds BLOCK_MAX_TIME_SINCE_MEDIAN) in
  genesis_height ← unwrap (activation_height Genesis a.(network));
  if (a.(candidate_time) <=? median) && negb (a.(candidate_height) =? genesis_height)
  then Ret (inl (TimeTooEarly a.(candidate_time) median))
  else if is_max_block_time_enforced a.(network) a.(candidate_height) && (block_time_max <? a.(candidate_time))
  then Ret (inl (TimeTooLate a.(candidate_time) block_time_max))
  else
    expected ← expected_difficulty_threshold a;
    Ret (if difficulty_threshold =? expected then inr ()
         else inl (InvalidDifficultyThreshold difficulty_threshold expected)).
End adjustment.
