(* ===== verification/DifficultyInv.v ===== *)
(** * DifficultyInv: targets round down, and the adjustment is the specified one

    A target survives the compact encoding up to its 24 bits of precision, the
    work of a block is the quotient the specification asks for, and the adjusted
    threshold is computed without an overflow or a panic and equals the formula
    of the protocol specification on unbounded integers. *)

From stdpp Require Import base list sorting strings.
From S2P Require Import Prelude Transparent Network Difficulty.

(** ** Compact difficulties *)

Section compact.
Context {P : Profile} {U : Uint} {UL : UintLaws}.

Lemma exactly_ok z : is_u 256 z → exactly z = Ret z.
Proof. intros Hz. unfold exactly. by rewrite (proj2 (in_range_spec 256 z) Hz). Qed.

Lemma sign_bit_clear c : 0 ≤ c → Z.testbit c 23 = false → Z.land c SIGN_BIT = 0.
Proof.
  intros Hc Hb. apply Z.bits_inj'. intros n Hn. rewrite Z.land_spec, Z.bits_0.
  change SIGN_BIT with (2 ^ 23). rewrite Z.pow2_bits_eqb by lia.
  destruct (Z.eqb_spec 23 n) as [<-|]; [by rewrite Hb|by rewrite andb_false_r].
Qed.

Lemma sign_bit_set c : 0 ≤ c → Z.testbit c 23 = true → Z.land c SIGN_BIT = SIGN_BIT.
Proof.
  intros Hc Hb. apply Z.bits_inj'. intros n Hn. rewrite Z.land_spec.
  change SIGN_BIT with (2 ^ 23). rewrite Z.pow2_bits_eqb by lia.
  destruct (Z.eqb_spec 23 n) as [<-|]; [by rewrite Hb|by rewrite andb_false_r].
Qed.

(** The value of a mantissa and an exponent. *)
Definition value (m size : Z) : Z := m * 256 ^ size / 256 ^ 3.

(** A compact difficulty without its sign bit is a mantissa of 23 bits and a
  size. *)
Lemma compact_split m size :
  0 ≤ m < 2 ^ 23 → 0 ≤ size →
  Z.land (m + Z.shiftl size 24) SIGN_BIT = 0 ∧
  Z.land (m + Z.shiftl size 24) UNSIGNED_MANTISSA_MASK = m ∧ Z.shiftr (m + Z.shiftl size 24) PRECISION = size.
Proof.
  intros Hm Hs. rewrite Z.shiftl_mul_pow2 by lia. split; [|split].
  - apply sign_bit_clear; [lia|]. rewrite Z.testbit_odd, Z.shiftr_div_pow2 by lia.
    replace ((m + size * 2 ^ 24) / 2 ^ 23) with (2 * size).
    + by rewrite Z.odd_mul.
    + apply Z.div_unique with m; lia.
  - change UNSIGNED_MANTISSA_MASK with (Z.ones 23). rewrite Z.land_ones by lia.
    symmetry. apply Z.mod_unique with (2 * size); lia.
  - unfold PRECISION. rewrite Z.shiftr_div_pow2 by lia. symmetry. apply Z.div_unique with m; lia.
Qed.

Lemma mul_pow_ok m e :
  0 ≤ m → 0 ≤ e ≤ 29 → m * 256 ^ e < 2 ^ 256 →
  (p ← u_pow BASE e; result ← u_mul m p; Ret (if result =? 0 then None else Some result))
  = Ret (if m * 256 ^ e =? 0 then None else Some (m * 256 ^ e)).
Proof.
  intros Hm He Hr. unfold BASE.
  assert (1 ≤ 256 ^ e) by (change 1 with (256 ^ 0); apply Z.pow_le_mono_r; lia).
  assert (256 ^ e ≤ 256 ^ 29) by (apply Z.pow_le_mono_r; lia).
  rewrite u_pow_law, exactly_ok by (unfold is_u; lia). cbn [mbind outcome_bind].
  rewrite u_mul_law, exactly_ok by (unfold is_u; nia). done.
Qed.

Lemma value_large m size : 3 ≤ size → value m size = m * 256 ^ (size - 3).
Proof.
  intros Hs. unfold value. replace size with (size - 3 + 3) at 1 by lia.
  rewrite Z.pow_add_r, Z.mul_assoc, Z.div_mul by lia. done.
Qed.
Lemma value_small m size : 0 ≤ size ≤ 3 → value m size = m / 2 ^ (8 * (3 - size)).
Proof.
  intros Hs. unfold value. replace (256 ^ 3) with (2 ^ (8 * (3 - size)) * 256 ^ size).
  - assert (0 < 256 ^ size) by (apply Z.pow_pos_nonneg; lia).
    assert (0 < 2 ^ (8 * (3 - size))) by (apply Z.pow_pos_nonneg; lia). rewrite Z.div_mul_cancel_r by lia. done.
  - change 256 with (2 ^ 8). rewrite <- !Z.pow_mul_r, <- Z.pow_add_r by lia. f_equal. lia.
Qed.

(** The expanded difficulty of a mantissa and a size, on every branch. *)
Definition expansion (m size : Z) : option Z :=
  if (35 <=? size) || ((size =? 34) && (255 <? m)) || ((size =? 33) && (65535 <? m)) then None
  else if value m size =? 0 then None else Some (value m size).

Lemma to_expanded_eq m size :
  0 ≤ m < 2 ^ 23 → 0 ≤ size → to_expanded (m + Z.shiftl size 24) = Ret (expansion m size).
Proof.
  intros Hm Hs. destruct (compact_split m size Hm Hs) as (Hsign & Hmant & Hsize).
  unfold to_expanded. rewrite Hsign, Hmant, Hsize. cbn [Z.eqb]. unfold expansion, normalise, OFFSET.
  change (0 =? SIGN_BIT) with false. cbn match.
  destruct (Z.leb_spec 32 (size - 3)); [by rewrite (proj2 (Z.leb_le 35 size)) by lia|].
  rewrite (proj2 (Z.leb_gt 35 size)) by lia. cbn [orb].
  destruct (Z.eqb_spec (size - 3) 31) as [E1|E1].
  { rewrite (proj2 (Z.eqb_eq size 34)), (proj2 (Z.eqb_neq size 33)) by lia. cbn [andb orb].
    destruct (Z.ltb_spec 255 m); [done|]. rewrite (proj2 (Z.leb_le m 255)) by done. cbn [orb].
    rewrite E1, Z.shiftl_mul_pow2 by lia. change (31 - 2) with 29. rewrite mul_pow_ok, value_large by lia.
    by replace (m * 2 ^ 16 * 256 ^ 29) with (m * 256 ^ (size - 3)) by (rewrite E1; lia). }
  cbn [andb]. destruct (Z.eqb_spec (size - 3) 30) as [E2|E2].
  { rewrite (proj2 (Z.eqb_neq size 34)), (proj2 (Z.eqb_eq size 33)) by lia. cbn [andb orb].
    destruct (Z.ltb_spec 65535 m); [done|]. rewrite (proj2 (Z.leb_le m 65535)) by done. cbn [orb].
    rewrite E2, Z.shiftl_mul_pow2 by lia. change (30 - 1) with 29. rewrite mul_pow_ok, value_large by lia.
    by replace (m * 2 ^ 8 * 256 ^ 29) with (m * 256 ^ (size - 3)) by (rewrite E2; lia). }
  rewrite (proj2 (Z.eqb_neq size 34)), (proj2 (Z.eqb_neq size 33)) by lia. cbn [andb orb].
  destruct (Z.ltb_spec (size - 3) 0).
  - replace (Z.abs (size - 3) * 8) with (8 * (3 - size)) by lia. rewrite Z.shiftr_div_pow2 by lia.
    assert (0 < 2 ^ (8 * (3 - size))) by (apply Z.pow_pos_nonneg; lia).
    assert (0 ≤ m / 2 ^ (8 * (3 - size)) ≤ m) by (split; [apply Z.div_pos; lia|apply Z.div_le_upper_bound; nia]).
    rewrite mul_pow_ok, value_small by lia. by rewrite Z.pow_0_r, Z.mul_1_r.
  - assert (256 ^ (size - 3) ≤ 256 ^ 29) by (apply Z.pow_le_mono_r; lia).
    rewrite mul_pow_ok, value_large by nia. done.
Qed.

(** The size and the mantissa that a target gets. *)
Definition size_of (e : Z) : Z := (Z.log2 e + 1) / 8 + 1.
Definition mantissa_of (e : Z) : Z := e * 2 ^ 24 / 2 ^ (8 * size_of e).

Lemma size_bounds e :
  0 < e < 2 ^ 256 → 1 ≤ size_of e ≤ 33 ∧ 2 ^ (8 * size_of e) ≤ e * 2 ^ 9 ∧ e * 2 < 2 ^ (8 * size_of e).
Proof.
  intros He. unfold size_of. pose proof (Z.log2_spec e ltac:(lia)) as [Hl Hu].
  pose proof (Z.log2_nonneg e). assert (Z.log2 e < 256) by (apply Z.log2_lt_pow2; lia).
  pose proof (Z.div_mod (Z.log2 e + 1) 8 ltac:(lia)). pose proof (Z.mod_pos_bound (Z.log2 e + 1) 8 ltac:(lia)).
  set (q := (Z.log2 e + 1) / 8) in *. split; [lia|]. split.
  - apply Z.le_trans with (2 ^ (Z.log2 e + 9)); [apply Z.pow_le_mono_r; lia|]. rewrite Z.pow_add_r by lia. lia.
  - apply Z.lt_le_trans with (2 ^ (Z.succ (Z.log2 e) + 1)); [rewrite Z.pow_add_r by lia; lia|].
    apply Z.pow_le_mono_r; lia.
Qed.

Lemma mantissa_bounds e : 0 < e < 2 ^ 256 → 2 ^ 15 ≤ mantissa_of e < 2 ^ 23 ∧ (size_of e = 33 → mantissa_of e ≤ 65535).
Proof.
  intros He. destruct (size_bounds e He) as (Hs & Hl & Hu). unfold mantissa_of.
  assert (0 < 2 ^ (8 * size_of e)) by (apply Z.pow_pos_nonneg; lia). split; [split|].
  - apply Z.div_le_lower_bound; lia.
  - apply Z.div_lt_upper_bound; lia.
  - intros ->. change (2 ^ (8 * 33)) with (2 ^ 264). apply Z.lt_succ_r, Z.div_lt_upper_bound; lia.
Qed.

Lemma to_compact_eq e :
  0 < e < 2 ^ 256 → to_compact e = Ret (mantissa_of e + Z.shiftl (size_of e) 24).
Proof.
  intros He. destruct (size_bounds e He) as (Hs & Hl & Hu). destruct (mantissa_bounds e He) as [Hm _].
  unfold to_compact. rewrite (proj2 (Z.ltb_lt 0 e)), u_bits_law by (unfold is_u; lia). fold (size_of e).
  cbn [assert_ mbind outcome_bind].
  assert ((if e <=? UNSIGNED_MANTISSA_MASK
           then d ← arith 64 (3 - size_of e); Ret (u_shl e (8 * d))
           else d ← arith 64 (size_of e - 3); Ret (u_shr e (8 * d))) = Ret (mantissa_of e)) as ->.
  - unfold mantissa_of in Hm |- *. change UNSIGNED_MANTISSA_MASK with (2 ^ 23 - 1). destruct (Z.leb_spec e (2 ^ 23 - 1)).
    + assert (size_of e ≤ 3).
      { apply Z.lt_succ_r. apply (Z.mul_lt_mono_pos_l 8); [lia|]. apply (Z.pow_lt_mono_r_iff 2); [lia|lia|].
        change (2 ^ (8 * Z.succ 3)) with (2 ^ 32). lia. }
      rewrite arith_ok by (unfold is_u; lia). cbn [mbind outcome_bind]. f_equal.
      assert (2 ^ 24 = 2 ^ (8 * (3 - size_of e)) * 2 ^ (8 * size_of e)) as E
        by (rewrite <- Z.pow_add_r by lia; f_equal; lia).
      rewrite E, Z.mul_assoc, Z.div_mul in Hm |- * by lia.
      rewrite u_shl_law by (unfold is_u; lia). apply Z.mod_small. lia.
    + assert (3 ≤ size_of e).
      { apply Z.lt_pred_le. apply (Z.mul_lt_mono_pos_l 8); [lia|]. apply (Z.pow_lt_mono_r_iff 2); [lia|lia|].
        change (2 ^ (8 * Z.pred 3)) with (2 ^ 16). lia. }
      rewrite arith_ok by (unfold is_u; lia). cbn [mbind outcome_bind]. f_equal.
      rewrite u_shr_law by (unfold is_u; lia).
      replace (2 ^ (8 * size_of e)) with (2 ^ (8 * (size_of e - 3)) * 2 ^ 24)
        by (rewrite <- Z.pow_add_r by lia; f_equal; lia).
      assert (0 < 2 ^ (8 * (size_of e - 3))) by (apply Z.pow_pos_nonneg; lia).
      by rewrite Z.div_mul_cancel_r by lia.
  - cbn [mbind outcome_bind]. unfold OFFSET. rewrite (proj2 (Z.ltb_lt (size_of e) (31 + 3))) by lia.
    change UNSIGNED_MANTISSA_MASK with (2 ^ 23 - 1). rewrite (proj2 (Z.leb_le (mantissa_of e) (2 ^ 23 - 1))) by lia.
    cbn [assert_ mbind outcome_bind]. by rewrite (proj2 (Z.ltb_lt 0 (mantissa_of e))) by lia.
Qed.

(** What is left of a target after it was compacted. *)
Definition rounded (e : Z) : Z := value (mantissa_of e) (size_of e).

Lemma rounded_small e : 0 < e < 2 ^ 256 → size_of e ≤ 3 → rounded e = e.
Proof.
  intros He Hs. destruct (size_bounds e He) as (Hs1 & _). unfold rounded. rewrite value_small by lia.
  unfold mantissa_of. assert (0 < 2 ^ (8 * (3 - size_of e))) by (apply Z.pow_pos_nonneg; lia).
  assert (0 < 2 ^ (8 * size_of e)) by (apply Z.pow_pos_nonneg; lia).
  replace (2 ^ 24) with (2 ^ (8 * (3 - size_of e)) * 2 ^ (8 * size_of e))
    by (rewrite <- Z.pow_add_r by lia; f_equal; lia).
  by rewrite Z.mul_assoc, Z.div_mul, Z.div_mul by lia.
Qed.

Lemma rounded_large e :
  0 < e < 2 ^ 256 → 3 ≤ size_of e → rounded e = e / 2 ^ (8 * (size_of e - 3)) * 2 ^ (8 * (size_of e - 3)).
Proof.
  intros He Hs. unfold rounded. rewrite value_large by lia. change 256 with (2 ^ 8). rewrite <- Z.pow_mul_r by lia.
  f_equal. unfold mantissa_of. assert (0 < 2 ^ (8 * (size_of e - 3))) by (apply Z.pow_pos_nonneg; lia).
  replace (2 ^ (8 * size_of e)) with (2 ^ (8 * (size_of e - 3)) * 2 ^ 24)
    by (rewrite <- Z.pow_add_r by lia; f_equal; lia).
  by rewrite Z.div_mul_cancel_r by lia.
Qed.

Lemma rounded_spec e :
  0 < e < 2 ^ 256 → 0 < rounded e ≤ e ∧ (e - rounded e) * 2 ^ 15 < rounded e ∧ 2 ^ Z.log2 e ≤ rounded e.
Proof.
  intros He. destruct (size_bounds e He) as (Hs & _). destruct (mantissa_bounds e He) as [Hm _].
  pose proof (Z.log2_spec e ltac:(lia)) as [Hl _].
  destruct (Z.le_gt_cases (size_of e) 3); [rewrite rounded_small by lia; lia|].
  assert (8 * (size_of e - 3) ≤ Z.log2 e).
  { unfold size_of in *. pose proof (Z.div_mod (Z.log2 e + 1) 8 ltac:(lia)).
    pose proof (Z.mod_pos_bound (Z.log2 e + 1) 8 ltac:(lia)). lia. }
  assert (rounded e = mantissa_of e * 2 ^ (8 * (size_of e - 3))) as Hr.
  { unfold rounded. rewrite value_large by lia. change 256 with (2 ^ 8). by rewrite <- Z.pow_mul_r by lia. }
  rewrite rounded_large in Hr |- * by lia. set (k := 8 * (size_of e - 3)) in *.
  assert (0 < 2 ^ k) by (apply Z.pow_pos_nonneg; lia).
  pose proof (Z.div_mod e (2 ^ k) ltac:(lia)). pose proof (Z.mod_pos_bound e (2 ^ k) ltac:(lia)).
  assert (2 ^ (Z.log2 e - k) ≤ e / 2 ^ k).
  { apply Z.div_le_lower_bound; [done|]. rewrite <- Z.pow_add_r by lia. by replace (k + (Z.log2 e - k)) with (Z.log2 e) by lia. }
  assert (2 ^ Z.log2 e = 2 ^ (Z.log2 e - k) * 2 ^ k) as -> by (rewrite <- Z.pow_add_r by lia; f_equal; lia).
  nia.
Qed.

Lemma rounded_size e : 0 < e < 2 ^ 256 → size_of (rounded e) = size_of e ∧ mantissa_of (rounded e) = mantissa_of e.
Proof.
  intros He. destruct (rounded_spec e He) as (Hr & _ & Hl).
  assert (Z.log2 (rounded e) = Z.log2 e) as E.
  { apply Z.log2_unique; [apply Z.log2_nonneg|]. pose proof (Z.log2_spec e ltac:(lia)). lia. }
  assert (size_of (rounded e) = size_of e) as Es by (unfold size_of; by rewrite E). split; [done|].
  unfold mantissa_of at 1. rewrite Es. destruct (Z.le_gt_cases (size_of e) 3).
  { by rewrite rounded_small by lia. }
  unfold rounded. rewrite value_large by lia. change 256 with (2 ^ 8). rewrite <- Z.pow_mul_r by lia.
  replace (2 ^ (8 * size_of e)) with (2 ^ (8 * (size_of e - 3)) * 2 ^ 24)
    by (rewrite <- Z.pow_add_r by lia; f_equal; lia).
  rewrite <- Z.mul_assoc, Z.div_mul; [done|].
  assert (0 < 2 ^ (8 * (size_of e - 3))) by (apply Z.pow_pos_nonneg; lia). lia.
Qed.

Lemma compact_expands e :
  0 < e < 2 ^ 256 → to_expanded (mantissa_of e + Z.shiftl (size_of e) 24) = Ret (Some (rounded e)).
Proof.
  intros He. destruct (size_bounds e He) as (Hs & _). destruct (mantissa_bounds e He) as [Hm H33].
  destruct (rounded_spec e He) as ([Hr _] & _). rewrite to_expanded_eq by lia. f_equal. unfold expansion. fold (rounded e).
  rewrite (proj2 (Z.leb_gt 35 _)), (proj2 (Z.eqb_neq (size_of e) 34)), (proj2 (Z.eqb_neq (rounded e) 0)) by lia.
  cbn [andb orb]. destruct (Z.eqb_spec (size_of e) 33) as [E|]; [|done].
  by rewrite (proj2 (Z.ltb_ge 65535 _)) by (by apply H33).
Qed.

Lemma compact_ok e :
  0 < e < 2 ^ 256 →
  is_u 32 (mantissa_of e + Z.shiftl (size_of e) 24) ∧
  to_expanded (mantissa_of e + Z.shiftl (size_of e) 24) = Ret (Some (rounded e)) ∧
  to_compact (rounded e) = Ret (mantissa_of e + Z.shiftl (size_of e) 24) ∧
  0 < rounded e ≤ e ∧ (e - rounded e) * 2 ^ 15 < rounded e.
Proof.
  intros He. destruct (size_bounds e He) as (Hs & _). destruct (mantissa_bounds e He) as [Hm _].
  destruct (rounded_spec e He) as (Hr & Hd & _). destruct (rounded_size e He) as [Es Em].
  rewrite to_compact_eq, Es, Em, compact_expands by lia. rewrite Z.shiftl_mul_pow2 by lia. unfold is_u.
  split_and!; (done || lia).
Qed.

(** A compact difficulty that has a target is a mantissa and a size. *)
Lemma to_expanded_split c :
  is_u 32 c →
  to_expanded c = Ret None ∨
  ∃ m size, c = m + Z.shiftl size 24 ∧ 0 ≤ m < 2 ^ 23 ∧ 0 ≤ size ∧ to_expanded c = Ret (expansion m size).
Proof.
  intros Hc. unfold is_u in Hc. destruct (Z.testbit c 23) eqn:Eb.
  { left. unfold to_expanded. by rewrite sign_bit_set, Z.eqb_refl by (lia || done). }
  right. exists (c mod 2 ^ 23), (c / 2 ^ 24).
  assert (c = c mod 2 ^ 23 + Z.shiftl (c / 2 ^ 24) 24) as E.
  { rewrite Z.shiftl_mul_pow2 by lia. pose proof (Z.div_mod c (2 ^ 23) ltac:(lia)) as Hd.
    pose proof (Z.div_mod (c / 2 ^ 23) 2 ltac:(lia)) as Hd2. rewrite Z.div_div in Hd2 by lia.
    change (2 ^ 23 * 2) with (2 ^ 24) in Hd2.
    rewrite Z.testbit_odd, Z.shiftr_div_pow2 in Eb by lia. pose proof (Zmod_odd (c / 2 ^ 23)) as Ho.
    rewrite Eb in Ho. lia. }
  assert (0 ≤ c mod 2 ^ 23 < 2 ^ 23) by (apply Z.mod_pos_bound; lia). assert (0 ≤ c / 2 ^ 24) by (apply Z.div_pos; lia).
  do 3 (split; [done|]). rewrite E at 1. by apply to_expanded_eq.
Qed.

(** A target of a header: its mantissa fits above its lowest byte. *)
Lemma expansion_Some m size e :
  0 ≤ m < 2 ^ 23 → 0 ≤ size → expansion m size = Some e →
  0 < e < 2 ^ 256 - 1 ∧ (e < 2 ^ 23 ∨ 3 < size ∧ e = m * 2 ^ (8 * (size - 3))).
Proof.
  intros Hm Hs. unfold expansion. destruct (_ || _) eqn:E; [done|].
  destruct (Z.eqb_spec (value m size) 0); [done|]. intros [= <-]. destruct (Z.le_gt_cases size 3).
  - rewrite value_small in * by lia. assert (0 < 2 ^ (8 * (3 - size))) by (apply Z.pow_pos_nonneg; lia).
    assert (0 ≤ m / 2 ^ (8 * (3 - size)) ≤ m) by (split; [apply Z.div_pos; lia|apply Z.div_le_upper_bound; nia]). lia.
  - rewrite value_large in * by lia. assert (0 < 256 ^ (size - 3)) by (apply Z.pow_pos_nonneg; lia).
    split; [|right; split; [done|]; rewrite Z.pow_mul_r by lia; done]. split; [nia|].
    destruct (Z.eq_dec size 34) as [->|]; [change (34 - 3) with 31; lia|].
    destruct (Z.eq_dec size 33) as [->|]; [change (33 - 3) with 30; lia|].
    assert (256 ^ (size - 3) ≤ 256 ^ 29) by (apply Z.pow_le_mono_r; lia). nia.
Qed.

Lemma to_expanded_total c :
  is_u 32 c → to_expanded c = Ret None ∨ ∃ e, to_expanded c = Ret (Some e) ∧ 0 < e < 2 ^ 256 - 1.
Proof.
  intros [?|(m & size & _ & Hm & Hs & ->)]%to_expanded_split; [by left|].
  destruct (expansion m size) as [e|] eqn:E; [|by left]. right. exists e. split; [done|].
  by eapply expansion_Some in E as [? _].
Qed.

(** The targets of headers are not rounded. *)
Lemma header_target_exact c e : is_u 32 c → to_expanded c = Ret (Some e) → rounded e = e.
Proof.
  intros Hc He. destruct (to_expanded_split c Hc) as [E|(m & size & _ & Hm & Hs & E)]; rewrite E in He; [done|].
  injection He as He. apply expansion_Some in He as [Hr Hcase]; [|done..].
  destruct (Z.le_gt_cases (size_of e) 3) as [|Hbig]; [by apply rounded_small; [lia|]|].
  rewrite rounded_large by lia. destruct (size_bounds e ltac:(lia)) as (_ & Hl & _).
  assert (size_of e ≤ size ∧ 3 < size ∧ e = m * 2 ^ (8 * (size - 3))) as (Hle & Hs3 & ->).
  { destruct Hcase as [Hsm|[Hs3 ->]].
    - assert (2 ^ 32 ≤ 2 ^ (8 * size_of e)) by (apply Z.pow_le_mono_r; lia). lia.
    - split; [|done]. apply Z.lt_succ_r. apply (Z.mul_lt_mono_pos_l 8); [lia|].
      apply (Z.pow_lt_mono_r_iff 2); [lia|lia|]. replace (8 * Z.succ size) with (8 * (size - 3) + 32) by lia.
      rewrite Z.pow_add_r by lia. assert (0 < 2 ^ (8 * (size - 3))) by (apply Z.pow_pos_nonneg; lia). nia. }
  set (k := 8 * (size_of _ - 3)) in *. replace (8 * (size - 3)) with (8 * (size - 3) - k + k) by lia.
  assert (0 < 2 ^ k) by (apply Z.pow_pos_nonneg; lia). rewrite Z.pow_add_r, Z.mul_assoc, Z.div_mul by lia. done.
Qed.

(** A target is compacted without a panic into 32 bits, and expands again to
  the target rounded down: less than one part in 2^15 is lost, compacting the
  result changes nothing, and a target that came from a header is not
  changed at all. *)
Theorem compact_roundtrip e :
  0 < e < 2 ^ 256 →
  ∃ c r, to_compact e = Ret c ∧ is_u 32 c ∧ to_expanded c = Ret (Some r) ∧ to_compact r = Ret c ∧
    0 < r ≤ e ∧ (e - r) * 2 ^ 15 < r ∧
    ∀ c', is_u 32 c' → to_expanded c' = Ret (Some e) → r = e.
Proof.
  intros He. exists (mantissa_of e + Z.shiftl (size_of e) 24), (rounded e).
  destruct (compact_ok e He) as (Hu & Ex & Hc & Hr). rewrite to_compact_eq by done.
  do 4 (split; [done|]). split; [apply Hr|]. split; [apply Hr|]. intros c'. apply header_target_exact.
Qed.

(** The work of a header is the quotient 2^256 / (target + 1) of the
  specification, for every compact difficulty that has a target, and nothing
  when that does not fit in 128 bits; no difficulty makes the code panic. *)
Theorem work_is_quotient c :
  is_u 32 c →
  ∃ o, to_expanded c = Ret o ∧
    to_work c = Ret (e ← o; let w := 2 ^ 256 / (e + 1) in if w <? 2 ^ 128 then Some w else None).
Proof.
  intros Hc. unfold to_work. destruct (to_expanded_total c Hc) as [->|(e & -> & He)]; [by exists None|].
  exists (Some e). split; [done|]. cbn [mbind outcome_bind option_bind]. unfold work_try_from.
  rewrite u_add_law, exactly_ok by (unfold is_u; lia). cbn [mbind outcome_bind].
  rewrite u_not_law, u_div_law by (unfold is_u; lia). rewrite (proj2 (Z.eqb_neq (e + 1) 0)) by lia.
  cbn [mbind outcome_bind].
  assert ((2 ^ 256 - 1 - e) / (e + 1) + 1 = 2 ^ 256 / (e + 1)) as Hw.
  { replace (2 ^ 256) with (2 ^ 256 - 1 - e + 1 * (e + 1)) at 2 by lia. by rewrite Z.div_add by lia. }
  assert (0 ≤ (2 ^ 256 - 1 - e) / (e + 1)) by (apply Z.div_pos; lia).
  assert (2 ^ 256 / (e + 1) < 2 ^ 256) by (apply Z.div_lt; lia).
  rewrite u_add_law, exactly_ok by (unfold is_u; lia). cbn [mbind outcome_bind]. rewrite Hw. f_equal.
  destruct (Z.leb_spec (2 ^ 256 / (e + 1)) (2 ^ 128 - 1)), (Z.ltb_spec (2 ^ 256 / (e + 1)) (2 ^ 128)); (done || lia).
Qed.
End compact.

(** ** The adjustment *)

(** [ActualTimespanBounded] of the specification, in seconds. *)
Definition timespan_bounded (span actual : Z) : Z :=
  Z.max (span * 84 / 100) (Z.min (span * 132 / 100) (span + Z.quot (actual - span) 4)).

(** [AveragingWindowTimespan] *)
Definition window_span (nu : NetworkUpgrade) : Z := spacing_seconds nu * 17.

Lemma window_span_cases nu : window_span nu = 425 ∨ window_span nu = 2550.
Proof. by destruct nu; (left + right). Qed.

Lemma timespan_bounds nu actual :
  let span := window_span nu in
  span * 84 / 100 ≤ timespan_bounded span actual ≤ span * 132 / 100 ∧ 0 < timespan_bounded span actual ≤ 3366.
Proof.
  cbn zeta. unfold timespan_bounded. destruct (window_span_cases nu) as [-> | ->].
  - change (425 * 84 / 100) with 357. change (425 * 132 / 100) with 561. lia.
  - change (2550 * 84 / 100) with 2142. change (2550 * 132 / 100) with 3366. lia.
Qed.

Section adjustment.
Context {P : Profile} {U : Uint} {UL : UintLaws} {CH : Chrono} {CL : ChronoLaws}.

(** The target of a header. *)
Definition target (c : Z) : Z := match to_expanded c with Ret (Some e) => e | _ => 0 end.

(** [MeanTarget] of the specification. *)
Definition mean_target (limit : Z) (thresholds : list Z) : Z :=
  if decide (POW_AVERAGING_WINDOW ≤ length thresholds)%nat
  then zsum (map target (take POW_AVERAGING_WINDOW thresholds)) / 17 else limit.

Lemma sum_targets limit l : ∀ acc,
  Forall (λ c, ∃ e, to_expanded c = Ret (Some e) ∧ 0 < e ≤ limit) l → 0 ≤ acc →
  acc + Z.of_nat (length l) * limit < 2 ^ 256 →
  for_each (λ acc c, e ← to_expanded c; e ← unwrap e; u_add acc e) l acc = Ret (acc + zsum (map target l)) ∧
  0 ≤ zsum (map target l) ≤ Z.of_nat (length l) * limit.
Proof.
  induction l as [|c l IH]; intros acc Hl Ha Hs; [cbn; split; [f_equal; lia|lia]|].
  apply Forall_cons in Hl as [(e & He & Hr) Hl]. cbn [for_each map length] in *. rewrite zsum_cons.
  rewrite Nat2Z.inj_succ, Z.mul_succ_l in *. assert (target c = e) as -> by (unfold target; by rewrite He).
  rewrite He. cbn [mbind outcome_bind unwrap].
  assert (0 ≤ Z.of_nat (length l) * limit) by nia.
  rewrite u_add_law, exactly_ok by (unfold is_u; lia). cbn [mbind outcome_bind].
  destruct (IH (acc + e) Hl ltac:(lia) ltac:(lia)) as [-> ?]. split; [f_equal; lia|lia].
Qed.

Lemma span_eq nu : averaging_window_timespan nu = window_span nu * NANOS.
Proof.
  unfold averaging_window_timespan, target_spacing, window_span.
  assert (0 < spacing_seconds nu ≤ 150) by (by destruct nu).
  rewrite seconds_law by lia. change (Z.of_nat POW_AVERAGING_WINDOW) with 17.
  rewrite d_mul_law by (unfold NANOS; lia). lia.
Qed.

Lemma median_some l : l ≠ [] → Forall (is_u 32) l → ∃ t, median_time l = Ret t ∧ is_u 32 t ∧ t ∈ l.
Proof.
  intros Hne Hl. unfold median_time, index. destruct (lookup_lt_is_Some_2 (merge_sort Z.le l) (length l / 2)) as [t Ht].
  { rewrite merge_sort_Permutation. apply Nat.div_lt; [|lia]. destruct l; [done|cbn; lia]. }
  rewrite Ht. exists t. split; [done|]. apply list_elem_of_lookup_2 in Ht.
  rewrite merge_sort_Permutation in Ht. split; [|done]. by eapply Forall_forall in Hl.
Qed.

Lemma quot_nanos d : Z.quot (d * NANOS) NANOS = d.
Proof. apply Z.quot_mul. done. Qed.

(** The bounded timespan in seconds. *)
Lemma bounded_eq nu a b :
  is_u 32 a → is_u 32 b →
  let span := averaging_window_timespan nu in
  Z.max (d_div (d_mul span (100 - POW_MAX_ADJUST_UP_PERCENT)) 100)
    (Z.min (d_div (d_mul span (100 + POW_MAX_ADJUST_DOWN_PERCENT)) 100)
       (d_add span (seconds (num_seconds (d_div (d_sub (since a b) span) POW_DAMPING_FACTOR)))))
  = timespan_bounded (window_span nu) (a - b) * NANOS.
Proof.
  intros Ha Hb. unfold is_u in *. cbn zeta. rewrite span_eq, since_law by done.
  unfold POW_MAX_ADJUST_UP_PERCENT, POW_MAX_ADJUST_DOWN_PERCENT, POW_DAMPING_FACTOR.
  pose proof (window_span_cases nu) as Hspan. set (s := window_span nu) in *.
  rewrite d_sub_law by (unfold NANOS; lia). rewrite <- Z.mul_sub_distr_r.
  assert (Z.abs (a - b - s) < 2 ^ 33) by lia.
  rewrite (d_div_law ((a - b - s) * NANOS)) by (unfold NANOS; lia). set (d := a - b - s) in *.
  replace (d * NANOS) with (d * 250000000 * 4) by (unfold NANOS; lia). rewrite Z.quot_mul by lia.
  rewrite num_seconds_law by (unfold NANOS; lia). assert (Z.quot (d * 250000000) NANOS = Z.quot d 4) as ->
                                                    by (change NANOS with (4 * 250000000); apply Z.quot_mul_cancel_r; lia).
  assert (Z.abs (Z.quot d 4) ≤ Z.abs d).
  { pose proof (Z.quot_rem' d 4). pose proof (Z.rem_bound_abs d 4 ltac:(lia)). lia. }
  rewrite seconds_law by lia. rewrite d_add_law by (unfold NANOS; lia). rewrite <- Z.mul_add_distr_r.
  unfold timespan_bounded. fold d.
  destruct Hspan as [-> | ->]; rewrite !d_mul_law by (unfold NANOS; lia); rewrite !d_div_law by (unfold NANOS; lia);
    unfold NANOS.
  - change (425 * 84 / 100) with 357. change (425 * 132 / 100) with 561.
    change (Z.quot (425 * 1000000000 * (100 - 16)) 100) with (357 * 1000000000).
    change (Z.quot (425 * 1000000000 * (100 + 32)) 100) with (561 * 1000000000). lia.
  - change (2550 * 84 / 100) with 2142. change (2550 * 132 / 100) with 3366.
    change (Z.quot (2550 * 1000000000 * (100 - 16)) 100) with (2142 * 1000000000).
    change (Z.quot (2550 * 1000000000 * (100 + 32)) 100) with (3366 * 1000000000). lia.
Qed.

(** ** The threshold of a header *)

(** What validation knows of the headers an adjustment looks at: their targets
  are at most the limit of the network and have a few bits, and there is a
  previous block. The limits of the main network (2^243), of the test networks
  (2^251) and of the regression tests (0x0f0f..0f) can be added 17 times. *)
Record usable (a : AdjustedDifficulty) (nu : NetworkUpgrade) (limit : Z) : Prop := {
  usable_upgrade : current a.(network) a.(candidate_height) = Ret nu;
  usable_limit : target_difficulty_limit a.(network) = Ret limit ∧ 2 ^ 12 ≤ limit ∧ 17 * limit < 2 ^ 256;
  usable_targets : Forall (λ c, ∃ e, to_expanded c = Ret (Some e) ∧ 2 ^ 12 ≤ e ≤ limit) a.(relevant_difficulty_thresholds);
  usable_times : a.(relevant_times) ≠ [] ∧ Forall (is_u 32) a.(relevant_times) }.

Lemma targets_at_least l m : Forall (λ c, m ≤ target c) l → Z.of_nat (length l) * m ≤ zsum (map target l).
Proof. induction 1; cbn [length map]; [done|]. rewrite zsum_cons. lia. Qed.

Lemma mean_ok a nu limit :
  usable a nu limit →
  let mean := mean_target limit a.(relevant_difficulty_thresholds) in
  mean_target_difficulty a = Ret mean ∧ 2 ^ 12 ≤ mean ≤ limit.
Proof.
  intros [_ [Hlim Hl] Ht _]. cbn zeta. unfold mean_target_difficulty, mean_target.
  destruct (decide _) as [Hw|]; [|rewrite Hlim; split; [done|lia]].
  set (l := take _ _).
  assert (length l = 17%nat) as Hlen by (unfold l; rewrite length_take; change POW_AVERAGING_WINDOW with 17%nat in *; lia).
  assert (Forall (λ c, ∃ e, to_expanded c = Ret (Some e) ∧ 2 ^ 12 ≤ e ≤ limit) l) as Hl' by by apply Forall_take.
  destruct (sum_targets limit l 0) as [-> [_ Hu]]; [|done|rewrite Hlen; lia|].
  { eapply Forall_impl; [exact Hl'|]. intros c (e & He & ?). exists e. split; [done|lia]. }
  assert (17 * 2 ^ 12 ≤ zsum (map target l)).
  { change 17 with (Z.of_nat 17). rewrite <- Hlen. apply targets_at_least. eapply Forall_impl; [exact Hl'|].
    intros c (e & He & ?). unfold target. rewrite He. lia. }
  rewrite Hlen in Hu. cbn [mbind outcome_bind]. rewrite Z.add_0_l. change (Z.of_nat POW_AVERAGING_WINDOW) with 17.
  rewrite u_div_law by (unfold is_u; lia). cbn [Z.eqb]. split; [done|]. split.
  - apply Z.div_le_lower_bound; lia.
  - apply Z.div_le_upper_bound; lia.
Qed.

(** The time that the window of an adjustment is counted from: the median of the 11 times
  before the last 17, or the oldest time when there are no more than 17. *)
Definition older_time (a : AdjustedDifficulty) (older : Z) : Prop :=
  if decide (POW_AVERAGING_WINDOW < length a.(relevant_times))%nat
  then median_time (take POW_MEDIAN_BLOCK_SPAN (drop POW_AVERAGING_WINDOW a.(relevant_times))) = Ret older
  else last a.(relevant_times) = Some older.

Lemma timespan_ok a nu limit :
  usable a nu limit →
  ∃ newer older, median_time (take POW_MEDIAN_BLOCK_SPAN a.(relevant_times)) = Ret newer ∧
    median_timespan a = Ret (since newer older) ∧ is_u 32 newer ∧ is_u 32 older ∧
    older_time a older.
Proof.
  intros [_ _ _ [Hne Hu]].
  destruct (median_some (take POW_MEDIAN_BLOCK_SPAN a.(relevant_times))) as (newer & Hn & Hun & _).
  { change POW_MEDIAN_BLOCK_SPAN with 11%nat. by destruct (relevant_times a). }
  { by apply Forall_take. }
  unfold median_timespan, median_time_past, older_time. rewrite Hn. cbn [mbind outcome_bind]. destruct (decide _) as [Hw|Hw].
  - destruct (median_some (take POW_MEDIAN_BLOCK_SPAN (drop POW_AVERAGING_WINDOW a.(relevant_times)))) as (older & Ho & Huo & _).
    { intros E%(f_equal length). rewrite length_take, length_drop in E.
      change POW_MEDIAN_BLOCK_SPAN with 11%nat in E. change (length []) with 0%nat in E. lia. }
    { by apply Forall_take, Forall_drop. }
    exists newer, older. by rewrite Ho.
  - destruct (last a.(relevant_times)) as [older|] eqn:El; [|by apply last_None in El].
    exists newer, older. do 3 (split; [done|]). split; [|done].
    apply last_Some in El as [l' El]. rewrite El, Forall_app, Forall_singleton in Hu. by destruct Hu.
Qed.

(** The bounded timespan changes the mean by at most a third. *)
Lemma adjusted_bounds nu mean actual :
  0 ≤ mean →
  let span := window_span nu in let t := mean / span * timespan_bounded span actual in
  84 * (mean - span) ≤ 100 * t ≤ 132 * mean ∧ (2 ^ 12 ≤ mean → 0 < t).
Proof.
  intros Hm. cbn zeta. pose proof (timespan_bounds nu actual) as [Hb _]. revert Hb.
  generalize (timespan_bounded (window_span nu) actual). intros ts. destruct (window_span_cases nu) as [-> | ->].
  - change (425 * 84 / 100) with 357. change (425 * 132 / 100) with 561. intros Hb.
    pose proof (Z.div_mod mean 425 ltac:(lia)). pose proof (Z.mod_pos_bound mean 425 ltac:(lia)).
    set (q := mean / 425) in *. assert (0 ≤ q) by lia. split; [nia|]. intros. assert (0 < q) by lia. nia.
  - change (2550 * 84 / 100) with 2142. change (2550 * 132 / 100) with 3366. intros Hb.
    pose proof (Z.div_mod mean 2550 ltac:(lia)). pose proof (Z.mod_pos_bound mean 2550 ltac:(lia)).
    set (q := mean / 2550) in *. assert (0 ≤ q) by lia. split; [nia|]. intros. assert (0 < q) by lia. nia.
Qed.

Lemma threshold_eq a nu limit :
  usable a nu limit →
  ∃ newer older, median_time (take POW_MEDIAN_BLOCK_SPAN a.(relevant_times)) = Ret newer ∧
    older_time a older ∧
    threshold_bits a =
      to_compact (Z.min limit (mean_target limit a.(relevant_difficulty_thresholds) / window_span nu
                               * timespan_bounded (window_span nu) (newer - older))).
Proof.
  intros Hus. destruct (timespan_ok a nu limit Hus) as (newer & older & Hn & Hm & Hun & Huo & Ho).
  destruct (mean_ok a nu limit Hus) as [Hmean Hmb]. exists newer, older. split; [done|]. split; [done|].
  destruct Hus as [Hc [Hlim Hlb] _ _]. unfold threshold_bits, averaging_window_timespan_for_height, median_timespan_bounded.
  unfold averaging_window_timespan_for_height. rewrite Hc, Hmean, Hm, Hlim. cbn [mbind outcome_bind].
  rewrite bounded_eq by done. rewrite span_eq.
  pose proof (timespan_bounds nu (newer - older)) as [_ Hts]. pose proof (window_span_cases nu) as Hw.
  rewrite !num_seconds_law, !quot_nanos by (unfold NANOS; lia).
  rewrite u_div_law by (unfold is_u; lia). rewrite (proj2 (Z.eqb_neq (window_span nu) 0)) by lia.
  cbn [mbind outcome_bind]. pose proof (adjusted_bounds nu (mean_target limit a.(relevant_difficulty_thresholds)) (newer - older) ltac:(lia)) as [Ht _].
  cbn zeta in Ht. set (mean := mean_target _ _) in *.
  assert (0 ≤ mean / window_span nu ≤ mean) by (split; [apply Z.div_pos; lia|apply Z.div_le_upper_bound; nia]).
  rewrite u_mul_law, exactly_ok by (unfold is_u; nia). done.
Qed.

(** C33: When every target in the context of a block is at least 2^12 and at most the
  limit of the network, 17 times the limit fits 256 bits and there is a previous block
  ([usable]; the example [tiny_targets_panic] shows a panic below that), the threshold asked of the block is the
  compact form of the one of the protocol specification: the mean of the last 17 targets
  (the limit when there are fewer), divided by the seconds of the window and multiplied by
  the time the last blocks took (from the median of the last 11 times back to the median of
  the 11 before the last 17, or to the oldest time in a shorter context; damped and
  bounded), and no more than the limit.  No overflow and no panic happens; with [span] the
  seconds of the window, the target is at least 84% of the mean less [span] and at most 132%
  of the mean, and its compact form loses less than one part in 2^15 of it. *)
Theorem threshold_as_specified a nu limit :
  usable a nu limit →
  let span := window_span nu in let mean := mean_target limit a.(relevant_difficulty_thresholds) in
  ∃ newer older c r,
    median_time (take POW_MEDIAN_BLOCK_SPAN a.(relevant_times)) = Ret newer ∧ older_time a older ∧
    let t := Z.min limit (mean / span * timespan_bounded span (newer - older)) in
    threshold_bits a = Ret c ∧ to_compact t = Ret c ∧ to_expanded c = Ret (Some r) ∧
    84 * (mean - span) ≤ 100 * t ≤ 132 * mean ∧ 0 < r ≤ t ∧ (t - r) * 2 ^ 15 < r.
Proof.
  intros Hus. cbn zeta. destruct (threshold_eq a nu limit Hus) as (newer & older & Hn & Ho & ->).
  destruct (mean_ok a nu limit Hus) as [_ Hmb]. destruct (usable_limit _ _ _ Hus) as [_ Hlb].
  set (mean := mean_target _ _) in *. pose proof (window_span_cases nu).
  destruct (adjusted_bounds nu mean (newer - older) ltac:(lia)) as [Ht Hp]. specialize (Hp ltac:(lia)).
  set (t := mean / window_span nu * _) in *.
  destruct (compact_ok (Z.min limit t) ltac:(lia)) as (_ & He & _ & Hr & Hd).
  eexists newer, older, _, _. split; [done|]. split; [done|]. fold t.
  rewrite to_compact_eq by lia. split; [done|]. split; [done|]. split; [done|]. lia.
Qed.

(** ** The check of a header *)

(** The minimum-difficulty rule of the test networks. *)
Definition min_difficulty_rule (nu : NetworkUpgrade) (a : AdjustedDifficulty) (previous : Z) : bool :=
  match a.(network) with
  | Mainnet => false
  | Testnet _ => (TESTNET_MINIMUM_DIFFICULTY_START_HEIGHT <=? a.(candidate_height))
                 && (6 * spacing_seconds nu <? a.(candidate_time) - previous)
  end.

Lemma min_difficulty_eq a nu previous :
  current a.(network) a.(candidate_height) = Ret nu → is_u 32 a.(candidate_time) → is_u 32 previous →
  is_testnet_min_difficulty_block a.(network) a.(candidate_height) a.(candidate_time) previous
  = Ret (min_difficulty_rule nu a previous).
Proof.
  intros Hc Ht Hp. unfold is_testnet_min_difficulty_block, minimum_difficulty_spacing_for_height, min_difficulty_rule.
  destruct (network a) eqn:En; [done|].
  destruct (Z.ltb_spec a.(candidate_height) TESTNET_MINIMUM_DIFFICULTY_START_HEIGHT).
  { by rewrite (proj2 (Z.leb_gt _ _)). }
  rewrite (proj2 (Z.leb_le _ _)), Hc by done. cbn [mbind outcome_bind andb]. f_equal.
  unfold target_spacing, TESTNET_MINIMUM_DIFFICULTY_GAP_MULTIPLIER.
  assert (0 < spacing_seconds nu ≤ 150) by (by destruct nu).
  rewrite seconds_law by lia. rewrite d_mul_law by (unfold NANOS; lia). rewrite since_law by done.
  unfold NANOS. destruct (Z.ltb_spec (spacing_seconds nu * 1000000000 * 6) ((candidate_time a - previous) * 1000000000)),
                  (Z.ltb_spec (6 * spacing_seconds nu) (candidate_time a - previous)); (done || lia).
Qed.

Lemma expected_eq a nu limit previous :
  usable a nu limit → is_u 32 a.(candidate_time) → head a.(relevant_times) = Some previous →
  ∃ expected, expected_difficulty_threshold a = Ret expected ∧
    (if min_difficulty_rule nu a previous then to_compact limit else threshold_bits a) = Ret expected.
Proof.
  intros Hus Ht Hp. unfold expected_difficulty_threshold, index. rewrite <- head_lookup, Hp. cbn [unwrap mbind outcome_bind].
  destruct (usable_times _ _ _ Hus) as [_ Hu]. destruct (usable_limit _ _ _ Hus) as [Hl Hlb].
  rewrite (min_difficulty_eq a nu) by
    (first [by apply Hus|done|by destruct (relevant_times a); [|apply Forall_cons in Hu as [? _]; injection Hp as ->]]).
  cbn [mbind outcome_bind]. destruct (min_difficulty_rule nu a previous) eqn:Em.
  - assert (match network a with Mainnet => false | Testnet _ => true end = true) as ->.
    { unfold min_difficulty_rule in Em. by destruct (network a). }
    cbn [assert_ mbind outcome_bind]. rewrite Hl. cbn [mbind outcome_bind].
    rewrite to_compact_eq by lia. by eexists.
  - destruct (threshold_eq a nu limit Hus) as (newer & older & _ & _ & E). destruct (mean_ok a nu limit Hus) as [_ Hmb].
    destruct (adjusted_bounds nu (mean_target limit a.(relevant_difficulty_thresholds)) (newer - older) ltac:(lia)) as [_ Hpos].
    specialize (Hpos ltac:(lia)). rewrite E.
    rewrite to_compact_eq by lia. by eexists.
Qed.

(** C34: When every target in the context of a header is at least 2^12 and at most the limit
  of the network ([usable]; [tiny_targets_panic] shows that the check panics on smaller
  ones), and the network has its genesis at height 0, a header after the genesis block
  passes the contextual check exactly when its time is after the median of the last 11
  times, not more than 90 minutes after it where that is enforced, and its threshold is the
  expected one: the limit after a long gap on a test network, the adjusted threshold
  otherwise.  In the other cases the check returns an error, and does not panic. *)
Theorem header_accepted_iff a nu limit previous bits :
  usable a nu limit → is_u 32 a.(candidate_time) → head a.(relevant_times) = Some previous →
  activation_height Genesis a.(network) = Some 0 → 0 < a.(candidate_height) →
  ∃ median res, median_time_past a = Ret median ∧ difficulty_threshold_and_time_are_valid bits a = Ret res ∧
    (res = inr () ↔
     median < a.(candidate_time) ∧
     (is_max_block_time_enforced a.(network) a.(candidate_height) = true → a.(candidate_time) ≤ median + 5400) ∧
     (if min_difficulty_rule nu a previous then to_compact limit else threshold_bits a) = Ret bits).
Proof.
  intros Hus Ht Hp Hg Hh. destruct (timespan_ok a nu limit Hus) as (median & older & Hn & _ & Hum & _).
  destruct (expected_eq a nu limit previous Hus Ht Hp) as (expected & Hex & ->).
  exists median. unfold difficulty_threshold_and_time_are_valid. change (median_time_past a) with (median_time (take POW_MEDIAN_BLOCK_SPAN (relevant_times a))).
  rewrite Hn, Hg. cbn [mbind outcome_bind unwrap]. rewrite (proj2 (Z.eqb_neq (candidate_height a) 0)) by lia.
  unfold BLOCK_MAX_TIME_SINCE_MEDIAN. rewrite seconds_law, later_law by (done || lia). change (90 * 60) with 5400.
  destruct (Z.leb_spec (candidate_time a) median); cbn [negb andb].
  { eexists. split; [done|]. split; [done|]. split; [done|lia]. }
  destruct (is_max_block_time_enforced _ _); cbn [andb].
  - destruct (Z.ltb_spec (median + 5400) (candidate_time a)).
    { eexists. split; [done|]. split; [done|]. split; [done|]. intros (_ & Hle & _). specialize (Hle eq_refl). lia. }
    rewrite Hex. cbn [mbind outcome_bind]. eexists. split; [done|]. split; [done|].
    destruct (Z.eqb_spec bits expected) as [->|]; (split; [try done|]); [done..|]. intros (_ & _ & [=]). done.
  - rewrite Hex. cbn [mbind outcome_bind]. eexists. split; [done|]. split; [done|].
    destruct (Z.eqb_spec bits expected) as [->|]; (split; [try done|]); [done..|]. intros (_ & _ & [=]). done.
Qed.
End adjustment.

(** ** Concrete integers and times *)

#[local] Instance uint_exact : Uint := {|
  u_add a b := exactly (a + b);
  u_mul a b := exactly (a * b);
  u_div a b := if b =? 0 then Panic else Ret (a / b);
  u_pow a n := exactly (a ^ n);
  u_not a := 2 ^ 256 - 1 - a;
  u_bits a := Z.log2 a + 1;
  u_shl a n := (a * 2 ^ n) mod 2 ^ 256;
  u_shr a n := a / 2 ^ n |}.
#[local] Instance uint_exact_laws : UintLaws.
Proof. by split. Qed.

#[local] Instance chrono_exact : Chrono := {|
  seconds s := s * NANOS;
  num_seconds d := Z.quot d NANOS;
  since a b := (a - b) * NANOS;
  later t d := t + d / NANOS;
  d_add := Z.add; d_sub := Z.sub; d_mul := Z.mul; d_div := Z.quot |}.
#[local] Instance chrono_exact_laws : ChronoLaws.
Proof. split; try done. intros t s _ _. cbn. by rewrite Z.div_mul. Qed.

#[local] Instance checked : Profile := true.

(** A test network at the height where the rules start, after 28 blocks that were
    40 seconds apart. *)
Definition example_network : Network :=
  Testnet (Parameters.mk "Example"%string [1; 2; 3; 4] 0 TESTNET_ACTIVATION_HEIGHTS 0 0 [] (524287 * 256 ^ 29) false true
             PRE_BLOSSOM_HALVING_INTERVAL POST_BLOSSOM_HALVING_INTERVAL []).
Definition example_context (bits : Z) (gap : Z) : list (Z * Z) :=
  map (λ i, (bits, 1700000000 - gap * Z.of_nat i)) (seq 0 30).
Definition example_header (bits gap time : Z) : AdjustedDifficulty :=
  {| candidate_time := time; candidate_height := 700000; network := example_network;
     relevant_difficulty_thresholds := (take 28 (example_context bits gap)).*1;
     relevant_times := (take 28 (example_context bits gap)).*2 |}.

Example example_is_new bits gap time :
  new_from_block 700000 time example_network (example_context bits gap) = Ret (example_header bits gap time).
Proof. done. Qed.

Lemma example_usable : usable (example_header 0x1f07ffff 40 1700000030) Nu6 (524287 * 256 ^ 29).
Proof.
  split; [done|by split; vm_compute|..].
  - repeat (constructor; [exists (524287 * 256 ^ 28); split; [by vm_compute|by split; vm_compute]|]). constructor.
  - split; [done|]. repeat (constructor; [by split; vm_compute|]). constructor.
Qed.

Lemma compact_roundtrip_witness :
  0 < 2 ^ 243 - 1 < 2 ^ 256 ∧
  ∃ c r, to_compact (2 ^ 243 - 1) = Ret c ∧ is_u 32 c ∧ to_expanded c = Ret (Some r) ∧ to_compact r = Ret c ∧
    0 < r ≤ 2 ^ 243 - 1 ∧ (2 ^ 243 - 1 - r) * 2 ^ 15 < r ∧
    ∀ c', is_u 32 c' → to_expanded c' = Ret (Some (2 ^ 243 - 1)) → r = 2 ^ 243 - 1.
Proof. split; [by split; vm_compute|]. apply (compact_roundtrip (2 ^ 243 - 1)). by split; vm_compute. Defined.

Lemma work_is_quotient_witness :
  to_expanded 0x1f07ffff = Ret (Some (524287 * 256 ^ 28)) ∧
  ∃ o, to_expanded 0x1f07ffff = Ret o ∧
    to_work 0x1f07ffff = Ret (e ← o; let w := 2 ^ 256 / (e + 1) in if w <? 2 ^ 128 then Some w else None).
Proof. split; [by vm_compute|]. apply (work_is_quotient 0x1f07ffff). by split; vm_compute. Defined.

Lemma threshold_as_specified_witness :
  ∃ c, threshold_bits (example_header 0x1f07ffff 40 1700000030) = Ret c ∧ 0x1f07ffff < c.
Proof.
  destruct (threshold_as_specified _ _ _ example_usable) as (newer & older & c & r & _ & _ & Hc & _).
  exists c. split; [exact Hc|]. vm_compute in Hc. by injection Hc as <-.
Defined.

Lemma header_accepted_iff_witness :
  ∃ median res, median_time_past (example_header 0x1f07ffff 40 1700000030) = Ret median ∧
    difficulty_threshold_and_time_are_valid 0x1f092f94 (example_header 0x1f07ffff 40 1700000030) = Ret res ∧
    res = inr ().
Proof.
  destruct (header_accepted_iff (example_header 0x1f07ffff 40 1700000030) Nu6 (524287 * 256 ^ 29) 1700000000 0x1f092f94
              example_usable ltac:(by split; vm_compute) eq_refl ltac:(by vm_compute) ltac:(done))
    as (median & res & Hm & Hres & Hiff).
  exists median, res. split; [exact Hm|]. split; [exact Hres|]. apply Hiff. vm_compute in Hm. injection Hm as <-.
  split_and!; by vm_compute.
Defined.

(** Nothing keeps an adjusted target above zero: the [min] with the limit bounds
    it from above. After 17 blocks with targets below the 425 seconds of the
    window the quotient is zero, and compacting it panics. *)
Example tiny_targets_panic :
  to_expanded 0x02010000 = Ret (Some 256) ∧ threshold_bits (example_header 0x02010000 40 1700000030) = Panic.
Proof. split; by vm_compute. Qed.
