(* ===== verification/BlockVerifier.v ===== *)
(** * BlockVerifier: the block verifier

    Models the semantic block verifier: the checks of
    [zebra-consensus/src/block/check.rs] and the service of
    [zebra-consensus/src/block.rs] up to the block that it hands to the state, with
    the methods of a block they use ([zebra-chain/src/block.rs]).

    Hashes, Equihash solutions, the decryption of shielded coinbase outputs, the
    clock and the state are the class [BlockServices]. *)

From stdpp Require Import base list gmap sets strings.
From S2P Require Import Prelude Wire Encoding Bft Roster Amount Staking Transparent Network Subsidy Transaction Delegation DelegationInv DelegationBlock BlockValue Spends Merkle TxVerifier Difficulty.

(** ** Blocks *)

Module Block.
Record t := mk {
  header : BlockHeader.t;
  transactions : list Transaction }.

Definition coinbase_height (b : t) : option Z :=
  tx ← head b.(transactions);
  input ← head (inputs tx);
  match input with Coinbase height _ => Some height | PrevOut _ _ => None end.
End Block.

Inductive BlockError :=
| MissingHeight (hash : bytes)
| MaxHeight (height : Z) (hash : bytes)
| InvalidDifficulty (height : Z) (hash : bytes)
| TargetDifficultyLimit (height : Z) (hash : bytes)
| DifficultyFilter (height : Z) (hash : bytes)
| WrongTransactionConsensusBranchId
| BadMerkleRoot (actual expected : bytes)
| DuplicateTransaction
| NoTransactions
| BlockTransaction (e : TransactionError)
| BlockSubsidy (e : SubsidyError)
| OtherBlockError
| TooManyTransparentSignatureOperations (height : Z) (hash : bytes) (sigops : Z)
| SummingMinerFees (height : Z) (hash : bytes) (e : AmountError)
| AlreadyInChain (hash : bytes)
| StateError
| EquihashError
| InvalidBlockTime (time height : Z) (hash : bytes).

Abbreviation Verified := (Fallible BlockError).

Class BlockServices := {
  block_hash : Block.t → bytes;
  tx_hash : Transaction → bytes;
  node_hash : bytes → bytes → bytes;
  (** [Request::KnownBlock] of the state. *)
  known_block : bytes → Verified bool;
  equihash_solution_is_valid : BlockHeader.t → bool;
  coinbase_outputs_are_decryptable : Transaction → Network → Z → Checked;
  now : Z;
  (** The order in which the results of the transaction verifier arrive. *)
  completed : ∀ {A}, list A → list A;
  completed_perm {A} (l : list A) : completed l ≡ₚ l }.

(** ** The checks *)

Section checks.
Context {P : Profile} `{Uint} {B : BlockServices} (n : Network).

Definition coinbase_is_first (b : Block.t) : Verified Transaction :=
  first ← ok_or (head b.(Block.transactions)) NoTransactions;
  _ ← ensure (is_coinbase first) (BlockTransaction CoinbasePosition);
  _ ← ensure (forallb is_valid_non_coinbase (tail b.(Block.transactions))) (BlockTransaction CoinbaseAfterFirst);
  mret first.

Definition difficulty_threshold_is_valid (h : BlockHeader.t) (height : Z) (hash : bytes) : Verified Z :=
  expanded ← run (to_expanded h.(BlockHeader.bits));
  difficulty_threshold ← ok_or expanded (InvalidDifficulty height hash);
  limit ← run (target_difficulty_limit n);
  _ ← ensure (difficulty_threshold <=? limit) (TargetDifficultyLimit height hash);
  mret difficulty_threshold.

(** A hash is compared as the number of its bytes, the least significant first. *)
Definition difficulty_is_valid (h : BlockHeader.t) (height : Z) (hash : bytes) : Verified () :=
  difficulty_threshold ← difficulty_threshold_is_valid h height hash;
  ensure (from_le hash <=? difficulty_threshold) (DifficultyFilter height hash).

(** [MultiSet::remove] *)
Fixpoint remove_output (o : Output) (l : list Output) : option (list Output) :=
  match l with
  | [] => None
  | x :: l => if decide (x = o) then Some l else rest ← remove_output o l; Some (x :: rest)
  end.
Definition has_expected_output (a : Address) (expected_amount : Z) (coinbase_outputs : list Output)
    : outcome (option (list Output)) :=
  script ← new_coinbase_script a; Ret (remove_output (new_coinbase expected_amount script) coinbase_outputs).

Fixpoint check_disbursements (l : list (Address * Z)) (coinbase_outputs : list Output) (change : Z)
    : Verified (list Output * Z) :=
  match l with
  | [] => mret (coinbase_outputs, change)
  | (a, expected_amount) :: l =>
      found ← run (has_expected_output a expected_amount coinbase_outputs);
      coinbase_outputs ← ok_or found (BlockSubsidy OneTimeLockboxDisbursementNotFound);
      change ← expect_some (Amount.checked_sub change expected_amount);
      check_disbursements l coinbase_outputs change
  end.
Fixpoint check_streams (height : Z) (l : list (FundingStreamReceiver * Z)) (coinbase_outputs : list Output)
    : Verified (list Output) :=
  match l with
  | [] => mret coinbase_outputs
  | (receiver, expected_amount) :: l =>
      a ← run (funding_stream_address height n receiver);
      a ← ok_or a OtherBlockError;
      found ← run (has_expected_output a expected_amount coinbase_outputs);
      coinbase_outputs ← ok_or found (BlockSubsidy FundingStreamNotFound);
      check_streams height l coinbase_outputs
  end.

(** [u64::count_ones]. *)
Fixpoint count_ones_pos (p : positive) : Z :=
  match p with
  | xH => 1
  | xO p => count_ones_pos p
  | xI p => 1 + count_ones_pos p
  end.
Definition count_ones (z : Z) : Z := match z with Zpos p => count_ones_pos p | _ => 0 end.

Definition subsidy_is_valid (b : Block.t) (expected_block_subsidy : Z) : Verified Z :=
  height ← ok_or (Block.coinbase_height b) (BlockSubsidy NoCoinbase);
  coinbase ← ok_or (head b.(Block.transactions)) (BlockSubsidy NoCoinbase);
  halving_div ← run (halving_divisor height n);
  match halving_div with
  | None => mret 0
  | Some halving_div =>
      canopy ← expect_some (activation_height Canopy n);
      _ ← must (slow_start_interval n <=? height);
      _ ← must (count_ones halving_div =? 1);
      _ ← must (canopy <=? height);
      if halving_div <? 8 then
        values ← map_err (λ _, OtherBlockError) (funding_stream_values height n expected_block_subsidy);
        change ← run (expect (Amount.constrain NegativeAllowed (default 0 (values !! Deferred))));
        x ← check_disbursements (lockbox_disbursements n height) (outputs coinbase) change;
        _ ← check_streams height (map_to_list (delete Deferred values)) x.1;
        mret x.2
      else mret 0
  end.

(** A sum or difference of amounts in a chain of them. *)
Definition sum_overflow {A} (m : Fallible AmountError A) : Verified A := map_err (λ _, BlockSubsidy SubsidySumOverflow) m.

Definition miner_fees_are_valid (coinbase_tx : Transaction) (height block_miner_fees expected_block_subsidy
    expected_deferred_pool_balance_change : Z) : Verified () :=
  transparent ← sum_overflow (Amount.sum NonNegative (map value (outputs coinbase_tx)));
  transparent ← run (expect (Amount.constrain NegativeAllowed transparent));
  total_output_value ← sum_overflow (
    v ← Amount.sub NegativeAllowed transparent (sapling_amount coinbase_tx);
    v ← Amount.sub NegativeAllowed v (orchard_amount coinbase_tx);
    Amount.add NegativeAllowed v expected_deferred_pool_balance_change);
  total_input_value ← sum_overflow (Amount.add NonNegative expected_block_subsidy block_miner_fees);
  nu ← run (current n height);
  if if upgrade_lt nu Nu6 then total_input_value <? total_output_value
     else negb (total_output_value =? total_input_value)
  then fail (BlockSubsidy InvalidMinerFees) else mret ().

(** Two hours, in seconds. *)
Definition time_is_valid_at (h : BlockHeader.t) (height : Z) (hash : bytes) : Verified () :=
  ensure (h.(BlockHeader.time) <=? now + 7200) (InvalidBlockTime h.(BlockHeader.time) height hash).

Definition check_transaction_network_upgrade_consistency (b : Block.t) : Verified () :=
  height ← expect_some (Block.coinbase_height b);
  block_nu ← run (current n height);
  ensure (forallb (λ tx, match network_upgrade tx with Some nu => bool_decide (nu = block_nu) | None => true end)
            b.(Block.transactions)) WrongTransactionConsensusBranchId.

Definition merkle_root_validity (b : Block.t) (transaction_hashes : list bytes) : Verified () :=
  _ ← check_transaction_network_upgrade_consistency b;
  root ← run (merkle_root node_hash transaction_hashes);
  _ ← ensure (bool_decide (b.(Block.header).(BlockHeader.merkle_root) = root))
        (BadMerkleRoot root b.(Block.header).(BlockHeader.merkle_root));
  ensure (bool_decide (length transaction_hashes = size (list_to_set (C := gset bytes) transaction_hashes)))
    DuplicateTransaction.
End checks.

(** ** The verifier *)

(** What the state gets to commit. *)
Record SemanticallyVerifiedBlock := {
  prepared_block : Block.t;
  prepared_hash : bytes;
  prepared_height : Z;
  new_outputs : gmap OutPoint OrderedUtxo;
  transaction_hashes : list bytes;
  deferred_pool_balance_change : option Z }.

Definition MAX_BLOCK_SIGOPS : Z := 20000.

Section verifier.
Context {P : Profile} `{Uint} {S : TxServices} {B : BlockServices} (n : Network).

(** The loop over the results of the transaction verifier.  A fee that does not fit
    is reported after it. *)
Fixpoint collect (l : list (Fallible TransactionError Response)) (sigops : Z) (fees : Fallible AmountError Z)
    : Verified (Z * Fallible AmountError Z) :=
  match l with
  | [] => mret (sigops, fees)
  | result :: l =>
      response ← map_err BlockTransaction result;
      _ ← must (match response with BlockResponse _ _ => true | _ => false end);
      sigops ← run (arith 32 (sigops + response_sigops response));
      collect l sigops
        (match response_fee response with
         | Some fee => acc ← fees; Amount.add NonNegative acc fee
         | None => fees
         end)
  end.

Definition block_request (height time : Z) (known_utxos : gmap OutPoint OrderedUtxo) (x : HashedTx) : Request :=
  BlockRequest x.1 x.2 (set_map fst (dom known_utxos)) known_utxos height time.

(** [call], up to the request to the state; a proposal has no proof of work. *)
Definition verify_block (is_proposal : bool) (b : Block.t) : Verified SemanticallyVerifiedBlock :=
  let hash := block_hash b in
  let header := b.(Block.header) in
  known ← known_block hash;
  _ ← ensure (negb known) (AlreadyInChain hash);
  height ← ok_or (Block.coinbase_height b) (MissingHeight hash);
  _ ← ensure (height <=? HEIGHT_MAX) (MaxHeight height hash);
  _ ← (if is_proposal || disable_pow n
       then _ ← difficulty_threshold_is_valid n header height hash; mret ()
       else _ ← difficulty_is_valid n header height hash;
            ensure (equihash_solution_is_valid header) EquihashError);
  let transaction_hashes := map tx_hash b.(Block.transactions) in
  _ ← merkle_root_validity n b transaction_hashes;
  _ ← time_is_valid_at header height hash;
  coinbase_tx ← coinbase_is_first b;
  expected_block_subsidy ← map_err BlockSubsidy (block_subsidy height n);
  deferred_pool_balance_change ← subsidy_is_valid n b expected_block_subsidy;
  _ ← map_err BlockTransaction (coinbase_outputs_are_decryptable coinbase_tx n height);
  let txs := zip transaction_hashes b.(Block.transactions) in
  known_utxos ← run (new_ordered_outputs height txs);
  x ← collect (completed (map (λ x, verify_transaction n
                                      (block_request height header.(BlockHeader.time) known_utxos x)) txs)) 0 (mret 0);
  let '(sigops, fees) := x in
  _ ← ensure (sigops <=? MAX_BLOCK_SIGOPS) (TooManyTransparentSignatureOperations height hash sigops);
  block_miner_fees ← map_err (SummingMinerFees height hash) fees;
  _ ← miner_fees_are_valid n coinbase_tx height block_miner_fees expected_block_subsidy deferred_pool_balance_change;
  mret {| prepared_block := b; prepared_hash := hash; prepared_height := height; new_outputs := known_utxos;
          transaction_hashes := transaction_hashes; deferred_pool_balance_change := Some deferred_pool_balance_change |}.
End verifier.
