(* ===== verification/BlockVerifierInv.v ===== *)
(** * BlockVerifierInv: what an accepted block has

    A block that passes the checks of [BlockVerifier] pays what the network's
    funding streams and lockbox disbursements say, each with an output of its own,
    and its header binds it to its transactions.  On the network that the prototype
    configures, the check of the subsidy panics once the address of the funding
    stream has run out. *)

From stdpp Require Import base list gmap sets strings.
From S2P Require Import Prelude Wire Encoding Bft Roster Amount Staking Transparent Network Subsidy SubsidyInv Testnet TestnetInv Transaction Delegation DelegationInv DelegationBlock BlockValue Spends Merkle TxVerifier Difficulty BlockVerifier.

Section checks.
Context {P : Profile} `{Uint} {B : BlockServices} (n : Network).

(** ** The outputs of a coinbase transaction *)

Lemma remove_output_perm o l : ∀ l', remove_output o l = Some l' → l ≡ₚ o :: l'.
Proof.
  induction l as [|x l IH]; intros l'; cbn; [done|]. case_decide as Hx; [by intros [= <-]; subst|].
  destruct (remove_output o l) as [rest|]; [|done]. intros [= <-].
  etrans; [apply perm_skip, IH; reflexivity|apply perm_swap].
Qed.

(** An output of an amount to an address. *)
Definition coinbase_output (a : Address) (amount : Z) (o : Output) : Prop :=
  ∃ s, new_coinbase_script a = Ret s ∧ o = new_coinbase amount s.

Lemma expected_output_inv a amount outs found outs' :
  run (E := BlockError) (has_expected_output a amount outs) = Ret (inr found) → found = Some outs' →
  ∃ o, coinbase_output a amount o ∧ outs ≡ₚ o :: outs'.
Proof.
  unfold has_expected_output. intros (s & Hs & [= <-])%run_inv%bind_Ret_inv Hf.
  eexists. split; [by exists s|]. by apply remove_output_perm.
Qed.

Lemma disbursements_paid l : ∀ outs change outs' change',
  check_disbursements l outs change = Ret (inr (outs', change')) →
  change' = change - zsum (map snd l) ∧
  ∃ os, Forall2 (λ x o, coinbase_output x.1 x.2 o) l os ∧ outs ≡ₚ os ++ outs'.
Proof.
  induction l as [|[a v] l IH]; intros outs change outs' change'; cbn [check_disbursements map snd].
  { intros [= <- <-]. split; [cbn; lia|]. by exists []. }
  intros (found & Hf & Hv)%Fallible_bind_inv. apply Fallible_bind_inv in Hv as (o1 & Ho%ok_or_inv & Hv).
  apply Fallible_bind_inv in Hv as (c1 & Hc%expect_some_inv & (-> & os & Hos & Hp)%IH).
  destruct (expected_output_inv _ _ _ _ _ Hf Ho) as (o & Hout & Hp'). rewrite zsum_cons. split.
  - unfold Amount.checked_sub in Hc. destruct (is_i64 _); [|done].
    destruct (validate_cases NegativeAllowed (change - v)) as [[_ E]|[_ E]]; rewrite E in Hc; [|done].
    injection Hc as <-. lia.
  - exists (o :: os). split; [by constructor|]. etrans; [exact Hp'|]. by apply perm_skip.
Qed.

(** The output that a funding stream gets at a height. *)
Definition stream_output (height : Z) (x : FundingStreamReceiver * Z) (o : Output) : Prop :=
  ∃ a, funding_stream_address height n x.1 = Ret (Some a) ∧ coinbase_output a x.2 o.

Lemma streams_paid height l : ∀ outs outs',
  check_streams n height l outs = Ret (inr outs') →
  ∃ os, Forall2 (stream_output height) l os ∧ outs ≡ₚ os ++ outs'.
Proof.
  induction l as [|[r v] l IH]; intros outs outs'; cbn [check_streams].
  { intros [= <-]. by exists []. }
  intros (a & Ha%run_inv & Hv)%Fallible_bind_inv. apply Fallible_bind_inv in Hv as (a' & ->%ok_or_inv & Hv).
  apply Fallible_bind_inv in Hv as (found & Hf & Hv).
  apply Fallible_bind_inv in Hv as (o1 & Ho%ok_or_inv & (os & Hos & Hp)%IH).
  destruct (expected_output_inv _ _ _ _ _ Hf Ho) as (o & Hout & Hp').
  exists (o :: os). split; [constructor; [by exists a'|done]|]. etrans; [exact Hp'|]. by apply perm_skip.
Qed.

(** C18: A coinbase transaction that passes the check of the subsidy has, up to the
    third halving, an output of its own for each lockbox disbursement of its height
    and for each funding stream but the deferred one, of the stream's share and to
    the stream's address at that height; and the change of the deferred pool is the
    deferred share less the disbursements. *)
Theorem coinbase_pays_streams b subsidy deferred height div :
  subsidy_is_valid n b subsidy = Ret (inr deferred) →
  Block.coinbase_height b = Some height → halving_divisor height n = Ret (Some div) → div < 8 →
  ∃ coinbase values ds ss rest,
    head b.(Block.transactions) = Some coinbase ∧ funding_stream_values height n subsidy = Ret (inr values) ∧
    Forall2 (λ x o, coinbase_output x.1 x.2 o) (lockbox_disbursements n height) ds ∧
    Forall2 (stream_output height) (map_to_list (delete Deferred values)) ss ∧
    outputs coinbase ≡ₚ ds ++ ss ++ rest ∧
    deferred = default 0 (values !! Deferred) - zsum (map snd (lockbox_disbursements n height)).
Proof.
  unfold subsidy_is_valid. intros Hv Hh Hd Hdiv. rewrite Hh in Hv. cbn [ok_or mbind Fallible_bind mret Fallible_ret] in Hv.
  apply Fallible_bind_inv in Hv as (cb & Hcb%ok_or_inv & Hv). rewrite Hd in Hv.
  cbn [run mbind Fallible_bind mret Fallible_ret] in Hv.
  do 4 (apply Fallible_bind_inv in Hv as (? & _ & Hv)). rewrite (proj2 (Z.ltb_lt div 8) Hdiv) in Hv.
  apply Fallible_bind_inv in Hv as (values & Hval%map_err_inv & Hv). apply Fallible_bind_inv in Hv as (change & Hc & Hv).
  assert (change = default 0 (values !! Deferred)) as ->.
  { unfold Amount.constrain in Hc. destruct (validate_cases NegativeAllowed (default 0 (values !! Deferred))) as [[_ E]|[_ E]];
      rewrite E in Hc; [by injection Hc as <-|done]. }
  apply Fallible_bind_inv in Hv as ([o1 c1] & (-> & ds & Hds & Hp1)%disbursements_paid & Hv).
  apply Fallible_bind_inv in Hv as (rest & (ss & Hss & Hp2)%streams_paid & [= <-]).
  exists cb, values, ds, ss, rest. do 4 (split; [done|]). split; [|done]. etrans; [exact Hp1|]. by apply Permutation_app_head.
Qed.

(** ** The transactions of a header *)

Lemma no_duplicates (l : list bytes) : length l = size (list_to_set (C := gset bytes) l) → NoDup l.
Proof.
  assert (∀ l : list bytes, (size (list_to_set (C := gset bytes) l) ≤ length l)%nat) as Hle.
  { clear l. induction l as [|x l IH]; cbn [list_to_set length]; [done|]. rewrite size_union_alt, size_singleton.
    pose proof (subseteq_size (C := gset bytes) (list_to_set l ∖ {[x]}) (list_to_set l) ltac:(set_solver)). lia. }
  induction l as [|x l IH]; cbn [list_to_set length]; [constructor|]. intros Hl.
  destruct (decide (x ∈ l)) as [Hx|Hx].
  - rewrite (subseteq_union_1_L {[x]}) in Hl by set_solver. pose proof (Hle l). lia.
  - constructor; [done|]. apply IH. rewrite size_union, size_singleton in Hl by set_solver. lia.
Qed.

(** C20: Two blocks with the same Merkle root in their headers, that pass the check of
    it and have trees of the same depth, have the same transaction hashes in the same
    order, or two different pairs among the pairs of nodes that are hashed in their two
    trees have the same hash: without the check for duplicates this is false. *)
Theorem header_binds_transactions b1 b2 l1 l2 :
  merkle_root_validity n b1 l1 = Ret (inr ()) → merkle_root_validity n b2 l2 = Ret (inr ()) →
  b1.(Block.header).(BlockHeader.merkle_root) = b2.(Block.header).(BlockHeader.merkle_root) →
  Nat.log2_up (length l1) = Nat.log2_up (length l2) →
  l1 = l2 ∨ collision_in node_hash (root_pairs node_hash l1 ++ root_pairs node_hash l2).
Proof.
  assert (∀ b l, merkle_root_validity n b l = Ret (inr ()) →
            NoDup l ∧ merkle_root node_hash l = Ret b.(Block.header).(BlockHeader.merkle_root)) as Hinv.
  { intros b l (_ & _ & (r & Hr%run_inv & Hv)%Fallible_bind_inv)%Fallible_bind_inv.
    apply Fallible_bind_inv in Hv as (_ & Hroot%ensure_inv%bool_decide_eq_true & Hd%ensure_inv%bool_decide_eq_true).
    split; [by apply no_duplicates|by rewrite Hroot]. }
  intros [N1 R1]%Hinv [N2 R2]%Hinv Hroot Hdepth. rewrite Hroot in R1. by eapply merkle_root_binds.
Qed.
End checks.

(** ** Accepted blocks *)

(** What the verifier has checked when it accepts a block. *)
Record accepted {P : Profile} `{Uint} {S : TxServices} {B : BlockServices} (n : Network) (b : Block.t)
    (p : SemanticallyVerifiedBlock) (coinbase : Transaction) (subsidy ops fees : Z) : Prop := {
  ac_block : p.(prepared_block) = b;
  ac_hash : p.(prepared_hash) = block_hash b;
  ac_height : Block.coinbase_height b = Some p.(prepared_height);
  ac_max : p.(prepared_height) ≤ HEIGHT_MAX;
  ac_hashes : p.(transaction_hashes) = map tx_hash b.(Block.transactions);
  ac_merkle : merkle_root_validity n b p.(transaction_hashes) = Ret (inr ());
  ac_time : b.(Block.header).(BlockHeader.time) ≤ now + 7200;
  ac_coinbase : coinbase_is_first b = Ret (inr coinbase);
  ac_subsidy : block_subsidy p.(prepared_height) n = Ret (inr subsidy);
  ac_deferred : subsidy_is_valid n b subsidy = Ret (inr (default 0 p.(deferred_pool_balance_change)));
  ac_outputs : new_ordered_outputs p.(prepared_height) (zip (map tx_hash b.(Block.transactions)) b.(Block.transactions)) =
                 Ret p.(new_outputs);
  ac_verified : collect (completed (map (λ x, verify_transaction n
                    (block_request p.(prepared_height) b.(Block.header).(BlockHeader.time) p.(new_outputs) x))
                    (zip (map tx_hash b.(Block.transactions)) b.(Block.transactions)))) 0 (mret 0) =
                  Ret (inr (ops, Ret (inr fees)));
  ac_sigops : ops ≤ MAX_BLOCK_SIGOPS;
  ac_fees : miner_fees_are_valid n coinbase p.(prepared_height) fees subsidy (default 0 p.(deferred_pool_balance_change)) =
              Ret (inr ()) }.

Lemma verify_block_inv {P : Profile} `{Uint} {S : TxServices} {B : BlockServices} n is_proposal b p :
  verify_block n is_proposal b = Ret (inr p) → ∃ coinbase subsidy ops fees, accepted n b p coinbase subsidy ops fees.
Proof.
  unfold verify_block. intros Hv. do 2 (apply Fallible_bind_inv in Hv as (? & _ & Hv)).
  apply Fallible_bind_inv in Hv as (height & Hh%ok_or_inv & Hv). apply Fallible_bind_inv in Hv as (_ & Hm%ensure_inv & Hv).
  apply Fallible_bind_inv in Hv as (_ & _ & Hv). apply Fallible_bind_inv in Hv as ([] & Hr & Hv).
  apply Fallible_bind_inv in Hv as (_ & Ht%ensure_inv & Hv). apply Fallible_bind_inv in Hv as (cb & Hcb & Hv).
  apply Fallible_bind_inv in Hv as (subsidy & Hs%map_err_inv & Hv). apply Fallible_bind_inv in Hv as (deferred & Hd & Hv).
  apply Fallible_bind_inv in Hv as (_ & _ & Hv). apply Fallible_bind_inv in Hv as (outs & Ho%run_inv & Hv).
  apply Fallible_bind_inv in Hv as ([ops fees] & Hc & Hv). apply Fallible_bind_inv in Hv as (_ & Hops%ensure_inv & Hv).
  apply Fallible_bind_inv in Hv as (total & ->%map_err_inv & Hv). apply Fallible_bind_inv in Hv as ([] & Hf & [= <-]).
  exists cb, subsidy, ops, total. split; cbn; try done; lia.
Qed.

(** ** The network of the prototype *)

Section crosslink.
Context {P : Profile} `{Uint} {B : BlockServices}.

Lemma clt0_halving_divisor height : 1 ≤ height < 1679999 → halving_divisor height clt0 = Ret (Some 1).
Proof.
  intros Hh. unfold halving_divisor, num_halvings. change (slow_start_shift clt0) with 0.
  change (activation_height Blossom clt0) with (Some 1). cbn [unwrap mbind outcome_bind].
  rewrite (proj2 (Z.ltb_ge height 0)), (proj2 (Z.ltb_ge height 1)) by lia.
  change (post_blossom_halving_interval clt0) with 1680000. unfold BLOSSOM_POW_TARGET_SPACING_RATIO.
  rewrite div_i64_pos by lia. cbn [mbind outcome_bind]. rewrite Z.div_small by lia. done.
Qed.

Lemma clt0_block_subsidy height : 1 ≤ height < 1679999 → block_subsidy height clt0 = Ret (inr 625000000).
Proof.
  intros Hh. unfold block_subsidy. rewrite clt0_halving_divisor by done.
  change (activation_height Blossom clt0) with (Some 1). change (slow_start_interval clt0) with 0.
  cbn [expect_some run mbind Fallible_bind mret Fallible_ret].
  rewrite (proj2 (Z.ltb_ge height 0)), (proj2 (Z.ltb_ge height 1)) by lia. by vm_compute.
Qed.

Lemma clt0_stream_values height :
  1 ≤ height < 99999999 → funding_stream_values height clt0 625000000 = Ret (inr {[MajorGrants := 125000000]}).
Proof.
  intros Hh. unfold funding_stream_values. change (activation_height Canopy clt0) with (Some 1).
  cbn [expect_some mbind Fallible_bind mret Fallible_ret]. rewrite (proj2 (Z.leb_le 1 height)) by lia.
  rewrite clt0_funding_streams by done. by vm_compute.
Qed.

Lemma clt0_no_disbursements height : lockbox_disbursements clt0 height = [].
Proof. unfold lockbox_disbursements. by change (activation_height Nu6_1 clt0) with (@None Z). Qed.

(** C38: On the network that the prototype configures, the check of the subsidy of a
    block panics at every height from 34,999 to the first halving, whatever the
    block: the funding stream has one address, for a period that ends there. *)
Theorem crosslink_blocks_panic :
  ∃ n, crosslink_network = Ret n ∧
    ∀ b height subsidy, Block.coinbase_height b = Some height → 34999 ≤ height < 1679999 →
      block_subsidy height n = Ret (inr subsidy) → subsidy_is_valid n b subsidy = Panic.
Proof.
  exists clt0. split; [exact crosslink_network_clt0|]. intros b height subsidy Hb Hh.
  rewrite clt0_block_subsidy by lia. intros [= <-]. unfold subsidy_is_valid. rewrite Hb.
  assert (∃ cb, head b.(Block.transactions) = Some cb) as [cb ->].
  { unfold Block.coinbase_height in Hb. destruct (head _); [by eexists|done]. }
  cbn [ok_or mbind Fallible_bind mret Fallible_ret].
  rewrite clt0_halving_divisor by lia. change (activation_height Canopy clt0) with (Some 1).
  change (slow_start_interval clt0) with 0. cbn [ok_or run expect_some mbind Fallible_bind mret Fallible_ret].
  rewrite !(proj2 (Z.leb_le _ height)) by lia. change (count_ones 1 =? 1) with true.
  cbn [must mbind Fallible_bind mret Fallible_ret].
  change (1 <? 8) with true. cbn match. rewrite clt0_stream_values, clt0_no_disbursements by lia.
  cbn [map_err mbind Fallible_bind mret Fallible_ret]. rewrite lookup_singleton_ne by done.
  cbn [default from_option Amount.constrain check_disbursements expect run fst mbind Fallible_bind mret Fallible_ret].
  rewrite delete_singleton_ne, map_to_list_singleton by done. cbn [check_streams].
  unfold funding_stream_address. rewrite clt0_index by lia. by rewrite (proj2 (Z.ltb_ge height 34999)) by lia.
Qed.
End crosslink.
