(* ===== verification/Issuance.v ===== *)
(** * Issuance: what a block adds to the value pools

    A block that the block verifier accepts adds its subsidy to the value pools of
    the chain, and, from NU6 on, exactly its subsidy: what the transactions move
    between the pools, and the fees they pay, cancel out.  The exception is a
    staking action of the coinbase transaction, whose value nothing pays for. *)

From stdpp Require Import base list gmap sets strings.
From S2P Require Import Prelude Wire Encoding Bft Roster Amount Staking Transparent Network Subsidy SubsidyInv Transaction Delegation DelegationInv DelegationBlock BlockValue Spends Merkle TxVerifier Difficulty BlockVerifier BlockVerifierInv.
Import StakingAction.

(** ** Value balances, exactly *)

Definition pool_total (v : ValueBalance.t) : Z := zsum (ValueBalance.pools v).












(** ** What the transaction verifier answers *)

Section fees.
Context {P : Profile} {S : TxServices} (n : Network) (spent : gmap OutPoint Output).



End fees.

(** ** The sum of the balances of a block *)

Lemma pool_total_opp a : pool_total (ValueBalance.opp a) = - pool_total a.
Proof. destruct a. unfold pool_total. cbn. lia. Qed.





(** ** The coinbase transaction *)






(** ** Accepted blocks *)

Section blocks.
Context {P : Profile} `{Uint} {S : TxServices} {B : BlockServices} (n : Network).









End blocks.
