(* ===== verification/Checkpoint.v ===== *)
(** * Checkpoint: the checkpoint verifier

    Models [zebra-consensus/src/checkpoint.rs], [checkpoint/list.rs] and
    [checkpoint/types.rs], and the router of [zebra-consensus/src/router.rs] that
    chooses between this verifier and that of [BlockVerifier].

    A response channel is a number, and the answers on them are a log.  A request of
    the verifier is the part of its [call] that is not spawned, which queues a block
    and answers requests; [commit_settled] is what the spawned task does afterwards.
    Metrics and progress bars are left out, but for what can panic in them. *)

From stdpp Require Import base list gmap sets sorting strings.
From S2P Require Import Prelude Wire Encoding Bft Roster Amount Staking Transparent Network Subsidy Transaction Delegation DelegationInv DelegationBlock BlockValue Spends Merkle TxVerifier Difficulty BlockVerifier.

(** ** Ordered maps *)

Inductive Bound := Unbounded | Included (h : Z) | Excluded (h : Z).
Definition above (lo : Bound) (k : Z) : bool :=
  match lo with Unbounded => true | Included h => h <=? k | Excluded h => h <? k end.
Definition below (hi : Bound) (k : Z) : bool :=
  match hi with Unbounded => true | Included h => k <=? h | Excluded h => k <? h end.
(** [BTreeMap::range] panics on a range whose start is after its end. *)
Definition range_ok (lo hi : Bound) : bool :=
  match lo, hi with
  | Included a, Included b | Included a, Excluded b | Excluded a, Included b => a <=? b
  | Excluded a, Excluded b => a <? b
  | Unbounded, _ | _, Unbounded => true
  end.

Definition keys {A} (m : gmap Z A) : list Z := merge_sort Z.le (elements (dom m)).
Definition range {A} (lo hi : Bound) (m : gmap Z A) : outcome (list Z) :=
  _ ← assert_ (range_ok lo hi); Ret (List.filter (λ k, above lo k && below hi k) (keys m)).

(** ** Checkpoint lists *)

Definition CheckpointList : Type := gmap Z bytes.

Inductive ListError :=
| NoGenesisCheckpoint
| NoCheckpoints
| DuplicateHeights
| DuplicateHashes
| NullCheckpointHash
| CheckpointHeightTooHigh.

Definition min_height_in_range (lo hi : Bound) (l : CheckpointList) : outcome (option Z) :=
  ks ← range lo hi l; Ret (head ks).
Definition max_height_in_range (lo hi : Bound) (l : CheckpointList) : outcome (option Z) :=
  ks ← range lo hi l; Ret (last ks).
Definition max_height (l : CheckpointList) : outcome Z :=
  h ← max_height_in_range Unbounded Unbounded l; unwrap h.
Definition contains (l : CheckpointList) (height : Z) : bool := bool_decide (is_Some (l !! height)).

(** [keys().rposition(|&key| key <= height)] *)
Definition prev_checkpoint_index (l : CheckpointList) (height : Z) : outcome nat :=
  match length (List.filter (λ k, k <=? height) (keys l)) with
  | O => Panic
  | S i => Ret i
  end.

Definition from_list (original : list (Z * bytes)) : Fallible ListError CheckpointList :=
  let checkpoints : gmap Z bytes := foldl (λ (m : gmap Z bytes) x, <[x.1 := x.2]> m) ∅ original in
  _ ← (match head (keys checkpoints) with
       | Some h => ensure (h =? 0) NoGenesisCheckpoint
       | None => fail NoCheckpoints
       end);
  _ ← ensure (bool_decide (size checkpoints = length original)) DuplicateHeights;
  let block_hashes : gset bytes := list_to_set (map snd (map_to_list checkpoints)) in
  _ ← ensure (bool_decide (size block_hashes = length original)) DuplicateHashes;
  _ ← ensure (bool_decide (zeros 32 ∉ block_hashes)) NullCheckpointHash;
  max ← run (max_height checkpoints);
  _ ← ensure (max <=? HEIGHT_MAX) CheckpointHeightTooHigh;
  mret checkpoints.

(** ** Progress *)

Inductive Progress (A : Type) :=
| BeforeGenesis
| InitialTip (x : A)
| PreviousCheckpoint (x : A)
| FinalCheckpoint.
Arguments BeforeGenesis {A}.
Arguments InitialTip {A} x.
Arguments PreviousCheckpoint {A} x.
Arguments FinalCheckpoint {A}.
#[global] Instance Progress_eq_dec {A} `{EqDecision A} : EqDecision (Progress A).
Proof. solve_decision. Defined.

Definition progress_cmp (a b : Progress Z) : comparison :=
  if decide (a = b) then Eq
  else match a, b with
       | BeforeGenesis, _ => Lt
       | _, BeforeGenesis => Gt
       | FinalCheckpoint, _ => Gt
       | _, FinalCheckpoint => Lt
       | InitialTip x, InitialTip y | InitialTip x, PreviousCheckpoint y
       | PreviousCheckpoint x, InitialTip y | PreviousCheckpoint x, PreviousCheckpoint y => Z.compare x y
       end.
Definition progress_height (a : Progress Z) : option Z :=
  match a with InitialTip h | PreviousCheckpoint h => Some h | BeforeGenesis | FinalCheckpoint => None end.

Inductive TargetHeight := WaitingForBlocks | Checkpoint (h : Z) | FinishedVerifying.
#[global] Instance TargetHeight_eq_dec : EqDecision TargetHeight.
Proof. solve_decision. Defined.

Definition target_cmp (a b : TargetHeight) : option comparison :=
  match a, b with
  | FinishedVerifying, FinishedVerifying => Some Eq
  | FinishedVerifying, _ => Some Gt
  | _, FinishedVerifying => Some Lt
  | Checkpoint x, Checkpoint y => Some (Z.compare x y)
  | WaitingForBlocks, Checkpoint _ | Checkpoint _, WaitingForBlocks => None
  | WaitingForBlocks, WaitingForBlocks => Some Eq
  end.

(** ** The verifier *)

Inductive VerifyCheckpointError :=
| Finished
| TooHigh (height max_height : Z)
| AlreadyVerified (height verified_height : Z)
| NewerRequest (height : Z) (hash : bytes)
| CoinbaseHeight (hash : bytes)
| Dropped
| VerifyBlock (e : BlockError)
| CheckpointSubsidy (e : SubsidyError)
| CheckpointAmount (e : AmountError)
| QueuedLimit
| UnexpectedSideChain (expected found : bytes).

Record QueuedBlock := {
  qb_block : SemanticallyVerifiedBlock;
  qb_tx : nat }.
Definition qb_hash (q : QueuedBlock) : bytes := q.(qb_block).(prepared_hash).
Definition qb_height (q : QueuedBlock) : Z := q.(qb_block).(prepared_height).
Definition qb_parent (q : QueuedBlock) : bytes := q.(qb_block).(prepared_block).(Block.header).(BlockHeader.prev_block).

Definition MAX_QUEUED_BLOCKS_PER_HEIGHT : nat := 4.
Definition GENESIS_PREVIOUS_BLOCK_HASH : bytes := zeros 32.

Abbreviation Answer := (nat * (VerifyCheckpointError + bytes))%type.

Record CheckpointVerifier := mk_verifier {
  checkpoint_list : CheckpointList;
  initial_tip_hash : option bytes;
  queued : gmap Z (list QueuedBlock);
  verifier_progress : Progress Z;
  reset_receiver : list (option (Z * bytes));
  next_tx : nat;
  answers : list Answer }.

Definition with_queued (s : CheckpointVerifier) (m : gmap Z (list QueuedBlock)) : CheckpointVerifier :=
  mk_verifier s.(checkpoint_list) s.(initial_tip_hash) m s.(verifier_progress) s.(reset_receiver) s.(next_tx) s.(answers).
Definition with_progress (s : CheckpointVerifier) (tip : option bytes) (p : Progress Z) : CheckpointVerifier :=
  mk_verifier s.(checkpoint_list) tip s.(queued) p s.(reset_receiver) s.(next_tx) s.(answers).
Definition with_resets (s : CheckpointVerifier) (l : list (option (Z * bytes))) : CheckpointVerifier :=
  mk_verifier s.(checkpoint_list) s.(initial_tip_hash) s.(queued) s.(verifier_progress) l s.(next_tx) s.(answers).
Definition answer (s : CheckpointVerifier) (l : list Answer) : CheckpointVerifier :=
  mk_verifier s.(checkpoint_list) s.(initial_tip_hash) s.(queued) s.(verifier_progress) s.(reset_receiver) s.(next_tx)
    (s.(answers) ++ l).
(** [oneshot::channel()] *)
Definition new_tx (s : CheckpointVerifier) : nat * CheckpointVerifier :=
  (s.(next_tx), mk_verifier s.(checkpoint_list) s.(initial_tip_hash) s.(queued) s.(verifier_progress) s.(reset_receiver)
                  (S s.(next_tx)) s.(answers)).

Definition progress_from_tip (l : CheckpointList) (tip : option (Z * bytes)) : outcome (option bytes * Progress Z) :=
  match tip with
  | Some (height, hash) =>
      max ← max_height l;
      Ret (if max <=? height then (None, FinalCheckpoint) else (Some hash, InitialTip height))
  | None => Ret (None, BeforeGenesis)
  end.

(** The index of the checkpoint is reported. *)
Definition verified_checkpoint_diagnostics (s : CheckpointVerifier) (height : option Z) : outcome unit :=
  match height with
  | None => Ret ()
  | Some h => _ ← prev_checkpoint_index s.(checkpoint_list) h; Ret ()
  end.

Definition from_checkpoint_list (l : CheckpointList) (initial_tip : option (Z * bytes)) : outcome CheckpointVerifier :=
  x ← progress_from_tip l initial_tip;
  let s := mk_verifier l x.1 ∅ x.2 [] 0 [] in
  _ ← (if decide (x.2 = FinalCheckpoint) then Ret () else verified_checkpoint_diagnostics s (progress_height x.2));
  Ret s.

Definition reset_progress (tip : option (Z * bytes)) (s : CheckpointVerifier) : outcome CheckpointVerifier :=
  x ← progress_from_tip s.(checkpoint_list) tip;
  let s := with_progress s x.1 x.2 in
  _ ← verified_checkpoint_diagnostics s (progress_height x.2);
  Ret s.

Definition current_start_bound (s : CheckpointVerifier) : option Bound :=
  match s.(verifier_progress) with
  | BeforeGenesis => Some Unbounded
  | InitialTip height | PreviousCheckpoint height => Some (Excluded height)
  | FinalCheckpoint => None
  end.

Section verifier.
Context {P : Profile} `{Uint} {B : BlockServices} (n : Network).

(** The end of the continuous sequence of heights. *)
Fixpoint continuous (pending_height : Z) (heights : list Z) : outcome Z :=
  match heights with
  | [] => Ret pending_height
  | height :: heights =>
      next ← arith 32 (pending_height + 1);
      if height =? next then continuous height heights else Ret pending_height
  end.

Definition target_checkpoint_height (s : CheckpointVerifier) : outcome TargetHeight :=
  let search (start_height : Z) :=
    heights ← range (Excluded start_height) Unbounded s.(queued);
    pending_height ← continuous start_height heights;
    start ← unwrap (current_start_bound s);
    target_checkpoint ← max_height_in_range start (Included pending_height) s.(checkpoint_list);
    Ret (match target_checkpoint with Some h => Checkpoint h | None => WaitingForBlocks end) in
  match s.(verifier_progress) with
  | BeforeGenesis => if decide (s.(queued) !! 0 = None) then Ret WaitingForBlocks else search 0
  | InitialTip height | PreviousCheckpoint height => search height
  | FinalCheckpoint => Ret FinishedVerifying
  end.

Definition previous_checkpoint_hash (s : CheckpointVerifier) : outcome (Progress bytes) :=
  match s.(verifier_progress) with
  | BeforeGenesis => Ret BeforeGenesis
  | InitialTip _ => hash ← unwrap s.(initial_tip_hash); Ret (InitialTip hash)
  | PreviousCheckpoint height => hash ← unwrap (s.(checkpoint_list) !! height); Ret (PreviousCheckpoint hash)
  | FinalCheckpoint => Ret FinalCheckpoint
  end.

Definition check_height (height : Z) (s : CheckpointVerifier) : Fallible VerifyCheckpointError () :=
  max ← run (max_height s.(checkpoint_list));
  _ ← ensure (height <=? max) (TooHigh height max);
  match s.(verifier_progress) with
  | BeforeGenesis => mret ()
  | InitialTip previous_height | PreviousCheckpoint previous_height =>
      ensure (previous_height <? height) (AlreadyVerified height previous_height)
  | FinalCheckpoint => fail Finished
  end.

Definition update_progress (verified_height : Z) (s : CheckpointVerifier) : outcome CheckpointVerifier :=
  x ← check_height verified_height s;
  match x with
  | inl _ => Ret s
  | inr _ =>
      max ← max_height s.(checkpoint_list);
      if verified_height =? max then
        let s := with_progress s s.(initial_tip_hash) FinalCheckpoint in
        _ ← verified_checkpoint_diagnostics s (Some verified_height); Ret s
      else if contains s.(checkpoint_list) verified_height then
        let s := with_progress s None (PreviousCheckpoint verified_height) in
        _ ← verified_checkpoint_diagnostics s (Some verified_height); Ret s
      else Ret s
  end.

(** [CheckpointVerifiedBlock::new] *)
Definition checkpoint_verified_block (b : Block.t) (hash : bytes) (change : option Z) : outcome SemanticallyVerifiedBlock :=
  height ← unwrap (Block.coinbase_height b);
  let transaction_hashes := map tx_hash b.(Block.transactions) in
  new_outputs ← new_ordered_outputs height (zip transaction_hashes b.(Block.transactions));
  Ret {| prepared_block := b; prepared_hash := hash; prepared_height := height; new_outputs := new_outputs;
         transaction_hashes := transaction_hashes; deferred_pool_balance_change := change |}.

Definition check_block (b : Block.t) (s : CheckpointVerifier) : Fallible VerifyCheckpointError SemanticallyVerifiedBlock :=
  let hash := block_hash b in
  height ← ok_or (Block.coinbase_height b) (CoinbaseHeight hash);
  _ ← check_height height s;
  _ ← map_err VerifyBlock
        (if disable_pow n
         then _ ← difficulty_threshold_is_valid n b.(Block.header) height hash; mret ()
         else _ ← difficulty_is_valid n b.(Block.header) height hash;
              ensure (equihash_solution_is_valid b.(Block.header)) EquihashError);
  expected_deferred_amount ←
    (if slow_start_interval n <? height then
       subsidy ← map_err CheckpointSubsidy (block_subsidy height n);
       values ← map_err CheckpointAmount (funding_stream_values height n subsidy);
       mret (values !! Deferred)
     else mret None);
  total ← run (lockbox_disbursement_total_amount n height);
  let change := Amount.checked_sub (default 0 expected_deferred_amount) total in
  block ← run (checkpoint_verified_block b hash change);
  _ ← map_err VerifyBlock (merkle_root_validity n block.(prepared_block) block.(transaction_hashes));
  mret block.

(** The first queued block with a hash is replaced. *)
Fixpoint replace_queued (new : QueuedBlock) (l : list QueuedBlock) : option (QueuedBlock * list QueuedBlock) :=
  match l with
  | [] => None
  | q :: l =>
      if decide (qb_hash q = qb_hash new) then Some (q, new :: l)
      else x ← replace_queued new l; Some (x.1, q :: x.2)
  end.

Definition queue_block (b : Block.t) (s : CheckpointVerifier)
    : outcome ((VerifyCheckpointError + SemanticallyVerifiedBlock * nat) * CheckpointVerifier) :=
  let '(tx, s) := new_tx s in
  x ← check_block b s;
  match x with
  | inl e => Ret (inl e, s)
  | inr block =>
      let new := {| qb_block := block; qb_tx := tx |} in
      let height := block.(prepared_height) in
      let qblocks := default [] (s.(queued) !! height) in
      match replace_queued new qblocks with
      | Some (old, qblocks) =>
          Ret (inr (block, tx),
               answer (with_queued s (<[height := qblocks]> s.(queued)))
                 [(old.(qb_tx), inl (NewerRequest height block.(prepared_hash)))])
      | None =>
          if (MAX_QUEUED_BLOCKS_PER_HEIGHT <=? length qblocks)%nat
          then Ret (inl QueuedLimit, with_queued s (<[height := qblocks]> s.(queued)))
          else
            let s := with_queued s (<[height := qblocks ++ [new]]> s.(queued)) in
            _ ← unwrap (last (keys s.(queued)));
            Ret (inr (block, tx), s)
      end
  end.

(** The blocks of a height that are not [expected_hash] are answered. *)
Fixpoint pick_valid (expected_hash : bytes) (l : list QueuedBlock) (valid : option QueuedBlock)
    : outcome (option QueuedBlock * list Answer) :=
  match l with
  | [] => Ret (valid, [])
  | q :: l =>
      if decide (qb_hash q = expected_hash) then
        match valid with
        | None => pick_valid expected_hash l (Some q)
        | Some _ => Panic
        end
      else
        x ← pick_valid expected_hash l valid;
        Ret (x.1, (q.(qb_tx), inl (UnexpectedSideChain expected_hash (qb_hash q))) :: x.2)
  end.

Definition process_height (height : Z) (expected_hash : bytes) (s : CheckpointVerifier)
    : outcome (option QueuedBlock * CheckpointVerifier) :=
  qblocks ← unwrap (s.(queued) !! height);
  let s := with_queued s (delete height s.(queued)) in
  _ ← assert_ (bool_decide (qblocks ≠ []));
  _ ← (match s.(checkpoint_list) !! height with
       | Some checkpoint_hash => assert_ (bool_decide (expected_hash = checkpoint_hash))
       | None => Ret ()
       end);
  x ← pick_valid expected_hash qblocks None;
  Ret (x.1, answer s x.2).

(** The loop over the heights of a range, downwards.  The valid blocks are in chain
    order; [None] if a height has none. *)
Fixpoint walk_back (heights : list Z) (expected_hash : bytes) (valid_blocks : list QueuedBlock) (s : CheckpointVerifier)
    : outcome (option bytes * list QueuedBlock * CheckpointVerifier) :=
  match heights with
  | [] => Ret (Some expected_hash, valid_blocks, s)
  | height :: heights =>
      x ← process_height height expected_hash s;
      match x.1 with
      | Some q => walk_back heights (qb_parent q) (q :: valid_blocks) x.2
      | None => Ret (None, valid_blocks, x.2)
      end
  end.

Definition requeue (m : gmap Z (list QueuedBlock)) (q : QueuedBlock) : gmap Z (list QueuedBlock) :=
  <[qb_height q := default [] (m !! qb_height q) ++ [q]]> m.

(** A height has no block of the chain: the blocks above it go back to the queue. *)
Definition chain_incomplete (target_height : Z) (valid_blocks : list QueuedBlock) (s s' : CheckpointVerifier)
    : outcome CheckpointVerifier :=
  let s' := with_queued s' (foldl requeue s'.(queued) valid_blocks) in
  _ ← assert_ (bool_decide (s'.(verifier_progress) = s.(verifier_progress)));
  current_target ← target_checkpoint_height s';
  _ ← assert_ (bool_decide (current_target = WaitingForBlocks ∨ target_cmp current_target (Checkpoint target_height) = Some Lt));
  Ret s'.

(** All heights have one: their requests are answered. *)
Definition chain_complete (target_height : Z) (valid_blocks : list QueuedBlock) (s s' : CheckpointVerifier)
    : outcome CheckpointVerifier :=
  let s' := answer s' (map (λ q, (q.(qb_tx), inr (qb_hash q))) valid_blocks) in
  s' ← update_progress target_height s';
  let new_progress := s'.(verifier_progress) in
  _ ← assert_ (bool_decide (progress_cmp new_progress s.(verifier_progress) = Gt));
  max ← max_height s.(checkpoint_list);
  _ ← (if decide (new_progress = FinalCheckpoint)
       then assert_ (target_height =? max)
       else assert_ (bool_decide (new_progress = PreviousCheckpoint target_height)));
  new_target ← target_checkpoint_height s';
  _ ← assert_ (bool_decide (new_target = WaitingForBlocks ∨ new_target = FinishedVerifying));
  Ret s'.

Definition process_range (previous_checkpoint_hash : bytes) (s : CheckpointVerifier) : outcome CheckpointVerifier :=
  target ← target_checkpoint_height s;
  match target with
  | WaitingForBlocks => Ret s
  | FinishedVerifying => Panic
  | Checkpoint target_height =>
      expected_hash ← unwrap (s.(checkpoint_list) !! target_height);
      start ← unwrap (current_start_bound s);
      range_heights ← range start (Included target_height) s.(queued);
      x ← walk_back (rev range_heights) expected_hash [] s;
      match x with
      | (None, valid_blocks, s') => chain_incomplete target_height valid_blocks s s'
      | (Some expected_hash, valid_blocks, s') =>
          _ ← assert_ (bool_decide (expected_hash = previous_checkpoint_hash));
          chain_complete target_height valid_blocks s s'
      end
  end.

Definition process_checkpoint_range (s : CheckpointVerifier) : outcome CheckpointVerifier :=
  previous ← previous_checkpoint_hash s;
  match previous with
  | BeforeGenesis => process_range GENESIS_PREVIOUS_BLOCK_HASH s
  | InitialTip hash | PreviousCheckpoint hash => process_range hash s
  | FinalCheckpoint => Ret s
  end.

Definition call (b : Block.t) (s : CheckpointVerifier)
    : outcome ((VerifyCheckpointError + SemanticallyVerifiedBlock * nat) * CheckpointVerifier) :=
  s ← (match s.(reset_receiver) with
       | tip :: rest => reset_progress tip (with_resets s rest)
       | [] => Ret s
       end);
  if decide (s.(verifier_progress) = FinalCheckpoint) then Ret (inl Finished, s)
  else
    x ← queue_block b s;
    match x with
    | (inl e, s) => Ret (inl e, s)
    | (inr req_block, s) => s ← process_checkpoint_range s; Ret (inr req_block, s)
    end.

(** After the answer to a request and the commit of its block: if either was an error,
    the verifier is told to go back to the tip of the state. *)
Definition commit_settled (ok : bool) (tip : option (Z * bytes)) (s : CheckpointVerifier) : CheckpointVerifier :=
  if ok then s else with_resets s (s.(reset_receiver) ++ [tip]).

(** [Drop::drop] *)
Definition drop_verifier (s : CheckpointVerifier) : list Answer :=
  concat (map (λ k, map (λ q, (q.(qb_tx), inl Dropped)) (default [] (s.(queued) !! k))) (keys s.(queued))).

(** ** The router *)

Inductive RouterError :=
| RouterCheckpoint (e : VerifyCheckpointError)
| RouterBlock (e : BlockError)
| ProposalBelowCheckpoint.

(** What a verifier has made of a block: a checkpoint block waits for the answer on
    its channel. *)
Inductive Routed :=
| ToCheckpoint (block : SemanticallyVerifiedBlock) (tx : nat)
| ToState (block : SemanticallyVerifiedBlock).

Definition mandatory_checkpoint_height : outcome Z :=
  canopy ← unwrap (activation_height Canopy n); unwrap (height_sub canopy 1).
Definition init_checkpoint_list (checkpoint_sync : bool) (l : CheckpointList) : outcome Z :=
  if checkpoint_sync then max_height l
  else
    mandatory ← mandatory_checkpoint_height;
    h ← min_height_in_range (Included mandatory) Unbounded l;
    unwrap h.

(** What the state asserts of a block of the block verifier
    ([StateService::assert_block_can_be_validated]). *)
Definition assert_block_can_be_validated (b : SemanticallyVerifiedBlock) : outcome unit :=
  mandatory ← mandatory_checkpoint_height; assert_ (mandatory <? b.(prepared_height)).

Context {S : TxServices}.
Definition router_call (max_checkpoint_height : Z) (is_proposal : bool) (b : Block.t) (s : CheckpointVerifier)
    : outcome ((RouterError + Routed) * CheckpointVerifier) :=
  if match Block.coinbase_height b with Some height => height <=? max_checkpoint_height | None => false end then
    if is_proposal then Ret (inl ProposalBelowCheckpoint, s)
    else
      x ← call b s;
      Ret (match x.1 with inl e => inl (RouterCheckpoint e) | inr (block, tx) => inr (ToCheckpoint block tx) end, x.2)
  else
    x ← verify_block n is_proposal b;
    Ret (match x with inl e => inl (RouterBlock e) | inr block => inr (ToState block) end, s).
End verifier.
