(* ===== verification/CheckpointInv.v ===== *)
(** * CheckpointInv: the checkpoint verifier accepts the chain of its checkpoints

    - the target of the verifier is the highest checkpoint to which the queue has a
      block at every height;
    - if the checkpoints lie on one chain, none of the assertions of the verifier
      fails, the blocks it accepts are those of that chain, in order and up to a
      checkpoint, and it rejects none of them as a side chain;
    - once the blocks of that chain are queued, they are accepted, whatever other
      blocks peers have sent. *)

From stdpp Require Import base list gmap sets sorting strings.
From S2P Require Import Prelude Wire Encoding Bft Roster Amount Staking Transparent Network Subsidy Transaction Delegation DelegationInv DelegationBlock BlockValue Spends Merkle TxVerifier Difficulty SubsidyInv Testnet TestnetInv BlockVerifier BlockVerifierInv Checkpoint.

(** ** Ordered maps *)

Lemma keys_elem {A} (m : gmap Z A) k : k ∈ keys m ↔ is_Some (m !! k).
Proof. unfold keys. by rewrite merge_sort_Permutation, elem_of_elements, elem_of_dom. Qed.
Lemma keys_nodup {A} (m : gmap Z A) : NoDup (keys m).
Proof. unfold keys. rewrite merge_sort_Permutation. apply NoDup_elements. Qed.
Lemma keys_sorted {A} (m : gmap Z A) : StronglySorted Z.lt (keys m).
Proof.
  pose proof (keys_nodup m) as Hnd. assert (StronglySorted Z.le (keys m)) as Hs by (apply (StronglySorted_merge_sort Z.le)).
  revert Hnd Hs. generalize (keys m). induction l as [|k l IH]; intros Hnd Hs; [constructor|].
  apply NoDup_cons in Hnd as [Hk Hnd]. apply StronglySorted_inv in Hs as [Hs Hall]. constructor; [by apply IH|].
  rewrite Forall_forall in *. intros k' Hk'. specialize (Hall k' Hk'). assert (k ≠ k') by (by intros <-). lia.
Qed.

Lemma filter_sorted (f : Z → bool) l : StronglySorted Z.lt l → StronglySorted Z.lt (List.filter f l).
Proof.
  induction 1 as [|k l Hs IH Hall]; cbn; [constructor|]. destruct (f k); [|done]. constructor; [done|].
  rewrite Forall_forall in *. intros k' Hk'. apply Hall. apply list_elem_of_In in Hk'. apply list_elem_of_In.
  by apply filter_In in Hk' as [? _].
Qed.
Lemma filter_elem (f : Z → bool) l k : k ∈ List.filter f l ↔ k ∈ l ∧ f k = true.
Proof. by rewrite !list_elem_of_In, filter_In. Qed.

Lemma last_max l k : StronglySorted Z.lt l → last l = Some k → k ∈ l ∧ ∀ k', k' ∈ l → k' ≤ k.
Proof.
  intros Hs (l' & ->)%last_Some. split; [set_solver|]. intros k' [Hk'| ->%list_elem_of_singleton]%elem_of_app; [|lia].
  apply StronglySorted_app_1_elem_of with (x1 := k') (x2 := k) in Hs; [lia|done|set_solver].
Qed.

(** Strictly sorted lists with the same elements are the same. *)
Lemma sorted_eq l1 l2 : StronglySorted Z.lt l1 → StronglySorted Z.lt l2 → (∀ k, k ∈ l1 ↔ k ∈ l2) → l1 = l2.
Proof.
  intros H1 H2 He.
  assert (∀ l, StronglySorted Z.lt l → NoDup l) as Hnd.
  { induction 1 as [|k l Hs IH Hall]; constructor; [|done]. intros Hk. rewrite Forall_forall in Hall. specialize (Hall k Hk). lia. }
  assert (∀ l, StronglySorted Z.lt l → StronglySorted Z.le l) as Hle.
  { induction 1 as [|k l Hs IH Hall]; constructor; [done|]. eapply Forall_impl; [exact Hall|]. intros. cbn in *. lia. }
  apply (StronglySorted_unique Z.le); [by apply Hle..|]. apply NoDup_Permutation; [by apply Hnd..|done].
Qed.

Lemma range_spec {A} lo hi (m : gmap Z A) : range_ok lo hi = true →
  ∃ ks, range lo hi m = Ret ks ∧ StronglySorted Z.lt ks ∧
    ∀ k, k ∈ ks ↔ is_Some (m !! k) ∧ above lo k = true ∧ below hi k = true.
Proof.
  intros Hok. unfold range. rewrite Hok. eexists. split; [reflexivity|]. split; [apply filter_sorted, keys_sorted|].
  intros k. by rewrite filter_elem, keys_elem, andb_true_iff.
Qed.

Lemma max_in_range lo hi l : range_ok lo hi = true →
  ∃ o, max_height_in_range lo hi l = Ret o ∧
    match o with
    | Some h => is_Some (l !! h) ∧ above lo h = true ∧ below hi h = true ∧
                ∀ k, is_Some (l !! k) → above lo k = true → below hi k = true → k ≤ h
    | None => ∀ k, is_Some (l !! k) → above lo k = true → below hi k = true → False
    end.
Proof.
  intros Hok. unfold max_height_in_range. destruct (range_spec lo hi l Hok) as (ks & -> & Hs & Hk).
  cbn. eexists. split; [reflexivity|]. destruct (last ks) as [h|] eqn:E.
  - apply last_max in E as [Hin Hmax]; [|done]. apply Hk in Hin as (? & ? & ?). split_and!; try done.
    intros k ? ? ?. apply Hmax, Hk. done.
  - apply last_None in E as ->. intros k ? ? ?. by apply (not_elem_of_nil k), Hk.
Qed.

(** ** Checkpoint lists *)

Record list_ok (l : CheckpointList) (max : Z) : Prop := {
  lo_genesis : is_Some (l !! 0);
  lo_max : is_Some (l !! max);
  lo_heights : ∀ k, is_Some (l !! k) → 0 ≤ k ≤ max;
  lo_bound : max ≤ HEIGHT_MAX }.

Lemma max_height_ok l max : list_ok l max → max_height l = Ret max.
Proof.
  intros [Hg Hm Hh _]. unfold max_height. destruct (max_in_range Unbounded Unbounded l) as ([h|] & -> & Ho); [done| |].
  - cbn. f_equal. destruct Ho as (Hs & _ & _ & Hle). apply Z.le_antisymm; [by apply Hh|by apply Hle].
  - exfalso. by apply (Ho 0).
Qed.

Lemma index_ok l max h : list_ok l max → 0 ≤ h → ∃ i, prev_checkpoint_index l h = Ret i.
Proof.
  intros [Hg _ _ _] Hh. unfold prev_checkpoint_index.
  assert (0 ∈ List.filter (λ k, k <=? h) (keys l)) as Hin by (apply filter_elem; rewrite keys_elem; split; [done|lia]).
  destruct (List.filter _ _) as [|k ks]; [by apply not_elem_of_nil in Hin|]. by eexists.
Qed.

Lemma foldl_insert_dom (l : list (Z * bytes)) : ∀ (m : gmap Z bytes) k,
  is_Some (foldl (λ (m : gmap Z bytes) x, <[x.1 := x.2]> m) m l !! k) ↔ is_Some (m !! k) ∨ k ∈ map fst l.
Proof.
  induction l as [|[k' x] l IH]; intros m k; cbn; [set_solver|]. rewrite IH, lookup_insert_is_Some', elem_of_cons.
  naive_solver.
Qed.

Lemma set_size_le (l : list bytes) : (size (list_to_set l : gset bytes) ≤ length l)%nat.
Proof.
  induction l as [|y l IH]; [done|]. cbn. rewrite size_union_alt, size_singleton.
  pose proof (subseteq_size (list_to_set l ∖ {[y]} : gset bytes) (list_to_set l)) as H. specialize (H ltac:(set_solver)). lia.
Qed.
Lemma set_size_nodup (l : list bytes) : size (list_to_set l : gset bytes) = length l → NoDup l.
Proof.
  induction l as [|y l IH]; intros Hsz; [constructor|]. cbn in Hsz. pose proof (set_size_le l) as Hle.
  destruct (decide (y ∈ l)) as [Hy|Hy].
  - rewrite (subseteq_union_1_L {[y]}) in Hsz by (apply singleton_subseteq_l; by apply elem_of_list_to_set). lia.
  - rewrite size_union, size_singleton in Hsz by (apply disjoint_singleton_l; by rewrite elem_of_list_to_set).
    constructor; [done|]. apply IH. lia.
Qed.

(** What a list of checkpoints that is accepted has. *)
Theorem from_list_ok original l : from_list original = Ret (inr l) →
  ∃ max, list_ok l max ∧ (∀ h x, l !! h = Some x → x ≠ zeros 32) ∧
    (∀ h h' x, l !! h = Some x → l !! h' = Some x → h = h') ∧ (∀ h, is_Some (l !! h) ↔ h ∈ map fst original).
Proof.
  unfold from_list. set (m := foldl _ _ _). intros H.
  apply Fallible_bind_inv in H as ([] & Hg & H). apply Fallible_bind_inv in H as (_ & Hsz%ensure_inv%bool_decide_eq_true & H).
  apply Fallible_bind_inv in H as (_ & Hnd%ensure_inv%bool_decide_eq_true & H).
  apply Fallible_bind_inv in H as (_ & Hz%ensure_inv%bool_decide_eq_true & H).
  apply Fallible_bind_inv in H as (max & Hmax%run_inv & H). apply Fallible_bind_inv in H as (_ & Hm%ensure_inv & [= <-]).
  pose proof (keys_sorted m) as Hs. destruct (keys m) as [|k ks] eqn:Ek; [done|]. cbn in Hg. apply ensure_inv, Z.eqb_eq in Hg as ->.
  assert (∀ k, is_Some (m !! k) → 0 ≤ k) as Hpos.
  { intros k Hk%keys_elem. rewrite Ek in Hk. apply StronglySorted_inv in Hs as [_ Hall]. rewrite Forall_forall in Hall.
    apply elem_of_cons in Hk as [->|Hk]; [lia|]. specialize (Hall k Hk). lia. }
  unfold max_height in Hmax. destruct (max_in_range Unbounded Unbounded m) as ([h|] & E & Ho); [done| |]; rewrite E in Hmax; [|done].
  injection Hmax as <-. destruct Ho as (Hh & _ & _ & Hle). exists h. split_and!.
  - split; [apply keys_elem; rewrite Ek; set_solver|done| |lia]. intros k Hk. split; [by apply Hpos|by apply Hle].
  - intros h' x Hx ->. apply Hz, elem_of_list_to_set. apply list_elem_of_In, in_map_iff. exists (h', zeros 32).
    split; [done|]. by apply list_elem_of_In, elem_of_map_to_list.
  - intros h1 h2 x H1 H2. rewrite <- Hsz in Hnd.
    assert (NoDup (map snd (map_to_list m))) as Hn.
    { apply set_size_nodup. by rewrite length_map, length_map_to_list. }
    apply elem_of_map_to_list, list_elem_of_lookup in H1 as [i1 H1], H2 as [i2 H2].
    assert (i1 = i2) as ->; [|congruence].
    eapply (NoDup_lookup _ i1 i2 x Hn); rewrite list_lookup_fmap; [by rewrite H1|by rewrite H2].
  - intros k. unfold m. rewrite foldl_insert_dom, lookup_empty. split; [intros [[? ?]|?]; done|by right].
Qed.

(** ** The target *)

Section verifier.
Context {P : Profile} `{Uint} {B : BlockServices} (n : Network).

(** The height up to which blocks are verified. *)
Definition verified_height (s : CheckpointVerifier) : option Z :=
  match s.(verifier_progress) with
  | BeforeGenesis => Some (-1)
  | InitialTip h | PreviousCheckpoint h => Some h
  | FinalCheckpoint => None
  end.
(** The queue has a block at every height from there to [c]. *)
Definition complete (s : CheckpointVerifier) (p c : Z) : Prop := ∀ k, p < k ≤ c → is_Some (s.(queued) !! k).

(** What does not depend on the chain of the checkpoints. *)
Record heights_ok (s : CheckpointVerifier) (max : Z) : Prop := {
  ho_list : list_ok s.(checkpoint_list) max;
  ho_queue : ∀ k, is_Some (s.(queued) !! k) → 0 ≤ k ≤ max;
  ho_progress : ∀ p, verified_height s = Some p → -1 ≤ p < max ∧ (s.(verifier_progress) ≠ BeforeGenesis → 0 ≤ p) }.

Lemma continuous_spec bound hs : ∀ p,
  StronglySorted Z.lt hs → (∀ k, k ∈ hs → p < k ≤ bound) → 0 ≤ p → bound < 2 ^ 32 - 1 →
  ∃ r, continuous p hs = Ret r ∧ p ≤ r ∧ (∀ k, p < k ≤ r → k ∈ hs) ∧ r + 1 ∉ hs.
Proof.
  induction hs as [|h hs IH]; intros p Hs Hb Hp Hbound; cbn [continuous].
  { exists p. split; [done|]. split; [lia|]. split; [lia|]. apply not_elem_of_nil. }
  pose proof (Hb h ltac:(set_solver)) as Hh. rewrite arith_ok by (unfold is_u; lia). cbn [mbind outcome_bind].
  apply StronglySorted_inv in Hs as [Hs Hall]. rewrite Forall_forall in Hall.
  destruct (Z.eqb_spec h (p + 1)) as [->|Hne].
  - destruct (IH (p + 1) Hs) as (r & -> & Hr & Hin & Hn); [|lia|lia|].
    { intros k Hk. specialize (Hall k Hk). specialize (Hb k ltac:(set_solver)). lia. }
    exists r. split; [done|]. split; [lia|]. split.
    + intros k Hk. destruct (decide (k = p + 1)) as [->|]; [set_solver|]. apply elem_of_cons. right. apply Hin. lia.
    + intros [?|?]%elem_of_cons; [lia|done].
  - exists p. split; [done|]. split; [lia|]. split; [lia|]. intros [?|Hk]%elem_of_cons; [lia|]. specialize (Hall _ Hk). lia.
Qed.

(** The target is the highest checkpoint to which the queue is complete. *)
Definition is_target (s : CheckpointVerifier) (p : Z) (t : TargetHeight) : Prop :=
  match t with
  | Checkpoint c => is_Some (s.(checkpoint_list) !! c) ∧ p < c ∧ complete s p c ∧
      ∀ c', is_Some (s.(checkpoint_list) !! c') → c < c' → ¬ complete s p c'
  | WaitingForBlocks => ∀ c', is_Some (s.(checkpoint_list) !! c') → p < c' → ¬ complete s p c'
  | FinishedVerifying => False
  end.

Lemma search_spec s max p start lo :
  heights_ok s max → 0 ≤ start → p ≤ start → complete s p start → (∀ k, 0 ≤ k → above lo k = true ↔ p < k) →
  (∀ r, start ≤ r → range_ok lo (Included r) = true) →
  ∃ r o, (hs ← range (Excluded start) Unbounded s.(queued); continuous start hs) = Ret r ∧
    max_height_in_range lo (Included r) s.(checkpoint_list) = Ret o ∧
    is_target s p (match o with Some h => Checkpoint h | None => WaitingForBlocks end).
Proof.
  intros [Hl Hq _] Hst Hps Hc Habove Hrange. pose proof (lo_bound _ _ Hl) as Hmax. unfold HEIGHT_MAX in Hmax.
  destruct (range_spec (Excluded start) Unbounded s.(queued)) as (hs & -> & Hs & Hin); [done|].
  cbn [mbind outcome_bind]. destruct (continuous_spec max hs start Hs) as (r & Er & Hr & Hrin & Hrn); [|done|lia|].
  { intros k (Hk & Ha & _)%Hin. cbn in Ha. specialize (Hq k Hk). lia. }
  destruct (max_in_range lo (Included r) s.(checkpoint_list) (Hrange r Hr)) as (o & Eo & Ho).
  exists r, o. split; [done|]. split; [done|].
  assert (complete s p r) as Hcr.
  { intros k Hk. destruct (decide (k ≤ start)); [apply Hc; lia|]. apply Hin, Hrin. lia. }
  assert (∀ c', complete s p c' → p < c' → c' ≤ r) as Hnr.
  { intros c' Hc' Hpc. destruct (decide (c' ≤ r)); [done|]. exfalso. apply Hrn, Hin. split; [apply Hc'; lia|]. cbn. lia. }
  destruct o as [h|]; cbn.
  - destruct Ho as (Hh & Ha & Hb & Hle). cbn in Hb. pose proof (lo_heights _ _ Hl h Hh) as Hh0.
    apply Habove in Ha; [|lia]. split; [done|]. split; [done|]. split; [intros k Hk; apply Hcr; lia|].
    intros c' Hc' Hlt Hcomp. specialize (Hnr c' Hcomp ltac:(lia)). specialize (Hle c' Hc'). cbn in Hle.
    assert (c' ≤ h); [|lia]. apply Hle; [apply Habove; lia|lia].
  - intros c' Hc' Hlt Hcomp. specialize (Hnr c' Hcomp Hlt). pose proof (lo_heights _ _ Hl c' Hc').
    apply (Ho c' Hc'); [apply Habove; lia|cbn; lia].
Qed.

Lemma target_spec s max p : heights_ok s max → verified_height s = Some p →
  ∃ t, target_checkpoint_height s = Ret t ∧ is_target s p t.
Proof.
  intros Hok Hv. pose proof Hok as [Hl _ Hpr]. destruct (Hpr p Hv) as [Hp Hp0].
  assert (∀ start lo, current_start_bound s = Some lo → (∃ r o,
            (hs ← range (Excluded start) Unbounded s.(queued); continuous start hs) = Ret r ∧
            max_height_in_range lo (Included r) s.(checkpoint_list) = Ret o ∧
            is_target s p (match o with Some h => Checkpoint h | None => WaitingForBlocks end)) →
          ∃ t, (heights ← range (Excluded start) Unbounded s.(queued);
                pending_height ← continuous start heights;
                start ← unwrap (current_start_bound s);
                target_checkpoint ← max_height_in_range start (Included pending_height) s.(checkpoint_list);
                Ret (match target_checkpoint with Some h => Checkpoint h | None => WaitingForBlocks end)) = Ret t ∧
            is_target s p t) as Hsearch.
  { intros start lo Hlo (r & o & (hs & -> & Er)%bind_Ret_inv & Eo & Ht). cbn [mbind outcome_bind]. rewrite Er.
    cbn [mbind outcome_bind]. rewrite Hlo. cbn [unwrap mbind outcome_bind]. rewrite Eo. by eexists. }
  unfold target_checkpoint_height, verified_height in *. unfold current_start_bound in Hsearch at 1.
  destruct (verifier_progress s) as [|h|h|] eqn:Epr; [|injection Hv as ->..|done].
  - injection Hv as <-. case_decide as Hd.
    { eexists. split; [reflexivity|]. intros c' Hc' _ Hcomp. apply (is_Some_None (A := list QueuedBlock)). rewrite <- Hd.
      pose proof (lo_heights _ _ Hl c' Hc'). apply Hcomp. lia. }
    apply (Hsearch 0 Unbounded); [done|]. apply (search_spec _ max); try done; [|cbn; lia].
    intros k Hk. assert (k = 0) as -> by lia. destruct (queued s !! 0) eqn:E; [by eexists|done].
  - apply (Hsearch p (Excluded p)); [done|]. apply (search_spec _ max); try done; [by apply Hp0|intros k Hk; lia|cbn; lia|cbn; lia].
  - apply (Hsearch p (Excluded p)); [done|]. apply (search_spec _ max); try done; [by apply Hp0|intros k Hk; lia|cbn; lia|cbn; lia].
Qed.

(** ** The chain of the checkpoints *)

Context (chain : Z → Block.t).
Definition prev_of (b : Block.t) : bytes := b.(Block.header).(BlockHeader.prev_block).
Definition chain_hash (h : Z) : bytes := block_hash (chain h).
Definition expected_at (h : Z) : bytes := if decide (h < 0) then GENESIS_PREVIOUS_BLOCK_HASH else chain_hash h.

(** The checkpoints lie on a chain, and a hash determines the parent of its block. *)
Record genuine (l : CheckpointList) (max : Z) : Prop := {
  ge_list : ∀ h x, l !! h = Some x → chain_hash h = x;
  ge_link : ∀ h, 0 ≤ h ≤ max → prev_of (chain h) = expected_at (h - 1);
  ge_bind : ∀ b h, 0 ≤ h ≤ max → block_hash b = chain_hash h → prev_of b = prev_of (chain h) }.

Definition entry_ok (k : Z) (l : list QueuedBlock) : Prop :=
  l ≠ [] ∧ NoDup (map qb_hash l) ∧ (length l ≤ MAX_QUEUED_BLOCKS_PER_HEIGHT)%nat ∧
  ∀ q, q ∈ l → qb_height q = k ∧ block_hash q.(qb_block).(prepared_block) = qb_hash q.
Definition queue_ok (m : gmap Z (list QueuedBlock)) : Prop := ∀ k l, m !! k = Some l → entry_ok k l.
Definition in_queue (m : gmap Z (list QueuedBlock)) (k : Z) (q : QueuedBlock) : Prop := ∃ l, m !! k = Some l ∧ q ∈ l.

(** A block that is rejected is not one of the chain. *)
Definition side_chain (m : gmap Z (list QueuedBlock)) (a : Answer) : Prop :=
  ∃ k q, in_queue m k q ∧ qb_hash q ≠ chain_hash k ∧ a = (q.(qb_tx), inl (UnexpectedSideChain (chain_hash k) (qb_hash q))).
(** Blocks of the chain, at the heights from [p + 1] to [c]. *)
Definition on_chain (m : gmap Z (list QueuedBlock)) (p c : Z) (l : list QueuedBlock) : Prop :=
  Forall2 (λ k q, in_queue m k q ∧ qb_hash q = chain_hash k) (seqZ (p + 1) (c - p)) l.

Lemma pick_valid_spec e l : ∀ v,
  NoDup (map qb_hash l) → (is_Some v → ∀ q, q ∈ l → qb_hash q ≠ e) →
  pick_valid e l v =
    Ret (match v with Some q => Some q | None => head (base.filter (λ q, qb_hash q = e) l) end,
         map (λ q, (q.(qb_tx), inl (UnexpectedSideChain e (qb_hash q)))) (base.filter (λ q, qb_hash q ≠ e) l)).
Proof.
  induction l as [|q l IH]; intros v Hnd Hv; cbn [pick_valid]; [by destruct v|]. cbn in Hnd. apply NoDup_cons in Hnd as [Hq Hnd].
  destruct (decide (qb_hash q = e)) as [He|He].
  - destruct v as [q'|]; [by destruct (Hv ltac:(by eexists) q); [set_solver|]|].
    rewrite (filter_cons_True (λ q, qb_hash q = e)), (filter_cons_False (λ q, qb_hash q ≠ e)) by (rewrite ?He; naive_solver).
    rewrite IH; [done|done|]. intros _ q' Hq' He'. apply Hq. rewrite He, <- He'. by apply (list_elem_of_fmap_2 qb_hash).
  - rewrite (filter_cons_False (λ q, qb_hash q = e)), (filter_cons_True (λ q, qb_hash q ≠ e)) by done.
    rewrite IH; [done|done|]. intros Hs q' Hq'. apply Hv; [done|set_solver].
Qed.

Lemma process_height_spec k l s :
  s.(queued) !! k = Some l → entry_ok k l → (∀ x, s.(checkpoint_list) !! k = Some x → chain_hash k = x) →
  ∃ v rej, process_height k (chain_hash k) s = Ret (v, answer (with_queued s (delete k s.(queued))) rej) ∧
    Forall (side_chain s.(queued)) rej ∧
    match v with
    | Some q => in_queue s.(queued) k q ∧ qb_hash q = chain_hash k
    | None => ∀ q, in_queue s.(queued) k q → qb_hash q ≠ chain_hash k
    end.
Proof.
  intros El (Hne & Hnd & _ & _) Hcp. unfold process_height. rewrite El. cbn [unwrap mbind outcome_bind].
  rewrite bool_decide_eq_true_2 by done. cbn [assert_ mbind outcome_bind with_queued checkpoint_list].
  assert ((match checkpoint_list s !! k with
           | Some checkpoint_hash => assert_ (bool_decide (chain_hash k = checkpoint_hash))
           | None => Ret () end) = Ret ()) as ->.
  { destruct (checkpoint_list s !! k) as [x|] eqn:E; [|done]. by rewrite bool_decide_eq_true_2 by by apply Hcp. }
  cbn [mbind outcome_bind]. rewrite pick_valid_spec; [|done|by intros [? ?]]. cbn [mbind outcome_bind fst snd].
  eexists _, _. split; [reflexivity|]. split.
  - apply Forall_forall. intros a (q & -> & [Hq Hin]%list_elem_of_filter)%list_elem_of_fmap. exists k, q.
    split; [by exists l|done].
  - destruct (head _) as [q|] eqn:E.
    + apply head_Some_elem_of, list_elem_of_filter in E as [Hq Hin]. split; [by exists l|done].
    + intros q (l' & El' & Hin) Hq. rewrite El in El'. injection El' as <-. apply head_None in E.
      apply (not_elem_of_nil q). rewrite <- E. by apply list_elem_of_filter.
Qed.

Lemma in_queue_mono (m m' : gmap Z (list QueuedBlock)) k q : m' ⊆ m → in_queue m' k q → in_queue m k q.
Proof. intros Hs (l & Hl & Hq). exists l. split; [by eapply lookup_weaken|done]. Qed.
Lemma side_chain_mono (m m' : gmap Z (list QueuedBlock)) l : m' ⊆ m → Forall (side_chain m') l → Forall (side_chain m) l.
Proof.
  intros Hs Hl. eapply Forall_impl; [exact Hl|]. intros a (k & q & Hq & Ha). exists k, q. split; [by eapply in_queue_mono|done].
Qed.

(** The blocks of a range are taken out of the queue, downwards, to its start or to a
    height without a block of the chain. *)
Definition without (m m' : gmap Z (list QueuedBlock)) (a c : Z) : Prop :=
  ∀ k, m' !! k = if decide (a < k ≤ c) then None else m !! k.
Lemma walk_back_spec max i : ∀ p c valid s,
  c = p + Z.of_nat i → -1 ≤ p → c ≤ max → queue_ok s.(queued) → complete s p c → genuine s.(checkpoint_list) max →
  ∃ r new m rej, walk_back (rev (seqZ (p + 1) (Z.of_nat i))) (expected_at c) valid s =
      Ret (r, new ++ valid, answer (with_queued s m) rej) ∧ Forall (side_chain s.(queued)) rej ∧
    match r with
    | Some e => e = expected_at p ∧ on_chain s.(queued) p c new ∧ without s.(queued) m p c
    | None => ∃ k, p < k ≤ c ∧ on_chain s.(queued) k c new ∧ without s.(queued) m (k - 1) c ∧
                (∀ q, in_queue s.(queued) k q → qb_hash q ≠ chain_hash k)
    end.
Proof.
  induction i as [|i IH]; intros p c valid s Hc Hp Hmax Hq Hcomp Hg.
  { assert (c = p) as -> by lia. exists (Some (expected_at p)), [], s.(queued), []. cbn. split.
    - unfold answer, with_queued. cbn. rewrite app_nil_r. by destruct s.
    - split; [constructor|]. split; [done|]. split; [unfold on_chain; rewrite Z.sub_diag; constructor|].
      intros k. rewrite decide_False by lia. done. }
  rewrite seqZ_S, rev_app_distr. cbn [rev app walk_back]. replace (p + 1 + Z.of_nat i) with c by lia.
  destruct (Hcomp c ltac:(lia)) as [l El]. unfold expected_at at 1. rewrite decide_False by lia.
  destruct (process_height_spec c l s El (Hq c l El) (λ x Hx, ge_list _ _ Hg c x Hx)) as (v & rej1 & -> & Hrej1 & Hv).
  cbn [mbind outcome_bind fst snd]. destruct v as [q|].
  2: { exists None, [], (delete c s.(queued)), rej1. split; [done|]. split; [done|]. exists c. split; [lia|].
       split; [unfold on_chain; rewrite Z.sub_diag; constructor|]. split; [|done]. intros k.
       destruct (decide (k = c)) as [->|Hne]; [rewrite decide_True by lia; apply lookup_delete_eq|].
       rewrite decide_False by lia. by rewrite lookup_delete_ne. }
  destruct Hv as [Hin Hhash]. set (s1 := answer _ rej1).
  assert (s1.(queued) ⊆ s.(queued)) as Hsub by apply delete_subseteq.
  assert (qb_parent q = expected_at (c - 1)) as ->.
  { destruct Hin as (l' & El' & Hin). destruct (Hq c l' El') as (_ & _ & _ & Hb). destruct (Hb q Hin) as [_ Hbh].
    rewrite <- (ge_link _ _ Hg) by lia. apply (ge_bind _ _ Hg); [lia|]. by rewrite Hbh. }
  destruct (IH p (c - 1) (q :: valid) s1) as (r & new & m & rej2 & -> & Hrej2 & Hr); [lia|done|lia| | |done|].
  { intros k l' Hk. apply Hq. by eapply lookup_weaken. }
  { intros k Hk. cbn. rewrite lookup_delete_ne by lia. apply Hcomp. lia. }
  assert (∀ a, a < c → without s1.(queued) m a (c - 1) → without s.(queued) m a c) as Hwo.
  { intros a Ha Hw k. rewrite Hw. cbn. destruct (decide (k = c)) as [->|Hne].
    - rewrite decide_False, decide_True by lia. apply lookup_delete_eq.
    - rewrite lookup_delete_ne by done. destruct (decide (a < k ≤ c - 1)); [by rewrite decide_True by lia|by rewrite decide_False by lia]. }
  assert (∀ a, p ≤ a < c → on_chain s1.(queued) a (c - 1) new → on_chain s.(queued) a c (new ++ [q])) as Hoc.
  { intros a Ha Hon. unfold on_chain in *. replace (c - a) with (Z.of_nat (S (Z.to_nat (c - 1 - a)))) by lia. rewrite seqZ_S.
    apply Forall2_app.
    - replace (Z.of_nat (Z.to_nat (c - 1 - a))) with (c - 1 - a) by lia. eapply Forall2_impl; [exact Hon|].
      intros k q' [Hk ?]. split; [by eapply in_queue_mono|done].
    - replace (a + 1 + Z.of_nat (Z.to_nat (c - 1 - a))) with c by lia. by repeat constructor. }
  exists r, (new ++ [q]), m, (rej1 ++ rej2). split.
  { rewrite <- app_assoc. cbn [app]. do 2 f_equal. unfold answer, with_queued. cbn. by rewrite app_assoc. }
  split; [apply Forall_app; split; [done|by eapply side_chain_mono]|]. destruct r as [e|].
  - destruct Hr as (? & ? & ?). split; [done|]. split; [apply Hoc; [lia|done]|apply Hwo; [lia|done]].
  - destruct Hr as (k & Hk & Hon & Hw & Hno). exists k. split; [lia|]. split; [apply Hoc; [lia|done]|].
    split; [apply Hwo; [lia|done]|]. intros q' (l' & El' & Hin'). apply Hno. exists l'. split; [|done]. cbn.
    by rewrite lookup_delete_ne by lia.
Qed.

Lemma seqZ_sorted i : ∀ a, StronglySorted Z.lt (seqZ a (Z.of_nat i)).
Proof.
  induction i as [|i IH]; intros a; [constructor|]. rewrite seqZ_cons by lia. replace (Z.pred (Z.of_nat (S i))) with (Z.of_nat i) by lia.
  constructor; [apply IH|]. apply Forall_forall. intros k Hk%elem_of_seqZ. lia.
Qed.

Lemma range_complete s max p c : heights_ok s max → verified_height s = Some p → p < c → complete s p c →
  ∃ lo, current_start_bound s = Some lo ∧ range lo (Included c) s.(queued) = Ret (seqZ (p + 1) (c - p)).
Proof.
  intros [Hl Hq Hpr] Hv Hc Hcomp. destruct (Hpr p Hv) as [Hp Hp0].
  assert (∃ lo, current_start_bound s = Some lo ∧ range_ok lo (Included c) = true ∧ ∀ k, 0 ≤ k → above lo k = true ↔ p < k)
    as (lo & Hlo & Hok & Habove).
  { unfold verified_height, current_start_bound in *. destruct (verifier_progress s); [|injection Hv as ->..|done].
    - injection Hv as <-. exists Unbounded. split; [done|]. split; [done|]. intros k Hk. cbn. lia.
    - exists (Excluded p). split; [done|]. split; [cbn; lia|]. intros k Hk. cbn. lia.
    - exists (Excluded p). split; [done|]. split; [cbn; lia|]. intros k Hk. cbn. lia. }
  exists lo. split; [done|]. destruct (range_spec lo (Included c) s.(queued) Hok) as (ks & -> & Hs & Hks). f_equal.
  replace (c - p) with (Z.of_nat (Z.to_nat (c - p))) by lia. apply sorted_eq; [done|apply seqZ_sorted|].
  intros k. rewrite Hks, elem_of_seqZ. split.
  - intros (Hk & Ha & Hb). apply Habove in Ha; [|by apply Hq]. cbn in Hb. lia.
  - intros Hk. assert (is_Some (s.(queued) !! k)) as Hs' by (apply Hcomp; lia). split; [done|].
    split; [apply Habove; [by apply Hq|lia]|cbn; lia].
Qed.

(** ** Requests *)

Definition tip_ok (max : Z) (tip : option (Z * bytes)) : Prop :=
  match tip with Some (h, x) => 0 ≤ h ∧ (h < max → x = chain_hash h) | None => True end.
Record verifier_ok (s : CheckpointVerifier) (max : Z) : Prop := {
  vk_heights : heights_ok s max;
  vk_genuine : genuine s.(checkpoint_list) max;
  vk_queue : queue_ok s.(queued);
  vk_tip : ∀ h, s.(verifier_progress) = InitialTip h → s.(initial_tip_hash) = Some (chain_hash h);
  vk_prev : ∀ h, s.(verifier_progress) = PreviousCheckpoint h → is_Some (s.(checkpoint_list) !! h);
  vk_resets : Forall (tip_ok max) s.(reset_receiver) }.

Lemma previous_hash_ok s max p : verifier_ok s max → verified_height s = Some p →
  ∃ prev, previous_checkpoint_hash s = Ret prev ∧
    match prev with
    | BeforeGenesis => GENESIS_PREVIOUS_BLOCK_HASH = expected_at p
    | InitialTip x | PreviousCheckpoint x => x = expected_at p
    | FinalCheckpoint => False
    end.
Proof.
  intros [[Hl Hq Hpr] Hg _ Ht Hprev _] Hv. destruct (Hpr p Hv) as [_ Hp0].
  unfold previous_checkpoint_hash, verified_height in *. destruct (verifier_progress s) as [|h|h|]; [|injection Hv as ->..|done].
  - injection Hv as <-. by eexists.
  - rewrite (Ht p eq_refl). eexists. split; [reflexivity|]. cbn. unfold expected_at. by rewrite decide_False by (specialize (Hp0 ltac:(done)); lia).
  - destruct (Hprev p eq_refl) as [x Hx]. rewrite Hx. eexists. split; [reflexivity|]. cbn. unfold expected_at.
    rewrite decide_False by (specialize (Hp0 ltac:(done)); lia). by rewrite (ge_list _ _ Hg p x Hx).
Qed.

Definition progress_at (c max : Z) : Progress Z := if decide (c = max) then FinalCheckpoint else PreviousCheckpoint c.

Lemma update_progress_ok s max p c :
  heights_ok s max → verified_height s = Some p → p < c → is_Some (s.(checkpoint_list) !! c) →
  ∃ tip, update_progress c s = Ret (with_progress s tip (progress_at c max)).
Proof.
  intros [Hl _ _] Hv Hc Hcp. pose proof (lo_heights _ _ Hl c Hcp) as Hcm. unfold update_progress, check_height.
  rewrite (max_height_ok _ _ Hl). cbn [run mbind outcome_bind Fallible_bind mret Fallible_ret].
  rewrite (proj2 (Z.leb_le c max)) by lia. cbn [ensure mbind Fallible_bind mret Fallible_ret].
  assert ((match verifier_progress s with
           | BeforeGenesis => mret ()
           | InitialTip previous_height | PreviousCheckpoint previous_height =>
               ensure (previous_height <? c) (AlreadyVerified c previous_height)
           | FinalCheckpoint => fail Finished
           end) = Ret (inr ())) as ->.
  { unfold verified_height in Hv. destruct (verifier_progress s); [done|injection Hv as ->..|done];
      by rewrite (proj2 (Z.ltb_lt p c)) by lia. }
  cbn [mbind outcome_bind]. unfold progress_at. destruct (index_ok _ _ c Hl) as [i Hi]; [lia|].
  destruct (Z.eqb_spec c max) as [->|Hne].
  - rewrite decide_True by done. cbn. rewrite Hi. by eexists.
  - rewrite decide_False by done. unfold contains. rewrite bool_decide_eq_true_2 by done. cbn. rewrite Hi. by eexists.
Qed.

Lemma requeue_spec l : ∀ m,
  NoDup (map qb_height l) → (∀ q, q ∈ l → m !! qb_height q = None) →
  (∀ q, q ∈ l → foldl requeue m l !! qb_height q = Some [q]) ∧
  (∀ k, k ∉ map qb_height l → foldl requeue m l !! k = m !! k).
Proof.
  induction l as [|q l IH]; intros m Hnd Hn; cbn; [split; [set_solver|done]|]. cbn in Hnd. apply NoDup_cons in Hnd as [Hq Hnd].
  assert (requeue m q = <[qb_height q := [q]]> m) as -> by (unfold requeue; by rewrite Hn by set_solver).
  destruct (IH (<[qb_height q := [q]]> m) Hnd) as [IH1 IH2].
  { intros q' Hq'. rewrite lookup_insert_ne; [apply Hn; set_solver|]. intros E. apply Hq. rewrite E.
    by apply (list_elem_of_fmap_2 qb_height). }
  split.
  - intros q' [->|Hq']%elem_of_cons; [|by apply IH1]. rewrite IH2 by done. apply lookup_insert_eq.
  - intros k [Hk Hk']%not_elem_of_cons. rewrite IH2 by done. by rewrite lookup_insert_ne.
Qed.

Lemma on_chain_heights m p c l : queue_ok m → on_chain m p c l → map qb_height l = seqZ (p + 1) (c - p).
Proof.
  intros Hq Hl. unfold on_chain in Hl. induction Hl as [|k q ks qs [(l & El & Hin) _] _ IH]; [done|]. cbn. rewrite IH.
  destruct (Hq k l El) as (_ & _ & _ & Hb). by destruct (Hb q Hin) as [-> _].
Qed.

(** A queue in which a height has lost its blocks, and the ones above it all but a
    block of the chain. *)
Lemma requeued m m' k c l : queue_ok m → on_chain m k c l → without m m' (k - 1) c →
  let m'' := foldl requeue m' l in
  queue_ok m'' ∧ (k ≤ c → m'' !! k = None) ∧ (∀ j, is_Some (m'' !! j) → is_Some (m !! j)) ∧
  (∀ j, ¬ k ≤ j ≤ c → m'' !! j = m !! j).
Proof.
  intros Hq Hl Hw. pose proof (on_chain_heights _ _ _ _ Hq Hl) as Hh.
  assert (∀ j, j ∈ map qb_height l ↔ k < j ≤ c) as Hin by (intros j; rewrite Hh, elem_of_seqZ; lia).
  destruct (requeue_spec l m') as [H1 H2].
  { rewrite Hh. destruct (decide (0 ≤ c - k)).
    - replace (c - k) with (Z.of_nat (Z.to_nat (c - k))) by lia. apply NoDup_seqZ.
    - rewrite seqZ_nil by lia. constructor. }
  { intros q Hqin. rewrite Hw. rewrite decide_True; [done|]. apply (list_elem_of_fmap_2 qb_height) in Hqin.
    apply Hin in Hqin. lia. }
  assert (∀ q, q ∈ l → in_queue m (qb_height q) q) as Hinq.
  { intros q Hqin. apply list_elem_of_lookup in Hqin as [i Hi]. destruct (Forall2_lookup_r _ _ _ _ _ Hl Hi) as (j & _ & Hj & _).
    destruct Hj as (l' & El' & Hj). destruct (Hq j l' El') as (_ & _ & _ & Hb). destruct (Hb q Hj) as [-> _]. by exists l'. }
  assert (∀ j, k < j ≤ c → ∃ q, q ∈ l ∧ qb_height q = j) as Hex.
  { intros j Hj%Hin. apply list_elem_of_fmap in Hj as (q & -> & ?). by exists q. }
  cbv zeta. split_and!.
  - intros j l' El'. destruct (decide (k < j ≤ c)) as [Hj|Hj].
    + destruct (Hex j Hj) as (q & Hql & <-). rewrite H1 in El' by done. injection El' as <-.
      destruct (Hinq q Hql) as (l0 & El0 & Hin0). destruct (Hq _ _ El0) as (_ & _ & _ & Hb).
      split; [done|]. split; [apply NoDup_singleton|]. split; [cbn; unfold MAX_QUEUED_BLOCKS_PER_HEIGHT; lia|].
      intros q' ->%list_elem_of_singleton. by apply Hb.
    + rewrite H2 in El' by (by rewrite Hin). rewrite Hw in El'. case_decide; [done|]. by apply Hq.
  - intros Hkc. rewrite H2 by (rewrite Hin; lia). rewrite Hw. by rewrite decide_True by lia.
  - intros j [l' El']. destruct (decide (k < j ≤ c)) as [Hj|Hj].
    + destruct (Hex j Hj) as (q & Hql & <-). destruct (Hinq q Hql) as (l0 & El0 & _). by exists l0.
    + rewrite H2 in El' by (by rewrite Hin). rewrite Hw in El'. case_decide; [done|]. by exists l'.
  - intros j Hj. rewrite H2 by (rewrite Hin; lia). rewrite Hw. by rewrite decide_False by lia.
Qed.

(** What a range does to the verifier: it waits for blocks, or it finds a height
    without a block of the chain, or it accepts the blocks up to a checkpoint. *)
Inductive processed (s s' : CheckpointVerifier) (max p : Z) : list QueuedBlock → Prop :=
| range_waits : s' = s → is_target s p WaitingForBlocks → processed s s' max p []
| range_fails c k : is_target s p (Checkpoint c) → p < k ≤ c → (∀ q, in_queue s.(queued) k q → qb_hash q ≠ chain_hash k) →
    s'.(verifier_progress) = s.(verifier_progress) → s'.(queued) !! k = None → processed s s' max p []
| range_accepts c l : is_target s p (Checkpoint c) → on_chain s.(queued) p c l → without s.(queued) s'.(queued) p c →
    s'.(verifier_progress) = progress_at c max → processed s s' max p l.
Definition accepted_answer (q : QueuedBlock) : Answer := (q.(qb_tx), inr (qb_hash q)).

(** The verifier after a failure. *)
Lemma chain_incomplete_ok s max p c k l m rej :
  verifier_ok s max → verified_height s = Some p → p < k ≤ c → is_Some (s.(checkpoint_list) !! c) →
  on_chain s.(queued) k c l → without s.(queued) m (k - 1) c →
  ∃ s', chain_incomplete c l s (answer (with_queued s m) rej) = Ret s' ∧ verifier_ok s' max ∧
    s'.(verifier_progress) = s.(verifier_progress) ∧ s'.(queued) !! k = None ∧ s'.(answers) = s.(answers) ++ rej.
Proof.
  intros [[Hl Hqk Hpr] Hg Hq Ht Hprev Hres] Hv Hk Hc Hon Hw.
  destruct (requeued _ _ _ _ _ Hq Hon Hw) as (Hq' & Hkn & Hsub & Hsame).
  set (s' := with_queued (answer (with_queued s m) rej) (foldl requeue m l)).
  assert (heights_ok s' max) as Hh' by (split; [done|intros j Hj; by apply Hqk, Hsub|done]).
  unfold chain_incomplete. cbn [queued answer with_queued verifier_progress]. rewrite bool_decide_eq_true_2 by done.
  cbn [assert_ mbind outcome_bind]. fold s'.
  destruct (target_spec s' max p Hh' Hv) as (t & Et & Htg). rewrite Et. cbn [mbind outcome_bind].
  rewrite bool_decide_eq_true_2; [|destruct t as [|c'|]; [by left| |done]].
  - cbn [assert_ mbind outcome_bind]. exists s'. split; [done|]. split; [by split|]. split; [done|]. split; [apply Hkn; lia|done].
  - right. cbn. destruct Htg as (_ & _ & Hcomp & _). do 2 f_equal. apply Z.compare_lt_iff.
    destruct (decide (c' < k)); [lia|]. exfalso. apply (is_Some_None (A := list QueuedBlock)). rewrite <- Hkn by lia. apply Hcomp. lia.
Qed.

(** The verifier after it has accepted the blocks up to a checkpoint. *)
Lemma chain_complete_ok s max p c l m rej :
  verifier_ok s max → verified_height s = Some p → p < c → is_Some (s.(checkpoint_list) !! c) → complete s p c →
  (∀ c', is_Some (s.(checkpoint_list) !! c') → c < c' → ¬ complete s p c') →
  on_chain s.(queued) p c l → without s.(queued) m p c →
  ∃ s', chain_complete c l s (answer (with_queued s m) rej) = Ret s' ∧ verifier_ok s' max ∧
    s'.(verifier_progress) = progress_at c max ∧ s'.(queued) = m ∧ s'.(answers) = s.(answers) ++ rej ++ map accepted_answer l.
Proof.
  intros [[Hl Hqk Hpr] Hg Hq Ht Hprev Hres] Hv Hk Hc Hcomp Hmax Hon Hw. unfold chain_complete.
  set (s1 := answer (answer (with_queued s m) rej) _). pose proof (lo_heights _ _ Hl c Hc) as Hcm.
  assert (heights_ok s1 max) as Hh1.
  { split; [done| |done]. intros j. cbn. rewrite Hw. case_decide; [by intros [? ?]|]. apply Hqk. }
  destruct (update_progress_ok s1 max p c Hh1 Hv Hk Hc) as (tip & ->). cbn [mbind outcome_bind verifier_progress with_progress].
  rewrite (bool_decide_eq_true_2 (progress_cmp _ _ = Gt)).
  2: { unfold progress_at, progress_cmp, verified_height in *.
       destruct (decide (c = max)), (verifier_progress s) as [|h|h|]; try done; try injection Hv as ->;
         rewrite decide_False by (intros E; try discriminate E; injection E; lia); try done; cbn; apply Z.compare_gt_iff; lia. }
  cbn [assert_ mbind outcome_bind]. rewrite (max_height_ok _ _ Hl). cbn [mbind outcome_bind].
  set (s2 := with_progress s1 tip (progress_at c max)).
  assert ((if decide (progress_at c max = FinalCheckpoint) then assert_ (c =? max)
           else assert_ (bool_decide (progress_at c max = PreviousCheckpoint c))) = Ret ()) as ->.
  { unfold progress_at. destruct (decide (c = max)) as [->|].
    - rewrite decide_True by done. by rewrite Z.eqb_refl.
    - rewrite decide_False by done. by rewrite bool_decide_eq_true_2. }
  cbn [mbind outcome_bind].
  assert (verifier_ok s2 max) as Hok2.
  { split; try done.
    - split; [done|apply (ho_queue _ _ Hh1)|]. intros p'. unfold verified_height, s2, progress_at. cbn.
      destruct (decide (c = max)); [done|]. intros [= <-]. split; [lia|]. intros _. lia.
    - intros j l' Hj. cbn in Hj. rewrite Hw in Hj. case_decide; [done|]. by apply Hq.
    - intros h. unfold s2, progress_at. cbn. by destruct (decide (c = max)).
    - intros h. unfold s2, progress_at. cbn. destruct (decide (c = max)); [done|]. by intros [= <-]. }
  assert (∃ t, target_checkpoint_height s2 = Ret t ∧ (t = WaitingForBlocks ∨ t = FinishedVerifying)) as (t & -> & Htt).
  { destruct (decide (c = max)) as [->|Hne].
    - exists FinishedVerifying. split; [|by right]. unfold target_checkpoint_height, s2, progress_at. cbn. by rewrite decide_True.
    - assert (verified_height s2 = Some c) as Hv2 by (unfold verified_height, s2, progress_at; cbn; by rewrite decide_False).
      destruct (target_spec s2 max c (vk_heights _ _ Hok2) Hv2) as (t & -> & Htg). exists t. split; [done|]. left.
      destruct t as [|c'|]; [done|exfalso|done]. destruct Htg as (Hc' & Hlt & Hcomp' & _). apply (Hmax c' Hc' Hlt).
      intros j Hj. destruct (decide (j ≤ c)); [apply Hcomp; lia|]. specialize (Hcomp' j ltac:(lia)). cbn in Hcomp'.
      rewrite Hw, decide_False in Hcomp' by lia. done. }
  cbn [mbind outcome_bind]. rewrite bool_decide_eq_true_2 by done. cbn [assert_ mbind outcome_bind].
  exists s2. split; [done|]. split; [done|]. split; [done|]. split; [done|]. cbn. by rewrite app_assoc.
Qed.

Lemma process_spec s max p : verifier_ok s max → verified_height s = Some p →
  ∃ s' l rej, process_checkpoint_range s = Ret s' ∧ verifier_ok s' max ∧ processed s s' max p l ∧
    Forall (side_chain s.(queued)) rej ∧ s'.(answers) = s.(answers) ++ rej ++ map accepted_answer l.
Proof.
  intros Hok Hv. destruct (previous_hash_ok s max p Hok Hv) as (prev & Eprev & Hprev). unfold process_checkpoint_range.
  rewrite Eprev. cbn [mbind outcome_bind].
  assert ((match prev with
           | BeforeGenesis => process_range GENESIS_PREVIOUS_BLOCK_HASH s
           | InitialTip hash | PreviousCheckpoint hash => process_range hash s
           | FinalCheckpoint => Ret s
           end) = process_range (expected_at p) s) as -> by (destruct prev; [by rewrite Hprev|by rewrite Hprev..|done]).
  pose proof Hok as [Hh Hg Hq _ _ _]. unfold process_range. destruct (target_spec s max p Hh Hv) as (t & -> & Ht).
  cbn [mbind outcome_bind]. destruct t as [|c|]; [| |done].
  { exists s, [], []. split; [done|]. split; [done|]. split; [by constructor|]. split; [constructor|]. by rewrite app_nil_r. }
  pose proof Ht as (Hc & Hpc & Hcomp & Hmax). pose proof (lo_heights _ _ (ho_list _ _ Hh) c Hc) as Hcm.
  pose proof (proj1 (ho_progress _ _ Hh p Hv)) as Hp.
  destruct Hc as [x Hx]. rewrite Hx. cbn [unwrap mbind outcome_bind].
  destruct (range_complete s max p c Hh Hv Hpc Hcomp) as (lo & -> & Hrange). cbn [unwrap mbind outcome_bind].
  rewrite Hrange. cbn [mbind outcome_bind].
  assert (x = expected_at c) as -> by (unfold expected_at; rewrite decide_False by lia; by rewrite (ge_list _ _ Hg c x Hx)).
  replace (c - p) with (Z.of_nat (Z.to_nat (c - p))) by lia.
  destruct (walk_back_spec max (Z.to_nat (c - p)) p c [] s) as (r & new & m & rej & -> & Hrej & Hr); [lia|lia|lia|done..|].
  cbn [mbind outcome_bind]. rewrite app_nil_r. destruct r as [e|].
  - destruct Hr as (-> & Hon & Hw). rewrite bool_decide_eq_true_2 by done. cbn [assert_ mbind outcome_bind].
    destruct (chain_complete_ok s max p c new m rej Hok Hv Hpc ltac:(by eexists) Hcomp Hmax Hon Hw) as (s' & -> & Hok' & Hpr & Hm & Ha).
    exists s', new, rej. split; [done|]. split; [done|]. split; [|done]. apply (range_accepts _ _ _ _ c); try done. by rewrite Hm.
  - destruct Hr as (k & Hk & Hon & Hw & Hno).
    destruct (chain_incomplete_ok s max p c k new m rej Hok Hv Hk ltac:(by eexists) Hon Hw) as (s' & -> & Hok' & Hpr & Hm & Ha).
    exists s', [], rej. split; [done|]. split; [done|]. split; [by apply (range_fails _ _ _ _ c k)|]. split; [done|].
    by rewrite app_nil_r.
Qed.

Lemma on_chain_hashes m p c l : on_chain m p c l → map qb_hash l = map chain_hash (seqZ (p + 1) (c - p)).
Proof. unfold on_chain. induction 1 as [|k q ks qs [_ Hh] _ IH]; [done|]. cbn. by rewrite Hh, IH. Qed.

Lemma target_unique s p c c' : is_target s p (Checkpoint c) → is_target s p (Checkpoint c') → c = c'.
Proof.
  intros (Hc & Hp & Hcomp & Hmax) (Hc' & Hp' & Hcomp' & Hmax'). destruct (Z.lt_trichotomy c c') as [Hlt|[?|Hlt]]; [|done|].
  - by destruct (Hmax c').
  - by destruct (Hmax' c).
Qed.

(** C23: Once the queue has the blocks of the chain up to a checkpoint, and has not yet
    some block at every height up to a later checkpoint (otherwise the verifier takes that
    later checkpoint as its target, and accepts nothing while blocks of the chain are
    missing below it), the verifier accepts them all, in order, and moves on to the
    checkpoint, whatever other blocks are queued at these heights. *)
Theorem complete_range_accepted s max p c :
  verifier_ok s max → verified_height s = Some p → is_Some (s.(checkpoint_list) !! c) → p < c →
  (∀ k, p < k ≤ c → ∃ q, in_queue s.(queued) k q ∧ qb_hash q = chain_hash k) →
  (∀ c', is_Some (s.(checkpoint_list) !! c') → c < c' → ∃ k, c < k ≤ c' ∧ s.(queued) !! k = None) →
  ∃ s' l rej, process_checkpoint_range s = Ret s' ∧ s'.(verifier_progress) = progress_at c max ∧
    map qb_hash l = map chain_hash (seqZ (p + 1) (c - p)) ∧ Forall (side_chain s.(queued)) rej ∧
    s'.(answers) = s.(answers) ++ rej ++ map accepted_answer l.
Proof.
  intros Hok Hv Hc Hpc Hin Hlater.
  assert (is_target s p (Checkpoint c)) as Ht.
  { split; [done|]. split; [done|]. split; [intros k Hk; destruct (Hin k Hk) as (q & (l & Hl & _) & _); by eexists|].
    intros c' Hc' Hlt Hcomp. destruct (Hlater c' Hc' Hlt) as (k & Hk & Hn). destruct (Hcomp k ltac:(lia)) as [? Hs]. by rewrite Hn in Hs. }
  destruct (process_spec s max p Hok Hv) as (s' & l & rej & E & Hok' & Hp & Hrej & Ha).
  destruct Hp as [_ Hw|c' k Ht' Hk Hno _ _|c' l Ht' Hon _ Hpr].
  - destruct Ht as (_ & _ & Hcomp & _). by destruct (Hw c Hc Hpc).
  - rewrite (target_unique _ _ _ _ Ht' Ht) in Hk. destruct (Hin k Hk) as (q & Hq & Hh). by destruct (Hno q Hq).
  - rewrite (target_unique _ _ _ _ Ht' Ht) in *. exists s', l, rej. split_and!; try done.
    by eapply on_chain_hashes.
Qed.

Lemma check_block_inv b s block : check_block n b s = Ret (inr block) →
  block.(prepared_block) = b ∧ block.(prepared_hash) = block_hash b ∧
  Block.coinbase_height b = Some block.(prepared_height) ∧ check_height block.(prepared_height) s = Ret (inr ()).
Proof.
  unfold check_block. intros Hc. apply Fallible_bind_inv in Hc as (height & Hh%ok_or_inv & Hc).
  apply Fallible_bind_inv in Hc as ([] & Hch & Hc). do 3 (apply Fallible_bind_inv in Hc as (? & _ & Hc)).
  apply Fallible_bind_inv in Hc as (bl & Hb%run_inv & Hc). apply Fallible_bind_inv in Hc as (_ & _ & [= <-]).
  unfold checkpoint_verified_block in Hb. rewrite Hh in Hb. cbn [unwrap mbind outcome_bind] in Hb.
  apply bind_Ret_inv in Hb as (outs & _ & [= <-]). done.
Qed.

Lemma check_height_inv s max h : list_ok s.(checkpoint_list) max → check_height h s = Ret (inr ()) → h ≤ max.
Proof.
  intros Hl. unfold check_height. rewrite (max_height_ok _ _ Hl). cbn [run mbind Fallible_bind mret Fallible_ret].
  intros (_ & Hm%ensure_inv & _)%Fallible_bind_inv. lia.
Qed.

Lemma replace_queued_spec new l :
  match replace_queued new l with
  | Some (old, l') => old ∈ l ∧ new ∈ l' ∧ map qb_hash l' = map qb_hash l ∧ (∀ q, q ∈ l' → q = new ∨ q ∈ l)
  | None => qb_hash new ∉ map qb_hash l
  end.
Proof.
  induction l as [|q l IH]; cbn; [set_solver|]. case_decide as Hd.
  - split; [set_solver|]. split; [set_solver|]. cbn. rewrite Hd. split; [done|]. set_solver.
  - destruct (replace_queued new l) as [[old l']|]; cbn.
    + destruct IH as (H1 & H2 & H3 & H4). split; [set_solver|]. split; [set_solver|]. rewrite H3. split; [done|].
      intros q' [->|Hq']%elem_of_cons; [right; set_solver|]. destruct (H4 q' Hq'); [by left|right; set_solver].
    + intros [?|?]%elem_of_cons; [congruence|done].
Qed.

Lemma insert_queue_ok m k l : queue_ok m → entry_ok k l → queue_ok (<[k := l]> m).
Proof. intros Hm Hl k' l'. destruct (decide (k' = k)) as [->|]; [rewrite lookup_insert_eq; by intros [= <-]|rewrite lookup_insert_ne by done; apply Hm]. Qed.

Lemma with_queue_ok s max m a i : verifier_ok s max → queue_ok m → (∀ k, is_Some (m !! k) → 0 ≤ k ≤ max) →
  verifier_ok (mk_verifier s.(checkpoint_list) s.(initial_tip_hash) m s.(verifier_progress) s.(reset_receiver) i a) max.
Proof. intros [[? _ ?] ? _ ? ? ?] Hm Hk. split; [by split|done..]. Qed.

(** A request that is replaced, or a block that is not on the chain. *)
Definition rejection (a : Answer) : Prop :=
  (∃ k h, a.2 = inl (NewerRequest k h)) ∨ ∃ k found, a.2 = inl (UnexpectedSideChain (chain_hash k) found) ∧ found ≠ chain_hash k.

Lemma queue_block_spec b s max :
  verifier_ok s max → (∀ h, Block.coinbase_height b = Some h → 0 ≤ h) → check_block n b s ≠ Panic →
  ∃ r s' rej, queue_block n b s = Ret (r, s') ∧ verifier_ok s' max ∧ s'.(verifier_progress) = s.(verifier_progress) ∧
    s'.(checkpoint_list) = s.(checkpoint_list) ∧ s'.(answers) = s.(answers) ++ rej ∧ Forall rejection rej ∧
    match r with
    | inr (block, tx) => in_queue s'.(queued) block.(prepared_height) {| qb_block := block; qb_tx := tx |}
    | inl e => check_block n b s = Ret (inl e) ∨ e = QueuedLimit
    end.
Proof.
  intros Hok Hb Hpanic. unfold queue_block. cbn [new_tx].
  change (check_block n b _) with (check_block n b s). destruct (check_block n b s) as [[e|block]|] eqn:Ec; [| |done].
  { eexists _, _, []. split; [reflexivity|]. cbn. rewrite app_nil_r. split; [by apply (with_queue_ok s); [|apply vk_queue with max|apply vk_heights]|].
    do 3 (split; [done|]). split; [constructor|by left]. }
  apply check_block_inv in Ec as (Eb & Eh & Ehh & Hch). cbn [mbind outcome_bind queued].
  pose proof Hok as [[Hl Hqk _] _ Hq _ _ _]. pose proof (Hb _ Ehh) as Hh0. pose proof (check_height_inv _ _ _ Hl Hch) as Hhm.
  set (h := block.(prepared_height)) in *. set (new := {| qb_block := block; qb_tx := s.(next_tx) |}).
  set (l := default [] (s.(queued) !! h)).
  assert (∀ q, q ∈ l → qb_height q = h ∧ block_hash q.(qb_block).(prepared_block) = qb_hash q) as Hlb.
  { unfold l. destruct (s.(queued) !! h) as [l0|] eqn:E; cbn; [|set_solver]. by destruct (Hq h l0 E) as (_ & _ & _ & ?). }
  assert (NoDup (map qb_hash l) ∧ (length l ≤ MAX_QUEUED_BLOCKS_PER_HEIGHT)%nat) as [Hnd Hlen].
  { unfold l. destruct (s.(queued) !! h) as [l0|] eqn:E; cbn; [|split; [constructor|unfold MAX_QUEUED_BLOCKS_PER_HEIGHT; lia]]. by destruct (Hq h l0 E) as (_ & ? & ? & _). }
  assert (qb_height new = h ∧ block_hash new.(qb_block).(prepared_block) = qb_hash new) as Hnew by (unfold qb_hash; cbn; by rewrite Eb).
  assert (∀ l', l' ≠ [] → queue_ok (<[h := l']> s.(queued)) → ∀ k, is_Some (<[h := l']> s.(queued) !! k) → 0 ≤ k ≤ max) as Hkeys.
  { intros l' _ _ k. destruct (decide (k = h)) as [->|]; [lia|]. rewrite lookup_insert_ne by done. apply Hqk. }
  pose proof (replace_queued_spec new l) as Hrep. destruct (replace_queued new l) as [[old l']|].
  - destruct Hrep as (Hold & Hin & Hmap & Hsub).
    assert (entry_ok h l') as He.
    { split; [intros ->; by apply not_elem_of_nil in Hin|]. rewrite Hmap. split; [done|].
      split; [by rewrite <- (length_map qb_hash l'), Hmap, length_map|]. intros q [->|Hql]%Hsub; [done|by apply Hlb]. }
    eexists _, _, _. split; [reflexivity|]. split; [apply (with_queue_ok s); [done|by apply insert_queue_ok|apply Hkeys; [by destruct He|by apply insert_queue_ok]]|].
    do 2 (split; [done|]). split; [reflexivity|]. split; [apply Forall_singleton; left; by eexists _, _|].
    cbn. exists l'. by rewrite lookup_insert_eq.
  - destruct (Nat.leb_spec MAX_QUEUED_BLOCKS_PER_HEIGHT (length l)) as [Hlim|Hlim].
    + assert (entry_ok h l) as He.
      { split; [intros ->; cbn in Hlim; unfold MAX_QUEUED_BLOCKS_PER_HEIGHT in Hlim; lia|]. by split. }
      eexists _, _, []. split; [reflexivity|]. cbn. rewrite app_nil_r.
      split; [apply (with_queue_ok s); [done|by apply insert_queue_ok|apply Hkeys; [by destruct He|by apply insert_queue_ok]]|].
      do 3 (split; [done|]). split; [constructor|by right].
    + assert (entry_ok h (l ++ [new])) as He.
      { split; [by destruct l|]. rewrite map_app. split.
        - apply NoDup_app. split; [done|]. split; [|apply NoDup_singleton]. by intros x Hx ->%list_elem_of_singleton.
        - rewrite length_app. cbn. split; [lia|]. intros q [Hql| ->%list_elem_of_singleton]%elem_of_app; [by apply Hlb|done]. }
      cbn [with_queued queued].
      assert (h ∈ keys (<[h := l ++ [new]]> s.(queued))) as Hk by (apply keys_elem; rewrite lookup_insert_eq; by eexists).
      destruct (last (keys (<[h := l ++ [new]]> s.(queued)))) as [k|] eqn:El.
      2: { apply last_None in El. rewrite El in Hk. by apply not_elem_of_nil in Hk. }
      cbn [unwrap mbind outcome_bind]. eexists _, _, []. split; [reflexivity|]. cbn. rewrite app_nil_r.
      split; [apply (with_queue_ok s); [done|by apply insert_queue_ok|apply Hkeys; [by destruct He|by apply insert_queue_ok]]|].
      do 3 (split; [done|]). split; [constructor|]. exists (l ++ [new]). rewrite lookup_insert_eq. split; [done|].
      set_solver.
Qed.

Lemma progress_from_tip_ok l max tip : list_ok l max → tip_ok max tip →
  ∃ x, progress_from_tip l tip = Ret x ∧
    (x = (None, FinalCheckpoint) ∨ x = (None, BeforeGenesis) ∨ ∃ h, 0 ≤ h < max ∧ x = (Some (chain_hash h), InitialTip h)).
Proof.
  intros Hl Ht. destruct tip as [[h x]|]; [|eexists; split; [reflexivity|by right; left]].
  cbn [tip_ok] in Ht. unfold progress_from_tip. rewrite (max_height_ok _ _ Hl). cbn [mbind outcome_bind]. eexists. split; [reflexivity|]. destruct (Z.leb_spec max h); [by left|].
  right; right. exists h. destruct Ht as [Hh Hx]. by rewrite Hx by lia.
Qed.

Lemma with_progress_ok s max tip pr : verifier_ok s max →
  (tip, pr) = (None, FinalCheckpoint) ∨ (tip, pr) = (None, BeforeGenesis) ∨
    (∃ h, 0 ≤ h < max ∧ (tip, pr) = (Some (chain_hash h), InitialTip h)) →
  verifier_ok (with_progress s tip pr) max ∧ verified_checkpoint_diagnostics (with_progress s tip pr) (progress_height pr) = Ret ().
Proof.
  intros [[Hl Hqk Hpr] Hg Hq Ht Hprev Hres] Hcase. pose proof (lo_heights _ _ Hl 0 (lo_genesis _ _ Hl)) as Hmax.
  split.
  - split; try done.
    + split; [done|done|]. intros p. unfold verified_height. cbn.
      destruct Hcase as [[= -> ->]|[[= -> ->]|(h & Hh & [= -> ->])]]; [done| |].
      * intros [= <-]. split; [lia|done].
      * intros [= <-]. split; [lia|]. lia.
    + intros h. cbn. destruct Hcase as [[= -> ->]|[[= -> ->]|(h' & Hh & [= -> ->])]]; [done|done|by intros [= ->]].
    + intros h. cbn. by destruct Hcase as [[= -> ->]|[[= -> ->]|(h' & Hh & [= -> ->])]].
  - destruct Hcase as [[= -> ->]|[[= -> ->]|(h & Hh & [= -> ->])]]; [done|done|]. cbn.
    destruct (index_ok _ _ h Hl) as [i ->]; [lia|]. done.
Qed.

Lemma reset_ok s max tip : verifier_ok s max → tip_ok max tip →
  ∃ s', reset_progress tip s = Ret s' ∧ verifier_ok s' max ∧ s'.(answers) = s.(answers) ∧ s'.(checkpoint_list) = s.(checkpoint_list).
Proof.
  intros Hok Ht. unfold reset_progress.
  destruct (progress_from_tip_ok _ max tip (ho_list _ _ (vk_heights _ _ Hok)) Ht) as ([x y] & -> & Hx). cbn [mbind outcome_bind fst snd].
  destruct (with_progress_ok s max x y Hok Hx) as [Hok' ->]. cbn [mbind outcome_bind]. by eexists.
Qed.

Lemma side_chain_rejection m l : Forall (side_chain m) l → Forall rejection l.
Proof.
  intros Hl. eapply Forall_impl; [exact Hl|]. intros a (k & q & _ & Hne & ->). right. by exists k, (qb_hash q).
Qed.

(** The blocks that one request accepts: none, or those of the chain up to a
    checkpoint. *)
Definition accepts_chain (s s' : CheckpointVerifier) (max : Z) (l : list QueuedBlock) : Prop :=
  l = [] ∨ ∃ p c, is_Some (s.(checkpoint_list) !! c) ∧ p < c ∧ map qb_hash l = map chain_hash (seqZ (p + 1) (c - p)) ∧
    s'.(verifier_progress) = progress_at c max.

(** A request to a verifier that satisfies the invariant. *)
Lemma call_ok b s max :
  verifier_ok s max → (∀ h, Block.coinbase_height b = Some h → 0 ≤ h) → (∀ s, verifier_ok s max → check_block n b s ≠ Panic) →
  ∃ r s' rej l, call n b s = Ret (r, s') ∧ verifier_ok s' max ∧ s'.(answers) = s.(answers) ++ rej ++ map accepted_answer l ∧
    Forall rejection rej ∧ accepts_chain s s' max l.
Proof.
  intros Hok Hb Hpanic. unfold call.
  assert (∃ s1, (match reset_receiver s with
                 | [] => Ret s
                 | tip :: rest => reset_progress tip (with_resets s rest)
                 end) = Ret s1 ∧ verifier_ok s1 max ∧ s1.(answers) = s.(answers) ∧ s1.(checkpoint_list) = s.(checkpoint_list))
    as (s1 & -> & Hok1 & Ha1 & Hl1).
  { destruct (reset_receiver s) as [|tip rest] eqn:Er; [by exists s|]. pose proof Hok as [Hh Hg Hq Ht Hprev Hres].
    rewrite Er in Hres. apply Forall_cons in Hres as [Htip Hrest]. apply (reset_ok (with_resets s rest)); [split; try done; destruct Hh; by split|done]. }
  cbn [mbind outcome_bind]. case_decide as Hfin.
  { exists (inl Finished), s1, [], []. split; [done|]. split; [done|]. rewrite Ha1. cbn. rewrite app_nil_r.
    split; [done|]. split; [constructor|by left]. }
  destruct (queue_block_spec b s1 max Hok1 Hb (Hpanic s1 Hok1)) as (r & s2 & rej & -> & Hok2 & Hp2 & Hl2 & Ha2 & Hrej & Hr).
  cbn [mbind outcome_bind]. destruct r as [e|[block tx]].
  { exists (inl e), s2, rej, []. split; [done|]. split; [done|]. rewrite Ha2, Ha1. cbn. rewrite app_nil_r.
    split; [done|]. split; [done|by left]. }
  assert (∃ p, verified_height s2 = Some p) as [p Hv].
  { unfold verified_height. rewrite Hp2. destruct (verifier_progress s1); [by eexists..|done]. }
  destruct (process_spec s2 max p Hok2 Hv) as (s3 & l & rej' & -> & Hok3 & Hproc & Hrej' & Ha3). cbn [mbind outcome_bind].
  exists (inr (block, tx)), s3, (rej ++ rej'), l. split; [done|]. split; [done|].
  split; [by rewrite Ha3, Ha2, Ha1, <- !app_assoc|].
  split; [apply Forall_app; split; [done|by eapply side_chain_rejection]|].
  destruct Hproc as [| |c l Ht Hon _ Hpr]; [by left..|]. right. exists p, c. destruct Ht as (Hc & Hpc & _).
  rewrite <- Hl1, <- Hl2. split; [done|]. split; [done|]. split; [by eapply on_chain_hashes|done].
Qed.

(** ** Runs *)

(** Requests and the results of commits, in any order.  The tip of the state is on the
    chain of the checkpoints. *)
Inductive verifier_step (max : Z) (s s' : CheckpointVerifier) : Prop :=
| step_call b r : (∀ h, Block.coinbase_height b = Some h → 0 ≤ h) → (∀ s, verifier_ok s max → check_block n b s ≠ Panic) →
    call n b s = Ret (r, s') → verifier_step max s s'
| step_settled ok tip : tip_ok max tip → s' = commit_settled ok tip s → verifier_step max s s'.

Lemma step_ok max s s' : verifier_ok s max → verifier_step max s s' → verifier_ok s' max.
Proof.
  intros Hok [b r Hb Hp E|ok tip Ht ->].
  - destruct (call_ok b s max Hok Hb Hp) as (r' & s'' & rej & l & E' & Hok' & _). congruence.
  - unfold commit_settled. destruct ok; [done|]. destruct Hok as [Hh Hg Hq Htip Hprev Hres]. split; try done; [destruct Hh; by split|]. cbn.
    apply Forall_app. split; [done|by apply Forall_singleton].
Qed.

Lemma start_ok l max tip s : list_ok l max → genuine l max → tip_ok max tip → from_checkpoint_list l tip = Ret s → verifier_ok s max.
Proof.
  intros Hl Hg Ht. unfold from_checkpoint_list. destruct (progress_from_tip_ok l max tip Hl Ht) as ([x y] & -> & Hx).
  cbn [mbind outcome_bind fst snd]. intros (_ & _ & [= <-])%bind_Ret_inv.
  assert (verifier_ok (mk_verifier l None ∅ BeforeGenesis [] 0 []) max) as Hok.
  { pose proof (lo_heights _ _ Hl 0 (lo_genesis _ _ Hl)). split; try done. split; [done| |].
    - intros k. cbn. rewrite lookup_empty. by intros [? ?].
    - intros p. cbn. intros [= <-]. split; [lia|done]. }
  exact (proj1 (with_progress_ok _ max x y Hok Hx)).
Qed.

(** C22: A verifier that starts with an accepted list of checkpoints, and whose
    checkpoints lie on one chain, as do the tips that the state reports ([tip_ok]), never
    panics on a request for a block that can be
    checked.  The blocks that a request accepts are those of the chain, in order and up
    to a checkpoint, which becomes the progress of the verifier; and a block is
    rejected only for a newer request or if it is not the block of the chain. *)
Theorem checkpoint_verifier_safe original l max tip s0 s b :
  from_list original = Ret (inr l) → max_height l = Ret max → genuine l max → tip_ok max tip →
  from_checkpoint_list l tip = Ret s0 → rtc (verifier_step max) s0 s →
  (∀ h, Block.coinbase_height b = Some h → 0 ≤ h) → (∀ s, verifier_ok s max → check_block n b s ≠ Panic) →
  ∃ r s' rej bs, call n b s = Ret (r, s') ∧ s'.(answers) = s.(answers) ++ rej ++ map accepted_answer bs ∧
    Forall rejection rej ∧ accepts_chain s s' max bs.
Proof.
  intros Hl Hm Hg Ht Hs Hrun Hb Hp. apply from_list_ok in Hl as (max' & Hl & _).
  rewrite (max_height_ok _ _ Hl) in Hm. injection Hm as ->.
  assert (verifier_ok s max) as Hok.
  { pose proof (start_ok _ _ _ _ Hl Hg Ht Hs) as Hok. clear -Hok Hrun. induction Hrun as [|s s' s'' Hst _ IH]; [done|].
    apply IH. by eapply step_ok. }
  destruct (call_ok b s max Hok Hb Hp) as (r & s' & rej & bs & E & _ & Ha & Hr & Hacc). by exists r, s', rej, bs.
Qed.
End verifier.

(** ** The router *)

(** A block that the router gives to the block verifier is above the mandatory
    checkpoint: the assertion of the state on its height does not fail, if the list of
    checkpoints reaches the mandatory one. *)
Theorem routed_block_can_be_validated {P : Profile} `{Uint} {B : BlockServices} {S : TxServices}
    n checkpoint_sync l max mandatory max_checkpoint_height is_proposal b s s' block :
  list_ok l max → mandatory_checkpoint_height n = Ret mandatory → mandatory ≤ max →
  init_checkpoint_list n checkpoint_sync l = Ret max_checkpoint_height →
  router_call n max_checkpoint_height is_proposal b s = Ret (inr (ToState block), s') →
  assert_block_can_be_validated n block = Ret () ∧ s' = s ∧ is_Some (l !! max_checkpoint_height).
Proof.
  intros Hl Hm Hmax Hi Hr.
  assert (mandatory ≤ max_checkpoint_height ∧ is_Some (l !! max_checkpoint_height)) as [Hmc Hc].
  { unfold init_checkpoint_list in Hi. destruct checkpoint_sync.
    - rewrite (max_height_ok _ _ Hl) in Hi. injection Hi as <-. split; [done|apply (lo_max _ _ Hl)].
    - rewrite Hm in Hi. cbn [mbind outcome_bind] in Hi. unfold min_height_in_range in Hi.
      destruct (range_spec (Included mandatory) Unbounded l) as (ks & E & _ & Hks); [done|]. rewrite E in Hi. cbn in Hi.
      destruct (head ks) as [k|] eqn:Ek; [|done]. injection Hi as <-. apply head_Some_elem_of, Hks in Ek as (Hk & Ha & _).
      cbn in Ha. split; [lia|done]. }
  unfold router_call in Hr. destruct (Block.coinbase_height b) as [h|] eqn:Eh.
  - destruct (Z.leb_spec h max_checkpoint_height) as [Hle|Hgt].
    + destruct is_proposal; [done|]. apply bind_Ret_inv in Hr as ([r s1] & _ & Hr). cbn in Hr.
      by destruct r as [?|[? ?]].
    + apply bind_Ret_inv in Hr as (r & Hv & Hr). destruct r as [e|p]; [done|]. injection Hr as -> ->.
      apply verify_block_inv in Hv as (? & ? & ? & ? & Hac). pose proof (ac_height _ _ _ _ _ _ _ Hac) as Hh. rewrite Eh in Hh.
      injection Hh as ->. unfold assert_block_can_be_validated. rewrite Hm. cbn [mbind outcome_bind].
      by rewrite (proj2 (Z.ltb_lt _ _)) by lia.
  - apply bind_Ret_inv in Hr as (r & Hv & Hr). destruct r as [e|p]; [done|]. injection Hr as -> ->.
    apply verify_block_inv in Hv as (? & ? & ? & ? & Hac). pose proof (ac_height _ _ _ _ _ _ _ Hac) as Hh. congruence.
Qed.
