(* ===== verification/Queue.v ===== *)
(** * Queue: blocks that wait for their parents

    Models [zebra-state/src/service/queued_blocks.rs] and the part of
    [zebra-state/src/service.rs] that queues verified blocks and sends them to the
    block write task, with the question that Crosslink is asked about them.

    A response channel is a number.  What the service sends, on response channels
    and to the write task, is a log.  Metrics are left out. *)

From stdpp Require Import base list gmap sets sorting.
From S2P Require Import Prelude Wire Encoding Bft Roster Amount Staking Transparent Network Subsidy Transaction Delegation DelegationInv DelegationBlock BlockValue Spends Merkle TxVerifier Difficulty BlockVerifier.

(** ** Queued blocks *)

(** [QueuedSemanticallyVerified], [QueuedCheckpointVerified]: a block and the
    channel for its result. *)
Record Queued := {
  q_block : SemanticallyVerifiedBlock;
  rsp_tx : nat }.
Definition q_hash (q : Queued) : bytes := q.(q_block).(prepared_hash).
Definition q_height (q : Queued) : Z := q.(q_block).(prepared_height).
Definition q_parent (q : Queued) : bytes := q.(q_block).(prepared_block).(Block.header).(BlockHeader.prev_block).

Inductive CommitError :=
| DuplicateCommitRequest (block_hash : bytes)
| AlreadyFinalized (block_height : Z)
| CrosslinkNotReady (block_height : Z)
| ReplacedByNewerRequest (block_hash : bytes)
| PrunedBelowFinalizedTip (block_height : Z)
| CommitTaskExited.

(** The messages of [queue_and_commit_to_finalized_state]. *)
Inductive CheckpointError :=
| NewerDuplicate
| FinishedCheckpoints
| CheckpointTaskExited.

(** What the service sends. *)
Inductive Event :=
| Fails (rsp : nat) (e : CommitError)
| FailsCheckpoint (rsp : nat) (e : CheckpointError)
| Commit (q : Queued)
| CommitCheckpoint (q : Queued).

Record QueuedBlocks := mk_queue {
  blocks : gmap bytes Queued;
  by_parent : gmap bytes (gset bytes);
  by_height : gmap Z (gset bytes);
  known_utxos : gmap OutPoint Utxo }.
Definition empty_queue : QueuedBlocks := mk_queue ∅ ∅ ∅ ∅.

(** [entry(k).or_default().insert(hash)] *)
Definition add_to `{Countable K} (k : K) (hash : bytes) (m : gmap K (gset bytes)) : gmap K (gset bytes) :=
  <[k := {[hash]} ∪ default ∅ (m !! k)]> m.
Definition with_utxos (outputs : gmap OutPoint OrderedUtxo) (m : gmap OutPoint Utxo) : gmap OutPoint Utxo :=
  utxos_from_ordered_utxos outputs ∪ m.
Definition without_utxos (outputs : gmap OutPoint OrderedUtxo) (m : gmap OutPoint Utxo) : gmap OutPoint Utxo :=
  filter (λ x, outputs !! x.1 = None) m.

Definition queue (new : Queued) (q : QueuedBlocks) : QueuedBlocks :=
  if decide (is_Some (q.(blocks) !! q_hash new)) then q
  else mk_queue (<[q_hash new := new]> q.(blocks)) (add_to (q_parent new) (q_hash new) q.(by_parent))
         (add_to (q_height new) (q_hash new) q.(by_height))
         (with_utxos new.(q_block).(new_outputs) q.(known_utxos)).

Definition has_queued_children (parent_hash : bytes) (q : QueuedBlocks) : bool :=
  bool_decide (is_Some (q.(by_parent) !! parent_hash)).

Section queued.
(** The order in which a set of hashes is iterated. *)
Context (iter : gset bytes → list bytes).

(** Blocks that are expected to be in the queue are taken out of it. *)
Fixpoint take_blocks (hashes : list bytes) (m : gmap bytes Queued) : outcome (list Queued * gmap bytes Queued) :=
  match hashes with
  | [] => Ret ([], m)
  | h :: hashes =>
      b ← unwrap (m !! h);
      x ← take_blocks hashes (delete h m);
      Ret (b :: x.1, x.2)
  end.

(** The loop over the dequeued children: all of a height is removed. *)
Definition forget_child (q : QueuedBlocks) (b : Queued) : QueuedBlocks :=
  mk_queue q.(blocks) q.(by_parent) (delete (q_height b) q.(by_height))
    (without_utxos b.(q_block).(new_outputs) q.(known_utxos)).
Definition dequeue_children (parent_hash : bytes) (q : QueuedBlocks) : outcome (list Queued * QueuedBlocks) :=
  x ← take_blocks (iter (default ∅ (q.(by_parent) !! parent_hash))) q.(blocks);
  let '(queued_children, rest) := x in
  Ret (queued_children,
       foldl forget_child (mk_queue rest (delete parent_hash q.(by_parent)) q.(by_height) q.(known_utxos)) queued_children).

(** The body of the loop of [prune_by_height]. *)
Definition prune_block (x : QueuedBlocks * list Event) (hash : bytes) : outcome (QueuedBlocks * list Event) :=
  let '(q, log) := x in
  expired ← unwrap (q.(blocks) !! hash);
  let parent_hash := q_parent expired in
  parent_list ← unwrap (q.(by_parent) !! parent_hash);
  _ ← assert_ (bool_decide (hash ∈ parent_list));
  let parents := if decide (size parent_list = 1%nat) then delete parent_hash q.(by_parent)
                 else <[parent_hash := parent_list ∖ {[hash]}]> q.(by_parent) in
  Ret (mk_queue (delete hash q.(blocks)) parents q.(by_height) (without_utxos expired.(q_block).(new_outputs) q.(known_utxos)),
       log ++ [Fails expired.(rsp_tx) (PrunedBelowFinalizedTip (q_height expired))]).

(** The heights are visited in their order. *)
Definition hashes_by_height (m : gmap Z (gset bytes)) : list bytes :=
  concat (map (λ x, iter x.2) (merge_sort (H := λ x y, Z.le_dec x.1 y.1) (λ x y, x.1 ≤ y.1) (map_to_list m))).
Definition prune_by_height (finalized_tip_height : Z) (q : QueuedBlocks) : outcome (QueuedBlocks * list Event) :=
  split_height ← unwrap (height_sub finalized_tip_height (-1));
  let pruned := filter (λ x, x.1 < split_height) q.(by_height) in
  let kept := filter (λ x, split_height ≤ x.1) q.(by_height) in
  for_each prune_block (hashes_by_height pruned) (mk_queue q.(blocks) q.(by_parent) kept q.(known_utxos), []).
End queued.

(** ** Sent blocks *)

Record SentHashes := mk_sent {
  bufs : list (list (bytes * Z));
  curr_buf : list (bytes * Z);
  sent : gmap bytes (gset OutPoint);
  sent_utxos : gmap OutPoint Utxo;
  can_fork_chain_at_hashes : bool }.
Definition no_sent : SentHashes := mk_sent [] [] ∅ ∅ false.

(** [add], [add_finalized] *)
Definition add_sent (b : SemanticallyVerifiedBlock) (s : SentHashes) : SentHashes :=
  mk_sent s.(bufs) (s.(curr_buf) ++ [(b.(prepared_hash), b.(prepared_height))])
    (<[b.(prepared_hash) := dom b.(new_outputs)]> s.(sent)) (with_utxos b.(new_outputs) s.(sent_utxos))
    s.(can_fork_chain_at_hashes).
Definition finish_batch (s : SentHashes) : SentHashes :=
  if decide (s.(curr_buf) = []) then s
  else mk_sent (s.(bufs) ++ [s.(curr_buf)]) [] s.(sent) s.(sent_utxos) s.(can_fork_chain_at_hashes).

(** The loop over one batch: the blocks up to the first one above the bound. *)
Fixpoint prune_buf (height_bound : Z) (buf : list (bytes * Z)) (m : gmap bytes (gset OutPoint) * gmap OutPoint Utxo)
    : list (bytes * Z) * (gmap bytes (gset OutPoint) * gmap OutPoint Utxo) :=
  match buf with
  | [] => ([], m)
  | (hash, height) :: buf' =>
      if height_bound <? height then (buf, m)
      else prune_buf height_bound buf'
             (match m.1 !! hash with
              | Some expired => (delete hash m.1, filter (λ x, x.1 ∉ expired) m.2)
              | None => m
              end)
  end.
Fixpoint prune_bufs (height_bound : Z) (l : list (list (bytes * Z))) (m : gmap bytes (gset OutPoint) * gmap OutPoint Utxo)
    : list (list (bytes * Z)) * (gmap bytes (gset OutPoint) * gmap OutPoint Utxo) :=
  match l with
  | [] => ([], m)
  | buf :: l =>
      let '(buf, m) := prune_buf height_bound buf m in
      let '(l, m) := prune_bufs height_bound l m in
      (if decide (buf = []) then l else buf :: l, m)
  end.
Definition prune_sent (height_bound : Z) (s : SentHashes) : SentHashes :=
  let s := finish_batch s in
  let '(l, m) := prune_bufs height_bound s.(bufs) (s.(sent), s.(sent_utxos)) in
  mk_sent l s.(curr_buf) m.1 m.2 s.(can_fork_chain_at_hashes).

Definition sent_contains (hash : bytes) (s : SentHashes) : bool := bool_decide (is_Some (s.(sent) !! hash)).
Definition can_fork_at_sent (hash : bytes) (s : SentHashes) : bool := s.(can_fork_chain_at_hashes) && sent_contains hash s.

(** ** The service *)

(** What the service asks of the database, of the chains and of Crosslink, and how
    the write task is: it has ended, or has reset the tip after a block failed. *)
Class StateView := {
  contains_height : Z → bool;
  db_tip_hash : bytes;
  db_tip_height : option Z;
  header_by_hash : bytes → option BlockHeader.t;
  ask_crosslink : FatPointerToBftBlock.t → FatPointerToBftBlock.t → outcome bool;
  write_task_ended : bool;
  reset_channel_closed : bool;
  reset_tip_hash : option bytes }.

(** [block_write_sender] has two channels; that of checkpoint blocks is dropped
    after the last checkpoint. *)
Record StateService := mk_service {
  queued_blocks : QueuedBlocks;
  finalized_queue : gmap bytes Queued;
  finalized_sender : bool;
  non_finalized_sender : bool;
  last_sent_hash : bytes;
  sent_hashes : SentHashes;
  full_verifier_utxo_lookahead : Z;
  next_channel : nat;
  log : list Event }.

Definition with_queue (s : StateService) (q : QueuedBlocks) : StateService :=
  mk_service q s.(finalized_queue) s.(finalized_sender) s.(non_finalized_sender) s.(last_sent_hash) s.(sent_hashes)
    s.(full_verifier_utxo_lookahead) s.(next_channel) s.(log).
Definition with_finalized (s : StateService) (m : gmap bytes Queued) (last : bytes) : StateService :=
  mk_service s.(queued_blocks) m s.(finalized_sender) s.(non_finalized_sender) last s.(sent_hashes)
    s.(full_verifier_utxo_lookahead) s.(next_channel) s.(log).
Definition with_sent (s : StateService) (h : SentHashes) : StateService :=
  mk_service s.(queued_blocks) s.(finalized_queue) s.(finalized_sender) s.(non_finalized_sender) s.(last_sent_hash) h
    s.(full_verifier_utxo_lookahead) s.(next_channel) s.(log).
Definition emit (s : StateService) (l : list Event) : StateService :=
  mk_service s.(queued_blocks) s.(finalized_queue) s.(finalized_sender) s.(non_finalized_sender) s.(last_sent_hash)
    s.(sent_hashes) s.(full_verifier_utxo_lookahead) s.(next_channel) (s.(log) ++ l).
(** [oneshot::channel()] *)
Definition new_channel (s : StateService) : nat * StateService :=
  (s.(next_channel),
   mk_service s.(queued_blocks) s.(finalized_queue) s.(finalized_sender) s.(non_finalized_sender) s.(last_sent_hash)
     s.(sent_hashes) s.(full_verifier_utxo_lookahead) (S s.(next_channel)) s.(log)).
(** [block_write_sender.finalized.take()] *)
Definition drop_finalized_sender (s : StateService) : StateService :=
  mk_service s.(queued_blocks) s.(finalized_queue) false s.(non_finalized_sender) s.(last_sent_hash) s.(sent_hashes)
    s.(full_verifier_utxo_lookahead) s.(next_channel) s.(log).

Section service.
Context (iter : gset bytes → list bytes) (drain : gmap bytes Queued → list Queued) {V : StateView}.

(** ** Checkpoint blocks *)

Definition clear_finalized_block_queue (e : CheckpointError) (s : StateService) : StateService :=
  emit (with_finalized s ∅ s.(last_sent_hash))
    (map (λ q, FailsCheckpoint q.(rsp_tx) e) (drain s.(finalized_queue))).

(** The loop of [drain_finalized_queue_and_commit]; [fuel] bounds its iterations. *)
Fixpoint commit_finalized (fuel : nat) (s : StateService) : outcome StateService :=
  match s.(finalized_queue) !! s.(last_sent_hash) with
  | None => Ret s
  | Some q =>
      match fuel with
      | O => Panic
      | S fuel =>
          let s := with_finalized s (delete s.(last_sent_hash) s.(finalized_queue)) (q_hash q) in
          commit_finalized fuel
            (if s.(finalized_sender) then
               if write_task_ended
               then clear_finalized_block_queue CheckpointTaskExited (emit s [FailsCheckpoint q.(rsp_tx) CheckpointTaskExited])
               else emit s [CommitCheckpoint q]
             else s)
      end
  end.
Definition drain_finalized_queue_and_commit (s : StateService) : outcome StateService :=
  match reset_tip_hash with
  | Some hash =>
      let s := with_finalized s s.(finalized_queue) hash in commit_finalized (size s.(finalized_queue)) s
  | None => if reset_channel_closed then Ret s else commit_finalized (size s.(finalized_queue)) s
  end.

Definition is_close_to_final_checkpoint (queued_height : Z) (s : StateService) : bool :=
  s.(full_verifier_utxo_lookahead) <=? queued_height.

Definition queue_and_commit_to_finalized_state (b : SemanticallyVerifiedBlock) (s : StateService)
    : outcome (nat * StateService) :=
  let s := if is_close_to_final_checkpoint b.(prepared_height) s then with_sent s (add_sent b s.(sent_hashes)) else s in
  let '(rsp, s) := new_channel s in
  let queued := {| q_block := b; rsp_tx := rsp |} in
  if s.(finalized_sender) then
    let s' := with_finalized s (<[q_parent queued := queued]> s.(finalized_queue)) s.(last_sent_hash) in
    s' ← drain_finalized_queue_and_commit
           (match s.(finalized_queue) !! q_parent queued with
            | Some old => emit s' [FailsCheckpoint old.(rsp_tx) NewerDuplicate]
            | None => s'
            end);
    Ret (rsp, s')
  else Ret (rsp, clear_finalized_block_queue FinishedCheckpoints (emit s [FailsCheckpoint rsp FinishedCheckpoints])).

(** ** Other blocks *)

Definition clear_non_finalized_block_queue (e : CommitError) (s : StateService) : StateService :=
  emit (with_queue s empty_queue) (map (λ q, Fails q.(rsp_tx) e) (drain s.(queued_blocks).(blocks))).

(** The inner loop of [send_ready_non_finalized_queued]; [false] if it returns. *)
Fixpoint send_children (children : list Queued) (new_parents : list bytes) (s : StateService)
    : bool * list bytes * StateService :=
  match children with
  | [] => (true, new_parents, s)
  | child :: children =>
      let s := with_sent s (add_sent child.(q_block) s.(sent_hashes)) in
      if write_task_ended
      then (false, new_parents, clear_non_finalized_block_queue CommitTaskExited (emit s [Fails child.(rsp_tx) CommitTaskExited]))
      else send_children children (q_hash child :: new_parents) (emit s [Commit child])
  end.
(** The outer loop; the parents are a stack, and [fuel] bounds its iterations. *)
Fixpoint send_ready (fuel : nat) (new_parents : list bytes) (s : StateService) : outcome StateService :=
  match new_parents with
  | [] => Ret (with_sent s (finish_batch s.(sent_hashes)))
  | parent_hash :: new_parents =>
      match fuel with
      | O => Panic
      | S fuel =>
          x ← dequeue_children iter parent_hash s.(queued_blocks);
          let '(children, q) := x in
          let '(go_on, new_parents, s) := send_children children new_parents (with_queue s q) in
          if go_on then send_ready fuel new_parents s else Ret s
      end
  end.
Definition send_ready_non_finalized_queued (new_parent : bytes) (s : StateService) : outcome StateService :=
  if s.(non_finalized_sender) then send_ready (S (size s.(queued_blocks).(blocks))) [new_parent] s else Ret s.

Definition can_fork_chain_at (hash : bytes) (s : StateService) : bool :=
  can_fork_at_sent hash s.(sent_hashes) || bool_decide (db_tip_hash = hash).

(** An error on a channel of its own. *)
Definition fail_now (e : CommitError) (s : StateService) : nat * StateService :=
  let '(rsp, s) := new_channel s in (rsp, emit s [Fails rsp e]).

(** [CROSSLINK]: a block with a parent whose header is known, and whose pointer to
    a BFT block is not older than that of its parent. *)
Definition crosslink_ready (b : SemanticallyVerifiedBlock) : outcome bool :=
  match header_by_hash b.(prepared_block).(Block.header).(BlockHeader.prev_block) with
  | None => Ret false
  | Some parent => ask_crosslink parent.(BlockHeader.fat_pointer_to_bft_block)
                     b.(prepared_block).(Block.header).(BlockHeader.fat_pointer_to_bft_block)
  end.

Definition enqueue (b : SemanticallyVerifiedBlock) (s : StateService) : nat * StateService :=
  let '(rsp, s) := new_channel s in
  match s.(queued_blocks).(blocks) !! b.(prepared_hash) with
  | Some old =>
      let q := s.(queued_blocks) in
      (rsp, emit (with_queue s (mk_queue (<[b.(prepared_hash) := {| q_block := old.(q_block); rsp_tx := rsp |}]> q.(blocks))
                                  q.(by_parent) q.(by_height) q.(known_utxos)))
              [Fails old.(rsp_tx) (ReplacedByNewerRequest b.(prepared_hash))])
  | None => (rsp, with_queue s (queue {| q_block := b; rsp_tx := rsp |} s.(queued_blocks)))
  end.

Definition queue_and_commit_to_non_finalized_state (b : SemanticallyVerifiedBlock) (s : StateService)
    : outcome (nat * StateService) :=
  let parent_hash := b.(prepared_block).(Block.header).(BlockHeader.prev_block) in
  if sent_contains b.(prepared_hash) s.(sent_hashes) then Ret (fail_now (DuplicateCommitRequest b.(prepared_hash)) s)
  else if contains_height b.(prepared_height) then Ret (fail_now (AlreadyFinalized b.(prepared_height)) s)
  else
    let '(rsp, s) := enqueue b s in
    if s.(finalized_sender) && has_queued_children s.(last_sent_hash) s.(queued_blocks)
       && bool_decide (db_tip_hash = s.(last_sent_hash)) then
      ready ← crosslink_ready b;
      if negb ready then Ret (fail_now (CrosslinkNotReady b.(prepared_height)) s) else
      let s := with_sent (drop_finalized_sender s) (mk_sent [] [] ∅ ∅ true) in
      s ← send_ready_non_finalized_queued s.(last_sent_hash) s;
      Ret (rsp, clear_finalized_block_queue FinishedCheckpoints s)
    else if negb (can_fork_chain_at parent_hash s) then Ret (rsp, s)
    else if negb s.(finalized_sender) then
      ready ← crosslink_ready b;
      if negb ready then Ret (fail_now (CrosslinkNotReady b.(prepared_height)) s) else
      s ← send_ready_non_finalized_queued parent_hash s;
      tip_height ← unwrap db_tip_height;
      x ← prune_by_height iter tip_height s.(queued_blocks);
      Ret (rsp, with_sent (emit (with_queue s x.1) x.2) (prune_sent tip_height s.(sent_hashes)))
    else Ret (rsp, s).
End service.
