(* ===== verification/QueueInv.v ===== *)
(** * QueueInv: the queue sends ready blocks, parents first

    - the indexes of the queue agree with its blocks, so that none of its
      [expect]s and assertions fails;
    - when a parent arrives, all its descendants in the queue are sent to the
      write task, each after its parent, and the loop that does so ends;
    - a request to commit a block gets an answer, or its block waits in the queue
      or is with the write task;
    - what goes wrong: blocks that waited for their parents are not shown to
      Crosslink, and a height that loses a block is never pruned. *)

From stdpp Require Import base list gmap sets sorting.
From S2P Require Import Prelude Wire Encoding Bft Roster Amount Staking Transparent Network Subsidy Transaction Delegation DelegationInv DelegationBlock BlockValue Spends Merkle TxVerifier Difficulty BlockVerifier Queue.

(** ** The indexes of the queue *)

Definition children (q : QueuedBlocks) (p : bytes) : gset bytes := default ∅ (q.(by_parent) !! p).

(** The index by parent is exact; that by height may have lost blocks. *)
Record parents_ok (q : QueuedBlocks) : Prop := {
  po_hash : ∀ h b, q.(blocks) !! h = Some b → q_hash b = h;
  po_parent : ∀ p h, h ∈ children q p ↔ ∃ b, q.(blocks) !! h = Some b ∧ q_parent b = p;
  po_some : ∀ p X, q.(by_parent) !! p = Some X → X ≠ ∅ }.
Definition heights_ok (q : QueuedBlocks) : Prop :=
  ∀ k X h, q.(by_height) !! k = Some X → h ∈ X → ∃ b, q.(blocks) !! h = Some b ∧ q_height b = k.
Definition queue_ok (q : QueuedBlocks) : Prop := parents_ok q ∧ heights_ok q.

Lemma add_to_elem `{Countable K} (k : K) hash m k' h :
  h ∈ default ∅ (add_to k hash m !! k') ↔ (k' = k ∧ h = hash) ∨ h ∈ default ∅ (m !! k').
Proof.
  unfold add_to. destruct (decide (k' = k)) as [->|Hne].
  - rewrite lookup_insert_eq. cbn. set_solver.
  - rewrite lookup_insert_ne by done. set_solver.
Qed.

Lemma empty_queue_ok : queue_ok empty_queue.
Proof.
  split; [split|]; cbn.
  - intros h b Hb. by rewrite lookup_empty in Hb.
  - intros p h. unfold children. cbn. rewrite lookup_empty. split; [set_solver|].
    intros (b & Hb & _). by rewrite lookup_empty in Hb.
  - intros p X HX. by rewrite lookup_empty in HX.
  - intros k X h HX. cbn in HX. by rewrite lookup_empty in HX.
Qed.

Lemma queue_keeps new q : queue_ok q → queue_ok (queue new q).
Proof.
  intros [[Hh Hp Hs] Hk]. unfold queue. case_decide as Hn; [done|]. apply eq_None_not_Some in Hn. split; [split|]; cbn.
  - intros h b. destruct (decide (h = q_hash new)) as [->|Hne]; [rewrite lookup_insert_eq; by intros [= <-]|].
    rewrite lookup_insert_ne by done. apply Hh.
  - intros p h. unfold children. cbn. rewrite add_to_elem. fold (children q p). rewrite Hp.
    destruct (decide (h = q_hash new)) as [->|Hne].
    + rewrite lookup_insert_eq. split; [|intros (b & [= <-] & <-); by left].
      intros [[-> _]|(b & Hb & _)]; [by exists new|congruence].
    + rewrite lookup_insert_ne by done. naive_solver.
  - intros p X. unfold add_to. destruct (decide (p = q_parent new)) as [->|Hne].
    + rewrite lookup_insert_eq. intros [= <-]. set_solver.
    + rewrite lookup_insert_ne by done. apply Hs.
  - intros k X h HX Hin. cbn in *.
    assert (h ∈ default ∅ (add_to (q_height new) (q_hash new) (by_height q) !! k)) as Hin' by by rewrite HX.
    apply add_to_elem in Hin' as [[-> ->]|Hin']; [rewrite lookup_insert_eq; by exists new|].
    destruct (by_height q !! k) as [Y|] eqn:EY; cbn in Hin'; [|set_solver].
    destruct (Hk k Y h EY Hin') as (b & Hb & Hbk). exists b. split; [|done].
    rewrite lookup_insert_ne; [done|]. intros <-. congruence.
Qed.

(** ** Taking children out *)

Lemma forget_children cs : ∀ q,
  (foldl forget_child q cs).(blocks) = q.(blocks) ∧ (foldl forget_child q cs).(by_parent) = q.(by_parent) ∧
  ∀ k, (foldl forget_child q cs).(by_height) !! k = if decide (k ∈ map q_height cs) then None else q.(by_height) !! k.
Proof.
  induction cs as [|c cs IH]; intros q; cbn [foldl map].
  { split; [done|]. split; [done|]. intros k. by rewrite decide_False by set_solver. }
  destruct (IH (forget_child q c)) as (-> & -> & Hk). split; [done|]. split; [done|]. intros k. rewrite Hk. cbn.
  destruct (decide (k = q_height c)) as [->|Hne].
  - rewrite lookup_delete_eq. rewrite (decide_True _ _ (P := _ ∈ q_height c :: _)) by set_solver. by destruct (decide _).
  - rewrite lookup_delete_ne by done. destruct (decide (k ∈ map q_height cs)); [by rewrite decide_True by set_solver|].
    by rewrite decide_False by set_solver.
Qed.

Section iter.
Context (iter : gset bytes → list bytes) (Hiter : ∀ X, iter X ≡ₚ elements X).

Lemma iter_elem X h : h ∈ iter X ↔ h ∈ X.
Proof. rewrite Hiter. apply elem_of_elements. Qed.
Lemma iter_nodup X : NoDup (iter X).
Proof. rewrite Hiter. apply NoDup_elements. Qed.

Lemma take_blocks_spec l : ∀ m,
  NoDup l → (∀ h, h ∈ l → is_Some (m !! h)) →
  ∃ bs m', take_blocks l m = Ret (bs, m') ∧ Forall2 (λ h b, m !! h = Some b) l bs ∧
    (∀ h, m' !! h = if decide (h ∈ l) then None else m !! h).
Proof.
  induction l as [|h l IH]; intros m Hnd Hin; cbn [take_blocks].
  { exists [], m. split; [done|]. split; [constructor|]. intros h. by rewrite decide_False by set_solver. }
  apply NoDup_cons in Hnd as [Hh Hnd]. destruct (Hin h) as [b Hb]; [set_solver|]. rewrite Hb. cbn [unwrap mbind outcome_bind].
  destruct (IH (delete h m) Hnd) as (bs & m' & -> & Hbs & Hm').
  { intros h' Hh'. rewrite lookup_delete_ne by set_solver. apply Hin. set_solver. }
  cbn. exists (b :: bs), m'. split; [done|]. split.
  - constructor; [done|]. eapply Forall2_impl; [exact Hbs|]. intros h' b' Hb'. cbn in Hb'.
    apply lookup_delete_Some in Hb'. tauto.
  - intros h'. rewrite Hm'. destruct (decide (h' = h)) as [->|Hne].
    + rewrite lookup_delete_eq. rewrite (decide_True _ _ (P := h ∈ h :: l)) by set_solver. by destruct (decide _).
    + rewrite lookup_delete_ne by done. destruct (decide (h' ∈ l)); [by rewrite decide_True by set_solver|].
      rewrite decide_False by set_solver. done.
Qed.

(** The children of a parent are taken out, and the rest of the queue is kept. *)
Lemma dequeue_spec p q : queue_ok q →
  ∃ cs q', dequeue_children iter p q = Ret (cs, q') ∧ queue_ok q' ∧ NoDup (map q_hash cs) ∧
    (∀ b, b ∈ cs → q.(blocks) !! q_hash b = Some b ∧ q_parent b = p) ∧
    (∀ h, q'.(blocks) !! h = if decide (h ∈ map q_hash cs) then None else q.(blocks) !! h) ∧
    (∀ h b, q'.(blocks) !! h = Some b → q_parent b ≠ p).
Proof.
  intros [[Hh Hp Hs] Hk]. unfold dequeue_children. fold (children q p).
  destruct (take_blocks_spec (iter (children q p)) q.(blocks)) as (cs & m' & -> & Hcs & Hm').
  { apply iter_nodup. }
  { intros h Hin%iter_elem%Hp. destruct Hin as (b & Hb & _). by exists b. }
  assert (map q_hash cs = iter (children q p)) as Ecs.
  { clear -Hcs Hh. induction Hcs as [|h b l bs Hb _ IH]; [done|]. cbn. by rewrite IH, (Hh _ _ Hb). }
  assert (∀ b, b ∈ cs → q.(blocks) !! q_hash b = Some b ∧ q_parent b = p) as Hin.
  { intros b [i Hi]%list_elem_of_lookup. destruct (Forall2_lookup_r _ _ _ _ _ Hcs Hi) as (h & Hl & Hb).
    rewrite (Hh _ _ Hb). split; [done|]. assert (h ∈ children q p) as (b' & Hb' & <-)%Hp.
    { apply iter_elem, list_elem_of_lookup. by exists i. } congruence. }
  cbn [mbind outcome_bind].
  destruct (forget_children cs (mk_queue m' (delete p q.(by_parent)) q.(by_height) q.(known_utxos))) as (Eb & Ep & Eh).
  cbn in Eb, Ep, Eh. eexists cs, _. split; [reflexivity|].
  assert (∀ h, (foldl forget_child (mk_queue m' (delete p q.(by_parent)) q.(by_height) q.(known_utxos)) cs).(blocks) !! h =
            if decide (h ∈ map q_hash cs) then None else q.(blocks) !! h) as Hbl.
  { intros h. rewrite Eb, Hm', Ecs. done. }
  assert (∀ h b, (foldl forget_child (mk_queue m' (delete p q.(by_parent)) q.(by_height) q.(known_utxos)) cs).(blocks) !! h
            = Some b → q.(blocks) !! h = Some b ∧ q_parent b ≠ p) as Hleft.
  { intros h b. rewrite Hbl. case_decide as Hd; [done|]. intros Hb. split; [done|]. intros Hbp. apply Hd. rewrite Ecs.
    apply iter_elem, Hp. by exists b. }
  split; [|split; [rewrite Ecs; apply iter_nodup|split; [done|split; [done|by intros h b [_ ?]%Hleft]]]].
  split; [split|].
  - intros h b [Hb _]%Hleft. by apply Hh.
  - intros p' h. unfold children. rewrite Ep. destruct (decide (p' = p)) as [->|Hne].
    + rewrite lookup_delete_eq. cbn. split; [set_solver|]. by intros (b & [_ ?]%Hleft & ?).
    + rewrite lookup_delete_ne by done. fold (children q p'). rewrite Hp. split.
      * intros (b & Hb & <-). exists b. split; [|done]. rewrite Hbl. case_decide as Hd; [|done].
        apply list_elem_of_In, in_map_iff in Hd as (b' & <- & Hb'%list_elem_of_In). destruct (Hin b' Hb'). congruence.
      * intros (b & [Hb _]%Hleft & ?). by exists b.
  - intros p' X. rewrite Ep. intros [_ HX]%lookup_delete_Some. by eapply Hs.
  - intros k X h. rewrite Eh. case_decide as Hd; [done|]. intros HX Hhx. destruct (Hk k X h HX Hhx) as (b & Hb & Hbk).
    exists b. split; [|done]. rewrite Hbl. case_decide as Hd'; [|done]. exfalso. apply Hd.
    apply list_elem_of_In, in_map_iff in Hd' as (b' & Hb' & Hin'%list_elem_of_In).
    destruct (Hin b' Hin') as [Hb'' _]. apply list_elem_of_In, in_map_iff. exists b'. split; [congruence|by apply list_elem_of_In].
Qed.

(** ** Pruning *)

Lemma prune_block_spec q log hash b :
  parents_ok q → q.(blocks) !! hash = Some b →
  ∃ q', prune_block (q, log) hash = Ret (q', log ++ [Fails b.(rsp_tx) (PrunedBelowFinalizedTip (q_height b))]) ∧
    parents_ok q' ∧ q'.(blocks) = delete hash q.(blocks) ∧ q'.(by_height) = q.(by_height).
Proof.
  intros [Hh Hp Hs] Hb. unfold prune_block. rewrite Hb. cbn [unwrap mbind outcome_bind].
  assert (hash ∈ children q (q_parent b)) as Hin by (apply Hp; by exists b).
  unfold children in Hin. destruct (by_parent q !! q_parent b) as [X|] eqn:EX; cbn in Hin; [|set_solver].
  cbn [unwrap mbind outcome_bind]. rewrite bool_decide_eq_true_2 by done. cbn [assert_ mbind outcome_bind].
  eexists. split; [reflexivity|]. cbn. split; [|done].
  assert (∀ p, default ∅ ((if decide (size X = 1%nat) then delete (q_parent b) (by_parent q)
             else <[q_parent b := X ∖ {[hash]}]> (by_parent q)) !! p) = children q p ∖ {[hash]}) as Hch.
  { intros p. unfold children. destruct (decide (p = q_parent b)) as [->|Hne].
    - rewrite EX. cbn. case_decide as Hsz; [|by rewrite lookup_insert_eq].
      rewrite lookup_delete_eq. cbn. apply size_1_elem_of in Hsz as [y Hy]. set_solver.
    - assert (hash ∉ children q p) as Hn.
      { intros (b' & Hb' & <-)%Hp. congruence. }
      unfold children in Hn. case_decide; [rewrite lookup_delete_ne by done|rewrite lookup_insert_ne by done]; set_solver. }
  split; cbn.
  - intros h b' [_ Hb']%lookup_delete_Some. by apply Hh.
  - intros p h. unfold children at 1. cbn. rewrite Hch, elem_of_difference, Hp, not_elem_of_singleton.
    split; [intros [(b' & ? & ?) ?]; exists b'; by rewrite lookup_delete_ne|].
    intros (b' & [? ?]%lookup_delete_Some & ?). split; [by exists b'|done].
  - intros p Y. case_decide as Hsz; [intros [_ HY]%lookup_delete_Some; by eapply Hs|].
    destruct (decide (p = q_parent b)) as [->|Hne]; [|rewrite lookup_insert_ne by done; apply Hs].
    rewrite lookup_insert_eq. intros [= <-] Hemp. apply Hsz.
    assert (X = {[hash]}) as ->; [|apply size_singleton].
    apply set_eq. intros y. rewrite elem_of_singleton. split; [|by intros ->]. intros Hy.
    destruct (decide (y = hash)) as [|Hne]; [done|]. exfalso. apply (not_elem_of_empty (C := gset bytes) y).
    rewrite <- Hemp. apply elem_of_difference. by rewrite not_elem_of_singleton.
Qed.

Lemma omap_ext_in {A B} (f g : A → option B) (l : list A) : (∀ x, x ∈ l → f x = g x) → omap f l = omap g l.
Proof.
  induction l as [|x l IH]; intros Hl; [done|]. cbn [omap list_omap]. rewrite (Hl x) by set_solver.
  destruct (g x); [f_equal|]; apply IH; set_solver.
Qed.

Definition pruned_response (q : QueuedBlocks) (hash : bytes) : option Event :=
  (λ b, Fails b.(rsp_tx) (PrunedBelowFinalizedTip (q_height b))) <$> q.(blocks) !! hash.

Lemma prune_loop l : ∀ q log,
  parents_ok q → NoDup l → (∀ h, h ∈ l → is_Some (q.(blocks) !! h)) →
  ∃ q', for_each prune_block l (q, log) = Ret (q', log ++ omap (pruned_response q) l) ∧ parents_ok q' ∧
    (∀ h, q'.(blocks) !! h = if decide (h ∈ l) then None else q.(blocks) !! h) ∧ q'.(by_height) = q.(by_height).
Proof.
  induction l as [|h l IH]; intros q log Hq Hnd Hin.
  { exists q. cbn. rewrite app_nil_r. split; [done|]. split; [done|]. split; [|done]. intros h.
    by rewrite decide_False by set_solver. }
  apply NoDup_cons in Hnd as [Hh Hnd]. destruct (Hin h) as [b Hb]; [set_solver|].
  destruct (prune_block_spec q log h b Hq Hb) as (q1 & E1 & Hq1 & Eb & Eh).
  cbn [for_each]. rewrite E1. cbn [mbind outcome_bind].
  destruct (IH q1 (log ++ [Fails b.(rsp_tx) (PrunedBelowFinalizedTip (q_height b))]) Hq1 Hnd) as (q' & E & Hq' & Hbl & Ehk).
  { intros h' Hh'. rewrite Eb, lookup_delete_ne by set_solver. apply Hin. set_solver. }
  exists q'. split.
  { rewrite E, <- app_assoc. do 2 f_equal. cbn [omap list_omap]. unfold pruned_response at 2. rewrite Hb. cbn [fmap option_fmap option_map app].
    do 2 f_equal. apply omap_ext_in. intros h' Hh'. unfold pruned_response. rewrite Eb, lookup_delete_ne; [done|].
    by intros <-. }
  split; [done|]. split; [|by rewrite Ehk]. intros h'. rewrite Hbl, Eb. destruct (decide (h' = h)) as [->|Hne].
  - rewrite lookup_delete_eq. rewrite (decide_True _ _ (P := h ∈ h :: l)) by set_solver. by destruct (decide _).
  - rewrite lookup_delete_ne by done. destruct (decide (h' ∈ l)); [by rewrite decide_True by set_solver|].
    by rewrite decide_False by set_solver.
Qed.

Lemma hashes_elem m h : h ∈ hashes_by_height iter m ↔ ∃ k X, m !! k = Some X ∧ h ∈ X.
Proof.
  unfold hashes_by_height. rewrite list_elem_of_In, in_concat. split.
  - intros (l & (x & <- & Hx)%in_map_iff & Hh). apply list_elem_of_In in Hx, Hh. apply iter_elem in Hh.
    rewrite merge_sort_Permutation in Hx. destruct x as [k X]. apply elem_of_map_to_list in Hx. by exists k, X.
  - intros (k & X & HX & Hh). exists (iter X). split; [|by apply list_elem_of_In, iter_elem].
    apply in_map_iff. exists (k, X). split; [done|]. apply list_elem_of_In. rewrite merge_sort_Permutation.
    by apply elem_of_map_to_list.
Qed.

Lemma hashes_nodup q m : heights_ok q → (∀ k X, m !! k = Some X → q.(by_height) !! k = Some X) → NoDup (hashes_by_height iter m).
Proof.
  intros Hk Hm. unfold hashes_by_height.
  assert (∀ l : list (Z * gset bytes), NoDup (map fst l) → (∀ x, x ∈ l → m !! x.1 = Some x.2) →
            NoDup (concat (map (λ x, iter x.2) l))) as Hl.
  { induction l as [|[k X] l IH]; cbn; [constructor|]. intros [Hk' Hnd]%NoDup_cons Hin.
    apply NoDup_app. split; [apply iter_nodup|]. split; [|apply IH; [done|set_solver]].
    intros h Hh%iter_elem Hh'. apply list_elem_of_In, in_concat in Hh' as (l' & (y & <- & Hy)%in_map_iff & Hh').
    apply list_elem_of_In in Hy, Hh'. apply iter_elem in Hh'.
    destruct (Hk k X h) as (b & Hb & Hbk); [apply Hm, (Hin (k, X)); set_solver|done|].
    destruct (Hk y.1 y.2 h) as (b' & Hb' & Hbk'); [apply Hm, Hin; set_solver|done|].
    apply Hk'. assert (k = y.1) as -> by congruence. by apply list_elem_of_fmap_2. }
  apply Hl.
  - assert (NoDup (map fst (map_to_list m))) as Hnd by apply NoDup_fst_map_to_list.
    by rewrite (Permutation_map fst (merge_sort_Permutation _ _)).
  - intros [k X] Hx. rewrite merge_sort_Permutation in Hx. by apply elem_of_map_to_list in Hx.
Qed.

(** Pruning takes out what the index by height has up to the bound, and tells the
    requests. *)
Lemma prune_spec t q : queue_ok q → 0 ≤ t < HEIGHT_MAX →
  ∃ q' l, prune_by_height iter t q = Ret (q', omap (pruned_response q) l) ∧ queue_ok q' ∧
    (∀ h, h ∈ l ↔ ∃ k X, k ≤ t ∧ q.(by_height) !! k = Some X ∧ h ∈ X) ∧
    (∀ h, q'.(blocks) !! h = if decide (h ∈ l) then None else q.(blocks) !! h).
Proof.
  intros [[Hh Hp Hs] Hk] Ht. unfold prune_by_height.
  assert (height_sub t (-1) = Some (t + 1)) as ->.
  { unfold height_sub. replace (t - -1) with (t + 1) by lia. unfold HEIGHT_MAX in *.
    rewrite (proj2 (in_range_spec 32 (t + 1))) by (unfold is_u; lia). by rewrite (proj2 (Z.leb_le _ _)) by lia. }
  cbn [unwrap mbind outcome_bind]. set (pruned := filter (λ x, x.1 < t + 1) q.(by_height)).
  assert (∀ k X, pruned !! k = Some X ↔ k ≤ t ∧ q.(by_height) !! k = Some X) as Hpr.
  { intros k X. unfold pruned. rewrite map_lookup_filter_Some. cbn. split; [intros [? ?]|intros [? ?]]; split; (done || lia). }
  set (kept := filter (λ x, t + 1 ≤ x.1) q.(by_height)).
  destruct (prune_loop (hashes_by_height iter pruned) (mk_queue q.(blocks) q.(by_parent) kept q.(known_utxos)) [])
    as (q' & E & Hq' & Hbl & Ehk).
  { by split. }
  { apply (hashes_nodup q); [done|]. by intros k X [_ ?]%Hpr. }
  { intros h (k & X & [_ HX]%Hpr & Hin)%hashes_elem. destruct (Hk k X h HX Hin) as (b & Hb & _). cbn. by exists b. }
  exists q', (hashes_by_height iter pruned). split; [exact E|]. split; [|split; [|done]].
  - split; [done|]. intros k X h. rewrite Ehk. cbn. unfold kept. rewrite map_lookup_filter_Some. cbn. intros [HX Hkt] Hin.
    destruct (Hk k X h HX Hin) as (b & Hb & Hbk). exists b. split; [|done]. rewrite Hbl. case_decide as Hd; [|done].
    apply hashes_elem in Hd as (k' & X' & [Hk' HX']%Hpr & Hin'). destruct (Hk k' X' h HX' Hin') as (b' & Hb' & Hbk').
    cbn in *. assert (b = b') as -> by congruence. lia.
  - intros h. rewrite hashes_elem. setoid_rewrite Hpr. naive_solver.
Qed.
End iter.

(** ** Sending ready blocks *)

(** Every block of a list comes after its parent, or its parent is known. *)
Fixpoint parents_first (known : list bytes) (l : list Queued) : Prop :=
  match l with
  | [] => True
  | b :: l => q_parent b ∈ known ∧ parents_first (q_hash b :: known) l
  end.

Lemma parents_first_mono l : ∀ k1 k2, (∀ h, h ∈ k1 → h ∈ k2) → parents_first k1 l → parents_first k2 l.
Proof.
  induction l as [|b l IH]; intros k1 k2 Hk; cbn; [done|]. intros [Hb Hl]. split; [by apply Hk|].
  eapply IH; [|exact Hl]. set_solver.
Qed.
Lemma parents_first_app l1 : ∀ l2 k,
  parents_first k l1 → parents_first (rev (map q_hash l1) ++ k) l2 → parents_first k (l1 ++ l2).
Proof.
  induction l1 as [|b l1 IH]; intros l2 k; cbn; [done|]. intros [Hb Hl] H2. split; [done|]. apply IH; [done|].
  by rewrite <- app_assoc in H2.
Qed.
Lemma children_first p l k : p ∈ k → (∀ b, b ∈ l → q_parent b = p) → parents_first k l.
Proof.
  revert k. induction l as [|b l IH]; intros k Hp Hl; cbn; [done|]. split; [by rewrite Hl by set_solver|].
  apply IH; set_solver.
Qed.

Definition commits (l : list Event) : list Queued :=
  omap (λ e, match e with Commit q => Some q | _ => None end) l.
Lemma commits_map l : commits (map Commit l) = l.
Proof. unfold commits. induction l as [|b l IH]; [done|]. cbn. by rewrite IH. Qed.
Lemma commits_app l1 l2 : commits (l1 ++ l2) = commits l1 ++ commits l2.
Proof. apply omap_app. Qed.

Section service.
Context (iter : gset bytes → list bytes) (Hiter : ∀ X, iter X ≡ₚ elements X).
Context (drain : gmap bytes Queued → list Queued) {V : StateView} (Hrun : write_task_ended = false).

(** What the service keeps when it sends blocks. *)
Record sends (s s' : StateService) (l : list Queued) : Prop := {
  se_log : s'.(log) = s.(log) ++ map Commit l;
  se_sent : ∀ h, is_Some (s'.(sent_hashes).(sent) !! h) ↔ is_Some (s.(sent_hashes).(sent) !! h) ∨ h ∈ map q_hash l;
  se_rest : (finalized_queue s', finalized_sender s', non_finalized_sender s', last_sent_hash s', next_channel s') =
            (finalized_queue s, finalized_sender s, non_finalized_sender s, last_sent_hash s, next_channel s) }.

Lemma sends_trans s1 s2 s3 l1 l2 : sends s1 s2 l1 → sends s2 s3 l2 → sends s1 s3 (l1 ++ l2).
Proof.
  intros [E1 S1 R1] [E2 S2 R2]. split; [by rewrite E2, E1, map_app, app_assoc| |congruence].
  intros h. rewrite S2, S1, map_app, elem_of_app. tauto.
Qed.

Lemma send_children_spec cs : ∀ parents s,
  ∃ s', send_children drain cs parents s = (true, rev (map q_hash cs) ++ parents, s') ∧ sends s s' cs ∧
    s'.(queued_blocks) = s.(queued_blocks).
Proof.
  induction cs as [|c cs IH]; intros parents s; cbn [send_children].
  { exists s. split; [done|]. split; [|done]. split; [by rewrite app_nil_r| |done]. intros h. cbn. set_solver. }
  rewrite Hrun. destruct (IH (q_hash c :: parents) (emit (with_sent s (add_sent c.(q_block) s.(sent_hashes))) [Commit c]))
    as (s' & -> & Hs & Hq).
  exists s'. split; [cbn; by rewrite <- app_assoc|]. split; [|by rewrite Hq].
  apply (sends_trans _ (emit (with_sent s (add_sent c.(q_block) s.(sent_hashes))) [Commit c]) _ [c] cs); [|done].
  split; [done| |done]. intros h. cbn. fold (q_hash c). destruct (decide (h = q_hash c)) as [->|Hne].
  - rewrite lookup_insert_eq. split; [intros _; right; set_solver|by eexists].
  - rewrite lookup_insert_ne by done. split; [by left|intros [?|?]; [done|set_solver]].
Qed.

Lemma finish_batch_sent h : (finish_batch h).(sent) = h.(sent).
Proof. unfold finish_batch. by case_decide. Qed.

(** A queue without the blocks of a list. *)
Definition without (q q' : QueuedBlocks) (l : list Queued) : Prop :=
  ∀ h, q'.(blocks) !! h = if decide (h ∈ map q_hash l) then None else q.(blocks) !! h.

Lemma without_size q q' l :
  without q q' l → NoDup (map q_hash l) → (∀ b, b ∈ l → is_Some (q.(blocks) !! q_hash b)) →
  (size (blocks q') + length l)%nat = size (blocks q).
Proof.
  intros Hw Hnd Hin. rewrite <- !size_dom. rewrite <- (length_map q_hash), <- (size_list_to_set (C := gset bytes)) by done.
  rewrite <- size_union.
  - f_equal. apply set_eq. intros h. rewrite elem_of_union, elem_of_list_to_set, !elem_of_dom, Hw.
    case_decide as Hd; [|split; [intros [?|?]; done|by left]]. split; [|by right]. intros _.
    apply list_elem_of_In, in_map_iff in Hd as (b & <- & Hb%list_elem_of_In). by apply Hin.
  - intros h. rewrite elem_of_list_to_set, elem_of_dom, Hw. case_decide; [|done]. by intros [? ?].
Qed.

Lemma send_ready_spec fuel : ∀ parents s,
  queue_ok s.(queued_blocks) → (length parents + size s.(queued_blocks).(blocks) ≤ fuel)%nat →
  ∃ s' l, send_ready iter drain fuel parents s = Ret s' ∧ queue_ok s'.(queued_blocks) ∧ sends s s' l ∧
    NoDup (map q_hash l) ∧ (∀ b, b ∈ l → s.(queued_blocks).(blocks) !! q_hash b = Some b) ∧
    without s.(queued_blocks) s'.(queued_blocks) l ∧ parents_first parents l ∧
    (∀ h b, s'.(queued_blocks).(blocks) !! h = Some b → (q_parent b ∉ parents) ∧ q_parent b ∉ map q_hash l).
Proof.
  induction fuel as [|fuel IH]; intros [|p parents] s Hq Hf.
  1, 3: exists (with_sent s (finish_batch s.(sent_hashes))), []; split; [done|]; split; [done|];
    split; [split; [by rewrite app_nil_r| |done]; intros h; cbn; rewrite finish_batch_sent; set_solver|];
    split; [constructor|]; split; [set_solver|]; split; [intros h; by rewrite decide_False by set_solver|]; split; [done|];
    intros h b _; split; set_solver.
  { cbn in Hf. lia. }
  cbn [send_ready]. destruct (dequeue_spec iter Hiter p _ Hq) as (cs & q' & -> & Hq' & Hnd & Hcs & Hw & Hnp).
  cbn [mbind outcome_bind]. destruct (send_children_spec cs parents (with_queue s q')) as (s1 & -> & Hs1 & Hq1).
  pose proof (without_size _ _ cs Hw Hnd (λ b Hb, ex_intro _ b (proj1 (Hcs b Hb)))) as Hsz. cbn in Hq1.
  destruct (IH (rev (map q_hash cs) ++ parents) s1) as (s' & l & -> & Hok & Hs & Hnd' & Hin & Hw' & Hfirst & Hleft).
  { by rewrite Hq1. }
  { rewrite length_app, length_rev, length_map, Hq1. cbn in Hf. lia. }
  rewrite Hq1 in Hin, Hw'.
  assert (∀ b, b ∈ l → (q_hash b ∉ map q_hash cs) ∧ s.(queued_blocks).(blocks) !! q_hash b = Some b) as Hin'.
  { intros b Hb. specialize (Hin b Hb). rewrite Hw in Hin. by case_decide. }
  exists s', (cs ++ l). split; [done|]. split; [done|]. split.
  { apply (sends_trans _ s1); [|done]. destruct Hs1 as [E1 S1 R1]. by split. }
  rewrite map_app. split.
  { apply NoDup_app. split; [done|]. split; [|done]. intros h Hh Hh'.
    apply list_elem_of_In, in_map_iff in Hh' as (b & <- & Hb%list_elem_of_In). by destruct (Hin' b Hb). }
  split; [intros b [Hb|Hb]%elem_of_app; [by apply Hcs|by apply Hin']|]. split.
  { intros h. rewrite map_app, Hw', Hw. destruct (decide (h ∈ map q_hash l)); [by rewrite decide_True by set_solver|].
    destruct (decide (h ∈ map q_hash cs)); [by rewrite decide_True by set_solver|by rewrite decide_False by set_solver]. }
  split.
  { apply parents_first_app; [apply (children_first p); [set_solver|]; by intros b [_ ?]%Hcs|].
    eapply parents_first_mono; [|exact Hfirst]. set_solver. }
  intros h b Hb. destruct (Hleft h b Hb) as [Hl1 Hl2]. apply not_elem_of_app in Hl1 as [Hl1 Hl3].
  assert (q_parent b ≠ p) as Hne.
  { rewrite Hw' in Hb. case_decide; [done|]. by eapply Hnp. }
  split; [by apply not_elem_of_cons|]. apply not_elem_of_app. split; [|done]. intros Hx. apply Hl1.
  by apply list_elem_of_In, in_rev; rewrite rev_involutive; apply list_elem_of_In.
Qed.

(** C26: When a block arrives that queued blocks wait for, the service sends every
    descendant of it in the queue to the write task, each exactly once and after its
    parent, remembers their hashes as sent, and keeps the rest of the queue; the loop
    ends, and nothing in it panics. *)
Theorem ready_blocks_sent p s :
  queue_ok s.(queued_blocks) → s.(non_finalized_sender) = true →
  ∃ s' l, send_ready_non_finalized_queued iter drain p s = Ret s' ∧ queue_ok s'.(queued_blocks) ∧ sends s s' l ∧
    NoDup (map q_hash l) ∧ (∀ b, b ∈ l → s.(queued_blocks).(blocks) !! q_hash b = Some b) ∧
    without s.(queued_blocks) s'.(queued_blocks) l ∧ parents_first [p] l ∧
    (∀ h b, s'.(queued_blocks).(blocks) !! h = Some b → q_parent b ≠ p ∧ q_parent b ∉ map q_hash l).
Proof.
  intros Hq Hs. unfold send_ready_non_finalized_queued. rewrite Hs.
  destruct (send_ready_spec (S (size s.(queued_blocks).(blocks))) [p] s Hq ltac:(done))
    as (s' & l & E & Hok & Hsend & Hnd & Hin & Hw & Hf & Hleft).
  exists s', l. split_and!; try done. intros h b [Hp ?]%Hleft. split; [|done]. set_solver.
Qed.

(** ** Checkpoint blocks *)

(** Each block of a list has the one before it as its parent. *)
Fixpoint linked (p : bytes) (l : list Queued) : Prop :=
  match l with
  | [] => True
  | b :: l => q_parent b = p ∧ linked (q_hash b) l
  end.
Fixpoint tip_of (p : bytes) (l : list Queued) : bytes :=
  match l with
  | [] => p
  | b :: l => tip_of (q_hash b) l
  end.

Lemma commit_finalized_spec fuel : ∀ s,
  s.(finalized_sender) = true → (size s.(finalized_queue) ≤ fuel)%nat →
  (∀ p b, s.(finalized_queue) !! p = Some b → q_parent b = p) →
  ∃ s' l, commit_finalized drain fuel s = Ret s' ∧ s'.(log) = s.(log) ++ map CommitCheckpoint l ∧
    linked s.(last_sent_hash) l ∧ s'.(last_sent_hash) = tip_of s.(last_sent_hash) l ∧
    s'.(finalized_queue) !! s'.(last_sent_hash) = None ∧
    s'.(finalized_queue) ⊆ s.(finalized_queue) ∧ (size s'.(finalized_queue) + length l = size s.(finalized_queue))%nat.
Proof.
  induction fuel as [|fuel IH]; intros s Hs Hf Hp; cbn [commit_finalized];
    destruct (finalized_queue s !! last_sent_hash s) as [b|] eqn:E.
  1: { apply Nat.le_0_r, map_size_empty_inv in Hf. rewrite Hf in E. by rewrite lookup_empty in E. }
  1, 3: exists s, []; cbn; rewrite app_nil_r; split_and!; auto with lia.
  cbn. rewrite Hs, Hrun. set (s1 := emit _ _).
  assert (size s1.(finalized_queue) = pred (size s.(finalized_queue)))%nat as Hsz.
  { cbn. rewrite map_size_delete_Some; [done|by exists b]. }
  assert (0 < size s.(finalized_queue))%nat as Hpos.
  { apply Nat.neq_0_lt_0, map_size_non_empty_iff. intros H0. rewrite H0 in E. by rewrite lookup_empty in E. }
  destruct (IH s1 Hs ltac:(lia)) as (s' & l & -> & Hl & Hlk & Ht & Hn & Hsub & Hlen).
  { intros p b' Hb'. cbn in Hb'. apply lookup_delete_Some in Hb' as [_ Hb']. by apply Hp. }
  exists s', (b :: l). cbn. rewrite Hl. cbn. rewrite <- app_assoc. split_and!; auto; [|lia].
  etrans; [exact Hsub|]. apply delete_subseteq.
Qed.

(** The queue of checkpoint blocks is drained as far as the blocks form a chain on the
    last block that was sent, and the loop ends. *)
Theorem checkpoint_blocks_in_order s :
  s.(finalized_sender) = true → reset_channel_closed = false → reset_tip_hash = None →
  (∀ p b, s.(finalized_queue) !! p = Some b → q_parent b = p) →
  ∃ s' l, drain_finalized_queue_and_commit drain s = Ret s' ∧ s'.(log) = s.(log) ++ map CommitCheckpoint l ∧
    linked s.(last_sent_hash) l ∧ s'.(last_sent_hash) = tip_of s.(last_sent_hash) l ∧
    s'.(finalized_queue) !! s'.(last_sent_hash) = None.
Proof.
  intros Hs Hc Hr Hp. unfold drain_finalized_queue_and_commit. rewrite Hr, Hc.
  destruct (commit_finalized_spec (size s.(finalized_queue)) s Hs ltac:(done) Hp) as (s' & l & ? & ? & ? & ? & ? & _).
  by exists s', l.
Qed.

(** ** Requests *)

(** The channel of a block in the queue. *)
Definition pending (rsp : nat) (q : QueuedBlocks) : Prop := ∃ h b, q.(blocks) !! h = Some b ∧ b.(rsp_tx) = rsp.

Lemma enqueue_spec b s : queue_ok s.(queued_blocks) →
  ∃ s' es, enqueue b s = (s.(next_channel), s') ∧ queue_ok s'.(queued_blocks) ∧ s'.(log) = s.(log) ++ es ∧ commits es = [] ∧
    pending s.(next_channel) s'.(queued_blocks) ∧ s'.(sent_hashes) = s.(sent_hashes) ∧
    s'.(last_sent_hash) = s.(last_sent_hash).
Proof.
  intros Hq. unfold enqueue. cbn. destruct (blocks (queued_blocks s) !! prepared_hash b) as [old|] eqn:Eo.
  - eexists _, _. split; [reflexivity|]. cbn. split; [|split; [reflexivity|split; [done|split; [|done]]]].
    + destruct Hq as [[Hh Hp Hs] Hk].
      set (new := {| q_block := old.(q_block); rsp_tx := s.(next_channel) |}).
      assert (∀ h b', <[prepared_hash b := new]> s.(queued_blocks).(blocks) !! h = Some b' →
                ∃ b0, s.(queued_blocks).(blocks) !! h = Some b0 ∧ b0.(q_block) = b'.(q_block)) as Hback.
      { intros h b'. destruct (decide (h = prepared_hash b)) as [->|Hne].
        - rewrite lookup_insert_eq. intros [= <-]. by exists old.
        - rewrite lookup_insert_ne by done. by exists b'. }
      assert (∀ h b0, s.(queued_blocks).(blocks) !! h = Some b0 →
                ∃ b', <[prepared_hash b := new]> s.(queued_blocks).(blocks) !! h = Some b' ∧ b0.(q_block) = b'.(q_block)) as Hforth.
      { intros h b0 Hb0. destruct (decide (h = prepared_hash b)) as [->|Hne].
        - rewrite lookup_insert_eq. exists new. split; [done|]. cbn. congruence.
        - rewrite lookup_insert_ne by done. by exists b0. }
      split; [split|]; cbn.
      * intros h b' (b0 & Hb0 & E)%Hback. unfold q_hash. rewrite <- E. by apply Hh.
      * intros p h. unfold children. cbn. fold (children s.(queued_blocks) p). rewrite Hp. unfold q_parent. split.
        -- intros (b0 & (b' & Hb' & E)%Hforth & <-). exists b'. split; [done|]. by rewrite E.
        -- intros (b' & (b0 & Hb0 & E)%Hback & <-). exists b0. split; [done|]. by rewrite E.
      * apply Hs.
      * intros k X h HX Hin. destruct (Hk k X h HX Hin) as (b0 & (b' & Hb' & E)%Hforth & Hbk). exists b'. split; [done|].
        unfold q_height in *. congruence.
    + eexists (prepared_hash b), _. cbn. by rewrite lookup_insert_eq.
  - eexists _, []. split; [reflexivity|]. cbn. split; [by apply queue_keeps|]. rewrite app_nil_r.
    split; [done|]. split; [done|]. split; [|done]. eexists (prepared_hash b), _. unfold queue.
    rewrite decide_False by (unfold q_hash; cbn; rewrite Eo; by intros []). cbn. by rewrite lookup_insert_eq.
Qed.

(** A block whose children are sent is sent itself or stays in the queue. *)
Lemma pending_sent rsp q q' l :
  pending rsp q → without q q' l → (∀ b, b ∈ l → q.(blocks) !! q_hash b = Some b) →
  (∃ b, b ∈ l ∧ b.(rsp_tx) = rsp) ∨ pending rsp q'.
Proof.
  intros (h & b & Hb & Hr) Hw Hin. destruct (decide (h ∈ map q_hash l)) as [Hd|Hd].
  - left. apply list_elem_of_In, in_map_iff in Hd as (b' & <- & Hb'%list_elem_of_In). exists b'. split; [done|].
    rewrite (Hin b' Hb') in Hb. congruence.
  - right. exists h, b. split; [|done]. by rewrite Hw, decide_False.
Qed.

Lemma pending_pruned rsp q q' (l : list bytes) :
  pending rsp q → (∀ h, q'.(blocks) !! h = if decide (h ∈ l) then None else q.(blocks) !! h) →
  (∃ e, Fails rsp e ∈ omap (pruned_response q) l) ∨ pending rsp q'.
Proof.
  intros (h & b & Hb & Hr) Hw. destruct (decide (h ∈ l)) as [Hd|Hd].
  - left. eexists. apply list_elem_of_omap. exists h. split; [done|]. unfold pruned_response. rewrite Hb. cbn. by rewrite Hr.
  - right. exists h, b. split; [|done]. by rewrite Hw, decide_False.
Qed.

(** A service without a channel to the write task sends nothing. *)
Lemma send_any p s : queue_ok s.(queued_blocks) →
  ∃ s' l, send_ready_non_finalized_queued iter drain p s = Ret s' ∧ queue_ok s'.(queued_blocks) ∧ sends s s' l ∧
    (∀ b, b ∈ l → s.(queued_blocks).(blocks) !! q_hash b = Some b) ∧
    without s.(queued_blocks) s'.(queued_blocks) l ∧ parents_first [p] l.
Proof.
  intros Hq. destruct (non_finalized_sender s) eqn:Es.
  - unfold send_ready_non_finalized_queued. rewrite Es.
    destruct (send_ready_spec (S (size s.(queued_blocks).(blocks))) [p] s Hq ltac:(done))
      as (s' & l & E & Hok & Hsend & Hnd & Hin & Hw & Hf & Hleft). by exists s', l.
  - exists s, []. unfold send_ready_non_finalized_queued. rewrite Es. split; [done|]. split; [done|].
    split; [split; [by rewrite app_nil_r| |done]; intros h; cbn; set_solver|]. split; [set_solver|].
    split; [|done]. intros h. by rewrite decide_False by set_solver.
Qed.

(** What became of a request: its channel is one that got an error, or that of a
    block in the queue or on its way to the write task; and the blocks on their way
    are in order, from a block that may be forked from. *)
Definition handled (s : StateService) (x : nat * StateService) : Prop :=
  ∃ es, queue_ok x.2.(queued_blocks) ∧ x.2.(log) = s.(log) ++ es ∧
    ((∃ e, Fails x.1 e ∈ es) ∨ (∃ q, Commit q ∈ es ∧ q.(rsp_tx) = x.1) ∨ pending x.1 x.2.(queued_blocks)) ∧
    ∃ p, (p = s.(last_sent_hash) ∨ can_fork_chain_at p s = true) ∧ parents_first [p] (commits es).

Lemma fail_handled e s s1 es :
  s1.(log) = s.(log) ++ es → commits es = [] → queue_ok s1.(queued_blocks) → handled s (fail_now e s1).
Proof.
  intros Hl Hc Hq. exists (es ++ [Fails s1.(next_channel) e]). split; [done|]. cbn. rewrite Hl, app_assoc. split; [done|].
  split; [left; exists e; set_solver|]. exists s.(last_sent_hash). split; [by left|]. by rewrite commits_app, Hc.
Qed.

Lemma wait_handled rsp s s1 es :
  s1.(log) = s.(log) ++ es → commits es = [] → queue_ok s1.(queued_blocks) → pending rsp s1.(queued_blocks) →
  handled s (rsp, s1).
Proof.
  intros Hl Hc Hq Hp. exists es. do 2 (split; [done|]). split; [by right; right|].
  exists s.(last_sent_hash). rewrite Hc. split; [by left|done].
Qed.

(** Blocks were sent, and then requests failed. *)
Lemma sent_handled rsp s s1 s2 es l fs p :
  s1.(log) = s.(log) ++ es ++ map Commit l ++ fs → commits es = [] → commits fs = [] → queue_ok s1.(queued_blocks) →
  pending rsp s2.(queued_blocks) → (∀ b, b ∈ l → s2.(queued_blocks).(blocks) !! q_hash b = Some b) →
  ((∃ b, b ∈ l ∧ b.(rsp_tx) = rsp) ∨ (∃ e, Fails rsp e ∈ fs) ∨ pending rsp s1.(queued_blocks)) →
  p = s.(last_sent_hash) ∨ can_fork_chain_at p s = true → parents_first [p] l → handled s (rsp, s1).
Proof.
  intros Hl He Hf Hq Hp Hin Hfate Hpar Hfirst. exists (es ++ map Commit l ++ fs). do 2 (split; [done|]). split.
  - destruct Hfate as [(q & Hql & Hqr)|[[e Hfe]|Hp']]; [right; left|left; exists e; set_solver|by right; right].
    exists q. split; [|done]. apply elem_of_app. right. apply elem_of_app. left. by apply list_elem_of_fmap_2.
  - exists p. split; [done|]. by rewrite !commits_app, He, Hf, commits_map, app_nil_r.
Qed.

Lemma commits_none {A} (f : A → Event) l : (∀ x q, f x ≠ Commit q) → commits (map f l) = [].
Proof.
  intros Hf. unfold commits. induction l as [|x l IH]; [done|]. cbn. specialize (Hf x).
  destruct (f x) as [| |q|]; [done|done|by destruct (Hf q)|done].
Qed.
Lemma pruned_none q l : commits (omap (pruned_response q) l) = [].
Proof. unfold commits. induction l as [|h l IH]; [done|]. cbn. unfold pruned_response at 1. by destruct (_ !! h). Qed.

(** C27: A request to commit a block returns without a panic, whatever the queue has,
    if the write task runs and Crosslink answers.  Its channel is one that gets an
    error, or that of a block that waits in the queue or goes to the write task; and
    the blocks that go to the write task come after their parents, the first ones
    being children of a block that may be forked from. *)
Theorem commit_request_handled b s t :
  queue_ok s.(queued_blocks) → db_tip_height = Some t → 0 ≤ t < HEIGHT_MAX → (∀ x y, ask_crosslink x y ≠ Panic) →
  ∃ x, queue_and_commit_to_non_finalized_state iter drain b s = Ret x ∧ handled s x.
Proof.
  intros Hq Ht Htr Hask. unfold queue_and_commit_to_non_finalized_state. pose proof (app_nil_r s.(log)) as Hnil.
  destruct (sent_contains _ _); [eexists; split; [done|]; by apply (fail_handled _ _ _ [])|].
  destruct (contains_height _); [eexists; split; [done|]; by apply (fail_handled _ _ _ [])|].
  destruct (enqueue_spec b s Hq) as (s1 & es & -> & Hq1 & Hl0 & Hc0 & Hpend & Hsh & Hls).
  assert (∃ r, crosslink_ready b = Ret r) as [ready Hready].
  { unfold crosslink_ready. destruct (header_by_hash _) as [h|]; [|by eexists].
    destruct (ask_crosslink _ _) as [r|] eqn:E; [by exists r|by apply Hask in E]. }
  rewrite Hready. cbn [mbind outcome_bind]. destruct (_ && _ && _).
  { destruct ready; cbn [negb]; [|eexists; split; [done|]; by eapply fail_handled].
    set (s2 := with_sent _ _). destruct (send_any s2.(last_sent_hash) s2 Hq1) as (s3 & l & -> & Hq3 & [El _ _] & Hin & Hw & Hf).
    eexists. split; [reflexivity|]. eapply (sent_handled _ _ _ s2 es l (map _ (drain _)) s.(last_sent_hash)); try done.
    - cbn. rewrite El. cbn. by rewrite Hl0, <- !app_assoc.
    - by apply commits_none.
    - destruct (pending_sent _ _ _ _ Hpend Hw Hin); [by left|by right; right].
    - by left.
    - by rewrite <- Hls. }
  assert (∀ p, can_fork_chain_at p s1 = can_fork_chain_at p s) as Hcf by (intros p; unfold can_fork_chain_at; by rewrite Hsh).
  rewrite Hcf. destruct (can_fork_chain_at _ s) eqn:Ecf; cbn [negb]; [|eexists; split; [done|]; by eapply wait_handled].
  destruct (finalized_sender s1); cbn [negb]; [eexists; split; [done|]; by eapply wait_handled|].
  destruct ready; cbn [negb]; [|eexists; split; [done|]; by eapply fail_handled].
  destruct (send_any (BlockHeader.prev_block (Block.header (prepared_block b))) s1 Hq1) as (s3 & l & -> & Hq3 & [El _ _] & Hin & Hw & Hf).
  cbn [mbind outcome_bind]. rewrite Ht. cbn [unwrap mbind outcome_bind].
  destruct (prune_spec iter Hiter t _ Hq3 Htr) as (q' & pl & -> & Hq' & Hpl & Hbl).
  eexists. split; [reflexivity|].
  eapply (sent_handled _ _ _ s1 es l (omap (pruned_response _) pl) (BlockHeader.prev_block (Block.header (prepared_block b)))); try done.
  - cbn. by rewrite El, Hl0, <- !app_assoc.
  - apply pruned_none.
  - destruct (pending_sent _ _ _ _ Hpend Hw Hin) as [?|Hp]; [by left|right]. by eapply pending_pruned.
  - by right.
Qed.

(** ** What goes wrong *)

Lemma enqueue_fresh b s : s.(queued_blocks).(blocks) !! b.(prepared_hash) = None →
  ∃ s', enqueue b s = (s.(next_channel), s') ∧ s'.(log) = s.(log) ∧ s'.(sent_hashes) = s.(sent_hashes) ∧
    s'.(finalized_sender) = s.(finalized_sender) ∧ s'.(non_finalized_sender) = s.(non_finalized_sender) ∧
    s'.(queued_blocks) = queue {| q_block := b; rsp_tx := s.(next_channel) |} s.(queued_blocks) ∧
    s'.(queued_blocks).(blocks) = <[b.(prepared_hash) := {| q_block := b; rsp_tx := s.(next_channel) |}]> s.(queued_blocks).(blocks).
Proof.
  intros Hn. unfold enqueue. cbn. rewrite Hn. eexists. split; [reflexivity|]. cbn. repeat (split; [done|]).
  unfold queue. by rewrite decide_False by (unfold q_hash; cbn; rewrite Hn; by intros []).
Qed.

(** What is not left in the queue has been sent. *)
Lemma gone_sent q q' l h c : without q q' l → (∀ b, b ∈ l → q.(blocks) !! q_hash b = Some b) →
  q.(blocks) !! h = Some c → q'.(blocks) !! h = None → c ∈ l ∧ h = q_hash c.
Proof.
  intros Hw Hin Hc Hn. rewrite Hw in Hn. case_decide as Hd; [|congruence].
  apply list_elem_of_In, in_map_iff in Hd as (b & <- & Hb%list_elem_of_In). rewrite (Hin b Hb) in Hc. by injection Hc as <-.
Qed.

(** Crosslink is asked only about the block that arrives.  A queued block that is
    refused, because the header of its parent is not known or because Crosslink refuses
    its pointer, goes to the write task all the same when its parent arrives after it,
    or when another child of its parent arrives whose pointer is accepted. *)
Theorem queued_block_not_asked b c s t :
  queue_ok s.(queued_blocks) → s.(finalized_sender) = false → s.(non_finalized_sender) = true →
  db_tip_height = Some t → 0 ≤ t < HEIGHT_MAX →
  sent_contains b.(prepared_hash) s.(sent_hashes) = false → contains_height b.(prepared_height) = false →
  s.(queued_blocks).(blocks) !! b.(prepared_hash) = None →
  can_fork_chain_at b.(prepared_block).(Block.header).(BlockHeader.prev_block) s = true →
  crosslink_ready b = Ret true →
  s.(queued_blocks).(blocks) !! q_hash c = Some c →
  q_parent c = b.(prepared_hash) ∨ q_parent c = b.(prepared_block).(Block.header).(BlockHeader.prev_block) →
  crosslink_ready c.(q_block) = Ret false →
  ∃ rsp s', queue_and_commit_to_non_finalized_state iter drain b s = Ret (rsp, s') ∧ Commit c ∈ s'.(log).
Proof.
  intros Hq Hfs Hnf Ht Htr Hsent Hheight Hfresh Hfork Hready Hc Hpar _.
  unfold queue_and_commit_to_non_finalized_state. rewrite Hsent, Hheight.
  destruct (enqueue_fresh b s Hfresh) as (s1 & -> & Hl & Hsh & Hf1 & Hn1 & Hq1 & Hb1). rewrite Hf1, Hfs. cbn [andb].
  assert (can_fork_chain_at (BlockHeader.prev_block (Block.header (prepared_block b))) s1 = true) as ->.
  { revert Hfork. unfold can_fork_chain_at. by rewrite Hsh. }
  cbn [negb]. rewrite Hready. cbn [mbind outcome_bind negb]. set (p := BlockHeader.prev_block _).
  assert (queue_ok s1.(queued_blocks)) as Hok1 by (rewrite Hq1; by apply queue_keeps).
  unfold send_ready_non_finalized_queued. rewrite Hn1, Hnf.
  destruct (send_ready_spec (S (size s1.(queued_blocks).(blocks))) [p] s1 Hok1 ltac:(done))
    as (s3 & l & -> & Hok3 & [El _ _] & _ & Hin & Hw & _ & Hleft).
  cbn [mbind outcome_bind]. rewrite Ht. cbn [unwrap mbind outcome_bind].
  destruct (prune_spec iter Hiter t _ Hok3 Htr) as (q' & pl & -> & _).
  eexists _, _. split; [reflexivity|]. cbn. rewrite El. apply elem_of_app. left. apply elem_of_app. right.
  apply list_elem_of_fmap_2.
  set (qb := {| q_block := b; rsp_tx := s.(next_channel) |}) in *.
  assert (qb ∈ l) as Hbl.
  { eapply (gone_sent _ _ l (prepared_hash b) qb Hw Hin); [rewrite Hb1; apply lookup_insert_eq|].
    destruct (blocks (queued_blocks s3) !! prepared_hash b) as [b'|] eqn:E; [|done].
    pose proof (proj1 (Hleft _ _ E)) as Hp. rewrite Hw in E. case_decide; [done|].
    rewrite Hb1, lookup_insert_eq in E. injection E as <-. set_solver. }
  assert (q_hash c ≠ prepared_hash b) as Hne by (intros E; congruence).
  eapply (gone_sent _ _ l (q_hash c) c Hw Hin); [by rewrite Hb1, lookup_insert_ne|].
  destruct (blocks (queued_blocks s3) !! q_hash c) as [c'|] eqn:E; [|done]. destruct (Hleft _ _ E) as [Hp1 Hp2].
  rewrite Hw in E. case_decide; [done|]. rewrite Hb1, lookup_insert_ne, Hc in E by done. injection E as <-.
  destruct Hpar as [Hpar|Hpar]; rewrite Hpar in *; [|set_solver].
  destruct Hp2. apply (list_elem_of_fmap_2 q_hash _ _ Hbl).
Qed.
End service.

(** The heights of the children leave the index. *)
Lemma dequeue_heights iter p q cs q' b :
  dequeue_children iter p q = Ret (cs, q') → b ∈ cs → q'.(by_height) !! q_height b = None.
Proof.
  unfold dequeue_children. destruct (take_blocks _ _) as [[cs' m]|]; cbn; [|done]. intros [= <- <-] Hb.
  destruct (forget_children cs' (mk_queue m (delete p q.(by_parent)) q.(by_height) q.(known_utxos))) as (_ & _ & ->).
  rewrite decide_True; [done|]. by apply (list_elem_of_fmap_2 q_height).
Qed.

(** When a child of a block leaves the queue, the height of the child leaves the
    index by height, so that another block of that height is not pruned, however far
    the finalized tip advances: it stays in the queue, and its request with it. *)
Theorem height_not_pruned iter p q c d t :
  (∀ X, iter X ≡ₚ elements X) → queue_ok q → 0 ≤ t < HEIGHT_MAX →
  q.(blocks) !! q_hash c = Some c → q_parent c = p → q.(blocks) !! q_hash d = Some d → q_parent d ≠ p →
  q_height d = q_height c → q_height d ≤ t →
  ∃ cs q' q'' es, dequeue_children iter p q = Ret (cs, q') ∧ prune_by_height iter t q' = Ret (q'', es) ∧
    q''.(blocks) !! q_hash d = Some d.
Proof.
  intros Hiter Hq Ht Hc Hcp Hd Hdp Hk _.
  destruct (dequeue_spec iter Hiter p q Hq) as (cs & q' & E & Hq' & _ & Hcs & Hw & Hnp).
  destruct (prune_spec iter Hiter t q' Hq' Ht) as (q'' & pl & Ep & _ & Hpl & Hbl).
  eexists cs, q', q'', _. split; [done|]. split; [exact Ep|].
  assert (q'.(blocks) !! q_hash d = Some d) as Hd'.
  { rewrite Hw. case_decide as Hin; [|done]. apply list_elem_of_In, in_map_iff in Hin as (b & Hb & Hin%list_elem_of_In).
    destruct (Hcs b Hin) as [Hb' Hbp]. rewrite Hb in Hb'. congruence. }
  assert (c ∈ cs) as Hin.
  { destruct (q'.(blocks) !! q_hash c) as [c'|] eqn:Ec.
    - pose proof (Hnp _ _ Ec) as Hp. rewrite Hw in Ec. case_decide; congruence.
    - rewrite Hw in Ec. case_decide as Hin; [|congruence].
      apply list_elem_of_In, in_map_iff in Hin as (b & Hb & Hin%list_elem_of_In). destruct (Hcs b Hin) as [Hb' _]. congruence. }
  rewrite Hbl. case_decide as Hpr; [exfalso|done].
  apply Hpl in Hpr as (k & X & _ & HX & Hx). destruct Hq' as [_ Hh]. destruct (Hh k X _ HX Hx) as (b & Hb & <-).
  pose proof (dequeue_heights _ _ _ _ _ c E Hin). congruence.
Qed.
