(* ===== verification/Find.v ===== *)
(** * Find: blocks that peers ask for

    Models [zebra-state/src/service/read/find.rs] and the header lookup of
    [read/block.rs]: the tip, lookups by hash and height in the best chain and the
    database, block locators, and the answers to a peer that asks for the hashes or the
    headers after the blocks it knows.

    The best chain and the database are their indexes.  They can overlap, since blocks
    are written to the database before they leave the chain. *)

From stdpp Require Import base list gmap.
From S2P Require Import Prelude Wire Encoding Amount NonFinalized.

Definition MAX_FIND_BLOCK_HASHES_RESULTS : Z := 500.
Definition MAX_FIND_BLOCK_HEADERS_RESULTS : Z := 160.

Section find.
Context {P : Profile} {Header : Type}.

(** The blocks of a chain or of the database, by height and by hash. *)
Record Index := mk_index {
  hash_at : gmap Z bytes;
  height_of : gmap bytes Z;
  header_at : gmap Z Header }.
Record BestChain := mk_best { chain_index : Index; non_finalized_tip : Z * bytes }.
Record Database := mk_database { db_index : Index; db_tip : option (Z * bytes) }.

(** ** Lookups *)

Definition tip (chain : option BestChain) (db : Database) : option (Z * bytes) :=
  match chain with Some c => Some c.(non_finalized_tip) | None => db.(db_tip) end.
Definition tip_height (chain : option BestChain) (db : Database) : option Z := fst <$> tip chain db.
Definition tip_hash (chain : option BestChain) (db : Database) : option bytes := snd <$> tip chain db.

Definition or_else {A} (o p : option A) : option A := match o with Some a => Some a | None => p end.
Definition height_by_hash (chain : option BestChain) (db : Database) (hash : bytes) : option Z :=
  or_else (c ← chain; c.(chain_index).(height_of) !! hash) (db.(db_index).(height_of) !! hash).
Definition hash_by_height (chain : option BestChain) (db : Database) (height : Z) : option bytes :=
  or_else (c ← chain; c.(chain_index).(hash_at) !! height) (db.(db_index).(hash_at) !! height).
Definition block_header (chain : option BestChain) (db : Database) (height : Z) : option Header :=
  or_else (c ← chain; c.(chain_index).(header_at) !! height) (db.(db_index).(header_at) !! height).
Definition chain_contains_hash (chain : option BestChain) (db : Database) (hash : bytes) : bool :=
  match chain with Some c => bool_decide (is_Some (c.(chain_index).(height_of) !! hash)) | None => false end
  || bool_decide (is_Some (db.(db_index).(height_of) !! hash)).
Definition depth (chain : option BestChain) (db : Database) (hash : bytes) : outcome (option Z) :=
  match tip_height chain db with
  | None => Ret None
  | Some tip =>
      match height_by_hash chain db hash with
      | None => Ret None
      | Some height => d ← arith 32 (tip - height); Ret (Some d)
      end
  end.

(** ** Locators *)

Fixpoint take_while {A} (f : A → bool) (l : list A) : list A :=
  match l with
  | [] => []
  | x :: l => if f x then x :: take_while f l else []
  end.
(** The powers of two that fit a [u32] are those below 2^32. *)
Definition exponential_locators (tip_height : Z) : list Z :=
  omap (λ k : nat, let step := 2 ^ Z.of_nat k in if step <=? tip_height then Some (tip_height - step) else None) (seq 0 32).
Definition block_locator_heights (tip_height : Z) : list Z :=
  let min_locator_height := Z.max 0 (tip_height - MAX_BLOCK_REORG_HEIGHT) in
  take_while (λ height, min_locator_height <? height) (tip_height :: exponential_locators tip_height) ++ [min_locator_height].
Definition block_locator (chain : option BestChain) (db : Database) : option (list bytes) :=
  tip_height ← tip_height chain db;
  Some (omap (hash_by_height chain db) (block_locator_heights tip_height)).

(** ** Answers *)

Definition find_chain_intersection (chain : option BestChain) (db : Database) (known_blocks : list bytes) : option bytes :=
  match chain, db.(db_tip) with
  | None, None => None
  | _, _ => find (chain_contains_hash chain db) known_blocks
  end.

(** The heights from [start] to [final], which are none when [final] is below. *)
Definition height_range (start final : Z) : list Z := seqZ start (final - start + 1).
Definition find_chain_height_range (chain : option BestChain) (db : Database) (intersection stop : option bytes) (max_len : Z)
    : outcome (list Z) :=
  _ ← assert_ (0 <? max_len);
  match tip_height chain db with
  | None => Ret []
  | Some chain_tip_height =>
      let intersection_height := match intersection with Some h => Some <$> height_by_hash chain db h | None => Some None end in
      match intersection_height with
      | None => Ret []
      | Some intersection_height =>
          x ← match intersection_height with
              | Some h => start ← arith 32 (h + 1); max ← arith 32 (h + max_len); Ret (start, max)
              | None => Ret (0, max_len - 1)
              end;
          let '(start_height, max_height) := x in
          let stop_height := hash ← stop; height_by_hash chain db hash in
          let final_height := Z.min max_height chain_tip_height in
          let final_height := match stop_height with Some h => Z.min final_height h | None => final_height end in
          let height_range := height_range start_height final_height in
          _ ← assert_ (Z.of_nat (length height_range) <=? max_len);
          Ret height_range
      end
  end.

Fixpoint map_while {A B} (f : A → option B) (l : list A) : list B :=
  match l with
  | [] => []
  | x :: l => match f x with Some y => y :: map_while f l | None => [] end
  end.

Definition collect_chain_hashes (chain : option BestChain) (db : Database) (intersection stop : option bytes) (max_len : Z)
    : outcome (list bytes) :=
  height_range ← find_chain_height_range chain db intersection stop max_len;
  let hashes := map_while (hash_by_height chain db) height_range in
  _ ← assert_ (match intersection with Some hash => bool_decide (hash ∉ hashes) | None => true end);
  _ ← assert_ (match stop, hashes with
               | Some stop, _ :: _ => bool_decide (stop ∉ take (length hashes - 1) hashes)
               | _, _ => true
               end);
  Ret hashes.
Definition collect_chain_headers (chain : option BestChain) (db : Database) (intersection stop : option bytes) (max_len : Z)
    : outcome (list Header) :=
  height_range ← find_chain_height_range chain db intersection stop max_len;
  Ret (map_while (block_header chain db) height_range).
Definition find_chain_hashes (chain : option BestChain) (db : Database) (known_blocks : list bytes) (stop : option bytes) (max_len : Z)
    : outcome (list bytes) :=
  collect_chain_hashes chain db (find_chain_intersection chain db known_blocks) stop max_len.
Definition find_chain_headers (chain : option BestChain) (db : Database) (known_blocks : list bytes) (stop : option bytes) (max_len : Z)
    : outcome (list Header) :=
  collect_chain_headers chain db (find_chain_intersection chain db known_blocks) stop max_len.
End find.
Arguments Index : clear implicits.
Arguments BestChain : clear implicits.
Arguments Database : clear implicits.
