(* ===== verification/FindInv.v ===== *)
(** * FindInv: answers to peers follow the chain

    - what a node answers to a peer is a piece of its best chain, as a definition on
      lists says it, wherever its blocks are stored;
    - a locator starts at the tip, reaches the reorg limit, and leads a node with a fork
      within that limit to the blocks it does not have. *)

From stdpp Require Import base list gmap sorting.
From S2P Require Import Prelude Wire Encoding Amount NonFinalized Find.

(** ** Chains and their indexes *)

Section chains.
Context {P : Profile} {Header : Type}.
Implicit Types (B : list (bytes * Header)) (ix : Index Header) (db : Database Header) (chain : option (BestChain Header)).

Definition covers B (lo hi : nat) ix : Prop :=
  (∀ h x, ix.(hash_at) !! h = Some x ↔ ∃ i b, (lo ≤ i < hi)%nat ∧ B !! i = Some b ∧ h = Z.of_nat i ∧ b.1 = x) ∧
  (∀ x h, ix.(height_of) !! x = Some h ↔ ∃ i b, (lo ≤ i < hi)%nat ∧ B !! i = Some b ∧ h = Z.of_nat i ∧ b.1 = x) ∧
  (∀ h y, ix.(header_at) !! h = Some y ↔ ∃ i b, (lo ≤ i < hi)%nat ∧ B !! i = Some b ∧ h = Z.of_nat i ∧ b.2 = y).
Definition tip_at B (n : nat) : option (Z * bytes) := match n with O => None | S n => (λ b, (Z.of_nat n, b.1)) <$> B !! n end.

(** [B] are the blocks from genesis to the best tip; the first [f] of them are in the
    database, and those from [lo] on in the best chain, if there is one. *)
Record follows B chain db : Prop := {
  fo_nodup : NoDup (map fst B);
  fo_blocks : ∃ f, (f ≤ length B)%nat ∧ covers B 0 f db.(db_index) ∧ db.(db_tip) = tip_at B f ∧
    match chain with
    | None => f = length B
    | Some c => ∃ lo, (lo ≤ f)%nat ∧ (lo < length B)%nat ∧ covers B lo (length B) c.(chain_index) ∧
                  Some c.(non_finalized_tip) = tip_at B (length B)
    end }.

Lemma fst_unique B i j a b : NoDup (map fst B) → B !! i = Some a → B !! j = Some b → a.1 = b.1 → i = j.
Proof.
  intros Hn Hi Hj Hab. eapply (NoDup_lookup _ _ _ a.1 Hn); change (map fst B) with (fst <$> B); rewrite list_lookup_fmap; [by rewrite Hi|by rewrite Hj, Hab].
Qed.

Lemma or_else_Some {A} (o p : option A) a : or_else o p = Some a ↔ o = Some a ∨ o = None ∧ p = Some a.
Proof. destruct o; cbn; naive_solver. Qed.

(** The index of the blocks from [lo] up to [hi]; every placement of a chain can occur. *)
Definition rows B (lo hi : nat) : list (nat * (bytes * Header)) := omap (λ i, pair i <$> B !! i) (seq lo (hi - lo)).
Definition index_range B (lo hi : nat) : Index Header :=
  mk_index (list_to_map ((λ r, (Z.of_nat r.1, r.2.1)) <$> rows B lo hi))
    (list_to_map ((λ r, (r.2.1, Z.of_nat r.1)) <$> rows B lo hi))
    (list_to_map ((λ r, (Z.of_nat r.1, r.2.2)) <$> rows B lo hi)).

Lemma elem_of_rows B lo hi i b : (i, b) ∈ rows B lo hi ↔ (lo ≤ i < hi)%nat ∧ B !! i = Some b.
Proof.
  unfold rows. rewrite list_elem_of_omap. setoid_rewrite elem_of_seq. setoid_rewrite fmap_Some. split.
  - intros (j & Hj & b' & Hb & [= -> ->]). split; [lia|done].
  - intros [Hi Hb]. exists i. split; [lia|]. by exists b.
Qed.
Lemma rows_nodup {K} (key : nat * (bytes * Header) → K) B lo hi :
  (∀ r r', r ∈ rows B lo hi → r' ∈ rows B lo hi → key r = key r' → r.1 = r'.1) → NoDup (key <$> rows B lo hi).
Proof.
  intros Hinj. apply (NoDup_fmap_2_strong _).
  - intros [i b] [j b'] Hr Hr' He. pose proof (Hinj _ _ Hr Hr' He) as Hij. cbn in Hij. subst j.
    apply elem_of_rows in Hr as [_ Hr], Hr' as [_ Hr']. congruence.
  - unfold rows. generalize (hi - lo)%nat as n. intros n. clear. revert lo. induction n as [|n IH]; intros lo; cbn; [constructor|].
    destruct (B !! lo) as [b|]; cbn; [|apply IH]. constructor; [|apply IH].
    intros (j & Hj%elem_of_seq & (b' & _ & [= <- _])%fmap_Some)%list_elem_of_omap. lia.
Qed.
Lemma list_to_map_rows {K V} `{Countable K} (key : nat * (bytes * Header) → K) (val : nat * (bytes * Header) → V) B lo hi k v :
  (∀ r r', r ∈ rows B lo hi → r' ∈ rows B lo hi → key r = key r' → r.1 = r'.1) →
  (list_to_map ((λ r, (key r, val r)) <$> rows B lo hi) : gmap K V) !! k = Some v ↔
    ∃ i b, (lo ≤ i < hi)%nat ∧ B !! i = Some b ∧ key (i, b) = k ∧ val (i, b) = v.
Proof.
  intros Hinj. rewrite <- elem_of_list_to_map by (rewrite <- list_fmap_compose; by apply (rows_nodup key)).
  rewrite list_elem_of_fmap. split.
  - intros ([i b] & [= -> ->] & [Hi Hb]%elem_of_rows). by exists i, b.
  - intros (i & b & Hi & Hb & <- & <-). exists (i, b). split; [done|]. by apply elem_of_rows.
Qed.

Lemma index_range_covers B lo hi : NoDup (map fst B) → covers B lo hi (index_range B lo hi).
Proof.
  intros Hn. assert (Hh : ∀ r r', r ∈ rows B lo hi → r' ∈ rows B lo hi → r.2.1 = r'.2.1 → r.1 = r'.1).
  { intros [i b] [j b'] [_ Hb]%elem_of_rows [_ Hb']%elem_of_rows He. by eapply fst_unique. }
  split_and!; intros k v; cbn; (rewrite list_to_map_rows; [naive_solver|]); [intros ????; cbn; lia|done|intros ????; cbn; lia].
Qed.

(** A chain whose first [f] blocks are finalized, and from [lo] on in memory. *)
Definition placed_db B (f : nat) : Database Header := mk_database (index_range B 0 f) (tip_at B f).
Definition placed_chain B (lo : nat) : option (BestChain Header) := mk_best (index_range B lo (length B)) <$> tip_at B (length B).
Lemma placed_follows B (lo f : nat) : NoDup (map fst B) → (lo ≤ f ≤ length B)%nat → (lo < length B)%nat → follows B (placed_chain B lo) (placed_db B f).
Proof.
  intros Hn Hlo Hlt. split; [done|]. exists f. split_and!; [lia|by apply index_range_covers|done|]. unfold placed_chain.
  destruct (length B) as [|n] eqn:El; [lia|]. cbn [tip_at]. destruct (lookup_lt_is_Some_2 B n) as [b Hb]; [lia|]. rewrite Hb.
  exists lo. split_and!; [lia..|by apply index_range_covers|done].
Qed.
Lemma finalized_follows B : NoDup (map fst B) → follows B None (placed_db B (length B)).
Proof. intros Hn. split; [done|]. exists (length B). split_and!; [lia|by apply index_range_covers|done..]. Qed.

(** ** The answer, on lists *)

Definition in_chain B (x : bytes) : bool := bool_decide (x ∈ map fst B).
Definition position B (x : bytes) : option nat := fst <$> list_find (λ b, b.1 = x) B.
(** The blocks after the first known one, at most [max] of them, up to [stop]. *)
Definition next_blocks B (known : list bytes) (stop : option bytes) (max : nat) : list (bytes * Header) :=
  let start := match find (in_chain B) known ≫= position B with Some i => S i | None => O end in
  let following := take max (drop start B) in
  match stop ≫= position B with Some j => take (S j - start) following | None => following end.

Lemma position_Some B x i : position B x = Some i → ∃ b, B !! i = Some b ∧ b.1 = x.
Proof.
  unfold position. intros ([j b] & (Hb & Hx & _)%list_find_Some & ->)%fmap_Some. by exists b.
Qed.
Lemma position_lookup B x i b : NoDup (map fst B) → B !! i = Some b → b.1 = x → position B x = Some i.
Proof.
  intros Hn Hb Hx. unfold position. apply fmap_Some. exists (i, b). split; [|done]. apply list_find_Some. split_and!; [done..|].
  intros j y Hy Hlt Hyx. assert (j = i) by (eapply fst_unique; [done..|congruence]). lia.
Qed.
Lemma in_chain_position B x : in_chain B x = true → is_Some (position B x).
Proof.
  intros (b & -> & Hb)%bool_decide_eq_true%list_elem_of_fmap. unfold position. apply fmap_is_Some. by eapply list_find_elem_of.
Qed.

Section lookups.
Context B chain db (Hf : follows B chain db).

Lemma tip_height_eq : tip_height chain db = match B with [] => None | _ => Some (Z.of_nat (length B - 1)) end.
Proof.
  destruct (fo_blocks _ _ _ Hf) as (f & Hlen & _ & Ht & Hc). unfold tip_height, tip.
  assert (Htip : fst <$> tip_at B (length B) = match B with [] => None | _ => Some (Z.of_nat (length B - 1)) end).
  { destruct B as [|b B'] eqn:EB; [done|]. rewrite <- EB at 1. cbn [tip_at length]. replace (S (length B') - 1)%nat with (length B') by lia.
    destruct (lookup_lt_is_Some_2 B (length B')) as [x Hx]; [subst; cbn; lia|]. by rewrite Hx. }
  destruct chain as [c|]; [|subst f; by rewrite Ht].
  destruct Hc as (lo & _ & _ & _ & Hc). rewrite <- Htip, <- Hc. done.
Qed.

(** A lookup in the chain and then in the database finds a block wherever it is. *)
Lemma covered {K V} (look : Index Header → K → option V) (R : nat → bytes * Header → K → V → Prop) k v :
  (∀ i j a b v v', B !! i = Some a → B !! j = Some b → R i a k v → R j b k v' → i = j) →
  (∀ ix lo hi, covers B lo hi ix → ∀ v, look ix k = Some v ↔ ∃ i b, (lo ≤ i < hi)%nat ∧ B !! i = Some b ∧ R i b k v) →
  or_else (c ← chain; look c.(chain_index) k) (look db.(db_index) k) = Some v ↔ ∃ i b, B !! i = Some b ∧ R i b k v.
Proof.
  intros HR Hlook. destruct (fo_blocks _ _ _ Hf) as (f & Hlen & Hd & _ & Hc). rewrite or_else_Some, (Hlook _ _ _ Hd).
  destruct chain as [c|]; cbn.
  - destruct Hc as (lo & Hlo & _ & Hc & _). rewrite (Hlook _ _ _ Hc). split; [naive_solver|]. intros (i & b & Hi & Hb).
    apply lookup_lt_Some in Hi as Hlt. destruct (decide (lo ≤ i)%nat); [left; by exists i, b|right]. split; [|exists i, b; by split_and!; [lia|lia|..]].
    apply eq_None_not_Some. intros [v' (j & b' & ? & Hj & Hb')%(Hlook _ _ _ Hc)]. assert (i = j) by (by eapply HR). lia.
  - subst f. split; [naive_solver|]. intros (i & b & Hi & Hb). right. split; [done|]. exists i, b. apply lookup_lt_Some in Hi as Hlt. by split_and!; [lia|..].
Qed.

Lemma hash_by_height_Some h x : hash_by_height chain db h = Some x ↔ ∃ i b, B !! i = Some b ∧ h = Z.of_nat i ∧ b.1 = x.
Proof.
  apply (covered (λ ix k, ix.(hash_at) !! k) (λ i b k v, k = Z.of_nat i ∧ b.1 = v)); [intros; lia|]. by intros ix lo hi (Hc & _ & _) v.
Qed.
Lemma height_by_hash_Some x h : height_by_hash chain db x = Some h ↔ ∃ i b, B !! i = Some b ∧ h = Z.of_nat i ∧ b.1 = x.
Proof.
  apply (covered (λ ix k, ix.(height_of) !! k) (λ i b k v, v = Z.of_nat i ∧ b.1 = k)); [|by intros ix lo hi (_ & Hc & _) v].
  intros i j a b v v' Ha Hb [_ H1] [_ H2]. eapply fst_unique; [apply Hf|done|done|congruence].
Qed.
Lemma block_header_Some h y : block_header chain db h = Some y ↔ ∃ i b, B !! i = Some b ∧ h = Z.of_nat i ∧ b.2 = y.
Proof.
  apply (covered (λ ix k, ix.(header_at) !! k) (λ i b k v, k = Z.of_nat i ∧ b.2 = v)); [intros; lia|]. by intros ix lo hi (_ & _ & Hc) v.
Qed.

Lemma hash_by_height_eq i : hash_by_height chain db (Z.of_nat i) = fst <$> B !! i.
Proof.
  apply option_eq. intros x. rewrite hash_by_height_Some, fmap_Some. split.
  - intros (j & b & Hb & ?%Nat2Z.inj & <-). subst. by exists b.
  - intros (b & Hb & ->). by exists i, b.
Qed.
Lemma block_header_eq i : block_header chain db (Z.of_nat i) = snd <$> B !! i.
Proof.
  apply option_eq. intros x. rewrite block_header_Some, fmap_Some. split.
  - intros (j & b & Hb & ?%Nat2Z.inj & <-). subst. by exists b.
  - intros (b & Hb & ->). by exists i, b.
Qed.

Lemma contains_hash_iff x : chain_contains_hash chain db x = true ↔ x ∈ map fst B.
Proof.
  transitivity (is_Some (height_by_hash chain db x)).
  - unfold chain_contains_hash, height_by_hash. rewrite orb_true_iff, bool_decide_eq_true.
    destruct chain as [c|]; cbn; [rewrite bool_decide_eq_true; destruct (c.(chain_index).(height_of) !! x)|]; cbn; naive_solver.
  - split.
    + intros [h (i & b & Hb & _ & <-)%height_by_hash_Some]. apply list_elem_of_fmap. exists b. split; [done|]. by eapply list_elem_of_lookup_2.
    + intros (b & -> & [i Hi]%list_elem_of_lookup)%list_elem_of_fmap. exists (Z.of_nat i). apply height_by_hash_Some. by exists i, b.
Qed.

Lemma height_by_hash_eq x : height_by_hash chain db x = Z.of_nat <$> position B x.
Proof.
  apply option_eq. intros h. rewrite height_by_hash_Some, fmap_Some. split.
  - intros (i & b & Hb & -> & Hx). exists i. split; [|done]. by apply (position_lookup _ _ _ b); [apply Hf|..].
  - intros (i & (b & Hb & Hx)%position_Some & ->). by exists i, b.
Qed.

Lemma intersection_eq known : find_chain_intersection chain db known = find (in_chain B) known.
Proof.
  assert (He : find (chain_contains_hash chain db) known = find (in_chain B) known).
  { induction known as [|x known IH]; [done|]. cbn. rewrite IH. destruct (in_chain B x) eqn:E.
    - by rewrite (proj2 (contains_hash_iff x) (proj1 (bool_decide_eq_true _) E)).
    - destruct (chain_contains_hash chain db x) eqn:E'; [|done]. apply contains_hash_iff in E'.
      unfold in_chain in E. by apply bool_decide_eq_false in E. }
  unfold find_chain_intersection. destruct chain as [c|] eqn:Ec; [done|]. destruct (db.(db_tip)) eqn:Et; [done|].
  destruct B as [|b B'] eqn:EB; [|].
  - symmetry. clear. induction known as [|x known IH]; [done|]. cbn. rewrite IH. done.
  - destruct (fo_blocks _ _ _ Hf) as (f & _ & _ & Ht & ->). cbn in Ht. rewrite Et in Ht.
    destruct (lookup_lt_is_Some_2 (b :: B') (length B')) as [y Hy]; [cbn; lia|]. by rewrite Hy in Ht.
Qed.

(** ** Ranges *)

Lemma map_while_range {V} (look : Z → option V) (g : bytes * Header → V) (start n : nat) :
  (∀ i, look (Z.of_nat i) = g <$> B !! i) →
  map_while look (seqZ (Z.of_nat start) (Z.of_nat n)) = g <$> take n (drop start B).
Proof.
  intros Hlook. revert start. induction n as [|n IH]; intros start; [by rewrite take_0|].
  rewrite seqZ_cons by lia. cbn [map_while]. rewrite Hlook. replace (Z.pred (Z.of_nat (S n))) with (Z.of_nat n) by lia.
  replace (Z.succ (Z.of_nat start)) with (Z.of_nat (S start)) by lia. rewrite IH.
  destruct (B !! start) as [b|] eqn:Eb; cbn; [by rewrite (drop_S B b start) by done|].
  apply lookup_ge_None in Eb. by rewrite drop_ge by lia.
Qed.

(** How many blocks are asked for, and where they start. *)
Definition range_start (known : list bytes) : nat := match find (in_chain B) known ≫= position B with Some i => S i | None => O end.
Definition range_len (known : list bytes) (stop : option bytes) (max : nat) : nat :=
  let n := (max `min` (length B - range_start known))%nat in
  match stop ≫= position B with Some j => ((S j - range_start known) `min` n)%nat | None => n end.

Lemma next_blocks_eq known stop max :
  next_blocks B known stop max = take (range_len known stop max) (drop (range_start known) B).
Proof.
  unfold next_blocks, range_len. fold (range_start known). set (st := range_start known).
  assert (Ht : take max (drop st B) = take (max `min` (length B - st)) (drop st B)).
  { destruct (decide (max ≤ length B - st)%nat); [by rewrite Nat.min_l|]. rewrite Nat.min_r by lia. rewrite !take_ge; [done|rewrite length_drop; lia..]. }
  rewrite Ht. destruct (stop ≫= position B); [|done]. by rewrite take_take.
Qed.

Lemma range_start_bound known : (range_start known ≤ length B)%nat.
Proof.
  unfold range_start. destruct (find (in_chain B) known ≫= position B) as [i|] eqn:E; [|lia].
  apply bind_Some in E as (x & _ & (b & Hb%lookup_lt_Some & _)%position_Some). lia.
Qed.

Lemma height_range_eq (start n : nat) final : final = Z.of_nat start + Z.of_nat n - 1 → height_range (Z.of_nat start) final = seqZ (Z.of_nat start) (Z.of_nat n).
Proof. intros ->. unfold height_range. f_equal. lia. Qed.
Lemma height_range_below (start : nat) final : final < Z.of_nat start → height_range (Z.of_nat start) final = seqZ (Z.of_nat start) (Z.of_nat 0).
Proof. intros Hlt. unfold height_range. by rewrite seqZ_nil by lia. Qed.

(** The start and the last height of a request, and the heights between them. *)
Lemma bounds_eq known (max_len : nat) {A} (k : Z * Z → outcome A) (d : outcome A) :
  Z.of_nat (length B + max_len) ≤ 2 ^ 32 → (0 < max_len)%nat →
  match match find (in_chain B) known with Some h => Some <$> height_by_hash chain db h | None => Some None end with
  | Some intersection_height =>
      match intersection_height with
      | Some h => start ← arith 32 (h + 1); max ← arith 32 (h + Z.of_nat max_len); Ret (start, max)
      | None => Ret (0, Z.of_nat max_len - 1)
      end ≫= k
  | None => d
  end = k (Z.of_nat (range_start known), Z.of_nat (range_start known) + Z.of_nat max_len - 1).
Proof.
  intros Hb Hm. unfold range_start. destruct (find (in_chain B) known) as [x|] eqn:Ex; cbn; [|f_equal; f_equal; lia].
  apply find_some in Ex as [_ [i Hi]%in_chain_position]. rewrite height_by_hash_eq, Hi. cbn.
  apply position_Some in Hi as (b & Hlt%lookup_lt_Some & _).
  rewrite !arith_ok by (unfold is_u; lia). cbn. f_equal. f_equal; lia.
Qed.

Lemma final_range_eq known stop (max_len : nat) :
  (0 < max_len)%nat → (0 < length B)%nat →
  height_range (Z.of_nat (range_start known))
    match stop ≫= λ hash, height_by_hash chain db hash with
    | Some h => ((Z.of_nat (range_start known) + Z.of_nat max_len - 1) `min` Z.of_nat (length B - 1)) `min` h
    | None => (Z.of_nat (range_start known) + Z.of_nat max_len - 1) `min` Z.of_nat (length B - 1)
    end = seqZ (Z.of_nat (range_start known)) (Z.of_nat (range_len known stop max_len)).
Proof.
  intros Hm HB. pose proof (range_start_bound known) as Hs. unfold range_len. set (st := range_start known) in *.
  destruct stop as [x|]; cbn [mbind option_bind]; [rewrite height_by_hash_eq; destruct (position B x) as [j|]|]; cbn [fmap option_fmap option_map];
    try (apply height_range_eq; lia).
  destruct (decide (st ≤ S j)%nat); [apply height_range_eq; lia|]. rewrite height_range_below by lia. f_equal. lia.
Qed.

Lemma find_range_eq known stop max_len :
  (0 < max_len)%nat → Z.of_nat (length B + max_len) ≤ 2 ^ 32 →
  find_chain_height_range chain db (find (in_chain B) known) stop (Z.of_nat max_len) =
    Ret (seqZ (Z.of_nat (range_start known)) (Z.of_nat (range_len known stop max_len))).
Proof.
  intros Hm Hb. unfold find_chain_height_range. rewrite (proj2 (Z.ltb_lt _ _)) by lia. cbn [assert_ outcome_bind mbind].
  pose proof (range_start_bound known) as Hs. rewrite tip_height_eq.
  destruct (decide (B = [])) as [EB|HB].
  { assert (range_len known stop max_len = O) as ->; [|by rewrite EB].
    unfold range_len. replace (length B) with O by (by rewrite EB). destruct (stop ≫= position B); cbn; lia. }
  assert (HlB : (0 < length B)%nat) by (destruct B; [done|cbn; lia]).
  replace (match B with [] => None | _ => Some (Z.of_nat (length B - 1)) end) with (Some (Z.of_nat (length B - 1))) by (by destruct B).
  rewrite bounds_eq by lia. cbn [outcome_bind mbind]. rewrite (final_range_eq known stop) by lia.
  rewrite length_seqZ, Nat2Z.id. rewrite (proj2 (Z.leb_le _ _)); [done|].
  unfold range_len. destruct (stop ≫= position B); lia.
Qed.

(** ** The checks on an answer *)

Lemma next_blocks_lookup known stop max k b :
  next_blocks B known stop max !! k = Some b → (k < range_len known stop max)%nat ∧ B !! (range_start known + k)%nat = Some b.
Proof. rewrite next_blocks_eq. intros [Hb Hk]%lookup_take_Some. by rewrite lookup_drop in Hb. Qed.

Lemma intersection_not_answered known stop max x :
  find (in_chain B) known = Some x → x ∉ (next_blocks B known stop max).*1.
Proof.
  intros Hx (b & -> & [k [Hk Hb]%next_blocks_lookup]%list_elem_of_lookup)%list_elem_of_fmap.
  unfold range_start in Hb. rewrite Hx in Hb. cbn in Hb. apply find_some in Hx as [_ [i Hi]%in_chain_position]. rewrite Hi in Hb.
  apply position_Some in Hi as (b' & Hb' & Heq). pose proof (fst_unique _ _ _ _ _ (fo_nodup _ _ _ Hf) Hb' Hb Heq). lia.
Qed.

Lemma stop_is_last known x max :
  x ∉ take (length (next_blocks B known (Some x) max).*1 - 1) (next_blocks B known (Some x) max).*1.
Proof.
  intros [k [Hx Hk]%lookup_take_Some]%list_elem_of_lookup. rewrite length_fmap in Hk. apply list_lookup_fmap_Some in Hx as (b & -> & [Hr Hb]%next_blocks_lookup).
  rewrite next_blocks_eq, length_take, length_drop in Hk. unfold range_len in *. cbn [mbind option_bind] in *.
  rewrite (position_lookup _ _ _ _ (fo_nodup _ _ _ Hf) Hb eq_refl) in *. lia.
Qed.
End lookups.

(** ** Locators *)

Lemma take_while_prefix {A} (f : A → bool) l : take_while f l `prefix_of` l.
Proof. induction l as [|x l IH]; cbn; [done|]. destruct (f x); [by apply prefix_cons|apply prefix_nil]. Qed.
Lemma take_while_elem {A} (f : A → bool) l x : x ∈ take_while f l → f x = true ∧ x ∈ l.
Proof.
  induction l as [|y l IH]; cbn; [by intros ?%not_elem_of_nil|]. destruct (f y) eqn:E; [|by intros ?%not_elem_of_nil].
  rewrite !elem_of_cons. naive_solver.
Qed.

Definition locator_step (t : Z) (k : nat) : option Z := let step := 2 ^ Z.of_nat k in if step <=? t then Some (t - step) else None.
Lemma exponential_eq t : exponential_locators t = omap (locator_step t) (seq 0 32).
Proof. reflexivity. Qed.
Lemma locator_step_Some t k h : locator_step t k = Some h → 0 ≤ h ∧ h = t - 2 ^ Z.of_nat k.
Proof. unfold locator_step. cbv zeta. destruct (_ <=? _) eqn:E; [|done]. intros [= <-]. lia. Qed.

Lemma exponential_elem t h : h ∈ exponential_locators t → ∃ k : nat, 0 ≤ h ∧ h = t - 2 ^ Z.of_nat k.
Proof. rewrite exponential_eq. intros (k & _ & Hh)%list_elem_of_omap. exists k. by apply locator_step_Some. Qed.

Lemma exponential_sorted t a n : StronglySorted Z.gt (omap (locator_step t) (seq a n)).
Proof.
  revert a. induction n as [|n IH]; intros a; cbn; [constructor|]. destruct (locator_step t a) as [h|] eqn:E; [|apply IH]. constructor; [apply IH|].
  apply Forall_forall. intros h' (k & Hk%elem_of_seq & [_ ->]%locator_step_Some)%list_elem_of_omap. apply locator_step_Some in E as [_ ->].
  assert (2 ^ Z.of_nat a < 2 ^ Z.of_nat k) by (apply Z.pow_lt_mono_r; lia). lia.
Qed.

Definition min_locator (t : Z) : Z := Z.max 0 (t - MAX_BLOCK_REORG_HEIGHT).

Lemma locator_elem t h : 0 ≤ t → h ∈ block_locator_heights t → min_locator t ≤ h ≤ t.
Proof.
  intros Ht. unfold block_locator_heights. fold (min_locator t). assert (min_locator t ≤ t) by (unfold min_locator, MAX_BLOCK_REORG_HEIGHT; lia).
  rewrite elem_of_app, list_elem_of_singleton. intros [[Hlt%Z.ltb_lt Hh]%take_while_elem| ->]; [|lia].
  apply elem_of_cons in Hh as [->|(k & Hk & ->)%exponential_elem]; lia.
Qed.

Lemma locators_sorted t : StronglySorted Z.gt (t :: exponential_locators t).
Proof.
  constructor; [rewrite exponential_eq; apply exponential_sorted|]. apply Forall_forall. intros h (k & _ & ->)%exponential_elem.
  assert (0 < 2 ^ Z.of_nat k) by (apply Z.pow_pos_nonneg; lia). lia.
Qed.
Lemma StronglySorted_prefix {A} (R : relation A) l l' : l `prefix_of` l' → StronglySorted R l' → StronglySorted R l.
Proof. intros [k ->]. apply StronglySorted_app_1_l. Qed.
Lemma gt_sorted_nodup l : StronglySorted Z.gt l → NoDup l.
Proof. induction 1 as [|x l _ IH Hx]; constructor; [|done]. intros Hin. rewrite Forall_forall in Hx. specialize (Hx x Hin). lia. Qed.

Lemma locator_distance t h : 0 ≤ t → h ∈ block_locator_heights t → t - h ∈ [0; 1; 2; 4; 8; 16; 32; 64; t - min_locator t].
Proof.
  intros Ht. unfold block_locator_heights. fold (min_locator t).
  assert (t - min_locator t ≤ 99) by (unfold min_locator, MAX_BLOCK_REORG_HEIGHT; lia). generalize dependent (min_locator t). intros m Hm.
  rewrite elem_of_app, list_elem_of_singleton. intros [[Hlt%Z.ltb_lt Hh]%take_while_elem| ->]; [|set_solver].
  apply elem_of_cons in Hh as [->|(k & Hk & ->)%exponential_elem]; [rewrite Z.sub_diag; set_solver|].
  replace (t - (t - 2 ^ Z.of_nat k)) with (2 ^ Z.of_nat k) by lia.
  assert (k < 7)%nat. { destruct (decide (k < 7)%nat); [done|]. assert (2 ^ 7 ≤ 2 ^ Z.of_nat k) by (apply Z.pow_le_mono_r; lia). lia. }
  clear -H. do 7 (destruct k as [|k]; [cbn; set_solver|]). lia.
Qed.

Lemma locator_heights_app t :
  block_locator_heights t = take_while (λ h, min_locator t <? h) (t :: exponential_locators t) ++ [min_locator t].
Proof. unfold block_locator_heights. fold (min_locator t). reflexivity. Qed.

Lemma locator_sorted t : StronglySorted Z.gt (block_locator_heights t).
Proof.
  rewrite locator_heights_app. apply StronglySorted_app_2; [|eapply StronglySorted_prefix, locators_sorted; apply take_while_prefix|repeat constructor].
  intros x1 x2 [Hx%Z.ltb_lt _]%take_while_elem ->%list_elem_of_singleton. lia.
Qed.
Lemma locator_length t : 0 ≤ t → (length (block_locator_heights t) ≤ 9)%nat.
Proof.
  intros Ht. change 9%nat with (length ((λ d, t - d) <$> [0; 1; 2; 4; 8; 16; 32; 64; t - min_locator t])).
  apply NoDup_incl_length; [apply NoDup_ListNoDup, gt_sorted_nodup, locator_sorted|].
  intros h Hh%list_elem_of_In. apply list_elem_of_In, list_elem_of_fmap. exists (t - h). split; [lia|]. by apply locator_distance.
Qed.
Lemma locator_head t : 0 ≤ t → head (block_locator_heights t) = Some t.
Proof.
  intros Ht. rewrite locator_heights_app. assert (min_locator t ≤ t) by (unfold min_locator, MAX_BLOCK_REORG_HEIGHT; lia).
  generalize (exponential_locators t). intros l. cbn [take_while]. destruct (min_locator t <? t) eqn:E; cbn [app head]; [reflexivity|]. f_equal. lia.
Qed.

(** The heights of a locator go down from the tip to the reorg limit, and are at most nine. *)
Theorem locator_heights_spec t : 0 ≤ t →
  head (block_locator_heights t) = Some t ∧ last (block_locator_heights t) = Some (min_locator t) ∧
  StronglySorted Z.gt (block_locator_heights t) ∧ (length (block_locator_heights t) ≤ 9)%nat.
Proof.
  intros Ht. split; [by apply locator_head|]. split; [rewrite locator_heights_app; apply last_snoc|].
  split; [apply locator_sorted|by apply locator_length].
Qed.

(** ** What a peer gets *)

Lemma answer_eq B chain db known stop (max_len : nat) :
  follows B chain db → (0 < max_len)%nat → Z.of_nat (length B + max_len) ≤ 2 ^ 32 →
  find_chain_hashes chain db known stop (Z.of_nat max_len) = Ret (map fst (next_blocks B known stop max_len)) ∧
  find_chain_headers chain db known stop (Z.of_nat max_len) = Ret (map snd (next_blocks B known stop max_len)).
Proof.
  intros Hf Hm Hb. unfold find_chain_hashes, find_chain_headers, collect_chain_hashes, collect_chain_headers.
  rewrite (intersection_eq B), !(find_range_eq B) by done. cbn [outcome_bind mbind].
  rewrite (map_while_range B _ fst), (map_while_range B _ snd) by (intros; by apply hash_by_height_eq || apply block_header_eq).
  rewrite <- next_blocks_eq. split; [|done].
  assert (match find (in_chain B) known with Some hash => bool_decide (hash ∉ (next_blocks B known stop max_len).*1) | None => true end = true) as ->.
  { destruct (find (in_chain B) known) eqn:E; [|done]. apply bool_decide_eq_true. by eapply intersection_not_answered. }
  cbn [assert_ outcome_bind mbind]. destruct stop as [x|]; [|done]. rewrite (bool_decide_true _ (stop_is_last B chain db Hf known x max_len)).
  change (map fst ?l) with (l.*1). generalize ((next_blocks B known (Some x) max_len).*1). intros [|??]; done.
Qed.

(** C37: a peer that sends the hashes it knows gets the hashes, or the headers, of the blocks
    after the first of them that is in the best chain, from genesis on when none is, at most
    [max_len] of them and no further than the stop hash; and nothing panics, the checks on
    the answer included.  This holds wherever the blocks of the best chain are: in the
    database up to any height, in the non-finalized chain from any height at or below that,
    or in both ([follows]: the hashes are distinct, and the database is not ahead of the
    chain's tip), for a positive limit and a chain that stays below 2^32 blocks with it. *)
Theorem find_hashes_next B chain db known stop (max_len : nat) :
  follows B chain db → (0 < max_len)%nat → Z.of_nat (length B + max_len) ≤ 2 ^ 32 →
  find_chain_hashes chain db known stop (Z.of_nat max_len) = Ret (map fst (next_blocks B known stop max_len)) ∧
  find_chain_headers chain db known stop (Z.of_nat max_len) = Ret (map snd (next_blocks B known stop max_len)).
Proof. apply answer_eq. Qed.

(** ** Depths *)

Lemma depth_eq B chain db x : follows B chain db → Z.of_nat (length B) ≤ 2 ^ 32 →
  depth chain db x = Ret ((λ i, Z.of_nat (length B - 1 - i)) <$> position B x).
Proof.
  intros Hf Hlen. unfold depth. rewrite (tip_height_eq _ _ _ Hf), (height_by_hash_eq _ _ _ Hf).
  destruct (position B x) as [i|] eqn:Ei; [|by destruct B]. apply position_Some in Ei as (b & Hlt%lookup_lt_Some & _).
  destruct B as [|b0 B0]; [cbn in Hlt; lia|]. cbn [fmap option_fmap option_map].
  rewrite arith_ok by (unfold is_u; lia). cbn. do 2 f_equal. cbn in Hlt. lia.
Qed.

(** ** Forks *)

Section fork.
Context (pre mine theirs : list (bytes * Header)).
Context chain db (Hmine : follows (pre ++ mine) chain db) (Hdiff : ∀ b, b ∈ mine → in_chain (pre ++ theirs) b.1 = false).

Lemma block_locator_Some : pre ++ mine ≠ [] → ∃ l, block_locator chain db = Some l ∧
  ∀ x, x ∈ l ↔ ∃ i b, Z.of_nat i ∈ block_locator_heights (Z.of_nat (length (pre ++ mine) - 1)) ∧ (pre ++ mine) !! i = Some b ∧ b.1 = x.
Proof.
  intros Hne. unfold block_locator. rewrite (tip_height_eq _ _ _ Hmine). destruct (pre ++ mine) as [|b0 B0] eqn:EB; [done|].
  rewrite <- EB in *. cbn [mbind option_bind]. eexists; split; [reflexivity|]. intros x. rewrite list_elem_of_omap. split.
  - intros (h & Hh & (i & b & Hb & -> & <-)%(hash_by_height_Some _ _ _ Hmine)). by exists i, b.
  - intros (i & b & Hi & Hb & <-). exists (Z.of_nat i). split; [done|]. by rewrite (hash_by_height_eq _ _ _ Hmine), Hb.
Qed.

Lemma shared_position i b : NoDup (map fst (pre ++ theirs)) → (pre ++ mine) !! i = Some b → in_chain (pre ++ theirs) b.1 = true →
  (i < length pre)%nat ∧ position (pre ++ theirs) b.1 = Some i.
Proof.
  intros Hn Hb Hin. apply lookup_app_Some in Hb as [Hb|[_ Hb]]; [|by rewrite Hdiff in Hin by (by eapply list_elem_of_lookup_2)].
  apply lookup_lt_Some in Hb as Hlt. split; [done|]. eapply (position_lookup _ _ _ b); [done| |done]. by apply lookup_app_l_Some.
Qed.

Lemma find_Some_in {A} (f : A → bool) l x : x ∈ l → f x = true → ∃ y, find f l = Some y.
Proof.
  intros Hx Hf. destruct (find f l) eqn:E; [by eexists|]. by rewrite (find_none _ _ E x (proj1 (list_elem_of_In _ _) Hx)) in Hf.
Qed.

(** The first hash of a locator that the other chain has. *)
Lemma locator_shared l : NoDup (map fst (pre ++ theirs)) → block_locator chain db = Some l →
  pre ≠ [] → Z.of_nat (length mine) ≤ MAX_BLOCK_REORG_HEIGHT →
  ∃ i, find (in_chain (pre ++ theirs)) l ≫= position (pre ++ theirs) = Some i ∧ (i < length pre)%nat ∧
    Z.of_nat (length (pre ++ mine)) - 1 - MAX_BLOCK_REORG_HEIGHT ≤ Z.of_nat i.
Proof.
  intros Hn Hl Hpre Hlen. destruct block_locator_Some as (l' & Hl' & Helem); [by destruct pre|]. rewrite Hl in Hl'. injection Hl' as <-.
  set (t := Z.of_nat (length (pre ++ mine) - 1)) in *. assert (Hp : (0 < length pre)%nat) by (destruct pre; [done|cbn; lia]).
  assert (Ht : 0 ≤ t) by lia. assert (Hmin : min_locator t < Z.of_nat (length pre)).
  { unfold min_locator, t. rewrite length_app. lia. }
  destruct (lookup_lt_is_Some_2 (pre ++ mine) (Z.to_nat (min_locator t))) as [b0 Hb0]; [rewrite length_app; unfold min_locator in *; lia|].
  assert (∃ y, find (in_chain (pre ++ theirs)) l = Some y) as [y Hy].
  { apply (find_Some_in _ _ b0.1).
    - apply Helem. exists (Z.to_nat (min_locator t)), b0. split; [|done]. rewrite Z2Nat.id by (unfold min_locator; lia).
      rewrite locator_heights_app. apply elem_of_app. right. by apply list_elem_of_singleton.
    - apply bool_decide_eq_true. apply list_elem_of_fmap. exists b0. split; [done|]. rewrite lookup_app_l in Hb0 by (unfold min_locator in *; lia).
      apply elem_of_app. left. by eapply list_elem_of_lookup_2. }
  apply find_some in Hy as Hin. destruct Hin as [(i & b & Hi & Hb & <-)%list_elem_of_In%Helem Hin].
  destruct (shared_position i b) as [Hlt Hpos]; [done..|]. exists i. rewrite Hy. cbn. split_and!; [done..|].
  apply locator_elem in Hi; [|done]. unfold min_locator in Hi. lia.
Qed.
End fork.

(** A node whose best chain left another node's within the reorg limit sends a
    locator; the answer is a piece of the common blocks, then the other chain from its
    first new block on.  So a request always makes progress. *)
Theorem locator_leads_on pre mine new theirs chain db chain' db' (max_len : nat) :
  follows (pre ++ mine) chain db → follows (pre ++ new :: theirs) chain' db' →
  (∀ b, b ∈ mine → in_chain (pre ++ new :: theirs) b.1 = false) →
  pre ≠ [] → Z.of_nat (length mine) ≤ MAX_BLOCK_REORG_HEIGHT →
  MAX_BLOCK_REORG_HEIGHT < Z.of_nat max_len → Z.of_nat (length (pre ++ new :: theirs) + max_len) ≤ 2 ^ 32 →
  ∃ locator k n, block_locator chain db = Some locator ∧ (length pre - k < max_len)%nat ∧
    find_chain_hashes chain' db' locator None (Z.of_nat max_len) = Ret (map fst (drop k pre ++ new :: take n theirs)) ∧
    find_chain_headers chain' db' locator None (Z.of_nat max_len) = Ret (map snd (drop k pre ++ new :: take n theirs)).
Proof.
  intros Hm Ht Hdiff Hpre Hlen Hmax Hb. destruct (block_locator_Some pre mine chain db Hm) as (l & Hl & _); [by destruct pre|].
  destruct (locator_shared pre mine (new :: theirs) chain db Hm Hdiff l) as (i & Hi & Hlt & Hlow); [apply Ht|done..|].
  rewrite length_app in Hlow. exists l, (S i), (max_len - (length pre - S i) - 1)%nat. split; [done|]. split; [unfold MAX_BLOCK_REORG_HEIGHT in *; lia|].
  assert (Hn : next_blocks (pre ++ new :: theirs) l None max_len = drop (S i) pre ++ new :: take (max_len - (length pre - S i) - 1) theirs).
  { unfold next_blocks. rewrite Hi. cbn [mbind option_bind]. rewrite drop_app_le, take_app by lia. rewrite length_drop, take_ge by (rewrite length_drop; unfold MAX_BLOCK_REORG_HEIGHT in *; lia).
    f_equal. destruct (max_len - (length pre - S i))%nat as [|d] eqn:Ed; [unfold MAX_BLOCK_REORG_HEIGHT in *; lia|]. cbn. by rewrite Nat.sub_0_r. }
  rewrite <- Hn. apply answer_eq; [done|unfold MAX_BLOCK_REORG_HEIGHT in *; lia|done].
Qed.

(** A fork deeper than the limit finds no common block: the answer starts at genesis. *)
Theorem deep_fork_restarts pre mine theirs chain db chain' db' (max_len : nat) :
  follows (pre ++ mine) chain db → follows (pre ++ theirs) chain' db' →
  (∀ b, b ∈ mine → in_chain (pre ++ theirs) b.1 = false) →
  MAX_BLOCK_REORG_HEIGHT < Z.of_nat (length mine) →
  (0 < max_len)%nat → Z.of_nat (length (pre ++ theirs) + max_len) ≤ 2 ^ 32 →
  ∃ locator, block_locator chain db = Some locator ∧
    find_chain_hashes chain' db' locator None (Z.of_nat max_len) = Ret (map fst (take max_len (pre ++ theirs))).
Proof.
  intros Hm Ht Hdiff Hlen Hmax Hb. destruct (block_locator_Some pre mine chain db Hm) as (l & Hl & Helem).
  { intros [_ ->]%app_eq_nil. cbn in Hlen. unfold MAX_BLOCK_REORG_HEIGHT in Hlen. lia. }
  exists l. split; [done|]. replace (take max_len (pre ++ theirs)) with (next_blocks (pre ++ theirs) l None max_len); [by apply answer_eq|].
  unfold next_blocks. destruct (find (in_chain (pre ++ theirs)) l) as [y|] eqn:Hy; [|done]. exfalso.
  apply find_some in Hy as [(i & b & Hi & Hb' & <-)%list_elem_of_In%Helem Hin].
  destruct (shared_position pre mine theirs Hdiff i b) as [Hlt _]; [apply Ht|done..|].
  apply locator_elem in Hi; [|lia]. unfold min_locator in Hi. rewrite length_app in Hi. lia.
Qed.
End chains.
