(* ===== verification/Scenario.v ===== *)
(** * Scenario: a one-validator network, run

    A concrete instance of the engine, on which every hypothesis of the
    theorems about it is shown to hold: a validator with all the stake starts
    up, proposes a block, prevotes, precommits and decides it, with the toy
    signatures of [ToyCrypto].  The states are computed by running the model;
    each lemma applies one theorem to them. *)

From stdpp Require Import base list sets sorting relations.
From S2P Require Import Prelude Wire Encoding Bft Formats Roster Round RoundInv Node NodeInv Decide Quorum Gossip GossipInv Receive Replay.
Import ToyCrypto TMState.

(** The [dev] profile, with overflow checks. *)
#[global] Instance checked : Profile := true.

(** ** Runs *)

Definition ran {A} (o : outcome A) : bool := match o with Ret _ => true | Panic => false end.
Definition result {A} (d : A) (o : outcome A) : A := match o with Ret a => a | Panic => d end.

Lemma ran_result {A} (d : A) o : ran o = true → o = Ret (result d o).
Proof. by destruct o. Qed.

Definition sk : bytes := replicate 32 Byte.x05.
Definition ros : list SortedRosterMember.t := [SortedRosterMember.mk (ed25519_public sk) 4 4].
Definition block : BlockValue := replicate 100 Byte.x07.

(** A finality layer that always proposes [v] and counts the decided blocks. *)
Definition cl (v : BlockValue) : Closures nat := {|
  propose_closure := λ n, Ret (n, Some v);
  validate_closure := λ n _, Ret (n, (Pass, ReasonNone));
  push_block_closure := λ n _ _ _, Ret (S n, ros) |}.

Lemma ros_ok : roster_ok ros.
Proof.
  split.
  - split; [by apply Forall_singleton| |done]. by intros [|i] m Hm; cbn in Hm; simplify_eq.
  - by apply Forall_singleton.
  - apply Forall_singleton. intros d. cbn. apply bool_decide_eq_false. cbn. discriminate.
Qed.

#[global] Instance counting_client v : EngineClient (cl v).
Proof.
  refine {| env_ok := λ _, True |}; [done|done|]. intros. simplify_eq/=. split; [done|apply ros_ok].
Defined.

(** A node with the key [sk] and the roster [ros] that runs with any finality
    layer, and is updated once per millisecond. *)
Section running.
Context {E : Type} (c : Closures E) (env0 : E).

Definition Run : Type := E * t * list SortedRosterMember.t.
Definition dead : Run := (env0, resume sk [], []).

Definition started : Run :=
  result dead ('(env, s) ← start_round c env0 (resume sk []) ros 0 0; Ret (env, s, ros)).
Definition update (now : nat) (l : Run) : outcome Run :=
  bft_update c (Z.of_nat now) l.1.1 l.1.2 l.2.
Definition updates (nows : list nat) (l : Run) : Run :=
  fold_left (λ l now, result dead (update now l)) nows l.

(** Whether the run goes through without a panic. *)
Fixpoint alive (nows : list nat) (l : Run) : bool :=
  match nows with
  | [] => true
  | now :: nows =>
      (0 <=? l.1.2.(height)) && (l.1.2.(height) <? 2 ^ 64 - Z.of_nat (length l.1.2.(rounds_data)))
        && ran (update now l) && alive nows (result dead (update now l))
  end.

Lemma alive_steps nows l : alive nows l = true → rtc (node_step c) l (updates nows l).
Proof.
  revert l. induction nows as [|now nows IH]; intros [[env s] ros0] Ha; cbn in *; [done|].
  apply andb_true_iff in Ha as [Ha Hn]. apply andb_true_iff in Ha as [Hh Hr].
  eapply rtc_l; [|by apply IH]. apply (ran_result dead) in Hr.
  destruct (result dead _) as [[env' s'] ros'] eqn:Er. eapply step_update; [lia|exact Hr].
Qed.

Context {EC : EngineClient c} (Henv : env_ok env0).

Lemma started_init : ran (start_round c env0 (resume sk []) ros 0 0) = true →
  node_init c started ∧ started.2 = ros.
Proof.
  intros Hr. unfold started. apply (ran_result (env0, resume sk [])) in Hr.
  destruct (result _ _) as [env s]. rewrite Hr. cbn.
  split; [|done]. exists env0, sk, [], 0. done.
Qed.

Lemma run_ok nows :
  ran (start_round c env0 (resume sk []) ros 0 0) = true → alive nows started = true →
  roster_ok (updates nows started).2 ∧
  node_ok (updates nows started).2 (updates nows started).1.2.
Proof.
  intros Hs Ha. destruct (started_init Hs) as [Hi Hr].
  apply (reachable_inv c started); [rewrite Hr; apply ros_ok|done|by apply alive_steps].
Qed.
End running.

(** The run of the counting finality layer, after [n] updates. *)
Definition after (v : BlockValue) (n : nat) : Run (E := nat) :=
  updates (cl v) 0%nat (seq 1 n) (started (cl v) 0%nat).

(** The round the node is at. *)
Definition round_of (l : Run (E := nat)) : RoundData.t :=
  default RoundData.EMPTY (l.1.2.(rounds_data) !! 0%nat).

#[local] Instance slots_on_dec id s : Decision (slots_on id s).
Proof. unfold slots_on, slot_on. apply _. Defined.
#[local] Instance votes_ok_dec rd : Decision (votes_ok rd).
Proof. unfold votes_ok. destruct (_ =? _); apply _. Defined.

(** ** The engine *)

(** The node after [n] updates, before anything is decided. *)
Definition node (v : BlockValue) (n : nat) : t := (after v n).1.2.

Lemma node_inv v n :
  ran (start_round (cl v) 0%nat (resume sk []) ros 0 0) = true →
  alive (cl v) 0%nat (seq 1 n) (started (cl v) 0%nat) = true →
  (after v n).2 = ros → node_ok ros (node v n).
Proof. intros Hs Ha Er. rewrite <- Er at 1. apply (run_ok (cl v) 0%nat (EC := counting_client v) I (seq 1 n) Hs Ha). Qed.

Lemma node_loop v n (k : Z) :
  node_ok ros (node v n) → 0 ≤ (node v n).(height) < 2 ^ 64 - k →
  loop_ok (cl v) k (0%nat, node v n, ros).
Proof. intros. split; [apply ros_ok|done]. Qed.

Lemma decision_sound_witness : ∃ env' s' ros',
  total_active_stake ros = Ret 4 ∧ thresholds 4 = Ret (3, 2) ∧
  bft_update_round (cl block) 3 3 2 (0%nat, node block 2, ros) 0 = Ret (env', s', ros') ∧
  s'.(height) = 1 ∧ votes_ok (round_of (after block 2)) ∧
  decision (cl block) (round_of (after block 2)) (node block 2).(hash_keys) ros 3 ros'.
Proof.
  assert (node_ok ros (node block 2)) as Hok by (apply node_inv; vm_compute; reflexivity).
  assert (height (node block 2) = 0) as Hh0 by (vm_compute; reflexivity).
  set (o := bft_update_round (cl block) 3 3 2 (0%nat, node block 2, ros) 0).
  assert (o = Ret (result (dead 0%nat) o)) as Hr by (apply ran_result; vm_compute; reflexivity).
  assert ((result (dead 0%nat) o).1.2.(height) = 1) as Hh by (vm_compute; reflexivity).
  destruct (result (dead 0%nat) o) as [[env' s'] ros']. cbn [fst snd] in Hh.
  exists env', s', ros'. split; [vm_compute; reflexivity|]. split; [vm_compute; reflexivity|]. split; [exact Hr|]. split; [exact Hh|].
  split; [apply (bool_decide_unpack _); vm_compute; exact I|].
  destruct (decision_sound (cl block) 3 4 3 2 0%nat (node block 2) ros 0 (round_of (after block 2))
              env' s' ros') as [T|(_ & _ & T)].
  - apply node_loop; [exact Hok|rewrite Hh0; lia].
  - vm_compute; reflexivity.
  - vm_compute; reflexivity.
  - vm_compute; reflexivity.
  - exact Hr.
  - rewrite Hh, Hh0 in T. lia.
  - exact T.
Defined.

Lemma bft_update_invariant_witness : ∃ env' s' ros',
  bft_update (cl block) 3 0%nat (node block 2) ros = Ret (env', s', ros') ∧ s'.(height) = 1 ∧
  env_ok (cl := cl block) env' ∧ roster_ok ros' ∧ node_ok ros' s'.
Proof.
  assert (node_ok ros (node block 2)) as Hok by (apply node_inv; vm_compute; reflexivity).
  set (o := bft_update (cl block) 3 0%nat (node block 2) ros).
  assert (o = Ret (result (dead 0%nat) o)) as Hr by (apply ran_result; vm_compute; reflexivity).
  assert ((result (dead 0%nat) o).1.2.(height) = 1) as Hh by (vm_compute; reflexivity).
  destruct (result (dead 0%nat) o) as [[env' s'] ros']. exists env', s', ros'.
  split; [exact Hr|]. split; [exact Hh|].
  apply (bft_update_invariant (cl block) 3 0%nat (node block 2) ros env' s' ros');
    [exact I|apply ros_ok|exact Hok| |exact Hr].
  vm_compute. split; [discriminate|reflexivity].
Defined.

Lemma reachable_node_ok_witness :
  (after block 3).1.2.(height) = 1 ∧
  env_ok (cl := cl block) (after block 3).1.1 ∧ roster_ok (after block 3).2 ∧
  node_ok (after block 3).2 (after block 3).1.2.
Proof.
  split; [vm_compute; reflexivity|].
  destruct (started_init (cl block) 0%nat (EC := counting_client block) I) as [Hi Hr]; [vm_compute; reflexivity|].
  apply (reachable_node_ok (cl block) (started (cl block) 0%nat)); [rewrite Hr; apply ros_ok|exact Hi|].
  apply (alive_steps (cl block) 0%nat (seq 1 3)). vm_compute. reflexivity.
Defined.

(** ** An amnesiac proposer

    A chunk of the node's own proposal that arrives with another signature flushes the
    round but keeps the id of the proposal.  Votes are then stored for any value, and are
    not dropped when the proposal arrives again, since its id is already set. *)

(** A member of stake 3 and the node, of stake 1; a finality layer that keeps the pointer. *)
Definition two_members : list SortedRosterMember.t :=
  [SortedRosterMember.mk (replicate 32 Byte.x06) 3 3; SortedRosterMember.mk (ed25519_public sk) 1 4].
Definition keeping_cl : Closures (option FatPointerToBftBlock.t) := {|
  propose_closure := λ e, Ret (e, None);
  validate_closure := λ e _, Ret (e, (Pass, ReasonNone));
  push_block_closure := λ _ _ fp _, Ret (Some fp, two_members) |}.
Definition block_id : ValueId := id_from_value block HashKeys_default.
Definition other_id : ValueId := replicate 32 Byte.x09.

(** The chunk of [block], with the payload [v]. *)
Definition own_chunk (v : BlockValue) (s : t) : outcome t :=
  data ← signed_chunk 0 0 v block_id (-1) 0;
  '(s, _) ← check_and_incorporate_msg s 0 0 0 block_id (-1) two_members 1 PACKET_TYPE_PROPOSAL_CHUNK data (ed25519_sign sk data);
  Ret s.
Definition other_precommit (s : t) : outcome t :=
  let data := vote_data (replicate 32 Byte.x06) true 0 0 other_id in
  '(s, _) ← check_and_incorporate_msg s 0 0 0 other_id (-2) two_members 0 PACKET_TYPE_PRECOMMIT_SIGNATURES data (ed25519_sign sk data);
  Ret s.

Definition amnesia (between : t → outcome t) : outcome (Z * option (list FatPointerSignature.t)) :=
  s ← own_chunk block (resume sk []);
  s ← between s;
  s ← other_precommit s;
  s ← own_chunk block s;
  l ← bft_update keeping_cl 3 None s two_members;
  Ret (l.1.2.(height), option_map FatPointerToBftBlock.signatures l.1.1).

(** The precommit for another value decides the block, with a pointer that nobody signed;
    without the second chunk it is ignored. *)
Example amnesia_decides_unsigned :
  total_active_stake two_members = Ret 4 ∧ thresholds 4 = Ret (3, 2) ∧
  amnesia (own_chunk (replicate 100 Byte.x08)) = Ret (1, Some []) ∧
  amnesia (λ s, Ret s) = Ret (0, None).
Proof. vm_compute. done. Qed.

(** ** A key that accepts the all-zero signature

    Nothing checks the keys that bonds target.  For a key that accepts the all-zero
    signature (one of small order), the chunk of a proposal can be sent with that
    signature: the place of the chunk still counts as empty, so that every copy is counted
    again, and the complete proposal is no longer complete. *)
Fixpoint zero_signed_chunks (n : nat) (rd : RoundData.t) : outcome RoundData.t :=
  match n with
  | O => Ret rd
  | S n => rd ← receive_chunk HashKeys_default ros 0 0 block block_id (-1) (λ _, TMSig_NIL) rd 0; zero_signed_chunks n rd
  end.
Definition zero_signed (n : nat) : outcome (Z * bool) :=
  rd ← zero_signed_chunks n (RoundData.with_votes RoundData.EMPTY [slots_nil] ConsensusCounts.ZERO);
  Ret (RoundData.proposal_sigs_n rd, RoundData.has_full_proposal rd).

Example zero_signature_recounted :
  zero_signed 1 = Ret (1, true) ∧ zero_signed 2 = Ret (2, false).
Proof. vm_compute. done. Qed.

(** Two nodes that were fed different blocks by the same validator. *)
Definition block' : BlockValue := replicate 100 Byte.x08.

Lemma round_inv v n : node_ok ros (node v n) →
  (node v n).(rounds_data) !! 0%nat = Some (round_of (after v n)) →
  RoundData.height (round_of (after v n)) = (node v n).(height) →
  rd_inv (node v n).(hash_keys) ros (round_of (after v n)).
Proof.
  intros Hok Hl Hh. pose proof (no_rounds _ _ Hok) as Hr. eapply Forall_lookup in Hr; [|exact Hl]. auto.
Qed.

Ltac round_inv :=
  apply round_inv; [apply node_inv; vm_compute; reflexivity|vm_compute; reflexivity..].
Ltac votes_ok := apply (bool_decide_unpack _); vm_compute; exact I.

Lemma conflicting_quorums_expose_witness : ∃ guilty : list nat, NoDup guilty ∧
  Forall (equivocated ros 0 0 (RoundData.proposal_id (round_of (after block 2)))
            (RoundData.proposal_id (round_of (after block' 2)))) guilty ∧
  2 ≤ zsum (map (stake_of ros) guilty).
Proof.
  apply (conflicting_quorums_expose (node block 2).(hash_keys) (node block' 2).(hash_keys) ros
           (round_of (after block 2)) (round_of (after block' 2)) 4 3 2).
  - apply ros_ok.
  - round_inv.
  - round_inv.
  - votes_ok.
  - votes_ok.
  - vm_compute; discriminate.
  - vm_compute; discriminate.
  - vm_compute; reflexivity.
  - vm_compute; reflexivity.
  - vm_compute; discriminate.
  - vm_compute; reflexivity.
  - lia.
  - vm_compute; reflexivity.
  - vm_compute; discriminate.
  - vm_compute; discriminate.
Defined.

Lemma quorum_overlap_witness : ∃ big small f, thresholds 6 = Ret (big, small) ∧ f = (6 - 1) / 3 ∧
  big = 2 * f + 1 ∧ small = f + 1 ∧ 0 < small ≤ big ∧ big ≤ 6 ∧ 2 * big - 6 = f + 1 - (6 - 1) mod 3.
Proof. apply (quorum_overlap 6). lia. Defined.

(** A second vote of the member, after its precommit. *)
Definition sig1 : TMSig := ed25519_sign sk [Byte.x00].

Lemma incorporate_vote_correct_witness :
  (∃ rd' st, incorporate_vote (round_of (after block 0)) false ValueId_NIL ros 0 sig1 = Ret (rd', st) ∧
     vote_stored ros (round_of (after block 0)) false ValueId_NIL 0 sig1 rd') ∧
  (∃ rd', incorporate_vote (round_of (after block 2)) false ValueId_NIL ros 0 sig1 = Ret (rd', Fail_) ∧
     rd' = round_of (after block 2)).
Proof.
  assert (stake_bounded ros) as Hb by apply roster_wf_bounded, ros_ok.
  assert (0 < active_roster_len ros)%nat as Hl by (vm_compute; lia).
  split.
  - destruct (incorporate_vote_correct (node block 0).(hash_keys) ros (round_of (after block 0)) false
                ValueId_NIL 0 sig1 Hb) as (rd' & st & Hr & _ & Hst & _ & Hs & _); [|exact Hl|].
    { eapply ri_round. round_inv. }
    exists rd', st. split; [exact Hr|]. apply Hs. intros ->.
    destruct (proj1 Hst eq_refl) as [[Hn _]|(slots & Hi & Hne & _)]; [exact (Hn eq_refl)|].
    vm_compute in Hi. injection Hi as <-. apply Hne. vm_compute. reflexivity.
  - destruct (incorporate_vote_correct (node block 2).(hash_keys) ros (round_of (after block 2)) false
                ValueId_NIL 0 sig1 Hb) as (rd' & st & Hr & _ & Hst & Hf & _); [|exact Hl|].
    { eapply ri_round. round_inv. }
    assert (st = Fail_) as ->.
    { apply Hst. right.
      exists (default slots_nil (RoundData.msg_val_sigs (round_of (after block 2)) !! 0%nat)).
      split; [vm_compute; reflexivity|]. split; vm_compute; discriminate. }
    exists rd'. split; [exact Hr|by apply Hf].
Defined.

(** ** Proposals *)

Lemma incorporate_proposal_chunk_safe_witness : ∃ signed rd' st,
  signed_chunk 0 1 block (id_from_value block HashKeys_default) (-1) 0 = Ret signed ∧
  incorporate_proposal_chunk HashKeys_default (RoundData.fresh_round 0 1 ros) false false 0
    (id_from_value block HashKeys_default) (-1) ros signed sig1 = Ret (rd', st) ∧
  round_ok HashKeys_default ros rd'.
Proof.
  set (o := signed_chunk 0 1 block (id_from_value block HashKeys_default) (-1) 0).
  assert (o = Ret (result [] o)) as Hs by (apply ran_result; vm_compute; reflexivity).
  assert (stake_bounded ros) as Hb by apply roster_wf_bounded, ros_ok.
  exists (result [] o).
  destruct (incorporate_proposal_chunk_safe HashKeys_default ros (RoundData.fresh_round 0 1 ros) false
              false 0 (id_from_value block HashKeys_default) (-1) (result [] o) sig1
              (PacketProposalChunkHeader.mk 0 100 1 (-1) 0 (id_from_value block HashKeys_default)) block)
    as (rd' & st & Hr & Hok).
  - exact Hb.
  - by apply fresh_round_ok.
  - vm_compute. discriminate.
  - intros _. vm_compute. reflexivity.
  - vm_compute. reflexivity.
  - split; vm_compute; lia.
  - exists rd', st. split; [exact Hs|]. split; [exact Hr|exact Hok].
Defined.

(** Three chunks, out of order and with one sent twice. *)
Definition long_block : BlockValue := replicate 3000 Byte.x07.

Lemma proposal_reassembled_witness : ∃ rd',
  for_each (receive_chunk HashKeys_default ros 5 2 long_block
              (id_from_value long_block HashKeys_default) (-1) (λ _, sig1))
    [2; 0; 2; 1]%nat (RoundData.fresh_round 5 2 ros) = Ret rd' ∧
  RoundData.proposal rd' = long_block ∧ RoundData.proposal_is_faulty rd' = false.
Proof.
  destruct (proposal_reassembled HashKeys_default ros 5 2 long_block (-1) (λ _, sig1) [2; 0; 2; 1]%nat
              (RoundData.fresh_round 5 2 ros)) as (rd' & Hr & _ & _ & Hp & _ & _ & Hf).
  - apply roster_wf_bounded, ros_ok.
  - split; vm_compute; done.
  - split; vm_compute; done.
  - vm_compute; done.
  - vm_compute; done.
  - vm_compute. reflexivity.
  - assert (chunks_n long_block = 3%nat) as -> by (vm_compute; reflexivity).
    intros i. rewrite !elem_of_cons, elem_of_nil. lia.
  - intros _. vm_compute. discriminate.
  - split.
    + apply fresh_round_ok.
    + reflexivity.
    + reflexivity.
    + cbn. lia.
    + intros [|i] s Hi; discriminate Hi.
  - exists rd'. split; [exact Hr|]. split; [exact Hp|exact Hf].
Defined.

(** ** Packets *)

Lemma pack_votes_complete_witness : ∃ packets, pack_votes (round_of (after block 2)) true = Ret packets ∧
  concat (map unpack packets)
    ≡ₚ signed_votes true 0 (RoundData.msg_val_sigs (round_of (after block 2))) ∧
  Forall (sent_ok 0 0) packets ∧ (0 < length packets)%nat.
Proof.
  destruct (pack_votes_complete (round_of (after block 2)) true
              (RoundData.proposal_id (round_of (after block 2)))) as (ps & Hp & Hc & Hs).
  - apply (bool_decide_unpack _). vm_compute. exact I.
  - right. reflexivity.
  - vm_compute. discriminate.
  - exists ps. split; [exact Hp|]. split; [exact Hc|]. split.
    + revert Hs. assert (RoundData.height (round_of (after block 2)) = 0) as -> by (vm_compute; reflexivity).
      assert (RoundData.round (round_of (after block 2)) = 0) as -> by (vm_compute; reflexivity). done.
    + destruct ps; [|cbn; lia]. exfalso. apply (f_equal (result [PacketVotes.mk 0 0 0 0 [] []])) in Hp.
      vm_compute in Hp. discriminate.
Defined.

(** A prevote of the validator, as the packet another node sends. *)
Definition vote_packet : PacketVotes.t :=
  let id := RoundData.proposal_id (round_of (after block 1)) in
  PacketVotes.mk 0 1 0 0 id
    (PubKeySig.mk 0 (ed25519_sign sk (vote_data (ed25519_public sk) false 0 0 id))
     :: replicate 17 PubKeySig.default_).
Definition vote_msg : bytes :=
  PacketHeader.write_to (PacketHeader.new_ PACKET_TYPE_PREVOTE_SIGNATURES)
    ++ result [] (PacketVotes.write_to vote_packet).

Lemma receive_packet_safe_witness : ∃ peer' s',
  receive_packet Peer.default_ (node block 0) ros vote_msg = Ret (peer', s') ∧ node_ok ros s' ∧
  same_node (node block 0) s' ∧
  map (λ rd, ConsensusCounts.yes_prevotes (RoundData.counts rd)) s'.(rounds_data) = [4].
Proof.
  destruct (receive_packet_safe ros Peer.default_ (node block 0) vote_msg) as (peer' & s' & Hr & Hok & Hs).
  - apply ros_ok.
  - intros header status body Hm. vm_compute in Hm. injection Hm as <- <- <-. split.
    + intros Ht. vm_compute in Ht. discriminate.
    + intros _ p rest Hp. vm_compute in Hp. injection Hp as <- <-.
      split; [vm_compute; discriminate|split; vm_compute; done].
  - apply node_inv; vm_compute; reflexivity.
  - exists peer', s'. split; [exact Hr|]. split; [exact Hok|]. split; [exact Hs|].
    apply (f_equal (result (Peer.default_, node block 0))) in Hr. cbn [result] in Hr.
    replace s' with (Peer.default_, s').2 by reflexivity. replace s' with (peer', s').2 by reflexivity.
    rewrite <- Hr. vm_compute. reflexivity.
Defined.

Lemma oversized_votes_panic_witness :
  receive_packet Peer.default_ (node block 0) ros
    (PacketHeader.write_to (PacketHeader.new_ (PACKET_TYPE_PREVOTE_SIGNATURES + b2z false))
     ++ (to_le 1 0 ++ to_le 1 19 ++ to_le 4 0 ++ to_le 8 0 ++ ValueId_NIL)
     ++ concat (map PubKeySig.write_to (replicate 19 PubKeySig.default_)) ++ []) = Panic.
Proof.
  apply (oversized_votes_panic Peer.default_ (node block 0) ros 0 0 ValueId_NIL 0 19
           (replicate 19 PubKeySig.default_) [] false).
  - vm_compute; done.
  - vm_compute; done.
  - reflexivity.
  - lia.
  - lia.
  - vm_compute; done.
  - reflexivity.
  - apply Forall_replicate. split; vm_compute; done.
Defined.

(** ** Replay *)

Lemma precommit_replays_as_prevote_witness : ∃ s' rd,
  rd ∈ s'.(rounds_data) ∧ RoundData.height rd = 0 ∧ RoundData.round rd = 2 ^ 31 ∧
  ConsensusCounts.anys (RoundData.counts rd) = 4 ∧
  ∃ yes sig, check_and_incorporate_msg (node block 2) (node block 2).(height) (0 + 2 ^ 31) 0
    (RoundData.proposal_id (round_of (after block 2))) (-2) ros 0 PACKET_TYPE_PREVOTE_SIGNATURES yes sig
    = Ret (s', Indeterminate).
Proof.
  set (slot := (default slots_nil (RoundData.msg_val_sigs (round_of (after block 2)) !! 0%nat)).(slot_precommit)).
  assert ((node block 2).(height) = 0) as Hh by (vm_compute; reflexivity).
  destruct (precommit_replays_as_prevote ros (node block 2) 0 (SortedRosterMember.mk (ed25519_public sk) 4 4)
              0 (RoundData.proposal_id (round_of (after block 2))) slot.2)
    as (no & yes & s' & rd & _ & Hc & Hrd & Hht & Hr & Ha).
  - apply ros_ok.
  - apply node_inv; vm_compute; reflexivity.
  - reflexivity.
  - vm_compute. lia.
  - lia.
  - vm_compute. reflexivity.
  - vm_compute. discriminate.
  - vm_compute. reflexivity.
  - assert ((node block 2).(rounds_data) = [round_of (after block 2)]) as -> by (vm_compute; reflexivity).
    intros rd ->%list_elem_of_singleton _. vm_compute. discriminate.
  - exists s', rd. split; [exact Hrd|]. split; [congruence|]. split; [exact Hr|]. split; [exact Ha|].
    exists yes, slot.2. exact Hc.
Defined.

(** The validator proposes again, at round 1, the value that was valid at
    round 0. *)
Definition again : nat * t :=
  result (0%nat, resume sk [])
    (start_round (cl block) 0%nat (with_valid (resume sk []) (Some block, 0)) ros 0 1).
Definition again_ctx : Ctx := {|
  c_now := 1; c_big := 3; c_small := 2; c_i := 0; c_on_roster := true;
  c_counts := ConsensusCounts.ZERO; c_enough := true; c_current := true |}.

Lemma reproposal_not_prevoted_witness :
  again.2.(step) = Propose ∧
  cond_22 (cl block) again_ctx (again.1, again.2, ros) = Ret (again.1, again.2, ros) ∧
  cond_28 (cl block) again_ctx (again.1, again.2, ros) = Ret (again.1, again.2, ros).
Proof.
  split; [vm_compute; reflexivity|].
  apply (reproposal_not_prevoted (cl block) again_ctx again.1 again.2 ros
           (default RoundData.EMPTY (again.2.(rounds_data) !! 0%nat))).
  - vm_compute; reflexivity.
  - vm_compute; discriminate.
  - vm_compute; reflexivity.
Defined.

(** ** Formats *)

Lemma vote_packet_wf : PacketVotes.wf vote_packet.
Proof.
  unfold PacketVotes.wf. repeat split; try (vm_compute; done).
  apply Forall_cons. split; [split; vm_compute; done|]. apply Forall_replicate. split; vm_compute; done.
Qed.

Lemma votes_packet_roundtrip_witness : ∃ bs, PacketVotes.write_to vote_packet = Ret bs ∧
  PacketVotes.read_from (bs ++ [Byte.x09]) = Ret (Some (PacketVotes.received vote_packet, [Byte.x09])) ∧
  (PACKET_HEADER_SIZE + PACKET_STATUS_SIZE + length bs ≤ PATH_MTU)%nat.
Proof. apply (votes_packet_roundtrip vote_packet [Byte.x09]). apply vote_packet_wf. Defined.

Definition vote1 : Vote.t := Vote.mk (replicate 32 Byte.x01) (replicate 32 Byte.x02) 7 true 3.

Lemma vote1_wf : Vote.wf vote1.
Proof. repeat split; vm_compute; done. Qed.

Lemma vote_encoding_bijective_witness :
  length (Vote.to_bytes vote1) = 76%nat ∧ Vote.from_bytes (Vote.to_bytes vote1) = vote1 ∧
  Vote.to_bytes (Vote.from_bytes (replicate 76 Byte.xff)) = replicate 76 Byte.xff.
Proof. apply (vote_encoding_bijective vote1); [apply vote1_wf|reflexivity]. Defined.

Lemma signed_bytes_determine_vote_witness : ∃ no yes,
  make_vote_sign_datas (replicate 32 Byte.x01) true 7 3 (replicate 32 Byte.x02) = Ret (no, yes) ∧
  yes = Vote.to_bytes vote1.
Proof.
  set (o := make_vote_sign_datas (replicate 32 Byte.x01) true 7 3 (replicate 32 Byte.x02)).
  assert (o = Ret (result ([], []) o)) as Ho by (apply ran_result; vm_compute; reflexivity).
  destruct (result ([], []) o) as [no yes]. exists no, yes. split; [exact Ho|].
  apply (signed_bytes_determine_vote (replicate 32 Byte.x01) true 7 3 (replicate 32 Byte.x02)
           true 7 3 (replicate 32 Byte.x02) no yes no);
    [apply vote1_wf|apply vote1_wf|exact Ho|exact Ho].
Defined.

(** A fat pointer with one signature. *)
Definition pointer : FatPointerToBftBlock.t :=
  FatPointerToBftBlock.mk (replicate 44 Byte.x03)
    [FatPointerSignature.mk (ed25519_public sk)
       (ed25519_sign sk (ed25519_public sk ++ replicate 44 Byte.x03))].

Lemma fat_pointer_valid_iff_witness : FatPointerToBftBlock.validate_signatures pointer = true.
Proof.
  apply (fat_pointer_valid_iff pointer).
  - split; [reflexivity|]. split; [vm_compute; done|]. apply Forall_singleton. split; reflexivity.
  - apply Forall_singleton. vm_compute. reflexivity.
Defined.

(** ** Rosters *)

Definition vals : list RosterMember.t :=
  [RosterMember.mk (replicate 32 Byte.x01) 3 []; RosterMember.mk (replicate 32 Byte.x02) 7 [];
   RosterMember.mk (replicate 32 Byte.x03) 3 []].

Lemma roster_order_independent_witness :
  tenderlink_roster_from_internal vals = tenderlink_roster_from_internal (reverse vals).
Proof. apply (roster_order_independent vals (reverse vals)). symmetry. apply reverse_Permutation. Defined.

Lemma roster_from_internal_wf_witness : ∃ roster,
  tenderlink_roster_from_internal vals = Ret roster ∧ roster_wf roster ∧
  map (λ m, (m.(SortedRosterMember.pub_key), m.(SortedRosterMember.stake))) roster
    ≡ₚ map (λ v, (v.(RosterMember.pub_key), v.(RosterMember.voting_power))) vals ∧
  Sorted (λ a b, b ≤ a) (stakes roster).
Proof.
  apply (roster_from_internal_wf vals); [|vm_compute; reflexivity].
  repeat (apply Forall_cons; split; [cbn; lia|]). apply Forall_nil. exact I.
Defined.

Lemma proposer_is_active_witness : ∃ i m x,
  proposer_from_height_round HashKeys_default ros 9 1 = Ret (Some i, m.(SortedRosterMember.pub_key)) ∧
  (i < active_roster_len ros)%nat ∧ ros !! i = Some m ∧ 0 < m.(SortedRosterMember.stake) ∧
  x = from_le (take 8 (blake3_keyed_hash (hk_proposer HashKeys_default) (to_le 8 9 ++ to_le 4 1)))
      mod zsum (stakes (active_roster ros)) ∧
  m.(SortedRosterMember.cumulative_stake) - m.(SortedRosterMember.stake) ≤ x
    < m.(SortedRosterMember.cumulative_stake).
Proof.
  apply (proposer_is_active HashKeys_default ros 9 1); [apply rk_stakes, ros_ok|vm_compute; reflexivity].
Defined.
