(* ===== verification/TflScenario.v ===== *)
(** * TflScenario: the finality service on a concrete PoW chain

    A PoW state with a best chain of eleven headers, and the finality service
    of a one-validator network on top of it: it proposes a BFT block, the
    engine decides it, the service takes it over and stores it.  The lemmas
    apply the theorems of [Finality] to this run. *)

From stdpp Require Import base list strings sets relations.
From S2P Require Import Prelude Wire Encoding Bft Roster Round RoundInv Node NodeInv Decide Gossip Receive Tfl TflInv Finality Scenario.
Import ToyCrypto TFL.

(** ** A PoW state *)

Definition header_at (h : Z) : BlockHeader.t :=
  BlockHeader.mk 4 (to_le 32 (h + 1)) (zeros 32) (zeros 32) 0 0 (zeros 32) [Byte.x01]
    FatPointerToBftBlock.null.
Definition best (h : Z) : ZebBlockHash := BlockHeader.from_header_data (header_at h).
Definition zeb_header (h : Z) : ZebBlockHeader :=
  {| zcash_serialized := BlockHeader.write_data (header_at h); previous_block_hash := best (h - 1) |}.
Definition heights : list Z := map Z.of_nat (seq 0 11).

Definition height_of (hash : ZebBlockHash) : option Z :=
  snd <$> list_find (λ h, best h = hash) heights.

Definition pow (w : unit) (r : StateRequest) : unit * (string + StateResponse) :=
  (w, match r with
      | KnownBlock hash => inr (RKnownBlock ((λ h, (h, BestChain)) <$> height_of hash))
      | BlockHeaderByHash hash =>
          match height_of hash with
          | Some h => inr (RBlockHeader h hash (zeb_header h))
          | None => inl "unknown block"%string
          end
      | BlockHeaderByHeight h =>
          if (0 <=? h) && (h <=? 10) then inr (RBlockHeader h (best h) (zeb_header h))
          else inl "unknown height"%string
      | BlockLocator => inr (RBlockLocator (map best (reverse heights)))
      | Tip => inr (RTip (Some (10, best 10)))
      | FindBlockHeaders (known :: _) _ =>
          inr (RBlockHeaders (match height_of known with
                              | Some h => map zeb_header (filter (λ x, h < x) heights)
                              | None => []
                              end))
      | CrosslinkFinalizeBlock hash => inr (RCrosslinkFinalized hash [(ed25519_public sk, 4)])
      | _ => inl "not answered"%string
      end).

Definition vals0 : list RosterMember.t := [RosterMember.mk (ed25519_public sk) 4 []].

Lemma vals0_ok : vals_ok vals0.
Proof.
  split; [split|apply Forall_singleton; intros d; cbn; apply bool_decide_eq_false; cbn; discriminate].
  - apply Forall_singleton. unfold RosterMember.wf, is_u. cbn. split; [done|]. split; [lia|]. split; [lia|constructor].
  - vm_compute; done.
  - vm_compute; done.
Qed.

Lemma pow_stakes : stakes_law pow.
Proof. intros w h hash stakes [= <- <-]. apply vals0_ok. Qed.
Lemma pow_keys : keys_law pow.
Proof. intros w h hash stakes [= <- <-]. apply vals0_ok. Qed.

(** ** The service *)

Definition service0 : TFL.t := TFL.init true vals0 (Some []).
Definition block1 : BftBlock.t :=
  default (filler 0) (snd (result (tt, service0, None) (propose_new_bft_block pow tt service0))).
Definition pointer_to (b : BftBlock.t) : FatPointerToBftBlock.t :=
  let vote := hash_of b ++ to_le 8 0 ++ to_le 4 0x80000000 in
  FatPointerToBftBlock.mk vote
    [FatPointerSignature.mk (ed25519_public sk) (ed25519_sign sk (ed25519_public sk ++ vote))].
Definition taken_over : unit * TFL.t * list SortedRosterMember.t :=
  result (tt, service0, [])
    (handle_new_decided_bft_block pow block1 (pointer_to block1) [replicate 64 Byte.x09] tt service0).

Lemma taken_over_eq :
  handle_new_decided_bft_block pow block1 (pointer_to block1) [replicate 64 Byte.x09] tt service0
  = Ret taken_over.
Proof. apply ran_result. vm_compute. reflexivity. Qed.

Lemma proposed_eq : propose_new_bft_block pow tt service0 = Ret (tt, service0, Some block1).
Proof. vm_compute. reflexivity. Qed.

Lemma no_blocks_no_clash : ¬ placeholder_clash service0.(bft_blocks).
Proof. intros (i & j & b & Hi & _). destruct i; discriminate. Qed.

Lemma null_wf : FatPointerToBftBlock.wf FatPointerToBftBlock.null.
Proof. split; [reflexivity|]. split; [reflexivity|]. apply Forall_nil. exact I. Qed.

Lemma header_wf h : BlockHeader.wf (header_at h).
Proof.
  unfold BlockHeader.wf. cbn [header_at BlockHeader.version BlockHeader.prev_block BlockHeader.merkle_root
                           BlockHeader.final_sapling_root BlockHeader.time BlockHeader.bits BlockHeader.nonce
                           BlockHeader.solution BlockHeader.fat_pointer_to_bft_block].
  split; [lia|]. split; [apply length_le_split|]. split; [reflexivity|]. split; [reflexivity|].
  split; [unfold is_u; lia|]. split; [unfold is_u; lia|]. split; [reflexivity|].
  split; [vm_compute; discriminate|apply null_wf].
Qed.

(** A block with the given height and headers on top of the empty chain. *)
Definition first_block (height : Z) (hs : list Z) : BftBlock.t :=
  BftBlock.mk 1 height FatPointerToBftBlock.null 0 (map header_at hs).

Lemma first_block_wf height hs :
  is_u 32 height → Z.of_nat (length hs) ≤ 2048 → BftBlock.wf (first_block height hs).
Proof.
  intros Hh Hn. unfold BftBlock.wf. cbn. rewrite length_map. unfold is_u.
  split; [lia|]. split; [done|]. split; [apply null_wf|]. split; [lia|]. split; [lia|].
  apply Forall_map, Forall_true. intros h. apply header_wf.
Qed.

Lemma block1_eq : block1 = first_block 1 [8; 9; 10].
Proof. vm_compute. reflexivity. Qed.

Lemma block1_wf : BftBlock.wf block1.
Proof. rewrite block1_eq. apply first_block_wf; [unfold is_u; lia|cbn; lia]. Qed.

Definition service1 : TFL.t := taken_over.1.2.

Lemma service1_chain : chain_ok service1.(bft_blocks) service1.(fat_pointer_to_tip).
Proof.
  pose proof taken_over_eq as Ht. unfold service1. destruct taken_over as [[w s] r]. cbn.
  apply handle_extends in Ht as [Hcl|(_ & _ & Hc)]; [by destruct (no_blocks_no_clash Hcl)|done|..].
  - apply chain_ok_nil.
  - apply block1_wf.
Qed.

(** ** The theorems of [Finality] on this run *)

Lemma decided_block_extends_chain_witness :
  service1.(bft_blocks) = [block1] ∧
  chain_ok service1.(bft_blocks) service1.(fat_pointer_to_tip) ∧
  ∃ height hash, candidate_hash block1 = Some hash ∧
    service1.(latest_final_block) = Some (height, hash).
Proof.
  pose proof taken_over_eq as Ht. unfold service1. destruct taken_over as [[w s] r]. cbn.
  destruct (decided_block_extends_chain pow block1 (pointer_to block1) [replicate 64 Byte.x09] tt service0
              w s r) as [Hcl|(Hb & _ & Hc & _ & Hl)].
  - apply chain_ok_nil.
  - apply block1_wf.
  - exact Ht.
  - destruct (no_blocks_no_clash Hcl).
  - split; [exact Hb|]. split; [exact Hc|exact Hl].
Defined.

Lemma historical_block_witness : ∃ fp,
  get_historical_bft_block_at_height (W := unit) 1 tt service1 = Ret (tt, service1, Some (block1, fp)) ∧
  FatPointerToBftBlock.points_at_block_hash fp = hash_of block1.
Proof.
  destruct (historical_block tt service1 1) as (r & Hr & Hm); [apply service1_chain|lia|].
  assert (service1.(bft_blocks) = [block1]) as Hb by (vm_compute; reflexivity).
  rewrite Hb in Hm. destruct r as [[b fp]|].
  - destruct Hm as ([= <-] & _ & Hp). exists fp. split; [exact Hr|exact Hp].
  - exfalso. cbn in Hm. lia.
Defined.

Lemma finality_status_witness : ∃ w',
  tfl_block_finality_from_height_hash pow 3 (best 3) tt service1 = Ret (w', service1, inr (Some Finalized)).
Proof.
  destruct (finality_status pow best tt service1 8 (best 8) 3 (best 3)) as [w' Hw].
  - vm_compute. reflexivity.
  - reflexivity.
  - lia.
  - intros w h Hh. exists (zeb_header h). cbn.
    rewrite (proj2 (Z.leb_le 0 h)), (proj2 (Z.leb_le h 10)) by lia. reflexivity.
  - exists w'. rewrite Hw. cbn. rewrite decide_True by reflexivity. reflexivity.
Defined.

Lemma own_proposal_validates_witness : ∃ b bs w3,
  propose_new_bft_block pow tt service0 = Ret (tt, service0, Some b) ∧
  BftBlock.zcash_serialize b = Ret bs ∧
  validate_closure (tfl_closures pow) (tt, service0) bs = Ret ((w3, service0), (Pass, ReasonNone)).
Proof.
  exists block1.
  destruct (own_proposal_validates pow tt service0 tt service0 block1 tt 8)
    as (_ & _ & _ & bs & w3 & Hs & Hv).
  - apply chain_ok_nil.
  - apply null_wf.
  - vm_compute. reflexivity.
  - apply proposed_eq.
  - vm_compute. reflexivity.
  - exists bs, w3. split; [apply proposed_eq|]. split; [exact Hs|exact Hv].
Defined.

Lemma empty_proposal_aborts_witness :
  validate_closure (tfl_closures pow) (tt, service0)
    (BftBlock.serialize_bytes (first_block 1 []) ++ []) = Panic.
Proof.
  apply (empty_proposal_aborts pow tt service0 (first_block 1 []) []);
    [apply first_block_wf; [unfold is_u; lia|cbn; lia]|reflexivity|reflexivity].
Defined.

Lemma pow_best_chain : best_chain pow best header_at 10.
Proof.
  split.
  - intros w. reflexivity.
  - intros w h Hh. exists (zeb_header h). cbn.
    rewrite (proj2 (Z.leb_le 0 h)), (proj2 (Z.leb_le h 10)) by lia. reflexivity.
  - intros w h Hh. eexists. split; [reflexivity|].
    assert (h = 0 ∨ h = 1 ∨ h = 2 ∨ h = 3 ∨ h = 4 ∨ h = 5 ∨ h = 6 ∨ h = 7 ∨ h = 8 ∨ h = 9 ∨ h = 10)
      as Hor by lia.
    destruct_or! Hor; subst h; vm_compute; reflexivity.
  - reflexivity.
Qed.

Lemma proposal_finalises_witness : ∃ w' b,
  propose_new_bft_block pow tt service0 = Ret (w', service0, Some b) ∧ candidate_hash b = Some (best 8).
Proof.
  destruct (proposal_finalises pow best header_at 10 tt service0) as (w' & Hp & Hc).
  - apply pow_best_chain.
  - apply chain_ok_nil.
  - vm_compute. split; discriminate.
  - vm_compute. reflexivity.
  - exact I.
  - exists w'. eexists. split; [exact Hp|exact Hc].
Defined.

(** A block whose height is not the next one. *)
Definition high_block : BftBlock.t := first_block 7 [8; 9; 10].

Lemma validated_block_can_abort_witness :
  validate_closure (tfl_closures pow) (tt, service0) (BftBlock.serialize_bytes high_block ++ [])
    = Ret ((tt, service0), (Pass, ReasonNone)) ∧
  push_block_closure (tfl_closures pow) (tt, service0) (BftBlock.serialize_bytes high_block ++ [])
    (pointer_to high_block) [] = Panic.
Proof.
  assert (validate_closure (tfl_closures pow) (tt, service0) (BftBlock.serialize_bytes high_block ++ [])
    = Ret ((tt, service0), (Pass, ReasonNone))) as Hv by (vm_compute; reflexivity).
  split; [exact Hv|].
  destruct (validated_block_can_abort pow high_block [] (pointer_to high_block) [] tt service0 tt)
    as [Hcl|[[Hr _]|Hp]].
  - apply chain_ok_nil.
  - apply first_block_wf; [unfold is_u; lia|cbn; lia].
  - exact Hv.
  - vm_compute. reflexivity.
  - left. vm_compute. discriminate.
  - destruct (no_blocks_no_clash Hcl).
  - destruct (Hr eq_refl).
  - exact Hp.
Defined.

Lemma decided_block_taken_over_witness : ∃ w' s' r,
  handle_new_decided_bft_block pow block1 (pointer_to block1) [] tt service0 = Ret (w', s', r) ∧
  s'.(bft_blocks) = [block1] ∧ s'.(fat_pointer_to_tip) = pointer_to block1 ∧ roster_ok r.
Proof.
  destruct (decided_block_taken_over pow block1 (pointer_to block1) [] tt service0 (best 8))
    as (w' & s' & r & Hh & Hb & Hf & _ & _ & _ & Hr).
  - apply chain_ok_nil.
  - apply vals0_ok.
  - apply block1_wf.
  - vm_compute. reflexivity.
  - vm_compute. reflexivity.
  - intros Hne. destruct (Hne eq_refl).
  - vm_compute. reflexivity.
  - vm_compute. reflexivity.
  - vm_compute. reflexivity.
  - split.
    + intros w. exists 8. vm_compute. reflexivity.
    + intros w. right. eexists. reflexivity.
    + apply pow_stakes.
  - exists w', s', r. split; [exact Hh|]. split; [exact Hb|]. split; [exact Hf|].
    apply Hr; [apply pow_keys|apply vals0_ok].
Defined.

Lemma store_replays_chain_witness : ∃ file, service1.(pos_store) = Some file ∧
  ∀ torn, read_record torn = None →
    ∃ l, load_store vals0 (file ++ torn) = Ret l ∧ l.(l_rest) = torn ∧ l.(l_blocks) = service1.(bft_blocks).
Proof.
  pose proof taken_over_eq as Ht. unfold service1. destruct taken_over as [[w s] r]. cbn.
  destruct (store_replays_chain pow vals0 block1 (pointer_to block1) [replicate 64 Byte.x09] tt service0
              w s r) as [Hcl|(_ & file & Hf & Hl)].
  - apply chain_ok_nil.
  - apply vals0_ok.
  - apply pow_stakes.
  - split. exists []. split; [constructor|]. split; [reflexivity|]. split; [reflexivity|].
    split; reflexivity.
  - apply block1_wf.
  - split; [vm_compute; reflexivity|]. split; [vm_compute; reflexivity|].
    apply Forall_singleton. split; vm_compute; reflexivity.
  - vm_compute. reflexivity.
  - apply Forall_singleton. reflexivity.
  - exact Ht.
  - destruct (no_blocks_no_clash Hcl).
  - exists file. split; [exact Hf|]. intros torn Htorn.
    destruct (Hl torn Htorn) as (l & H1 & H2 & H3 & _). exists l.
    split; [exact H1|]. split; [exact H2|exact H3].
Defined.

(** ** The engine and the service together *)

Definition together : Run (E := unit * TFL.t) := started (tfl_closures pow) (tt, service0).
Definition decided_together : Run (E := unit * TFL.t) :=
  updates (tfl_closures pow) (tt, service0) (seq 1 3) together.

Lemma service0_ok : service_ok (tt, service0).
Proof. split; [apply vals0_ok|right; apply chain_ok_nil]. Qed.

Lemma crosslink_reachable_witness :
  let s := decided_together.1.1.2 in
  length s.(bft_blocks) = 1%nat ∧ s.(latest_final_block) = Some (8, best 8) ∧
  (placeholder_clash s.(bft_blocks) ∨ chain_ok s.(bft_blocks) s.(fat_pointer_to_tip)) ∧
  vals_ok s.(validators_at_current_height) ∧ roster_ok decided_together.2 ∧
  node_ok decided_together.2 decided_together.1.2.
Proof.
  split; [vm_compute; reflexivity|]. split; [vm_compute; reflexivity|].
  destruct (started_init (tfl_closures pow) (tt, service0) (EC := tfl_client pow pow_stakes pow_keys) service0_ok)
    as [Hi Hr]; [vm_compute; reflexivity|].
  apply (crosslink_reachable pow pow_stakes pow_keys together decided_together).
  - unfold together. rewrite Hr. apply ros_ok.
  - exact Hi.
  - unfold decided_together. apply alive_steps. vm_compute. reflexivity.
Defined.
