(* ===== verification/StakeScenario.v ===== *)
(** * StakeScenario: staking on a concrete chain

    A chain with four bonds and a block that creates, unbonds, withdraws and
    retargets one of each.  The lemmas apply the theorems of [Amount],
    [Staking] and of the delegation files to it, and the examples show blocks
    that the theorems rightly leave out. *)

From stdpp Require Import base list gmap sets.
From S2P Require Import Prelude Wire Encoding Bft Roster Amount Staking Transparent Network Transaction Delegation DelegationInv DelegationBlock BlockValue DelegationRevert.
Import StakingAction Chain.

(** ** Amounts and staking actions *)

Definition pools (bonded unbonded : Z) : ValueBalance.t :=
  ValueBalance.mk 1000 0 20 0 0 bonded unbonded.
Definition change (bonded unbonded : Z) : ValueBalance.t :=
  ValueBalance.mk (- bonded - unbonded) 0 0 0 0 bonded unbonded.

Lemma value_pool_change_reverts_witness :
  ∃ n, ValueBalance.neg (change 7 (-3)) = Ret n ∧
    ValueBalance.add_chain_value_pool_change (ValueBalance.plus (pools 10 5) (change 7 (-3))) n
    = Ret (inr (pools 10 5)).
Proof.
  assert (ValueBalance.ok NonNegative (pools 10 5)) as H1
    by (apply (bool_decide_unpack _); vm_compute; exact I).
  assert (ValueBalance.ok NegativeAllowed (change 7 (-3))) as H2
    by (apply (bool_decide_unpack _); vm_compute; exact I).
  assert (ValueBalance.ok NonNegative (ValueBalance.plus (pools 10 5) (change 7 (-3)))) as H3
    by (apply (bool_decide_unpack _); vm_compute; exact I).
  pose proof (value_pool_change_reverts (pools 10 5) (change 7 (-3)) H1 H2) as H.
  rewrite (decide_True _ _ H3) in H.
  destruct H as (n & _ & Hn & Hr). exists n. split; [exact Hn|exact Hr].
Defined.

Definition bond_key (n : Z) : BondKey := to_le 32 n.
Definition finalizer (n : Z) : bytes := to_le 32 (1000 + n).

Definition create (k amount : Z) : StakingAction.t :=
  StakingAction.mk CreateNewDelegationBond amount (bond_key k) (zeros 32) (finalizer k) (zeros 32) (zeros 64) (zeros 64).
Definition unbond (k : Z) : StakingAction.t :=
  StakingAction.mk BeginDelegationUnbonding 0 (bond_key k) (zeros 32) (zeros 32) (zeros 32) (zeros 64) (zeros 64).
Definition withdraw (k amount : Z) : StakingAction.t :=
  StakingAction.mk WithdrawDelegationBond amount (bond_key k) (zeros 32) (zeros 32) (zeros 32) (zeros 64) (zeros 64).
Definition retarget (k t : Z) : StakingAction.t :=
  StakingAction.mk RetargetDelegationBond 0 (bond_key k) (zeros 32) (finalizer t) (zeros 32) (zeros 64) (zeros 64).

Lemma staking_action_roundtrip_witness :
  ∃ bs, StakingAction.write (Some (create 4 40)) = Some bs ∧
    StakingAction.read (bs ++ [Byte.x07]) = Some (Some (create 4 40), [Byte.x07]).
Proof.
  apply (staking_action_roundtrip (Some (create 4 40)) [Byte.x07]).
  repeat (split; [vm_compute; reflexivity|]). split; [unfold is_u; cbn; lia|].
  split; vm_compute; reflexivity.
Defined.

Lemma staking_value_balance_cases_witness :
  staking_action_value_balance (Some (create 4 (2 ^ 63))) = Panic.
Proof.
  rewrite (staking_value_balance_cases (create 4 (2 ^ 63))) by (unfold is_u; cbn; lia).
  vm_compute. reflexivity.
Defined.

(** ** A chain and a block *)

Definition bond (amount : Z) (t : Z) (h : Z) : DelegationBond :=
  {| bond_amount := amount; target_finalizer := finalizer t; created_at := (h, 0) |}.

Definition bonds0 : Bonds :=
  list_to_map [(bond_key 1, (bond 300 1 10, Active)); (bond_key 2, (bond 200 2 11, Active));
               (bond_key 3, (bond 50 3 12, Unbonding)); (bond_key 5, (bond 10 5 13, Withdrawn))].
Definition chain0 : Chain.t := Chain.mk bonds0 [] [] (pools 500 50).
Definition db0 : ZebraDb :=
  {| delegation_bond_by_key := list_to_map [(bond_key 3, bond 50 3 12); (bond_key 5, bond 10 5 13)];
     bond_status_by_key := list_to_map [(bond_key 3, DbUnbonding (12, 0)); (bond_key 5, DbWithdrawn (13, 0))] |}.

Definition block0 : list (option StakingAction.t) :=
  [None; Some (create 4 40); Some (unbond 1); Some (withdraw 3 50); Some (retarget 2 7)].

#[local] Instance debug : Profile := true.

#[local] Instance in_key_order : Iteration map_to_list.
Proof. intros bs. reflexivity. Qed.
#[local] Instance backwards : Iteration (λ bs, reverse (map_to_list bs)).
Proof. intros bs. apply reverse_Permutation. Qed.

Lemma bonds0_amounts : ∀ k v, bonds0 !! k = Some v → 0 ≤ v.1.(bond_amount).
Proof. apply (bool_decide_unpack (map_Forall (λ _ v, 0 ≤ v.1.(bond_amount)) bonds0)). by vm_compute. Qed.

Lemma bonds0_payable : payable_bonds bonds0.
Proof.
  split; [exact bonds0_amounts| |left; vm_compute; done|vm_compute; done].
  exists (bond_key 1), (bond 300 1 10). vm_compute. done.
Qed.

(** Two bonds of zero, which validation accepts. *)
Definition empty_bonds : Bonds :=
  list_to_map [(bond_key 1, (bond 0 1 10, Active)); (bond_key 2, (bond 0 2 11, Active))].

Lemma rewards_paid_exactly_witness :
  (∃ m store, distribute_rewards map_to_list bonds0 = Ret (rewarded bonds0 m, store) ∧
     zsum (map snd store) = BOND_REWARD_TOTAL) ∧
  distribute_rewards map_to_list empty_bonds = Panic.
Proof.
  split.
  - destruct (rewards_paid_exactly map_to_list bonds0 in_key_order (pb_amounts _ bonds0_payable) (pb_active _ bonds0_payable)
                (pb_supply _ bonds0_payable)) as [_ Hpaid].
    destruct Hpaid as (m & store & _ & Hd & Hs & _); [|exists m, store; split; [exact Hd|exact Hs]].
    intros [HT _]. vm_compute in HT. discriminate HT.
  - apply (rewards_paid_exactly map_to_list empty_bonds in_key_order).
    + apply (bool_decide_unpack (map_Forall (λ _ v, 0 ≤ v.1.(bond_amount)) empty_bonds)). vm_compute. exact I.
    + exists (bond_key 1), (bond 0 1 10). vm_compute. reflexivity.
    + vm_compute. discriminate.
    + split; [vm_compute; reflexivity|]. exists (bond_key 1), (bond 0 1 10), (bond_key 2), (bond 0 2 11).
      split; [vm_compute; reflexivity|]. split; [vm_compute; reflexivity|]. intros E. vm_compute in E. discriminate E.
Defined.

Lemma rewards_order_independent_witness :
  ∃ bs' store1 store2, distribute_rewards map_to_list bonds0 = Ret (bs', store1) ∧
    distribute_rewards (λ bs, reverse (map_to_list bs)) bonds0 = Ret (bs', store2) ∧ store1 ≡ₚ store2.
Proof.
  exact (rewards_order_independent map_to_list (λ bs, reverse (map_to_list bs)) bonds0
           in_key_order backwards bonds0_payable).
Defined.

Example empty_bonds_are_valid :
  validate_delegation_bonds (Chain.mk ∅ [] [] (pools 0 0)) db0 20
    [Some (create 1 0); Some (create 2 0)] = Ret (inr ()).
Proof. vm_compute. reflexivity. Qed.

Lemma empty_bonds_abort_witness : distribute_rewards map_to_list empty_bonds = Panic.
Proof.
  apply (empty_bonds_abort map_to_list empty_bonds (bond_key 1) (bond 0 1 10) (bond_key 2) (bond 0 2 11)).
  - exact in_key_order.
  - apply (bool_decide_unpack (map_Forall (λ _ v, 0 ≤ v.1.(bond_amount)) empty_bonds)). vm_compute. exact I.
  - vm_compute. reflexivity.
  - vm_compute. reflexivity.
  - vm_compute. reflexivity.
  - intros E. vm_compute in E. discriminate E.
Defined.

Lemma chain0_balanced : balanced chain0.
Proof. split; [exact bonds0_amounts|vm_compute; reflexivity..]. Qed.

Lemma chain0_holds : holds_finalized chain0 db0.
Proof.
  intros k [b Hb]. revert k b Hb.
  apply (bool_decide_unpack (map_Forall (λ k _, is_Some (bonds0 !! k)) db0.(delegation_bond_by_key))).
  by vm_compute.
Qed.

Lemma block0_affordable : affordable chain0 (located 20 0 block0) (change 40 (-50)).
Proof.
  split; [apply (bool_decide_unpack _); vm_compute; exact I..|].
  intros _. apply (bool_decide_unpack _). vm_compute. exact I.
Qed.

Lemma block0_keys : NoDup (map arg32_0 (actions block0)).
Proof. apply (bool_decide_unpack _). by vm_compute. Qed.

(** The transactions of the block: a coinbase transaction, one that spends an
    output of 40 into a bond, and one that pays out the bond of 50. *)
Definition out (value : Z) : Output := {| value := value; lock_script := [] |}.
Definition spent : gmap OutPoint Output := {[ (zeros 32, 0) := out 40 ]}.
Definition tx (inputs : list Input) (outputs : list Z) (a : option StakingAction.t) : Transaction :=
  VCrosslink Nu6_1 unlocked 20 inputs (map out outputs) None None a.
Definition txs0 : list Transaction :=
  [tx [Coinbase 20 0] [] None; tx [PrevOut (zeros 32, 0) 0] [] (Some (create 4 40)); tx [] [] (Some (unbond 1));
   tx [] [50] (Some (withdraw 3 50)); tx [] [] (Some (retarget 2 7))].

Lemma tx_is_ok inputs outputs a :
  match a with Some a => is_u 64 a.(amount_zats) | None => True end → tx_ok (tx inputs outputs a).
Proof. intros Ha. split; [apply Forall_nil_2|apply zero_ok..|]. cbn. by intros x ->. Qed.

Lemma txs0_ok : Forall tx_ok txs0.
Proof. unfold txs0. repeat (apply Forall_cons_2; [apply tx_is_ok; cbn; unfold is_u; lia|]). apply Forall_nil_2. Qed.

Lemma block_keeps_pools_witness :
  ∃ c', update_block map_to_list 20 block0 (change 40 (-50)) chain0 = Ret (inr c') ∧ balanced c'.
Proof.
  apply (block_keeps_pools map_to_list chain0 db0 spent 20 txs0 None (change 40 (-50)) (ValueBalance.mk 1010 0 20 0 0 540 0)
           in_key_order chain0_balanced chain0_holds).
  - apply (bool_decide_unpack _). vm_compute. exact I.
  - exact txs0_ok.
  - repeat apply Forall_cons_2; try apply Forall_nil_2; eexists; vm_compute; reflexivity.
  - exact zero_ok.
  - vm_compute. reflexivity.
  - vm_compute. reflexivity.
  - vm_compute. reflexivity.
  - exact block0_keys.
  - split; [apply (bool_decide_unpack _); vm_compute; exact I|].
    intros _. apply (bool_decide_unpack _). vm_compute. exact I.
Defined.

Lemma revert_undoes_block_witness :
  ∃ c' c'', update_block map_to_list 20 block0 (change 40 (-50)) chain0 = Ret (inr c') ∧
    revert_block map_to_list block0 (change 40 (-50)) c' = Ret c'' ∧ same_but_created chain0 c''.
Proof.
  apply (revert_undoes_block map_to_list map_to_list chain0 db0 20 block0 (change 40 (-50))
           in_key_order (λ m, reflexivity _) chain0_balanced chain0_holds);
    [|exact block0_keys|exact block0_affordable].
  vm_compute. reflexivity.
Defined.

(** ** Blocks the theorems leave out *)

(** The checks keep no record of the withdrawals of a block: one that withdraws
    the same bond twice passes them and is added to the tip, and takes the
    amount of the bond out of the unbonded pool twice. *)
Definition twice : list (option StakingAction.t) := [Some (withdraw 3 20); Some (withdraw 3 20)].
Definition chain1 : Chain.t :=
  Chain.mk (list_to_map [(bond_key 3, (bond 20 3 12, Unbonding)); (bond_key 6, (bond 30 6 12, Unbonding))])
    [] [] (pools 0 50).

Theorem withdrawn_twice :
  validate_delegation_bonds chain1 {| delegation_bond_by_key := ∅; bond_status_by_key := ∅ |} 20 twice
    = Ret (inr ()) ∧
  ∃ c', update_block map_to_list 20 twice (change 0 (-40)) chain1 = Ret (inr c') ∧
    staking_unbonded c' = 10 ∧ total Unbonding c'.(delegation_bonds) = 30.
Proof.
  split; [vm_compute; reflexivity|]. eexists. split; [vm_compute; reflexivity|].
  split; vm_compute; reflexivity.
Qed.

(** Reverting an unbonding leaves the height of the unbonding on the bond, not
    that of its creation: the delay before the next action on the bond is then
    counted from the reverted block. *)
Theorem revert_keeps_height :
  ∃ c' c'', update_block map_to_list 20 [Some (unbond 1)] (change 0 0) chain0 = Ret (inr c') ∧
    revert_block map_to_list [Some (unbond 1)] (change 0 0) c' = Ret c'' ∧
    created_at <$> (fst <$> chain0.(delegation_bonds) !! bond_key 1) = Some (10, 0) ∧
    created_at <$> (fst <$> c''.(delegation_bonds) !! bond_key 1) = Some (20, 0).
Proof.
  eexists _, _. split; [vm_compute; reflexivity|]. split; [vm_compute; reflexivity|].
  split; vm_compute; reflexivity.
Qed.

(** A bond created and unbonded in one block: the checks accept the block, but
    the unbonding takes the amount from the bonded pool before the value pool
    change of the block has added it. *)
Theorem created_and_unbonded :
  let txs := [Some (create 4 40); Some (unbond 4)] in
  let c := Chain.mk ∅ [] [] (pools 0 0) in
  validate_delegation_bonds c {| delegation_bond_by_key := ∅; bond_status_by_key := ∅ |} 20 txs
    = Ret (inr ()) ∧
  ∃ e, update_block map_to_list 20 txs (change 40 0) c = Ret (inl (BondedUnderflow e)).
Proof. split; [vm_compute; reflexivity|]. eexists. vm_compute. reflexivity. Qed.
