(* ===== verification/WriteScenario.v ===== *)
(** * WriteScenario: the write task on concrete blocks

    A database with four bonds, a block that creates, unbonds, withdraws and
    retargets one of each, and forks above it.  The lemmas apply the theorems
    about the write task; the examples show the messages that make the task
    panic. *)

From stdpp Require Import base list gmap sets sorting relations.
From S2P Require Import Prelude Wire Encoding Bft Roster TflInv Amount Staking Delegation DelegationInv DelegationBlock DelegationRevert Finalize NonFinalized FinalizeInv ChainGrowth NonFinalizedInv Stakes WriteTask PowRoster StakeScenario.
Import StakingAction Chain.

#[local] Instance checked : Profile := true.
#[local] Instance all_valid : ContextChecks :=
  {| recent_chain_valid _ _ _ := true; spends_valid _ _ _ := true; trees_valid _ _ _ := true |}.
#[local] Instance key_order : Iteration map_to_list.
Proof. intros bs. reflexivity. Qed.

(** ** A database and a block *)

Definition db_of (bs : Bonds) : ZebraDb :=
  {| delegation_bond_by_key := fst <$> bs;
     bond_status_by_key := (λ v : Bond, match v.2 with
                                       | Active => DbActive
                                       | Unbonding => DbUnbonding v.1.(created_at)
                                       | Withdrawn => DbWithdrawn v.1.(created_at)
                                       end) <$> bs |}.

Lemma db_of_follows bs : follows (db_of bs) bs.
Proof.
  intros k. cbn. rewrite !lookup_fmap. destruct (bs !! k) as [[b []]|]; cbn; by constructor.
Qed.

Definition hash (n : Z) : bytes := to_le 32 (2000 + n).
Definition blk (n parent height work : Z) (txs : list (option StakingAction.t)) (ch : ValueBalance.t) : Block :=
  {| blk_hash := hash n; blk_parent := hash parent; blk_height := height; blk_txs := txs;
     blk_change := ch; blk_work := work |}.

Definition fin0 : FinalizedState.t := FinalizedState.mk (db_of bonds0) (pools 500 50) [(19, hash 19)].
Definition w0 : WriteState :=
  {| ws_non_finalized := {| chain_set := []; invalidated_blocks := [] |}; ws_finalized := fin0;
     parent_error_map := [] |}.

Lemma w0_ok : write_ok w0.
Proof.
  split; cbn [chain_set ws_non_finalized w0].
  - exists (19, hash 19), []. split; [reflexivity|]. split; [cbn; lia|]. by intros nc ?%elem_of_nil.
  - exists chain0. split; [|by intros nc ?%elem_of_nil]. split.
    + apply db_of_follows.
    + reflexivity.
    + apply chain0_balanced.
    + apply (bool_decide_unpack _). by vm_compute.
  - by intros nc ?%elem_of_nil.
  - constructor.
  - by intros nc nc' b b' ?%elem_of_nil.
  - by intros nc b ?%elem_of_nil.
  - by intros nc nc' b ?%elem_of_nil.
  - cbn. lia.
Qed.

Definition b20 : Block := blk 20 19 20 5 block0 (change 40 (-50)).
Definition handle : NonFinalizedWriteMessage → WriteState → outcome (WriteState * WriteResponse) :=
  handle_message map_to_list map_to_list map_to_list.
Definition run (msgs : list NonFinalizedWriteMessage) (w : WriteState) : outcome WriteState :=
  for_each (λ w m, '(w, _) ← handle m w; Ret w) msgs w.

Lemma b20_accepted : accepted map_to_list w0 (Commit b20).
Proof.
  constructor.
  - split; [by intros nc b ?%elem_of_nil|]. apply (bool_decide_unpack _). by vm_compute.
  - intros nc He. unfold extends in He. rewrite decide_True in He by (by vm_compute). subst nc. split.
    + exact block0_keys.
    + split; [apply (bool_decide_unpack _); vm_compute; exact I..|].
      intros _. apply (bool_decide_unpack _). vm_compute. exact I.
    + apply (bool_decide_unpack _). vm_compute. exact I.
Qed.

(** The state after the block is committed. *)
Definition w1 : WriteState := match handle (Commit b20) w0 with Ret (w, _) => w | Panic => w0 end.

Definition response (x : outcome (WriteState * WriteResponse)) : option WriteResponse :=
  match x with Ret (_, r) => Some r | Panic => None end.

Lemma responds x w r :
  response x = Some r → x = Ret (match x with Ret (w, _) => w | Panic => w end, r).
Proof. destruct x as [[w' r']|]; [|done]. by intros [= ->]. Qed.

Lemma w1_handled : handle (Commit b20) w0 = Ret (w1, Committed (inr (hash 20))).
Proof. apply responds. vm_compute. reflexivity. Qed.

Lemma write_task_safe_witness :
  ∃ w' r, handle (CrosslinkFinalized (hash 20)) w1 = Ret (w', r) ∧ write_ok w' ∧ finalized_in w0 w'.
Proof.
  apply (write_task_safe map_to_list map_to_list map_to_list w0 w1 (CrosslinkFinalized (hash 20)) key_order
           (λ m, reflexivity _) (λ m, reflexivity _) w0_ok).
  - apply rtc_once. exists (Commit b20), (Committed (inr (hash 20))). split; [exact b20_accepted|exact w1_handled].
  - constructor.
Defined.

Lemma ret_unique {A B} (x : outcome (A * B)) a b a' b' : x = Ret (a, b) → x = Ret (a', b') → a = a'.
Proof. congruence. Qed.

Lemma w1_ok : write_ok w1.
Proof.
  destruct (handled_ok map_to_list map_to_list map_to_list w0 (Commit b20) key_order
              (λ m, reflexivity _) (λ m, reflexivity _) w0_ok b20_accepted) as (w & r & Hw & Hok & _).
  rewrite (ret_unique _ _ _ _ _ w1_handled Hw). exact Hok.
Qed.

Lemma crosslink_finalizes_witness :
  ∃ s' fin' stakes,
    crosslink_finalized map_to_list (hash 20) (w1.(ws_non_finalized), w1.(ws_finalized))
      = Ret (s', fin', inr (hash 20, stakes)) ∧
    zsum (map snd stakes) = ValueBalance.staking_bonded fin'.(FinalizedState.pools).
Proof.
  destruct (crosslink_finalizes map_to_list w1.(ws_non_finalized) w1.(ws_finalized) (hash 20)
              (default {| nf_blocks := []; nf_inner := chain0 |} (last w1.(ws_non_finalized).(chain_set)))
              (λ m, reflexivity _) w1_ok) as (s' & fin' & stakes & Hr & _ & _ & _ & _ & Hs & _).
  - vm_compute. apply list_elem_of_here.
  - vm_compute. reflexivity.
  - exists s', fin', stakes. split; [exact Hr|exact Hs].
Defined.

Lemma reorg_loop_ends_witness :
  ∃ s' fin' best', reorg_limit_loop 1 (w1.(ws_non_finalized), w1.(ws_finalized)) = Ret (s', fin') ∧
    last s'.(chain_set) = Some best' ∧ length best'.(nf_blocks) = 1%nat.
Proof.
  destruct (reorg_loop_ends w1.(ws_non_finalized) w1.(ws_finalized)
              (default {| nf_blocks := []; nf_inner := chain0 |} (last w1.(ws_non_finalized).(chain_set))) w1_ok)
    as (s' & fin' & best' & Hr & _ & Hl & Hb).
  - vm_compute. reflexivity.
  - exists s', fin', best'. split; [exact Hr|]. split; [exact Hl|]. rewrite Hb. vm_compute. reflexivity.
Defined.

Lemma finalized_as_applied_witness :
  ∃ c' rewards b, update_block map_to_list 20 block0 (change 40 (-50)) chain0 = Ret (inr c') ∧
    prepare_delegation_bonds_batch (db_of bonds0) 20 block0 rewards = Ret (inr b) ∧
    follows (write_batch (db_of bonds0) b) c'.(delegation_bonds).
Proof.
  assert (fits chain0 (located 20 0 block0) (change 40 (-50))) as Hfit.
  { apply (validated_fits chain0 db0); [exact chain0_holds|vm_compute; reflexivity|exact block0_keys|exact block0_affordable]. }
  destruct (update_block_balanced map_to_list chain0 20 block0 (change 40 (-50)) chain0_balanced Hfit) as (c' & Hu & _).
  destruct (finalized_as_applied map_to_list chain0 (db_of bonds0) 20 block0 (change 40 (-50)) c' key_order
              chain0_balanced Hfit (db_of_follows bonds0) Hu) as (rewards & b & _ & Hb & Hf & _).
  exists c', rewards, b. split; [exact Hu|]. split; [exact Hb|exact Hf].
Defined.



(** ** Messages that abort the task *)

Definition idle (n parent height work : Z) : Block := blk n parent height work [] (change 0 0).

(** Two forks on top of block 20. *)
Definition forks : list NonFinalizedWriteMessage :=
  [Commit (idle 20 19 20 5); Commit (idle 21 20 21 5); Commit (idle 31 20 21 6)].

(** Removing a chain from the set compares it with itself. *)
Theorem invalidate_root_aborts (s : NonFinalizedState) (nc : NonFinalizedChain) (b : Block) rest iter_targets :
  s.(chain_set) = [nc] → nc.(nf_blocks) = b :: rest → invalidate_block iter_targets b.(blk_hash) s = Panic.
Proof.
  intros Hs Hb. unfold invalidate_block. rewrite find_chain_pure, Hs.
  assert (contains_block_hash (blk_hash b) nc = true) as Hc.
  { apply contains_spec. exists b. rewrite Hb. split; [set_solver|done]. }
  rewrite filter_cons_True by done. cbn [filter list_filter last mbind outcome_bind].
  unfold non_finalized_root_hash. rewrite Hb. cbn [head hd_error unwrap mbind outcome_bind].
  rewrite decide_True by done. cbn [chain_remove]. unfold chain_cmp. rewrite Z.eqb_refl.
  destruct (tip_exists nc) as [t Ht]; [by rewrite Hb|]. rewrite (tip_hash_last _ _ Ht). cbn [mbind outcome_bind].
  destruct (bytes_cmp (blk_hash t) (blk_hash t)) eqn:E; [done|..];
    pose proof (bytes_cmp_antisym (blk_hash t) (blk_hash t)) as E'; by rewrite E in E'.
Qed.

(** Whether a list of messages is handled. *)
Definition handles (msgs : list NonFinalizedWriteMessage) (w : WriteState) : bool :=
  match run msgs w with Ret _ => true | Panic => false end.

(** Invalidating one block of two forks leaves their common part as a chain of
    its own.  Invalidating the other one puts that chain into the set a second
    time, where two chains with the same tip are [unreachable!]. *)
Theorem invalidate_siblings_aborts :
  handles (forks ++ [Invalidate (hash 21)]) w0 = true ∧
  handles (forks ++ [Invalidate (hash 21); Invalidate (hash 31)]) w0 = false.
Proof. split; vm_compute; reflexivity. Qed.

(** If only one is invalidated, finalizing the common part leaves an empty chain
    in the set, and committing the next block aborts. *)
Theorem invalidate_then_finalize_aborts :
  let msgs := forks ++ [Invalidate (hash 21); CrosslinkFinalized (hash 20)] in
  handles msgs w0 = true ∧ handles (msgs ++ [Commit (idle 32 31 22 5)]) w0 = false.
Proof. split; vm_compute; reflexivity. Qed.

(** Without a block above the finalized tip, every request to invalidate or
    reconsider a block aborts the task, known or not. *)
Theorem invalidate_nothing_aborts hash w :
  w.(ws_non_finalized).(chain_set) = [] → handle (Invalidate hash) w = Panic.
Proof.
  intros Hn. unfold handle. cbn [handle_message]. unfold invalidate_block. rewrite find_chain_pure, Hn.
  cbn. unfold update_latest_chain_channels, best_chain. by rewrite Hn.
Qed.

(** Reconsidering a block leaves its height among the invalidated ones: another
    block of that height is still rejected. *)
Theorem reconsidered_height_stays_blocked :
  ∃ w, run (forks ++ [Invalidate (hash 21); Reconsider (hash 21)]) w0 = Ret w ∧
    response (handle (Commit (idle 41 20 21 7)) w) = Some (Committed (inl (BlockPreviouslyInvalidated (hash 41)))).
Proof.
  set (x := run _ _). assert (match x with Ret w => response (handle (Commit (idle 41 20 21 7)) w) | Panic => None end
                        = Some (Committed (inl (BlockPreviouslyInvalidated (hash 41))))) as H by (vm_compute; reflexivity).
  destruct x as [w|]; [|done]. by exists w.
Qed.

(** A block that creates a bond and unbonds it. *)
Definition in_and_out : Block := blk 20 19 20 5 [Some (create 4 40); Some (unbond 4)] (change 40 0).

(** A block that creates a bond and unbonds it passes the checks when the
    bonded pool is large enough, but cannot be finalized: the database looks for
    the bond among those of earlier blocks, and the commit that fails is
    [unreachable!]. *)
Theorem created_and_unbonded_aborts :
  response (handle (Commit in_and_out) w0) = Some (Committed (inr (hash 20))) ∧
  handles [Commit in_and_out; CrosslinkFinalized (hash 20)] w0 = false.
Proof. split; vm_compute; reflexivity. Qed.

(** The database at height 149, one block before the second staking day. *)
Definition w149 : WriteState :=
  {| ws_non_finalized := w0.(ws_non_finalized);
     ws_finalized := FinalizedState.mk (db_of bonds0) (pools 500 50) [(149, hash 149)];
     parent_error_map := [] |}.
Definition unbonding_block : Block := blk 150 149 150 5 [Some (unbond 1)] (change 0 0).

(** The delay check of a transaction against the state of the task. *)
Definition delay_check (a : StakingAction.t) (height : Z) (x : outcome WriteState)
    : outcome (StakingError + ()) :=
  w ← x;
  check_staking_action_delay
    (λ k, inr (last_action_height <$> bond_info (nf_inner <$> best_chain w.(ws_non_finalized)) k))
    (Some a) height.

(** The delay between unbonding a bond and withdrawing it is forgotten when
    the unbonding is finalized: a chain that starts from the database takes the
    creation of the bond for its last action.  Bond 1, created at height 10 and
    unbonded at height 150, cannot be withdrawn at height 152; once block 150 is
    finalized, it can. *)
Theorem unbonding_height_forgotten :
  let next := Commit (idle 151 150 151 5) in
  check_staking_day_window (Some (withdraw 1 300)) 152 = inr () ∧
  delay_check (withdraw 1 300) 152 (run [Commit unbonding_block; next] w149)
    = Ret (inl (StakingActionDelayNotMet (bond_key 1) 150 152 STAKING_ACTION_DELAY_BLOCKS)) ∧
  delay_check (withdraw 1 300) 152
    (run [Commit unbonding_block; CrosslinkFinalized (hash 150); next] w149) = Ret (inr ()).
Proof. split_and!; vm_compute; reflexivity. Qed.
