(* ===== verification/BlockScenario.v ===== *)
(** * BlockScenario: blocks of the prototype's network

    Concrete services and blocks on the network that the prototype configures: a
    block that is accepted, one whose coinbase transaction creates stake from
    nothing, and one that a node accepts or rejects depending on its mempool. *)

From stdpp Require Import base list gmap sets strings.
From S2P Require Import Prelude Wire Encoding Bft Roster Amount Staking Transparent Network Subsidy SubsidyInv Testnet TestnetInv Transaction Delegation DelegationInv DelegationBlock BlockValue Spends Merkle TxVerifier Difficulty DifficultyInv BlockVerifier BlockVerifierInv Issuance.
Import StakingAction.

#[local] Instance scenario_profile : Profile := true.
#[local] Existing Instance uint_exact.

(** ** Services *)

(** A transaction is known by its kind, an output by a byte. *)
Definition scenario_hash (tx : Transaction) : bytes := if is_coinbase tx then [Byte.x01] else [Byte.x02].
Definition coin : OutPoint := ([Byte.x03], 0).
Definition scenario_utxo : Utxo :=
  {| utxo_output := {| Transparent.value := 1000; lock_script := [] |}; utxo_height := 2; from_coinbase := false |}.

(** The state has one output; a mempool, if there is one, has verified the payment
    with its fee of 10. *)
Definition scenario_services (mempool : bool) : TxServices := {|
  has_mempool := mempool;
  transaction_with_deps hash := if decide (hash = [Byte.x02]) then Some (10, 1, []) else None;
  mempool_await_output _ := fail TransparentInputNotFound;
  await_utxo o := if decide (o = coin) then mret scenario_utxo else fail TransparentInputNotFound;
  unspent_best_chain_utxo o := mret (if decide (o = coin) then Some scenario_utxo else None);
  bond_info _ := inr None;
  next_median_time_past := mret 0;
  check_nullifiers_and_anchors _ := mret ();
  ffi_transaction _ _ _ := true;
  async_checks _ := mret ();
  sigops _ := mret 1;
  verified_unmined _ _ _ := mret () |}.
#[local] Instance scenario_blocks : BlockServices := {|
  block_hash _ := zeros 32;
  tx_hash := scenario_hash;
  node_hash a b := a ++ b;
  known_block _ := mret false;
  equihash_solution_is_valid _ := true;
  coinbase_outputs_are_decryptable _ _ _ := mret ();
  now := 0;
  completed _ l := l;
  completed_perm _ l := Permutation_refl l |}.

(** ** Blocks *)

Definition action (k : StakingActionKind) (amount : Z) : StakingAction.t :=
  StakingAction.mk k amount (zeros 32) (zeros 32) (zeros 32) (zeros 32) (zeros 64) (zeros 64).

(** The address of the funding stream gets a fifth of the subsidy, the miner the
    rest and the fees. *)
Definition coinbase_of (height fees : Z) (a : option StakingAction.t) : Transaction :=
  VCrosslink Nu6 unlocked height [Transparent.Coinbase height (2 ^ 32 - 1)]
    [new_coinbase 125000000 (script (p2sh KTestnet 0x0ebc92e6a0d0e92b3a3ab3933ca9425df1cfa6f9));
     {| Transparent.value := 500000000 + fees; lock_script := [] |}] None None a.
(** A payment of all but a fee of 10 and the stake it creates. *)
Definition payment (a : option StakingAction.t) : Transaction :=
  VCrosslink Nu6 unlocked 0 [PrevOut coin (2 ^ 32 - 1)]
    [{| Transparent.value := 990 - created_by a; lock_script := [] |}] None None a.

Definition scenario_block (txs : list Transaction) : Block.t :=
  {| Block.header := BlockHeader.mk 4 (zeros 32) (concat (map scenario_hash txs)) (zeros 32) 0 0x2007ffff (zeros 32) []
                       (FatPointerToBftBlock.null);
     Block.transactions := txs |}.

(** The verifier of a node with or without a mempool. *)
Abbreviation verified mempool b := (verify_block (S := scenario_services mempool) clt0 false b).

(** ** An accepted block *)

Definition paid_block : Block.t := scenario_block [coinbase_of 10 10 None; payment None].





Lemma coinbase_pays_streams_witness :
  subsidy_is_valid clt0 paid_block 625000000 = Ret (inr 0) ∧
  ∃ coinbase values ds ss rest,
    head paid_block.(Block.transactions) = Some coinbase ∧ funding_stream_values 10 clt0 625000000 = Ret (inr values) ∧
    Forall2 (λ x o, coinbase_output x.1 x.2 o) (lockbox_disbursements clt0 10) ds ∧
    Forall2 (stream_output clt0 10) (map_to_list (delete Deferred values)) ss ∧
    outputs coinbase ≡ₚ ds ++ ss ++ rest ∧
    0 = default 0 (values !! Deferred) - zsum (map snd (lockbox_disbursements clt0 10)).
Proof.
  split; [by vm_compute|]. by apply (coinbase_pays_streams clt0 paid_block 625000000 0 10 1); [vm_compute..|].
Defined.

(** Two blocks that only differ in an amount, which the hashes here do not see. *)
Definition other_block : Block.t := scenario_block [coinbase_of 10 20 None; payment None].
Lemma header_binds_transactions_witness :
  paid_block ≠ other_block ∧
  ([[Byte.x01]; [Byte.x02]] = [[Byte.x01]; [Byte.x02]] ∨
   collision_in node_hash (root_pairs node_hash [[Byte.x01]; [Byte.x02]] ++ root_pairs node_hash [[Byte.x01]; [Byte.x02]])).
Proof.
  split; [by intros [=]|].
  by apply (header_binds_transactions clt0 paid_block other_block); [vm_compute..| |].
Defined.

(** ** Stake from nothing *)

(** A block of a coinbase transaction alone, that takes no more than the subsidy and has a
    staking action that creates a bond, passes the block verifier on the network that the
    prototype configures: the value pools grow by the subsidy and by the amount of the bond,
    here all the money there is, which nobody pays ([block_issues_subsidy] has the general
    term). *)
Example coinbase_mints_stake :
  ∃ b p ch, crosslink_network = Ret clt0 ∧ verified false b = Ret (inr p) ∧
    block_subsidy p.(prepared_height) clt0 = Ret (inr 625000000) ∧
    chain_value_pool_change ∅ b.(Block.transactions) p.(deferred_pool_balance_change) = Ret (inr ch) ∧
    ch.(ValueBalance.staking_bonded) = MAX_MONEY ∧ pool_total ch = 625000000 + MAX_MONEY.
Proof.
  exists (scenario_block [coinbase_of 10 0 (Some (action CreateNewDelegationBond MAX_MONEY))]).
  destruct (succeeds (verified false (scenario_block [coinbase_of 10 0 (Some (action CreateNewDelegationBond MAX_MONEY))])))
    as [p E]; [by vm_compute|].
  pose proof E as (? & ? & ? & ? & [_ _ [= Hh] _ _ _ _ _ Hs Hd _ _ _ _])%verify_block_inv.
  exists p, (ValueBalance.mk 625000000 0 0 0 0 MAX_MONEY 0).
  split; [exact crosslink_network_clt0|]. split; [exact E|]. rewrite <- Hh in *.
  split; [by vm_compute|]. split; [|done]. vm_compute in Hs. injection Hs as <-.
  match type of Hd with ?l = _ => assert (l = Ret (inr 0)) as E0 by (by vm_compute) end.
  rewrite E0 in Hd. injection Hd as Hd. unfold chain_value_pool_change. rewrite <- Hd. by vm_compute.
Qed.

(** ** Blocks and mempools *)

(** Creates stake; its action is allowed at height 69 and not at height 70. *)
Definition late_payment : Transaction := payment (Some (action CreateNewDelegationBond 500)).
Definition late_block : Block.t := scenario_block [coinbase_of 70 10 None; late_payment].

(** Whether a block is valid depends on the mempool: a transaction with a staking
    action that the verifier accepts for the mempool in the staking window is not
    checked again when a block after the window has it, while a node without it in its
    mempool rejects the block. *)
Theorem mempool_decides_block :
  (∃ fee ops, verify_transaction (S := scenario_services true) clt0 (MempoolRequest (tx_hash late_payment) late_payment 69) =
                Ret (inr (MempoolResponse fee ops [])) ∧
     transaction_with_deps (TxServices := scenario_services true) (tx_hash late_payment) = Some (fee, ops, [])) ∧
  (∃ p, verified true late_block = Ret (inr p)) ∧
  verified false late_block = fail (BlockTransaction (Staking (StakingActionOutsideWindow 70 150 70))).
Proof.
  split; [exists 10, 1; by vm_compute|]. split; [apply succeeds; by vm_compute|by vm_compute].
Qed.
