(* ===== verification/QueueScenario.v ===== *)
(** * QueueScenario: blocks that arrive out of order

    A service with concrete blocks: children that arrive before their parent, a block
    that Crosslink refuses and that is sent when its parent arrives, a height that is
    not pruned, and a batch of sent blocks that is not in the order of their heights. *)

From stdpp Require Import base list gmap sets sorting.
From S2P Require Import Prelude Wire Encoding Bft Roster Tfl Scenario Amount Staking Transparent Network Subsidy Transaction Delegation DelegationInv DelegationBlock BlockValue Spends Merkle TxVerifier Difficulty BlockVerifier Queue QueueInv.
Import ToyCrypto.

(** ** Blocks and services *)

(** A block is known by a byte. *)
Definition block_at (hash parent : Byte.byte) (height : Z) (pointer : FatPointerToBftBlock.t) : SemanticallyVerifiedBlock :=
  {| prepared_block :=
       {| Block.header := BlockHeader.mk 4 [parent] (zeros 32) (zeros 32) 0 0x2007ffff (zeros 32) [] pointer;
          Block.transactions := [] |};
     prepared_hash := [hash]; prepared_height := height; new_outputs := ∅; transaction_hashes := [];
     deferred_pool_balance_change := None |}.
Definition nowhere : FatPointerToBftBlock.t := FatPointerToBftBlock.mk (zeros 44) [].
Definition unknown : FatPointerToBftBlock.t := FatPointerToBftBlock.mk (repeat Byte.x07 44) [].

Definition first : SemanticallyVerifiedBlock := block_at Byte.x02 Byte.x01 11 nowhere.
Definition refused : SemanticallyVerifiedBlock := block_at Byte.x03 Byte.x02 12 unknown.
Definition last : SemanticallyVerifiedBlock := block_at Byte.x04 Byte.x03 13 nowhere.
Definition sibling : SemanticallyVerifiedBlock := block_at Byte.x06 Byte.x01 11 unknown.
(** A block of the height of [first], whose parent never arrives. *)
Definition orphan : SemanticallyVerifiedBlock := block_at Byte.x05 Byte.x09 11 nowhere.

(** The finalized tip is at height 10, and Crosslink has decided no block yet. *)
#[local] Instance at_tip : StateView := {|
  contains_height h := h <=? 10;
  db_tip_hash := [Byte.x01];
  db_tip_height := Some 10;
  header_by_hash h :=
    if decide (h = [Byte.x01]) then Some (BlockHeader.mk 4 [Byte.x00] (zeros 32) (zeros 32) 0 0x2007ffff (zeros 32) [] nowhere)
    else None;
  ask_crosslink := call_from_state_to_crosslink_to_ask_about_fat_pointers (TFL.init true [] None);
  write_task_ended := false;
  reset_channel_closed := false;
  reset_tip_hash := None |}.

Definition iter : gset bytes → list bytes := elements.
Definition drain (m : gmap bytes Queued) : list Queued := map snd (map_to_list m).

Definition waiting (l : list SemanticallyVerifiedBlock) : StateService :=
  mk_service (foldr (λ b q, queue {| q_block := b; rsp_tx := 0 |} q) empty_queue l) ∅ false true [Byte.x01]
    (mk_sent [] [] ∅ ∅ true) 0 1 [].

Lemma waiting_ok l : queue_ok (waiting l).(queued_blocks).
Proof. induction l as [|b l IH]; [apply empty_queue_ok|]. by apply queue_keeps. Qed.

(** ** Witnesses *)

Lemma ready_blocks_sent_witness :
  ∃ s' l, send_ready_non_finalized_queued iter drain [Byte.x01] (waiting [last; refused; first; orphan]) = Ret s' ∧
    parents_first [[Byte.x01]] l.
Proof.
  destruct (ready_blocks_sent iter ltac:(done) drain (V := at_tip) eq_refl [Byte.x01] (waiting [last; refused; first; orphan]))
    as (s' & l & E & _ & _ & _ & _ & _ & Hf & _); [apply waiting_ok|reflexivity|]. by exists s', l.
Defined.

Lemma commit_request_handled_witness :
  ∃ x, queue_and_commit_to_non_finalized_state iter drain first (waiting [last; refused; orphan]) = Ret x ∧
    handled (waiting [last; refused; orphan]) x.
Proof.
  apply (commit_request_handled iter ltac:(done) drain (V := at_tip) eq_refl first _ 10);
    [apply waiting_ok|reflexivity|by unfold HEIGHT_MAX|].
  intros x y. cbn. unfold call_from_state_to_crosslink_to_ask_about_fat_pointers, fat_pointer_height.
  cbn. by repeat case_decide.
Defined.

(** Crosslink refuses the pointer of the block in the queue: it points at no block
    that was decided. *)
Lemma queued_block_not_asked_witness :
  let c := {| q_block := sibling; rsp_tx := 0 |} in
  ∃ rsp s', queue_and_commit_to_non_finalized_state iter drain first (waiting [sibling; refused]) = Ret (rsp, s') ∧
    Commit c ∈ s'.(log).
Proof.
  apply (queued_block_not_asked iter ltac:(done) drain (V := at_tip) eq_refl first {| q_block := sibling; rsp_tx := 0 |} _ 10);
    [apply waiting_ok|reflexivity|reflexivity|reflexivity|by unfold HEIGHT_MAX|by vm_compute|by vm_compute|by vm_compute
    |by vm_compute|by vm_compute|by vm_compute|right; reflexivity|by vm_compute].
Defined.

Lemma height_not_pruned_witness :
  ∃ cs q' q'' es, dequeue_children iter [Byte.x01] (waiting [first; orphan]).(queued_blocks) = Ret (cs, q') ∧
    prune_by_height iter 20 q' = Ret (q'', es) ∧ q''.(blocks) !! [Byte.x05] = Some {| q_block := orphan; rsp_tx := 0 |}.
Proof.
  apply (height_not_pruned iter [Byte.x01] (waiting [first; orphan]).(queued_blocks)
           {| q_block := first; rsp_tx := 0 |} {| q_block := orphan; rsp_tx := 0 |} 20);
    [done|apply waiting_ok|by unfold HEIGHT_MAX|by vm_compute|by vm_compute|by vm_compute|by vm_compute|by vm_compute|by vm_compute].
Defined.

(** ** Order of a batch *)

(** Two branches on [first], each of three blocks. *)
Definition branches : list SemanticallyVerifiedBlock :=
  [first; block_at Byte.x10 Byte.x02 12 nowhere; block_at Byte.x11 Byte.x10 13 nowhere; block_at Byte.x12 Byte.x11 14 nowhere;
   block_at Byte.x20 Byte.x02 12 nowhere; block_at Byte.x21 Byte.x20 13 nowhere; block_at Byte.x22 Byte.x21 14 nowhere].
Definition sent_branches : outcome StateService :=
  send_ready_non_finalized_queued iter drain [Byte.x01] (waiting branches).

(** The branches are sent one after the other and not by height, so that pruning up
    to a height leaves blocks of that height and below among the sent ones. *)
Lemma batch_out_of_order :
  (s ← sent_branches; Ret (map (map snd) s.(sent_hashes).(bufs))) = Ret [[11; 12; 12; 13; 14; 13; 14]] ∧
  (s ← sent_branches;
   let h := prune_sent 13 s.(sent_hashes) in
   Ret (map (λ b, can_fork_at_sent b h) [[Byte.x11]; [Byte.x21]])) = Ret [true; false].
Proof. split; by vm_compute. Qed.
