(* ===== verification/FindScenario.v ===== *)
(** * FindScenario: peers on a small network

    Chains with a database and a best chain that overlap, the answers a peer gets from
    them, and a depth that is asked for while the best chain is behind the database. *)

From stdpp Require Import base list gmap.
From S2P Require Import Prelude Wire Encoding Amount NonFinalized Find FindInv.

#[local] Instance find_profile : Profile := true.

(** Blocks [from], [from] + 1, ... with their numbers as headers; [tag] tells forks apart. *)
Definition named (tag : Byte.byte) (n : nat) : bytes * nat := ([tag; default Byte.x00 (Byte.of_nat n)], n).
Definition branch (tag : Byte.byte) (from len : nat) : list (bytes * nat) := named tag <$> seq from len.

Definition common : list (bytes * nat) := branch Byte.x00 0 40.
Definition mine : list (bytes * nat) := branch Byte.x01 40 7.
Definition theirs : list (bytes * nat) := branch Byte.x02 40 90.
Definition my_db : Database nat := placed_db (common ++ mine) 40.
Definition my_chain : option (BestChain nat) := placed_chain (common ++ mine) 35.
Definition their_db : Database nat := placed_db (common ++ theirs) 45.
Definition their_chain : option (BestChain nat) := placed_chain (common ++ theirs) 35.

Lemma their_view : follows (common ++ theirs) their_chain their_db.
Proof. apply placed_follows; [apply (bool_decide_unpack _); vm_compute; exact I|vm_compute; lia..]. Qed.

Lemma find_hashes_next_witness :
  find_chain_hashes their_chain their_db [[Byte.x07]; (named Byte.x00 37).1] (Some (named Byte.x02 41).1) 500
    = Ret (map fst (branch Byte.x00 38 2 ++ branch Byte.x02 40 2)).
Proof.
  destruct (find_hashes_next (common ++ theirs) their_chain their_db [[Byte.x07]; (named Byte.x00 37).1]
              (Some (named Byte.x02 41).1) 500 their_view) as [Hh _].
  - lia.
  - vm_compute. discriminate.
  - etrans; [exact Hh|]. vm_compute. reflexivity.
Defined.

(** A node on a fork of seven blocks asks with its locator; the first of its hashes that is
    common is that of block 38, so it gets block 39 and then the other chain. *)
Example fork_is_left :
  (λ locator, find_chain_hashes their_chain their_db locator None 10) <$> block_locator my_chain my_db =
    Some (Ret (map fst (branch Byte.x00 39 1 ++ branch Byte.x02 40 9))).
Proof. vm_compute. reflexivity. Qed.

(** A copy of the best chain from before the database was extended: asked for a block above
    the tip of the copy, [depth] subtracts below zero. *)
Definition stale_chain : option (BestChain nat) := placed_chain (take 43 (common ++ theirs)) 35.
Example stale_depth_panics :
  depth stale_chain their_db (named Byte.x02 41).1 = Ret (Some 1) ∧
  depth stale_chain their_db (named Byte.x02 44).1 = Panic.
Proof. vm_compute. done. Qed.
