(* ===== verification/CheckpointScenario.v ===== *)
(** * CheckpointScenario: a chain of three blocks with two checkpoints

    A chain on the network that the prototype configures, whose first and third blocks
    are checkpoints, and a block that is not on it. *)

From stdpp Require Import base list gmap sets sorting strings.
From S2P Require Import Prelude Wire Encoding Bft Roster Amount Staking Transparent Network Subsidy SubsidyInv Testnet TestnetInv Transaction Delegation DelegationInv DelegationBlock BlockValue Spends Merkle TxVerifier Difficulty DifficultyInv BlockVerifier BlockVerifierInv Checkpoint CheckpointInv.

#[local] Instance checkpoint_profile : Profile := true.
#[local] Existing Instance uint_exact.

(** The hash of a block is one byte more than that of its parent. *)
#[local] Instance checkpoint_blocks : BlockServices := {|
  block_hash b := Byte.x01 :: b.(Block.header).(BlockHeader.prev_block);
  tx_hash _ := [Byte.x05];
  node_hash a b := a ++ b;
  known_block _ := mret false;
  equihash_solution_is_valid _ := true;
  coinbase_outputs_are_decryptable _ _ _ := mret ();
  now := 0;
  completed _ l := l;
  completed_perm _ l := Permutation_refl l |}.

Definition block_on (prev : bytes) (h : Z) : Block.t :=
  {| Block.header := BlockHeader.mk 4 prev [Byte.x05] (zeros 32) 0 0x2007ffff (zeros 32) [] FatPointerToBftBlock.null;
     Block.transactions := [V1 [Transparent.Coinbase h (2 ^ 32 - 1)] [] unlocked] |}.
Definition hash_at (h : Z) : bytes := repeat Byte.x01 (Z.to_nat (h + 1)) ++ zeros 32.
Definition chain (h : Z) : Block.t := block_on (hash_at (h - 1)) h.
Definition side : Block.t := block_on [Byte.x07] 1.

Definition checkpoints : CheckpointList := {[0 := hash_at 0; 2 := hash_at 2]}.
Lemma checkpoints_accepted : from_list [(0, hash_at 0); (2, hash_at 2)] = Ret (inr checkpoints).
Proof. by vm_compute. Qed.
Lemma checkpoints_max : max_height checkpoints = Ret 2.
Proof. by vm_compute. Qed.

Lemma hash_at_chain h : 0 ≤ h → chain_hash chain h = hash_at h.
Proof.
  intros Hh. unfold chain_hash, hash_at. cbn. unfold hash_at. replace (Z.to_nat (h + 1)) with (S (Z.to_nat (h - 1 + 1))) by lia. done.
Qed.
Lemma checkpoints_genuine : genuine chain checkpoints 2.
Proof.
  split.
  - intros h x. unfold checkpoints, CheckpointList. rewrite lookup_insert_Some, lookup_singleton_Some.
    intros [[<- <-]|[_ [<- <-]]]; by rewrite hash_at_chain.
  - intros h Hh. unfold expected_at. case_decide as Hd.
    + assert (h = 0) as -> by lia. done.
    + rewrite hash_at_chain by lia. done.
  - intros b h _ Hb. cbn in Hb. unfold chain_hash in Hb. cbn in Hb. by injection Hb.
Qed.

Definition run_calls (bs : list Block.t) : outcome (list Answer * Progress Z) :=
  s ← from_checkpoint_list checkpoints None;
  s ← for_each (λ s b, x ← call clt0 b s; Ret x.2) bs s;
  Ret (s.(answers), s.(verifier_progress)).

(** Blocks in reverse order, with a block of another chain between them. *)
Lemma out_of_order_accepted :
  run_calls [chain 2; side; chain 1; chain 0] =
    Ret ([(1, inl (UnexpectedSideChain (hash_at 1) [Byte.x01; Byte.x07])); (3, inr (hash_at 0)); (2, inr (hash_at 1)); (0, inr (hash_at 2))]%nat,
         FinalCheckpoint).
Proof. by vm_compute. Qed.

(** ** Witnesses *)

Lemma check_block_returns s : verifier_ok chain s 2 → check_block clt0 (chain 2) s ≠ Panic.
Proof.
  intros Hok. unfold check_block, check_height. change (Block.coinbase_height (chain 2)) with (Some 2). cbn [ok_or mbind Fallible_bind mret Fallible_ret].
  rewrite (max_height_ok _ 2 (ho_list _ _ (vk_heights _ _ _ Hok))). cbn [run mbind Fallible_bind mret Fallible_ret].
  change (2 <=? 2) with true. cbn [ensure mbind Fallible_bind mret Fallible_ret].
  destruct (verifier_progress s) as [|h|h|]; cbn [mbind Fallible_bind mret Fallible_ret fail]; [by vm_compute| | |done];
    destruct (h <? 2); cbn [ensure mbind Fallible_bind mret Fallible_ret fail]; [by vm_compute|done|by vm_compute|done].
Qed.

Lemma start_returns : ∃ s, from_checkpoint_list checkpoints (Some (1, hash_at 1)) = Ret s.
Proof. apply returns. by vm_compute. Qed.

(** A verifier that starts at the second block gets the third one. *)
Lemma checkpoint_verifier_safe_witness :
  ∃ s0 r s' rej bs, from_checkpoint_list checkpoints (Some (1, hash_at 1)) = Ret s0 ∧
    call clt0 (chain 2) s0 = Ret (r, s') ∧ s'.(answers) = s0.(answers) ++ rej ++ map accepted_answer bs.
Proof.
  destruct start_returns as [s0 E].
  destruct (checkpoint_verifier_safe clt0 chain [(0, hash_at 0); (2, hash_at 2)] checkpoints 2 (Some (1, hash_at 1)) s0 s0 (chain 2))
    as (r & s' & rej & bs & Ec & Ha & _).
  - exact checkpoints_accepted.
  - exact checkpoints_max.
  - exact checkpoints_genuine.
  - split; [lia|]. intros _. by rewrite hash_at_chain by lia.
  - exact E.
  - reflexivity.
  - intros h [= <-]. lia.
  - exact check_block_returns.
  - by exists s0, r, s', rej, bs.
Defined.

Definition prepared (b : Block.t) (h : Z) : SemanticallyVerifiedBlock :=
  {| prepared_block := b; prepared_hash := block_hash b; prepared_height := h; new_outputs := ∅;
     transaction_hashes := [[Byte.x05]]; deferred_pool_balance_change := None |}.
Definition queued_at (b : Block.t) (h : Z) (tx : nat) : QueuedBlock := {| qb_block := prepared b h; qb_tx := tx |}.
(** All blocks of the chain, and one that is not on it. *)
Definition full : CheckpointVerifier :=
  mk_verifier checkpoints None
    {[0 := [queued_at (chain 0) 0 3]; 1 := [queued_at side 1 1; queued_at (chain 1) 1 2]; 2 := [queued_at (chain 2) 2 0]]}
    BeforeGenesis [] 4 [].

Lemma checkpoints_list_ok : list_ok checkpoints 2.
Proof.
  destruct (from_list_ok _ _ checkpoints_accepted) as (max & Hl & _). pose proof (max_height_ok _ _ Hl) as Hm.
  rewrite checkpoints_max in Hm. by injection Hm as ->.
Qed.
Lemma full_ok : verifier_ok chain full 2.
Proof.
  split; [split| | | | |]; try done.
  - exact checkpoints_list_ok.
  - intros k [l Hl]. cbn in Hl. rewrite !lookup_insert_Some, lookup_singleton_Some in Hl.
    destruct Hl as [[<- _]|[_ [[<- _]|[_ [<- _]]]]]; lia.
  - intros p [= <-]. split; [lia|done].
  - exact checkpoints_genuine.
  - intros k l Hl. cbn in Hl. rewrite !lookup_insert_Some, lookup_singleton_Some in Hl.
    destruct Hl as [[<- <-]|[_ [[<- <-]|[_ [<- <-]]]]]; (split; [done|]); (split; [apply (bool_decide_unpack _); by vm_compute|]);
      (split; [by apply Nat.leb_le|]); intros q Hq.
    + by apply list_elem_of_singleton in Hq as ->.
    + apply elem_of_cons in Hq as [->|Hq]; [done|]. by apply list_elem_of_singleton in Hq as ->.
    + by apply list_elem_of_singleton in Hq as ->.
Qed.
Lemma complete_range_accepted_witness :
  ∃ s' l rej, process_checkpoint_range full = Ret s' ∧ s'.(verifier_progress) = FinalCheckpoint ∧
    map qb_hash l = [hash_at 0; hash_at 1; hash_at 2] ∧ s'.(answers) = rej ++ map accepted_answer l.
Proof.
  destruct (complete_range_accepted chain full 2 (-1) 2 full_ok eq_refl ltac:(by eexists) ltac:(done)) as (s' & l & rej & E & Hp & Hl & _ & Ha).
  - intros k Hk. assert (k = 0 ∨ k = 1 ∨ k = 2) as [->|[->| ->]] by lia.
    + exists (queued_at (chain 0) 0 3). split; [|done]. eexists. split; [reflexivity|]. by left.
    + exists (queued_at (chain 1) 1 2). split; [|done]. eexists. split; [reflexivity|]. by right; left.
    + exists (queued_at (chain 2) 2 0). split; [|done]. eexists. split; [reflexivity|]. by left.
  - intros c' Hc' Hlt. apply (lo_heights _ _ checkpoints_list_ok) in Hc'. lia.
  - by exists s', l, rej.
Defined.
