(* ===== verification/ChainTip.v ===== *)
(** * ChainTip: how the rest of the node learns of new blocks

    Models [zebra-state/src/service/chain_tip.rs]: the sender of the best tip, its watch
    channel, and [ChainTipChange], which tells a reader whether the tip grew by one block
    or was reset.  A watch channel is the value it holds; waiting for a change and
    tracing are left out. *)

From stdpp Require Import base list.
From S2P Require Import Prelude Wire Encoding Roster Amount Staking Transparent Network Transaction.

Record ChainTipBlock := {
  tip_hash : bytes;
  tip_height : Z;
  tip_time : Z;
  tip_transactions : list Transaction;
  tip_transaction_hashes : list bytes;
  tip_previous_block_hash : bytes }.

(** ** The sender *)

(** The channel, and whether the sender has had a non-finalized tip.  A clone
    made by [finalized_sender] shares the channel with a flag of its own; only
    the read-state syncer of another process makes one, and it is not modelled. *)
Record ChainTipSender := mk_sender {
  use_non_finalized_tip : bool;
  active_value : option ChainTipBlock }.

Definition update (new_tip : option ChainTipBlock) (s : ChainTipSender) : ChainTipSender :=
  let needs_update :=
    match new_tip, s.(active_value) with
    | Some new_tip, Some active => bool_decide (new_tip.(tip_hash) ≠ active.(tip_hash))
    | Some _, None => true
    | None, _ => false
    end in
  if needs_update then mk_sender s.(use_non_finalized_tip) new_tip else s.
Definition new_sender (initial_tip : option ChainTipBlock) : ChainTipSender := update initial_tip (mk_sender false None).
Definition set_finalized_tip (new_tip : option ChainTipBlock) (s : ChainTipSender) : ChainTipSender :=
  if s.(use_non_finalized_tip) then s else update new_tip s.
Definition set_best_non_finalized_tip (new_tip : option ChainTipBlock) (s : ChainTipSender) : ChainTipSender :=
  match new_tip with Some _ => update new_tip (mk_sender true s.(active_value)) | None => s end.

(** ** The reader *)

Inductive TipAction := Grow (block : ChainTipBlock) | Reset_ (hash : bytes) (height : Z).
Definition best_tip_hash (a : TipAction) : bytes := match a with Grow b => b.(tip_hash) | Reset_ h _ => h end.
Definition best_tip_height_of (a : TipAction) : Z := match a with Grow b => b.(tip_height) | Reset_ _ h => h end.

Section reader.
Context (network : Network).

Definition is_activation_height (height : Z) : bool := existsb (λ x, x.1 =? height) (activation_list network).
Definition action (block : ChainTipBlock) (last_change_hash : option bytes) : outcome TipAction :=
  _ ← assert_ (bool_decide (Some block.(tip_hash) ≠ last_change_hash));
  Ret (if bool_decide (Some block.(tip_previous_block_hash) ≠ last_change_hash) || is_activation_height block.(tip_height)
       then Reset_ block.(tip_hash) block.(tip_height) else Grow block).
(** The action, if there is one, and the new [last_change_hash]. *)
Definition last_tip_change (s : ChainTipSender) (last_change_hash : option bytes) : outcome (option TipAction * option bytes) :=
  match s.(active_value) with
  | Some block =>
      if bool_decide (Some block.(tip_hash) ≠ last_change_hash) then
        tip_action ← action block last_change_hash; Ret (Some tip_action, Some block.(tip_hash))
      else Ret (None, last_change_hash)
  | None => Ret (None, last_change_hash)
  end.

(** ** Runs *)

Inductive Event := SetFinalized (tip : option ChainTipBlock) | SetBest (tip : option ChainTipBlock) | ReadTip.
Record Run := mk_run {
  run_sender : ChainTipSender;
  run_last : option bytes;
  run_actions : list TipAction }.
Definition run_event (r : Run) (e : Event) : outcome Run :=
  match e with
  | SetFinalized tip => Ret (mk_run (set_finalized_tip tip r.(run_sender)) r.(run_last) r.(run_actions))
  | SetBest tip => Ret (mk_run (set_best_non_finalized_tip tip r.(run_sender)) r.(run_last) r.(run_actions))
  | ReadTip =>
      x ← last_tip_change r.(run_sender) r.(run_last);
      Ret (mk_run r.(run_sender) x.2 (r.(run_actions) ++ option_list x.1))
  end.

(** The actions of a reader that can follow each other. *)
Definition connected (l : list TipAction) : Prop :=
  (∀ b, l !! 0%nat ≠ Some (Grow b)) ∧
  ∀ i x b, l !! i = Some x → l !! S i = Some (Grow b) →
    b.(tip_previous_block_hash) = best_tip_hash x ∧ is_activation_height b.(tip_height) = false.
Definition run_ok (r : Run) : Prop := connected r.(run_actions) ∧ r.(run_last) = best_tip_hash <$> last r.(run_actions).

Lemma connected_snoc l x : connected l →
  (∀ b, x = Grow b → Some b.(tip_previous_block_hash) = best_tip_hash <$> last l ∧ is_activation_height b.(tip_height) = false) →
  connected (l ++ [x]).
Proof.
  intros [H0 Hl] Hx. split.
  - intros b Hb. destruct l as [|y l]; [|by apply (H0 b)]. injection Hb as ->. by destruct (Hx b eq_refl).
  - intros i y b Hi Hb. apply lookup_app_Some in Hb as [Hb|[Hge Hb]].
    + apply lookup_lt_Some in Hb as Hlt. rewrite lookup_app_l in Hi by lia. by eapply Hl.
    + apply list_lookup_singleton_Some in Hb as [Hn ->]. destruct (Hx b eq_refl) as [Hp Ha]. split; [|done].
      rewrite lookup_app_l in Hi by lia. rewrite last_lookup in Hp. replace (Nat.pred (length l)) with i in Hp by lia.
      rewrite Hi in Hp. by injection Hp.
Qed.

Lemma run_event_ok r e : run_ok r → ∃ r', run_event r e = Ret r' ∧ run_ok r'.
Proof.
  intros [Hc Hl]. destruct e as [tip|tip|]; [by eexists..|]. unfold run_event, last_tip_change.
  destruct (active_value _) as [b|]; [|eexists; split; [done|]; split; cbn; by rewrite app_nil_r].
  case_bool_decide as Hb; [|eexists; split; [done|]; split; cbn; by rewrite app_nil_r].
  unfold action. rewrite (bool_decide_eq_true_2 (Some b.(tip_hash) ≠ r.(run_last)) Hb). cbn [assert_ mbind outcome_bind]. eexists. split; [done|]. cbn.
  split; cbn [run_actions run_last]; [|rewrite last_snoc; by destruct (_ || _)]. apply connected_snoc; [done|]. intros b'.
  destruct (_ || _) eqn:E; [done|]. intros [= <-]. apply orb_false_iff in E as [E1 E2]. rewrite <- Hl.
  apply bool_decide_eq_false in E1. split; [|done]. by destruct (decide (Some b.(tip_previous_block_hash) = r.(run_last))).
Qed.

(** C29: A reader of the chain tip follows it without gaps: whatever finalized and
    non-finalized tips are set and whenever it reads, the reader never aborts; its first
    action is a reset; it is told that the chain grew by a block only when that block is
    the child of the tip it was told last, and not the first block of a network upgrade;
    and after it has read, the last tip it was told is the tip of the channel. *)
Theorem tip_actions_connected initial events :
  ∃ r, for_each run_event events (mk_run (new_sender initial) None []) = Ret r ∧ connected r.(run_actions) ∧
    ∃ r', run_event r ReadTip = Ret r' ∧ connected r'.(run_actions) ∧
      (∀ b, r'.(run_sender).(active_value) = Some b → best_tip_hash <$> last r'.(run_actions) = Some b.(tip_hash)).
Proof.
  destruct (for_each_total run_ok run_event events (mk_run (new_sender initial) None [])) as (r & E & Hr).
  { intros e r _ Hr. by apply run_event_ok. }
  { split; [|done]. split; [done|]. intros [|i] x b Hi; done. }
  exists r. split_and!; [done|apply Hr|]. destruct (run_event_ok r ReadTip Hr) as (r' & E' & Hc' & Hl'). exists r'. split_and!; [done|done|].
  intros b Hb. rewrite <- Hl'. apply bind_Ret_inv in E' as ([a l] & E' & [= <-]). cbn in *. unfold last_tip_change in E'. rewrite Hb in E'.
  case_bool_decide as Hd; [by apply bind_Ret_inv in E' as (? & _ & [= _ <-])|]. injection E' as _ <-.
  by destruct (decide (Some b.(tip_hash) = r.(run_last))).
Qed.
End reader.
