(* ===== verification/Unmined.v ===== *)
(** * Unmined: transactions on their way to the mempool, and their fees

    Models [zebra-chain/src/transaction/unmined.rs] and the fee rules of ZIP 317 in
    [transaction/unmined/zip317.rs].

    The id of a transaction, the digest of its authorizing data, its serialized size
    and that of its inputs are parameters: the model has no signatures, proofs or
    unlock scripts.  The fee weight ratio is a floating-point number that only weighs
    a random choice, and is left out, like the conventional actions that only metrics
    read. *)

From stdpp Require Import base list gmap countable.
From S2P Require Import Prelude Wire Encoding Roster Amount Staking Transparent Network Transaction.

(** ** Ids *)

Inductive UnminedTxId :=
| Legacy (hash : bytes)
| Witnessed (hash auth_digest : bytes).
#[global] Instance UnminedTxId_eq_dec : EqDecision UnminedTxId.
Proof. solve_decision. Defined.
#[global] Program Instance UnminedTxId_countable : Countable UnminedTxId :=
  inj_countable' (λ i, match i with Legacy h => inl h | Witnessed h d => inr (h, d) end)
    (λ x, match x with inl h => Legacy h | inr (h, d) => Witnessed h d end) _.
Next Obligation. by intros []. Qed.
Definition mined_id (i : UnminedTxId) : bytes := match i with Legacy h | Witnessed h _ => h end.
Definition auth_digest_of (i : UnminedTxId) : option bytes := match i with Legacy _ => None | Witnessed _ d => Some d end.

Record UnminedTx := {
  utx_transaction : Transaction;
  utx_id : UnminedTxId;
  utx_size : Z;
  conventional_fee : Z }.
Record VerifiedUnminedTx := mk_verified {
  transaction : UnminedTx;
  miner_fee : Z;
  sigops : Z;
  unpaid_actions : Z;
  entry_height : option Z }.
Definition tx_of (v : VerifiedUnminedTx) : Transaction := v.(transaction).(utx_transaction).
Definition id_of (v : VerifiedUnminedTx) : UnminedTxId := v.(transaction).(utx_id).

(** The size of a block, which also bounds that of a transaction. *)
Definition MAX_BLOCK_BYTES : Z := 100000.

(** ** ZIP 317 *)

Module zip317.
Definition MARGINAL_FEE : Z := 5000.
Definition GRACE_ACTIONS : Z := 2.
Definition P2PKH_STANDARD_INPUT_SIZE : Z := 150.
Definition P2PKH_STANDARD_OUTPUT_SIZE : Z := 34.
Definition BLOCK_UNPAID_ACTION_LIMIT : Z := 0.
Definition MIN_MEMPOOL_TX_FEE_RATE : Z := 100.
Definition MEMPOOL_TX_FEE_REQUIREMENT_CAP : Z := 1000.

Inductive Error := UnpaidActions | FeeBelowMinimumRate.

Definition div_ceil (a b : Z) : Z := (a + b - 1) / b.
(** An output is its value and its script. *)
Definition output_size (o : Output) : Z := 8 + Vector.serialized_size_of_u8_vec (lock_script o).

Section actions.
Context (input_size : Input → Z).

Definition logical_actions (tx : Transaction) : Z :=
  Z.max (div_ceil (zsum (map input_size (inputs tx))) P2PKH_STANDARD_INPUT_SIZE)
        (div_ceil (zsum (map output_size (outputs tx))) P2PKH_STANDARD_OUTPUT_SIZE)
  + 2 * Z.of_nat (joinsplit_count tx)
  + Z.max (Z.of_nat (length (sapling_nullifiers tx))) (Z.of_nat (sapling_outputs tx))
  + Z.of_nat (length (orchard_nullifiers tx)).
Definition conventional_actions (tx : Transaction) : outcome Z :=
  match tx with
  | VCrosslink _ _ _ _ _ _ _ staking_action => Ret (match staking_action with None => 0 | Some _ => 1 end)
  | _ => _ ← assert_ (in_range 32 (logical_actions tx)); Ret (Z.max GRACE_ACTIONS (logical_actions tx))
  end.
Definition conventional_fee_of (tx : Transaction) : outcome Z :=
  actions ← conventional_actions tx; expect (Amount.mul NonNegative MARGINAL_FEE actions).
(** What does not fit a [u32] counts as zero. *)
Definition unpaid_actions_of (tx : Transaction) (miner_fee : Z) : outcome Z :=
  actions ← conventional_actions tx;
  ratio ← expect (Amount.div NonNegative miner_fee MARGINAL_FEE);
  Ret (if in_range 32 (actions - ratio) then actions - ratio else 0).
End actions.

(** [Ord::clamp] *)
Definition clamp (x lo hi : Z) : Z := Z.min (Z.max x lo) hi.
Definition min_fee (transaction_size : Z) : Z :=
  clamp (MIN_MEMPOOL_TX_FEE_RATE * transaction_size / 1000) MIN_MEMPOOL_TX_FEE_RATE MEMPOOL_TX_FEE_REQUIREMENT_CAP.
Definition mempool_checks `{Profile} (unpaid_actions miner_fee transaction_size : Z) : Fallible Error () :=
  if BLOCK_UNPAID_ACTION_LIMIT <? unpaid_actions then fail UnpaidActions
  else
    p ← run (arith 64 (MIN_MEMPOOL_TX_FEE_RATE * transaction_size));
    if miner_fee <? clamp (p / 1000) MIN_MEMPOOL_TX_FEE_RATE MEMPOOL_TX_FEE_REQUIREMENT_CAP then fail FeeBelowMinimumRate
    else mret ().
End zip317.

Class TxDigests := {
  tx_hash : Transaction → bytes;
  tx_auth_digest : Transaction → bytes;
  tx_serialized_size : Transaction → Z;
  input_serialized_size : Input → Z }.

Section unmined.
Context {P : Profile} {D : TxDigests}.

Definition unmined_id (tx : Transaction) : UnminedTxId :=
  match tx with
  | V1 _ _ _ | V2 _ _ _ _ | V3 _ _ _ _ _ | V4 _ _ _ _ _ _ => Legacy (tx_hash tx)
  | V5 _ _ _ _ _ _ _ | VCrosslink _ _ _ _ _ _ _ _ => Witnessed (tx_hash tx) (tx_auth_digest tx)
  end.
(** [From<Transaction> for UnminedTx] *)
Definition unmined_tx (tx : Transaction) : outcome UnminedTx :=
  fee ← zip317.conventional_fee_of input_serialized_size tx;
  Ret {| utx_transaction := tx; utx_id := unmined_id tx; utx_size := tx_serialized_size tx; conventional_fee := fee |}.
(** [VerifiedUnminedTx::new] *)
Definition verified_unmined_tx (utx : UnminedTx) (miner_fee legacy_sigop_count : Z) : Fallible zip317.Error VerifiedUnminedTx :=
  _ ← run (zip317.conventional_actions input_serialized_size utx.(utx_transaction));
  unpaid ← run (zip317.unpaid_actions_of input_serialized_size utx.(utx_transaction) miner_fee);
  _ ← zip317.mempool_checks unpaid miner_fee utx.(utx_size);
  mret (mk_verified utx miner_fee legacy_sigop_count unpaid None).
End unmined.

(** ** Costs *)

Definition MEMPOOL_TRANSACTION_COST_THRESHOLD : Z := 10000.
Definition MEMPOOL_TRANSACTION_LOW_FEE_PENALTY : Z := 40000.
Definition cost (v : VerifiedUnminedTx) : Z := Z.max v.(transaction).(utx_size) MEMPOOL_TRANSACTION_COST_THRESHOLD.
Definition pays_conventional_fee (v : VerifiedUnminedTx) : bool := v.(transaction).(conventional_fee) <=? v.(miner_fee).
Definition eviction_weight `{Profile} (v : VerifiedUnminedTx) : outcome Z :=
  if pays_conventional_fee v then Ret (cost v) else arith 64 (cost v + MEMPOOL_TRANSACTION_LOW_FEE_PENALTY).

(** ** What the fee rule comes to *)

(** A transaction of the sizes that blocks allow. *)
Definition fee_inputs_ok `{TxDigests} (tx : Transaction) (fee : Z) : Prop :=
  is_u 32 (zip317.logical_actions input_serialized_size tx) ∧ 0 ≤ tx_serialized_size tx ≤ MAX_BLOCK_BYTES ∧ Amount.ok NonNegative fee.

Definition actions_of `{TxDigests} (tx : Transaction) : Z :=
  match tx with
  | VCrosslink _ _ _ _ _ _ _ None => 0
  | VCrosslink _ _ _ _ _ _ _ (Some _) => 1
  | _ => Z.max zip317.GRACE_ACTIONS (zip317.logical_actions input_serialized_size tx)
  end.

Section fees.
Context {P : Profile} {D : TxDigests}.

Lemma actions_bound tx fee : fee_inputs_ok tx fee → 0 ≤ actions_of tx < 2 ^ 32.
Proof.
  unfold fee_inputs_ok, actions_of, is_u, zip317.GRACE_ACTIONS. intros ([? ?] & _).
  destruct tx as [| | | | |???????[|]]; lia.
Qed.

Lemma conventional_actions_eq tx fee : fee_inputs_ok tx fee →
  zip317.conventional_actions input_serialized_size tx = Ret (actions_of tx).
Proof.
  intros (Hl & _). unfold zip317.conventional_actions, actions_of.
  destruct tx as [| | | | |???????[|]]; try done; by rewrite (proj2 (in_range_spec _ _) Hl).
Qed.

Lemma conventional_fee_eq tx fee : fee_inputs_ok tx fee →
  zip317.conventional_fee_of input_serialized_size tx = Ret (zip317.MARGINAL_FEE * actions_of tx).
Proof.
  intros Hok. pose proof (actions_bound _ _ Hok) as Hb. unfold zip317.conventional_fee_of. rewrite (conventional_actions_eq _ _ Hok).
  cbn [mbind outcome_bind]. unfold Amount.mul, Amount.try_from, zip317.MARGINAL_FEE in *.
  rewrite is_i64_true by (unfold MAX_MONEY, COIN; lia). rewrite validate_ok by (unfold Amount.ok; cbn; unfold MAX_MONEY, COIN; lia). done.
Qed.

Lemma unpaid_actions_eq tx fee : fee_inputs_ok tx fee →
  zip317.unpaid_actions_of input_serialized_size tx fee = Ret (Z.max 0 (actions_of tx - fee / zip317.MARGINAL_FEE)).
Proof.
  intros Hok. pose proof (actions_bound _ _ Hok) as Hb. pose proof Hok as (Hl & Hz & Hf).
  pose proof (ok_bound _ _ Hf) as Hm. assert (0 ≤ fee) as Hp by apply Hf.
  unfold zip317.unpaid_actions_of. rewrite (conventional_actions_eq tx fee) by done. cbn [mbind outcome_bind].
  unfold Amount.div, zip317.MARGINAL_FEE, Amount.try_from. cbn [Z.eqb]. rewrite Z.quot_div_nonneg by lia.
  pose proof (Z.div_mod fee 5000 ltac:(lia)). pose proof (Z.mod_pos_bound fee 5000 ltac:(lia)).
  assert (0 ≤ fee / 5000 ≤ fee) by lia.
  rewrite is_i64_true by lia. rewrite validate_ok by (unfold Amount.ok; cbn; lia). change (Ret (if in_range 32 (actions_of tx - fee / 5000) then actions_of tx - fee / 5000 else 0) = Ret (0 `max` (actions_of tx - fee / 5000))).
  f_equal. unfold in_range. destruct (Z.leb_spec 0 (actions_of tx - fee / 5000)); cbn [andb]; [|lia].
  rewrite (proj2 (Z.ltb_lt _ _)) by lia. lia.
Qed.

Lemma fee_rule tx fee ops : fee_inputs_ok tx fee →
  ∃ utx, unmined_tx tx = Ret utx ∧ utx.(conventional_fee) = zip317.MARGINAL_FEE * actions_of tx ∧
    verified_unmined_tx utx fee ops =
      Ret (if fee <? zip317.MARGINAL_FEE * actions_of tx then inl zip317.UnpaidActions
           else if fee <? zip317.min_fee (tx_serialized_size tx) then inl zip317.FeeBelowMinimumRate
           else inr (mk_verified utx fee ops 0 None)) ∧
    (zip317.MARGINAL_FEE * actions_of tx ≤ fee < zip317.min_fee (tx_serialized_size tx) → actions_of tx = 0).
Proof.
  intros Hok. pose proof (actions_bound _ _ Hok) as Hb. unfold unmined_tx. rewrite (conventional_fee_eq _ _ Hok).
  cbn [mbind outcome_bind]. eexists. split_and!; [done|done| |].
  - unfold verified_unmined_tx. cbn [utx_transaction utx_size].
    rewrite (conventional_actions_eq _ _ Hok), (unpaid_actions_eq _ _ Hok). cbn.
    destruct Hok as (_ & Hz & [Hp _]). unfold zip317.mempool_checks, zip317.BLOCK_UNPAID_ACTION_LIMIT, zip317.MARGINAL_FEE, zip317.min_fee in *.
    pose proof (Z.div_mod fee 5000 ltac:(lia)). pose proof (Z.mod_pos_bound fee 5000 ltac:(lia)). cbn in Hp.
    destruct (Z.ltb_spec fee (5000 * actions_of tx)).
    + rewrite (proj2 (Z.ltb_lt _ _)) by lia. done.
    + rewrite (proj2 (Z.ltb_ge _ _)) by lia. rewrite arith_ok by (unfold is_u, zip317.MIN_MEMPOOL_TX_FEE_RATE, MAX_BLOCK_BYTES in *; lia). cbn [mbind run].
      replace (0 `max` _) with 0 by lia. match goal with |- context [mret ?x ≫= ?f] => change (mret x ≫= f) with (f x) end.
      cbn beta. by destruct (fee <? _).
  - unfold zip317.min_fee, zip317.clamp, zip317.MEMPOOL_TX_FEE_REQUIREMENT_CAP, zip317.MARGINAL_FEE. lia.
Qed.

(** What is verified pays its conventional fee, and so its weight is its cost. *)
Lemma verified_pays tx fee ops utx v : fee_inputs_ok tx fee → unmined_tx tx = Ret utx → verified_unmined_tx utx fee ops = Ret (inr v) →
  pays_conventional_fee v = true ∧ eviction_weight v = Ret (cost v) ∧ v.(unpaid_actions) = 0.
Proof.
  intros Hok. destruct (fee_rule tx fee ops Hok) as (utx' & -> & Hc & Hv & _). intros [= <-]. rewrite Hv.
  destruct (Z.ltb_spec fee (zip317.MARGINAL_FEE * actions_of tx)); [done|]. destruct (fee <? _); [done|]. intros [= <-].
  assert (pays_conventional_fee (mk_verified utx' fee ops 0 None) = true) as Hp.
  { unfold pays_conventional_fee. cbn. rewrite Hc. by apply Z.leb_le. }
  unfold eviction_weight. by rewrite Hp.
Qed.
(** C31: The fee rule of the mempool.  A transaction of the sizes that blocks allow
    always gets its conventional fee, 5000 zatoshis for each of its actions: at least two
    actions for a transaction of an earlier version, one for a staking action and none
    for a Crosslink transaction without one.  The transaction is refused as unpaid
    exactly when it pays less than that, and as below the minimum rate when it pays the
    conventional fee but less than the rate; the latter can only happen when it has no
    action at all, so that the rate matters for Crosslink transactions only. *)
Theorem mempool_fee_rule tx fee ops : fee_inputs_ok tx fee →
  ∃ utx, unmined_tx tx = Ret utx ∧ utx.(conventional_fee) = zip317.MARGINAL_FEE * actions_of tx ∧
    verified_unmined_tx utx fee ops =
      Ret (if fee <? zip317.MARGINAL_FEE * actions_of tx then inl zip317.UnpaidActions
           else if fee <? zip317.min_fee (tx_serialized_size tx) then inl zip317.FeeBelowMinimumRate
           else inr (mk_verified utx fee ops 0 None)) ∧
    (zip317.MARGINAL_FEE * actions_of tx ≤ fee < zip317.min_fee (tx_serialized_size tx) → actions_of tx = 0).
Proof. apply fee_rule. Qed.
End fees.
