(* ===== verification/Mempool.v ===== *)
(** * Mempool: the transactions that wait for a block

    Models the storage of the mempool: [zebrad/src/components/mempool/storage.rs],
    [storage/verified_set.rs], [storage/eviction_list.rs], [pending_outputs.rs],
    and [zebra-node-services/src/mempool/transaction_dependencies.rs].

    Hash maps are iterated in an order that is a parameter, like the random choice of
    the transaction to evict and the time.  Requests that wait for an output are the
    set of their outpoints, and the answers to them a log.  Metrics are left out, but
    for the pruning of the rejection lists that they cause. *)

From stdpp Require Import base list gmap sets countable.
From S2P Require Import Prelude Wire Encoding Bft Roster Amount Staking Transparent Network Subsidy Transaction Unmined.

(** ** Order and chance *)

Class MempoolOrder := {
  iter_hashes : gset bytes → list bytes;
  iter_transactions : gmap bytes VerifiedUnminedTx → list (bytes * VerifiedUnminedTx);
  (** The index that a weighted distribution yields. *)
  sample : list Z → nat }.
Class MempoolOrderLaws (Or : MempoolOrder) : Prop := {
  iter_hashes_perm X : iter_hashes X ≡ₚ elements X;
  iter_transactions_perm m : iter_transactions m ≡ₚ map_to_list m;
  sample_lt ws : ws ≠ [] → (sample ws < length ws)%nat }.

(** ** Dependencies between transactions *)

Record TransactionDependencies := mk_deps {
  dependencies : gmap bytes (gset bytes);
  dependents : gmap bytes (gset bytes) }.
Definition no_deps : TransactionDependencies := mk_deps ∅ ∅.

Definition add_dependent (dependent : bytes) (m : gmap bytes (gset bytes)) (o : OutPoint) : gmap bytes (gset bytes) :=
  <[o.1 := {[dependent]} ∪ default ∅ (m !! o.1)]> m.
Definition add (dependent : bytes) (spent_mempool_outpoints : list OutPoint) (d : TransactionDependencies)
    : TransactionDependencies :=
  mk_deps
    (if decide (spent_mempool_outpoints = []) then d.(dependencies)
     else <[dependent := list_to_set (map fst spent_mempool_outpoints)]> d.(dependencies))
    (foldl (add_dependent dependent) d.(dependents) spent_mempool_outpoints).

(** The body of the loop of [clear_mined_dependencies]: the dependent itself is
    removed from its dependencies. *)
Definition clear_dependent (m : gmap bytes (gset bytes)) (dependent_id : bytes) : gmap bytes (gset bytes) :=
  match m !! dependent_id with
  | Some deps => <[dependent_id := deps ∖ {[dependent_id]}]> m
  | None => m
  end.

Section deps.
Context {Or : MempoolOrder}.

Definition clear_mined (d : TransactionDependencies) (mined_tx_id : bytes) : TransactionDependencies :=
  mk_deps (foldl clear_dependent d.(dependencies) (iter_hashes (default ∅ (d.(dependents) !! mined_tx_id))))
    (delete mined_tx_id d.(dependents)).
Definition clear_mined_dependencies (mined_ids : gset bytes) (d : TransactionDependencies) : TransactionDependencies :=
  foldl clear_mined d (iter_hashes mined_ids).

(** One round of the loop of [remove_all]. *)
Fixpoint take_level (level : list bytes) (next : gset bytes) (d : TransactionDependencies) : gset bytes * TransactionDependencies :=
  match level with
  | [] => (next, d)
  | dep :: level =>
      take_level level (next ∪ default ∅ (d.(dependents) !! dep))
        (mk_deps (delete dep d.(dependencies)) (delete dep d.(dependents)))
  end.
(** [fuel] bounds the rounds; every round but the last removes dependents. *)
Fixpoint take_levels (fuel : nat) (level all_dependents : gset bytes) (d : TransactionDependencies)
    : outcome (gset bytes * TransactionDependencies) :=
  if decide (level = ∅) then Ret (all_dependents, d)
  else match fuel with
       | O => Panic
       | S fuel =>
           let '(next, d) := take_level (iter_hashes level) ∅ d in
           take_levels fuel next (all_dependents ∪ next) d
       end.
Definition remove_all (tx_hash : bytes) (d : TransactionDependencies) : outcome (gset bytes * TransactionDependencies) :=
  take_levels (S (size d.(dependents))) {[tx_hash]} ∅ d.
End deps.

(** ** Requests for outputs *)

Record PendingOutputs := mk_pending {
  waiting : gset OutPoint;
  responses : list (OutPoint * Output) }.
Definition respond (outpoint : OutPoint) (output : Output) (p : PendingOutputs) : PendingOutputs :=
  if decide (outpoint ∈ p.(waiting)) then mk_pending (p.(waiting) ∖ {[outpoint]}) (p.(responses) ++ [(outpoint, output)]) else p.
Definition queue_output (outpoint : OutPoint) (p : PendingOutputs) : PendingOutputs :=
  mk_pending ({[outpoint]} ∪ p.(waiting)) p.(responses).
(** Requests whose receivers are gone are dropped. *)
Definition prune_pending (live : OutPoint → bool) (p : PendingOutputs) : PendingOutputs :=
  mk_pending (filter (λ o, live o = true) p.(waiting)) p.(responses).
Definition clear_pending (p : PendingOutputs) : PendingOutputs := mk_pending ∅ p.(responses).

(** ** The verified set *)

Inductive SameEffectsTipRejectionError := SpendConflict | MissingOutput.

Record VerifiedSet := mk_set {
  transactions : gmap bytes VerifiedUnminedTx;
  transaction_dependencies : TransactionDependencies;
  created_outputs : gmap OutPoint Output;
  transactions_serialized_size : Z;
  total_cost : Z;
  set_spent_outpoints : gset OutPoint;
  set_sprout_nullifiers : gset bytes;
  set_sapling_nullifiers : gset bytes;
  set_orchard_nullifiers : gset bytes }.
Definition empty_set : VerifiedSet := mk_set ∅ no_deps ∅ 0 0 ∅ ∅ ∅ ∅.

Definition has_conflicts `{Countable A} (X : gset A) (l : list A) : bool := existsb (λ x, bool_decide (x ∈ X)) l.
Definition has_spend_conflicts (tx : Transaction) (s : VerifiedSet) : bool :=
  has_conflicts s.(set_spent_outpoints) (spent_outpoints tx) || has_conflicts s.(set_sprout_nullifiers) (sprout_nullifiers tx)
  || has_conflicts s.(set_sapling_nullifiers) (sapling_nullifiers tx)
  || has_conflicts s.(set_orchard_nullifiers) (orchard_nullifiers tx).

(** The outputs of a transaction, with the conversion of their indexes. *)
Fixpoint insert_outputs (tx_id : bytes) (i : nat) (l : list Output) (m : gmap OutPoint Output) (p : PendingOutputs)
    : outcome (gmap OutPoint Output * PendingOutputs) :=
  match l with
  | [] => Ret (m, p)
  | output :: l =>
      _ ← assert_ (in_range 32 (Z.of_nat i));
      insert_outputs tx_id (S i) l (<[(tx_id, Z.of_nat i) := output]> m) (respond (tx_id, Z.of_nat i) output p)
  end.
Fixpoint delete_outputs (tx_id : bytes) (i : nat) (l : list Output) (m : gmap OutPoint Output) : outcome (gmap OutPoint Output) :=
  match l with
  | [] => Ret m
  | _ :: l =>
      _ ← assert_ (in_range 32 (Z.of_nat i));
      delete_outputs tx_id (S i) l (delete (tx_id, Z.of_nat i) m)
  end.

Section set.
Context {P : Profile} {Or : MempoolOrder}.

Definition insert_verified (v : VerifiedUnminedTx) (spent_mempool_outpoints : list OutPoint) (height : option Z)
    (p : PendingOutputs) (s : VerifiedSet) : outcome ((SameEffectsTipRejectionError + ()) * VerifiedSet * PendingOutputs) :=
  let tx := tx_of v in
  if has_spend_conflicts tx s then Ret (inl SpendConflict, s, p)
  else if existsb (λ o, bool_decide (s.(created_outputs) !! o = None)) spent_mempool_outpoints then Ret (inl MissingOutput, s, p)
  else
    let tx_id := mined_id (id_of v) in
    x ← insert_outputs tx_id 0 (outputs tx) s.(created_outputs) p;
    let '(created, p) := x in
    size ← arith 64 (s.(transactions_serialized_size) + v.(transaction).(utx_size));
    total ← arith 64 (s.(total_cost) + cost v);
    Ret (inr (),
         mk_set (<[tx_id := mk_verified v.(transaction) v.(miner_fee) v.(sigops) v.(unpaid_actions) height]> s.(transactions))
           (add tx_id spent_mempool_outpoints s.(transaction_dependencies)) created size total
           (list_to_set (spent_outpoints tx) ∪ s.(set_spent_outpoints))
           (list_to_set (sprout_nullifiers tx) ∪ s.(set_sprout_nullifiers))
           (list_to_set (sapling_nullifiers tx) ∪ s.(set_sapling_nullifiers))
           (list_to_set (orchard_nullifiers tx) ∪ s.(set_orchard_nullifiers)),
         p).

(** The loop of [remove] over the transaction and its dependents. *)
Definition remove_one (x : VerifiedSet * list VerifiedUnminedTx) (key : bytes) : outcome (VerifiedSet * list VerifiedUnminedTx) :=
  let '(s, removed) := x in
  v ← unwrap (s.(transactions) !! key);
  let tx := tx_of v in
  size ← arith 64 (s.(transactions_serialized_size) - v.(transaction).(utx_size));
  total ← arith 64 (s.(total_cost) - cost v);
  created ← delete_outputs (mined_id (id_of v)) 0 (outputs tx) s.(created_outputs);
  Ret (mk_set (delete key s.(transactions)) s.(transaction_dependencies) created size total
         (s.(set_spent_outpoints) ∖ list_to_set (spent_outpoints tx))
         (s.(set_sprout_nullifiers) ∖ list_to_set (sprout_nullifiers tx))
         (s.(set_sapling_nullifiers) ∖ list_to_set (sapling_nullifiers tx))
         (s.(set_orchard_nullifiers) ∖ list_to_set (orchard_nullifiers tx)),
       removed ++ [v]).
Definition with_deps (s : VerifiedSet) (d : TransactionDependencies) : VerifiedSet :=
  mk_set s.(transactions) d s.(created_outputs) s.(transactions_serialized_size) s.(total_cost) s.(set_spent_outpoints)
    s.(set_sprout_nullifiers) s.(set_sapling_nullifiers) s.(set_orchard_nullifiers).
Definition remove (key_to_remove : bytes) (s : VerifiedSet) : outcome (VerifiedSet * list VerifiedUnminedTx) :=
  x ← remove_all key_to_remove s.(transaction_dependencies);
  let '(all_dependents, d) := x in
  for_each remove_one (iter_hashes all_dependents ++ [key_to_remove]) (with_deps s d, []).

Fixpoint weights_of (l : list (bytes * VerifiedUnminedTx)) : outcome (list Z) :=
  match l with
  | [] => Ret []
  | x :: l => w ← eviction_weight x.2; ws ← weights_of l; Ret (w :: ws)
  end.
(** The weights are not empty, and their sum is positive. *)
Definition evict_one (s : VerifiedSet) : outcome (VerifiedSet * option VerifiedUnminedTx) :=
  let entries := iter_transactions s.(transactions) in
  weights ← weights_of entries;
  _ ← assert_ (bool_decide (weights ≠ []) && (0 <? zsum weights));
  key_to_remove ← index (map fst entries) (sample weights);
  x ← remove key_to_remove s;
  Ret (x.1, head (rev x.2)).

Definition remove_next (x : VerifiedSet * gset UnminedTxId) (key : bytes) : outcome (VerifiedSet * gset UnminedTxId) :=
  y ← remove key x.1; Ret (y.1, x.2 ∪ list_to_set (map id_of y.2)).
Definition remove_all_that (predicate : VerifiedUnminedTx → bool) (s : VerifiedSet) : outcome (VerifiedSet * gset UnminedTxId) :=
  let keys_to_remove := map fst (List.filter (λ x, predicate x.2) (iter_transactions s.(transactions))) in
  for_each remove_next keys_to_remove (s, ∅).
End set.

(** ** Rejected transactions *)

(** Entries in the order of their times. *)
Record EvictionList := mk_list {
  unique_entries : gmap bytes Z;
  ordered_entries : list bytes }.
Definition new_list : EvictionList := mk_list ∅ [].
Definition MAX_EVICTION_MEMORY_ENTRIES : Z := 40000.

Section list.
Context (eviction_memory_time now : Z).

Definition has_expired (evicted_at : Z) : bool := eviction_memory_time <? now - evicted_at.
Definition contains_key (txid : bytes) (l : EvictionList) : bool :=
  match l.(unique_entries) !! txid with Some evicted_at => negb (has_expired evicted_at) | None => false end.
Definition pop_front (l : EvictionList) : outcome EvictionList :=
  match l.(ordered_entries) with
  | [] => Ret l
  | key :: rest =>
      _ ← assert_ (bool_decide (is_Some (l.(unique_entries) !! key)));
      Ret (mk_list (delete key l.(unique_entries)) rest)
  end.
Fixpoint prune_entries (ordered : list bytes) (unique : gmap bytes Z) : outcome EvictionList :=
  match ordered with
  | [] => Ret (mk_list unique [])
  | txid :: rest =>
      evicted_at ← unwrap (unique !! txid);
      if has_expired evicted_at then prune_entries rest (delete txid unique) else Ret (mk_list unique ordered)
  end.
Definition prune_old (l : EvictionList) : outcome EvictionList := prune_entries l.(ordered_entries) l.(unique_entries).
Definition insert_evicted (key : bytes) (l : EvictionList) : outcome EvictionList :=
  l ← prune_old l;
  l ← (if MAX_EVICTION_MEMORY_ENTRIES <=? Z.of_nat (size l.(unique_entries)) then pop_front l else Ret l);
  _ ← assert_ (bool_decide (l.(unique_entries) !! key = None));
  Ret (mk_list (<[key := now]> l.(unique_entries)) (l.(ordered_entries) ++ [key])).
End list.

Inductive SameEffectsChainRejectionError := Expired | DuplicateSpend | Mined | RandomlyEvicted.
#[global] Instance ChainError_eq_dec : EqDecision SameEffectsChainRejectionError.
Proof. solve_decision. Defined.
(** The lists of [chain_rejected_same_effects], by their error. *)
Definition ChainRejections : Type := SameEffectsChainRejectionError → option EvictionList.

Inductive RejectionError :=
| ExactTip (e : TransactionError)
| SameEffectsTip (e : SameEffectsTipRejectionError)
| SameEffectsChain (e : SameEffectsChainRejectionError).
Inductive MempoolError :=
| Rejected (e : RejectionError)
| InMempool
| AlreadyQueued
| FullQueue
| NotEnabled.

Inductive TransactionDownloadVerifyError :=
| InState
| StateError
| DownloadFailed
| Cancelled
| Invalid (error : TransactionError).

(** ** The storage *)

Record Storage := mk_storage {
  verified : VerifiedSet;
  pending_outputs : PendingOutputs;
  tip_rejected_exact : gmap UnminedTxId TransactionError;
  tip_rejected_same_effects : gmap bytes SameEffectsTipRejectionError;
  chain_rejected_same_effects : ChainRejections;
  storage_memory_time : Z;
  tx_cost_limit : Z }.
Definition new_storage (memory_time limit : Z) : Storage :=
  mk_storage empty_set (mk_pending ∅ []) ∅ ∅ (λ _, None) memory_time limit.
Definition with_verified (s : Storage) (v : VerifiedSet) : Storage :=
  mk_storage v s.(pending_outputs) s.(tip_rejected_exact) s.(tip_rejected_same_effects) s.(chain_rejected_same_effects)
    s.(storage_memory_time) s.(tx_cost_limit).
Definition with_pending (s : Storage) (p : PendingOutputs) : Storage :=
  mk_storage s.(verified) p s.(tip_rejected_exact) s.(tip_rejected_same_effects) s.(chain_rejected_same_effects)
    s.(storage_memory_time) s.(tx_cost_limit).
Definition with_rejections (s : Storage) (exact : gmap UnminedTxId TransactionError)
    (same : gmap bytes SameEffectsTipRejectionError) (chain : ChainRejections) : Storage :=
  mk_storage s.(verified) s.(pending_outputs) exact same chain s.(storage_memory_time) s.(tx_cost_limit).

Definition set_rejections (c : ChainRejections) (e : SameEffectsChainRejectionError) (l : EvictionList) : ChainRejections :=
  λ e', if decide (e' = e) then Some l else c e'.

Section storage.
Context {P : Profile} {Or : MempoolOrder} (iter_errors : list SameEffectsChainRejectionError) (now : Z).

(** [update_rejected_metrics]: counting the entries of a list prunes it. *)
Definition prune_list (c : ChainRejections) (memory_time : Z) (e : SameEffectsChainRejectionError) : outcome ChainRejections :=
  match c e with
  | Some l => l ← prune_old memory_time now l; Ret (set_rejections c e l)
  | None => Ret c
  end.
Definition update_rejected_metrics (s : Storage) : outcome Storage :=
  c ← for_each (λ c e, prune_list c s.(storage_memory_time) e) iter_errors s.(chain_rejected_same_effects);
  Ret (with_rejections s s.(tip_rejected_exact) s.(tip_rejected_same_effects) c).
Definition limit_rejection_list_memory (s : Storage) : outcome Storage :=
  update_rejected_metrics
    (with_rejections s
       (if MAX_EVICTION_MEMORY_ENTRIES <? Z.of_nat (size s.(tip_rejected_exact)) then ∅ else s.(tip_rejected_exact))
       (if MAX_EVICTION_MEMORY_ENTRIES <? Z.of_nat (size s.(tip_rejected_same_effects)) then ∅ else s.(tip_rejected_same_effects))
       s.(chain_rejected_same_effects)).

Definition reject (s : Storage) (tx_id : UnminedTxId) (reason : RejectionError) : outcome Storage :=
  s ← (match reason with
       | ExactTip e =>
           Ret (with_rejections s (<[tx_id := e]> s.(tip_rejected_exact)) s.(tip_rejected_same_effects) s.(chain_rejected_same_effects))
       | SameEffectsTip e =>
           Ret (with_rejections s s.(tip_rejected_exact) (<[mined_id tx_id := e]> s.(tip_rejected_same_effects))
                  s.(chain_rejected_same_effects))
       | SameEffectsChain e =>
           l ← insert_evicted s.(storage_memory_time) now (mined_id tx_id) (default new_list (s.(chain_rejected_same_effects) e));
           Ret (with_rejections s s.(tip_rejected_exact) s.(tip_rejected_same_effects)
                  (set_rejections s.(chain_rejected_same_effects) e l))
       end);
  limit_rejection_list_memory s.

Definition rejection_error (txid : UnminedTxId) (s : Storage) : option MempoolError :=
  match s.(tip_rejected_exact) !! txid with
  | Some e => Some (Rejected (ExactTip e))
  | None =>
      match s.(tip_rejected_same_effects) !! mined_id txid with
      | Some e => Some (Rejected (SameEffectsTip e))
      | None =>
          e ← find (λ e, match s.(chain_rejected_same_effects) e with
                         | Some l => contains_key s.(storage_memory_time) now (mined_id txid) l
                         | None => false
                         end) iter_errors;
          Some (Rejected (SameEffectsChain e))
      end
  end.

(** The loop that evicts transactions; [fuel] bounds its rounds. *)
Fixpoint evict_to_limit (fuel : nat) (unmined_tx_id : UnminedTxId) (result : MempoolError + UnminedTxId) (s : Storage)
    : outcome ((MempoolError + UnminedTxId) * Storage) :=
  if total_cost s.(verified) <=? s.(tx_cost_limit) then Ret (result, s)
  else match fuel with
       | O => Panic
       | S fuel =>
           x ← evict_one s.(verified);
           victim_tx ← unwrap x.2;
           s ← reject (with_verified s x.1) (id_of victim_tx) (SameEffectsChain RandomlyEvicted);
           evict_to_limit fuel unmined_tx_id
             (if decide (id_of victim_tx = unmined_tx_id) then inl (Rejected (SameEffectsChain RandomlyEvicted)) else result) s
       end.

Definition insert (v : VerifiedUnminedTx) (spent_mempool_outpoints : list OutPoint) (height : option Z) (s : Storage)
    : outcome ((MempoolError + UnminedTxId) * Storage) :=
  let unmined_tx_id := id_of v in
  match rejection_error unmined_tx_id s with
  | Some e => Ret (inl e, s)
  | None =>
      if bool_decide (is_Some (transactions s.(verified) !! mined_id unmined_tx_id)) then Ret (inl InMempool, s)
      else
        x ← insert_verified v spent_mempool_outpoints height s.(pending_outputs) s.(verified);
        let '(r, set, pending) := x in
        let s := with_pending (with_verified s set) pending in
        y ← (match r with
             | inl e => s ← reject s unmined_tx_id (SameEffectsTip e); Ret (inl (Rejected (SameEffectsTip e)), s)
             | inr _ => Ret (inr unmined_tx_id, s)
             end);
        evict_to_limit (size (transactions (verified y.2))) unmined_tx_id y.1 y.2
  end.

Definition remove_exact (exact_wtxids : gset UnminedTxId) (s : Storage) : outcome (nat * Storage) :=
  x ← remove_all_that (λ v, bool_decide (id_of v ∈ exact_wtxids)) s.(verified);
  Ret (size x.2, with_verified s x.1).
Definition storage_clear_mined (mined_ids : gset bytes) (s : Storage) : Storage :=
  with_verified s (with_deps s.(verified) (clear_mined_dependencies mined_ids (transaction_dependencies s.(verified)))).

(** A transaction that spends what the transactions of a block spend. *)
Definition spends_any (txs : list Transaction) (v : VerifiedUnminedTx) : bool :=
  existsb (λ o, bool_decide (o ∈ concat (map spent_outpoints txs))) (spent_outpoints (tx_of v))
  || existsb (λ x, bool_decide (x ∈ concat (map sprout_nullifiers txs))) (sprout_nullifiers (tx_of v))
  || existsb (λ x, bool_decide (x ∈ concat (map sapling_nullifiers txs))) (sapling_nullifiers (tx_of v))
  || existsb (λ x, bool_decide (x ∈ concat (map orchard_nullifiers txs))) (orchard_nullifiers (tx_of v)).

Context (iter_ids : gset UnminedTxId → list UnminedTxId) (live : OutPoint → bool).

Definition reject_and_remove_same_effects (mined_ids : gset bytes) (txs : list Transaction) (s : Storage)
    : outcome (gset UnminedTxId * gset UnminedTxId * Storage) :=
  x ← remove_all_that (λ v, bool_decide (mined_id (id_of v) ∈ mined_ids)) s.(verified);
  let '(set, removed_mined) := x in
  let duplicate_spend_ids : gset UnminedTxId :=
    list_to_set (map (λ y, id_of y.2) (List.filter (λ y, spends_any txs y.2) (iter_transactions set.(transactions)))) in
  y ← remove_all_that (λ v, bool_decide (id_of v ∈ duplicate_spend_ids)) set;
  let '(set, removed_duplicate_spend) := y in
  s ← for_each (λ s h, reject s (Legacy h) (SameEffectsChain Mined)) (iter_hashes mined_ids) (with_verified s set);
  s ← for_each (λ s i, reject s i (SameEffectsChain DuplicateSpend)) (iter_ids duplicate_spend_ids) s;
  Ret (removed_mined, removed_duplicate_spend, with_pending s (prune_pending live s.(pending_outputs))).

Definition clear_tip_rejections (s : Storage) : outcome Storage :=
  update_rejected_metrics (with_rejections s ∅ ∅ s.(chain_rejected_same_effects)).
Definition clear (s : Storage) : Storage :=
  with_rejections (with_pending (with_verified s empty_set) (clear_pending s.(pending_outputs))) ∅ ∅ (λ _, None).

Definition is_expired (tip_height : Z) (v : VerifiedUnminedTx) : bool :=
  match expiry_height (tx_of v) with Some e => e <=? tip_height | None => false end.
Definition remove_expired_transactions (tip_height : Z) (s : Storage) : outcome (gset UnminedTxId * Storage) :=
  let expired := List.filter (λ x, is_expired tip_height x.2) (iter_transactions (transactions s.(verified))) in
  let tx_ids : gset bytes := list_to_set (map fst expired) in
  x ← remove_all_that (λ v, bool_decide (mined_id (id_of v) ∈ tx_ids)) s.(verified);
  s ← for_each (λ s h, reject s (Legacy h) (SameEffectsChain Expired)) (iter_hashes tx_ids) (with_verified s x.1);
  Ret (list_to_set (map (λ x, id_of x.2) expired), s).

Definition transaction_with_deps (tx_id : bytes) (s : Storage) : option (VerifiedUnminedTx * gset bytes) :=
  v ← transactions s.(verified) !! tx_id;
  Some (v, default ∅ ((transaction_dependencies s.(verified)).(dependencies) !! tx_id)).
Definition should_download_or_verify (txid : UnminedTxId) (s : Storage) : MempoolError + () :=
  if bool_decide (is_Some (transactions s.(verified) !! mined_id txid)) then inl InMempool
  else match rejection_error txid s with Some e => inl e | None => inr () end.

(** Why a transaction was not verified. *)
Definition reject_if_needed (tx_id : UnminedTxId) (e : TransactionDownloadVerifyError) (s : Storage) : outcome Storage :=
  match e with
  | InState | StateError | DownloadFailed | Cancelled => Ret s
  | Invalid error => reject s tx_id (ExactTip error)
  end.
End storage.
