(* ===== verification/MempoolService.v ===== *)
(** * MempoolService: the queue of downloads and the mempool service

    Models [zebrad/src/components/mempool.rs] ([Mempool], its [poll_ready] and [call])
    and the bookkeeping of [mempool/downloads.rs]: the tasks that download and verify a
    transaction, and the handles that cancel them.

    What a task yields is an argument of [poll_ready], like the order of the hash maps,
    the time, the synchronisation status and the change of the tip.  Channels to who
    asked for a transaction, the scores of peers and metrics are left out. *)

From stdpp Require Import base list gmap sets countable.
From S2P Require Import Prelude Wire Encoding Bft Roster Amount Staking Transparent Network Subsidy Transaction ChainTip Unmined Mempool.

(** ** Downloads *)

Inductive Gossip := GossipId (txid : UnminedTxId) | GossipTx (tx : UnminedTx).
Definition gossip_id (g : Gossip) : UnminedTxId := match g with GossipId i => i | GossipTx tx => tx.(utx_id) end.

(** The tasks in flight, and the handles of those that can be cancelled. *)
Record Downloads := mk_downloads {
  pending : list UnminedTxId;
  cancel_handles : gmap UnminedTxId Gossip }.
Definition no_downloads : Downloads := mk_downloads [] ∅.
Definition MAX_INBOUND_CONCURRENCY : nat := 25.

Definition download_if_needed_and_verify (gossiped_tx : Gossip) (d : Downloads) : (MempoolError + ()) * Downloads :=
  let txid := gossip_id gossiped_tx in
  if bool_decide (is_Some (d.(cancel_handles) !! txid)) then (inl AlreadyQueued, d)
  else if (MAX_INBOUND_CONCURRENCY <=? length d.(pending))%nat then (inl FullQueue, d)
  else (inr (), mk_downloads (d.(pending) ++ [txid]) (<[txid := gossiped_tx]> d.(cancel_handles))).

Definition cancel (mined_ids : gset bytes) (d : Downloads) : Downloads :=
  mk_downloads d.(pending) (filter (λ x, mined_id x.1 ∉ mined_ids) d.(cancel_handles)).

Fixpoint drop_task (txid : UnminedTxId) (l : list UnminedTxId) : list UnminedTxId :=
  match l with
  | [] => []
  | i :: l => if decide (i = txid) then l else i :: drop_task txid l
  end.

(** What the task of an id yields; a timeout does not say which task it was. *)
Inductive DownloadResult :=
| Verified (tx : VerifiedUnminedTx) (spent_mempool_outpoints : list OutPoint) (tip_height : option Z)
| Failed_ (e : TransactionDownloadVerifyError)
| Elapsed.

(** [poll_next], when the task of [txid] is done. *)
Definition poll_next (txid : UnminedTxId) (r : DownloadResult) (d : Downloads) : Downloads :=
  mk_downloads (drop_task txid d.(pending))
    (match r with
     | Verified tx _ _ => delete (id_of tx) d.(cancel_handles)
     | Failed_ _ => delete txid d.(cancel_handles)
     | Elapsed => d.(cancel_handles)
     end).

(** ** The service *)

Inductive ActiveState :=
| Disabled
| Enabled (storage : Storage) (tx_downloads : Downloads) (last_seen_tip_hash : bytes).
Definition is_enabled (a : ActiveState) : bool := match a with Disabled => false | Enabled _ _ _ => true end.

Record Config := {
  config_tx_cost_limit : Z;
  config_eviction_memory_time : Z;
  debug_enable_at_height : option Z }.

(** What is told to peers and to the listeners of the RPC server. *)
Record MempoolChanges := mk_changes {
  added : gset UnminedTxId;
  invalidated : gset UnminedTxId;
  mined : gset UnminedTxId }.
Definition no_changes : MempoolChanges := mk_changes ∅ ∅ ∅.

(** A height of the best tip from which on the mempool is always enabled. *)
Definition is_enabled_by_debug (c : Config) (best_tip_height : option Z) : bool :=
  match c.(debug_enable_at_height), best_tip_height with
  | Some enable_at_height, Some best_tip_height => enable_at_height <=? best_tip_height
  | _, _ => false
  end.
(** Whether the state changed, and the new state; [is_close_to_tip] is the
    synchronisation status. *)
Definition update_state (c : Config) (is_close_to_tip : bool) (best_tip_height : option Z) (tip_action : option TipAction) (a : ActiveState)
    : bool * ActiveState :=
  match is_close_to_tip || is_enabled_by_debug c best_tip_height, is_enabled a, tip_action with
  | false, false, _ | true, true, _ | true, false, None => (false, a)
  | true, false, Some tip => (true, Enabled (new_storage c.(config_eviction_memory_time) c.(config_tx_cost_limit)) no_downloads (best_tip_hash tip))
  | false, true, _ => (true, Disabled)
  end.

Section service.
Context {P : Profile} {Or : MempoolOrder} (iter_errors : list SameEffectsChainRejectionError) (now : Z).
Context (iter_ids : gset UnminedTxId → list UnminedTxId) (live : OutPoint → bool) (iter_handles : gmap UnminedTxId Gossip → list Gossip).

Definition transaction_retry_requests (a : ActiveState) : list Gossip :=
  match a with
  | Disabled => []
  | Enabled s d _ => map (λ x, GossipTx x.2.(transaction)) (iter_transactions (transactions s.(verified))) ++ iter_handles d.(cancel_handles)
  end.
Definition retry (d : Downloads) (l : list Gossip) : Downloads := foldl (λ d g, (download_if_needed_and_verify g d).2) d l.

(** The state of the loop over the tasks that are done. *)
Record Collected := mk_collected {
  c_storage : Storage;
  c_downloads : Downloads;
  send_to_peers_ids : gset UnminedTxId;
  invalidated_ids : gset UnminedTxId }.
Definition collect (best_tip_height : option Z) (x : Collected) (done : UnminedTxId * DownloadResult) : outcome Collected :=
  let d := poll_next done.1 done.2 x.(c_downloads) in
  match done.2 with
  | Verified tx spent_mempool_outpoints expected_tip_height =>
      if decide (best_tip_height = expected_tip_height) then
        r ← insert iter_errors now tx spent_mempool_outpoints best_tip_height x.(c_storage);
        Ret (match r.1 with
             | inr inserted_id => mk_collected r.2 d ({[inserted_id]} ∪ x.(send_to_peers_ids)) x.(invalidated_ids)
             | inl _ => mk_collected r.2 d x.(send_to_peers_ids) ({[id_of tx]} ∪ x.(invalidated_ids))
             end)
      else
        Ret (mk_collected x.(c_storage) (download_if_needed_and_verify (GossipTx tx.(transaction)) d).2 x.(send_to_peers_ids) x.(invalidated_ids))
  | Failed_ error =>
      s ← reject_if_needed iter_errors now done.1 error x.(c_storage);
      Ret (mk_collected s d x.(send_to_peers_ids) ({[done.1]} ∪ x.(invalidated_ids)))
  | Elapsed => Ret (mk_collected x.(c_storage) d x.(send_to_peers_ids) x.(invalidated_ids))
  end.

(** The best tip grew by a block. *)
Definition handle_grow (b : ChainTipBlock) (x : Collected) : outcome (Collected * gset UnminedTxId) :=
  let mined_ids := list_to_set b.(tip_transaction_hashes) in
  r ← reject_and_remove_same_effects iter_errors now iter_ids live mined_ids b.(tip_transactions) (storage_clear_mined mined_ids x.(c_storage));
  let '(removed_mined, removed_invalidated, s) := r in
  s ← clear_tip_rejections iter_errors now s;
  Ret (mk_collected s (cancel mined_ids x.(c_downloads)) x.(send_to_peers_ids) (x.(invalidated_ids) ∪ removed_invalidated), removed_mined).

(** What a poll does while the mempool is enabled. *)
Definition poll_enabled (tip_action : option TipAction) (best_tip_height : option Z) (done : list (UnminedTxId * DownloadResult))
    (s : Storage) (d : Downloads) (last_seen : bytes) : outcome (ActiveState * MempoolChanges) :=
  x ← for_each (collect best_tip_height) done (mk_collected s d ∅ ∅);
  y ← match tip_action with
      | Some (Grow b) => handle_grow b x
      | _ => Ret (x, ∅)
      end;
  let '(x, mined_mempool_ids) := y in
  let last_seen := match tip_action with Some (Grow b) => b.(tip_hash) | _ => last_seen end in
  z ← match best_tip_height with
      | Some h =>
          r ← remove_expired_transactions iter_errors now h x.(c_storage);
          Ret (mk_collected r.2 x.(c_downloads) (x.(send_to_peers_ids) ∖ r.1) (x.(invalidated_ids) ∪ r.1))
      | None => Ret x
      end;
  Ret (Enabled z.(c_storage) z.(c_downloads) last_seen, mk_changes z.(send_to_peers_ids) z.(invalidated_ids) mined_mempool_ids).

Definition poll_ready (c : Config) (is_close_to_tip : bool) (tip_action : option TipAction) (best_tip_height : option Z)
    (done : list (UnminedTxId * DownloadResult)) (a : ActiveState) : outcome (ActiveState * MempoolChanges) :=
  let '(is_state_changed, a) := update_state c is_close_to_tip best_tip_height tip_action a in
  match a with
  | Disabled => Ret (a, no_changes)
  | Enabled s d last_seen =>
      match is_state_changed, tip_action with
      | false, Some (Reset_ _ _) =>
          let tx_retries := transaction_retry_requests a in
          match (update_state c is_close_to_tip best_tip_height tip_action Disabled).2 with
          | Enabled s d last_seen => Ret (Enabled s (retry d tx_retries) last_seen, no_changes)
          | Disabled => Ret (Disabled, no_changes)
          end
      | _, _ => poll_enabled tip_action best_tip_height done s d last_seen
      end
  end.

(** ** Requests *)

(** The requests that change the state; the others read it. *)
Definition await_output (outpoint : OutPoint) (s : Storage) : Storage :=
  let p := queue_output outpoint s.(pending_outputs) in
  with_pending s (match created_outputs s.(verified) !! outpoint with Some output => respond outpoint output p | None => p end).
Definition queue_one (s : Storage) (x : Downloads * list (MempoolError + ())) (g : Gossip) : Downloads * list (MempoolError + ()) :=
  match should_download_or_verify iter_errors now (gossip_id g) s with
  | inl e => (x.1, x.2 ++ [inl e])
  | inr _ => let '(r, d) := download_if_needed_and_verify g x.1 in (d, x.2 ++ [r])
  end.

Inductive Request :=
| TransactionIds
| TransactionsById (ids : gset UnminedTxId)
| TransactionsByMinedId (ids : gset bytes)
| TransactionWithDepsByMinedId (tx_id : bytes)
| AwaitOutput (outpoint : OutPoint)
| FullTransactions
| RejectedTransactionIds (ids : gset UnminedTxId)
| Queue (gossiped_txs : list Gossip)
| CheckForVerifiedTransactions.
Inductive Response :=
| RTransactionIds (ids : gset UnminedTxId)
| RTransactions (txs : list UnminedTx)
| RTransactionWithDeps (tx : VerifiedUnminedTx) (deps : gset bytes)
| ROutputPending
| RFullTransactions (txs : list VerifiedUnminedTx) (deps : TransactionDependencies) (last_seen_tip_hash : bytes)
| RRejectedTransactionIds (ids : gset UnminedTxId)
| RQueued (results : list (MempoolError + ()))
| RChecked
| RError.

Definition call (req : Request) (a : ActiveState) : Response * ActiveState :=
  match a with
  | Enabled s d last_seen =>
      let txs := transactions s.(verified) in
      match req with
      | TransactionIds => (RTransactionIds (list_to_set (map (λ x, id_of x.2) (iter_transactions txs))), a)
      | TransactionsById ids => (RTransactions (omap (λ i, transaction <$> txs !! mined_id i) (iter_ids ids)), a)
      | TransactionsByMinedId ids =>
          (RTransactions (map (λ x, x.2.(transaction)) (List.filter (λ x, bool_decide (x.1 ∈ ids)) (iter_transactions txs))), a)
      | TransactionWithDepsByMinedId tx_id =>
          (match transaction_with_deps tx_id s with Some (tx, deps) => RTransactionWithDeps tx deps | None => RError end, a)
      | AwaitOutput outpoint => (ROutputPending, Enabled (await_output outpoint s) d last_seen)
      | FullTransactions => (RFullTransactions (map snd (iter_transactions txs)) (transaction_dependencies s.(verified)) last_seen, a)
      | RejectedTransactionIds ids =>
          (RRejectedTransactionIds (filter (λ i, is_Some (rejection_error iter_errors now i s)) ids), a)
      | Queue gossiped_txs =>
          let '(d, results) := foldl (queue_one s) (d, []) gossiped_txs in (RQueued results, Enabled s d last_seen)
      | CheckForVerifiedTransactions => (RChecked, a)
      end
  | Disabled =>
      (match req with
       | TransactionIds => RTransactionIds ∅
       | TransactionsById _ | TransactionsByMinedId _ => RTransactions []
       | TransactionWithDepsByMinedId _ | AwaitOutput _ | FullTransactions => RError
       | RejectedTransactionIds _ => RRejectedTransactionIds ∅
       | Queue gossiped_txs => RQueued (map (λ _, inl NotEnabled) gossiped_txs)
       | CheckForVerifiedTransactions => RChecked
       end, a)
  end.
End service.
