(* ===== verification/MempoolInv.v ===== *)
(** * MempoolInv: what the mempool keeps, and what aborts it

    - the caches of the verified set are those of its transactions, no two of which
      spend the same output or reveal the same nullifier, and their cost stays within
      the limit;
    - the loops that collect dependents and that evict transactions end;
    - what goes wrong: a transaction that leaves the set stays a dependent of those it
      depends on, so that their removal aborts the node, and that of two dependent
      transactions which expire together always does; the dependencies of mined
      transactions are not cleared. *)

From stdpp Require Import base list gmap sets countable relations.
From S2P Require Import Prelude Wire Encoding Bft Roster Amount Staking Transparent Network Subsidy Transaction ChainTip Unmined Mempool MempoolService.

(** ** Caches *)

(** A cache has what the transactions have, and no two of them have the same. *)
Definition cache_ok `{Countable A} (f : VerifiedUnminedTx → list A) (m : gmap bytes VerifiedUnminedTx) (X : gset A) : Prop :=
  (∀ x, x ∈ X ↔ ∃ k v, m !! k = Some v ∧ x ∈ f v) ∧
  (∀ k k' v v' x, m !! k = Some v → m !! k' = Some v' → x ∈ f v → x ∈ f v' → k = k').

Lemma no_conflict `{Countable A} (X : gset A) (l : list A) : has_conflicts X l = false → ∀ x, x ∈ l → x ∉ X.
Proof.
  intros Hc x Hx HX. unfold has_conflicts in Hc. apply Bool.not_true_iff_false in Hc. apply Hc, existsb_exists.
  exists x. split; [by apply list_elem_of_In|by apply bool_decide_eq_true].
Qed.

Lemma cache_insert `{Countable A} (f : VerifiedUnminedTx → list A) m X k v :
  m !! k = None → has_conflicts X (f v) = false → cache_ok f m X → cache_ok f (<[k := v]> m) (list_to_set (f v) ∪ X).
Proof.
  intros Hk Hc [Hx Hu]. pose proof (no_conflict _ _ Hc) as Hn. split.
  - intros x. rewrite elem_of_union, elem_of_list_to_set, Hx. split.
    + intros [Hv|(k' & v' & Hk' & Hv')]; [exists k, v; by rewrite lookup_insert_eq|].
      exists k', v'. rewrite lookup_insert_ne; [done|]. intros <-. congruence.
    + intros (k' & v' & Hk' & Hv'). apply lookup_insert_Some in Hk' as [[<- <-]|[_ Hk']]; [by left|right; by exists k', v'].
  - intros k1 k2 v1 v2 x H1 H2 Hx1 Hx2. apply lookup_insert_Some in H1 as [[<- <-]|[Hne1 H1]], H2 as [[<- <-]|[Hne2 H2]]; [done| | |].
    + exfalso. apply (Hn x Hx1). apply Hx. by exists k2, v2.
    + exfalso. apply (Hn x Hx2). apply Hx. by exists k1, v1.
    + by eapply Hu.
Qed.

Lemma cache_delete `{Countable A} (f : VerifiedUnminedTx → list A) m X k v :
  m !! k = Some v → cache_ok f m X → cache_ok f (delete k m) (X ∖ list_to_set (f v)).
Proof.
  intros Hk [Hx Hu]. split.
  - intros x. rewrite elem_of_difference, elem_of_list_to_set, Hx. split.
    + intros [(k' & v' & Hk' & Hv') Hn]. exists k', v'. rewrite lookup_delete_ne; [done|]. intros <-. congruence.
    + intros (k' & v' & [Hne Hk']%lookup_delete_Some & Hv'). split; [by exists k', v'|]. intros Hv. by destruct Hne; eapply Hu.
  - intros k1 k2 v1 v2 x [_ H1]%lookup_delete_Some [_ H2]%lookup_delete_Some. by apply Hu.
Qed.

(** ** Outputs *)

Definition outputs_ok (m : gmap bytes VerifiedUnminedTx) (created : gmap OutPoint Output) : Prop :=
  ∀ o out, created !! o = Some out ↔ ∃ v i, m !! o.1 = Some v ∧ o.2 = Z.of_nat i ∧ outputs (tx_of v) !! i = Some out.

Lemma insert_outputs_spec tx_id l : ∀ i m p m' p', insert_outputs tx_id i l m p = Ret (m', p') →
  ∀ o out, m' !! o = Some out ↔ (∃ j, o = (tx_id, Z.of_nat (i + j)) ∧ l !! j = Some out) ∨
    ((∀ j, (j < length l)%nat → o ≠ (tx_id, Z.of_nat (i + j))) ∧ m !! o = Some out).
Proof.
  induction l as [|x l IH]; intros i m p m' p'; cbn [insert_outputs].
  - intros [= <- <-] o out. split; [intros Ho; right; split; [cbn; lia|done]|].
    intros [(j & _ & Hj)|[_ Ho]]; [by rewrite lookup_nil in Hj|done].
  - intros (_ & _ & E)%bind_Ret_inv o out. rewrite (IH _ _ _ _ _ E). split.
    + intros [(j & -> & Hj)|[Hn Ho]]; [left; exists (S j); by rewrite Nat.add_succ_comm|].
      apply lookup_insert_Some in Ho as [[<- <-]|[Hne Ho]]; [left; exists 0%nat; by rewrite Nat.add_0_r|].
      right. split; [|done]. intros [|j] Hj; [by rewrite Nat.add_0_r|]. rewrite <- Nat.add_succ_comm. apply Hn. cbn in Hj. lia.
    + intros [([|j] & -> & Hj)|[Hn Ho]].
      * right. rewrite Nat.add_0_r. split; [intros j' _ [= E']; lia|]. cbn in Hj. injection Hj as ->. apply lookup_insert_eq.
      * left. exists j. by rewrite Nat.add_succ_comm.
      * right. split; [intros j Hj; rewrite Nat.add_succ_comm; apply Hn; cbn; lia|].
        rewrite lookup_insert_ne; [done|]. pose proof (Hn 0%nat ltac:(cbn; lia)) as Hn0. by rewrite Nat.add_0_r in Hn0.
Qed.

Lemma delete_outputs_spec tx_id l : ∀ i m, (Z.of_nat (i + length l) ≤ 2 ^ 32) →
  ∃ m', delete_outputs tx_id i l m = Ret m' ∧
    ∀ o out, m' !! o = Some out ↔ (∀ j, (j < length l)%nat → o ≠ (tx_id, Z.of_nat (i + j))) ∧ m !! o = Some out.
Proof.
  induction l as [|x l IH]; intros i m Hi; cbn [delete_outputs].
  - exists m. split; [done|]. intros o out. split; [intros Ho; split; [cbn; lia|done]|by intros [_ ?]].
  - cbn in Hi. rewrite (proj2 (in_range_spec 32 (Z.of_nat i))) by (unfold is_u; lia). cbn [assert_ mbind outcome_bind].
    destruct (IH (S i) (delete (tx_id, Z.of_nat i) m)) as (m' & -> & Hm'); [lia|]. exists m'. split; [done|].
    intros o out. rewrite Hm', lookup_delete_Some. split.
    + intros [Hn [Hne Ho]]. split; [|done]. intros [|j] Hj; [rewrite Nat.add_0_r; by apply not_eq_sym|].
      rewrite <- Nat.add_succ_comm. apply Hn. cbn in Hj. lia.
    + intros [Hn Ho]. split; [intros j Hj; rewrite Nat.add_succ_comm; apply Hn; cbn; lia|]. split; [|done].
      pose proof (Hn 0%nat ltac:(cbn; lia)) as Hn0. rewrite Nat.add_0_r in Hn0. by apply not_eq_sym.
Qed.

(** ** Dependents *)

Definition direct_dependents (d : TransactionDependencies) (k : bytes) : gset bytes := default ∅ (d.(dependents) !! k).
(** A transaction spends an output of another one. *)
Definition depends_on (d : TransactionDependencies) (k x : bytes) : Prop := x ∈ direct_dependents d k.

Section levels.
Context {Or : MempoolOrder} {Ol : MempoolOrderLaws Or}.

Lemma elem_of_iter_hashes X x : x ∈ iter_hashes X ↔ x ∈ X.
Proof. by rewrite iter_hashes_perm, elem_of_elements. Qed.

Lemma take_level_spec l : ∀ next d next' d', take_level l next d = (next', d') →
  (∀ x, x ∈ next' ↔ x ∈ next ∨ ∃ k, k ∈ l ∧ depends_on d k x) ∧
  (∀ k, dependents d' !! k = if decide (k ∈ l) then None else dependents d !! k) ∧
  (∀ k, dependencies d' !! k = if decide (k ∈ l) then None else dependencies d !! k).
Proof.
  induction l as [|k l IH]; intros next d next' d'; cbn [take_level].
  - intros [= <- <-]. split_and!; [|done|done]. intros x. split; [by left|]. intros [?|(k & Hk & _)]; [done|by apply elem_of_nil in Hk].
  - intros (Hx & Hd & Hd')%IH. split_and!.
    + intros x. rewrite Hx, elem_of_union. unfold depends_on, direct_dependents. cbn [dependents]. split.
      * intros [[?|?]|(k' & Hk' & Hk'x)]; [by left|right; exists k; by split; [left|]|]. right. exists k'. split; [by right|].
        destruct (decide (k' = k)) as [->|Hne]; [by rewrite lookup_delete_eq in Hk'x|by rewrite lookup_delete_ne in Hk'x by done].
      * intros [?|(k' & [->|Hk']%elem_of_cons & Hk'x)]; [by left; left|by left; right|].
        destruct (decide (k' = k)) as [->|Hne]; [by left; right|]. right. exists k'. by rewrite lookup_delete_ne.
    + intros k'. rewrite Hd. cbn [dependents]. destruct (decide (k' = k)) as [->|Hne].
      * rewrite lookup_delete_eq, (decide_True (P:=k ∈ k :: l)) by left. by destruct (decide _).
      * rewrite lookup_delete_ne by done. by rewrite (decide_ext (k' ∈ k :: l) (k' ∈ l)) by set_solver.
    + intros k'. rewrite Hd'. cbn [dependencies]. destruct (decide (k' = k)) as [->|Hne].
      * rewrite lookup_delete_eq, (decide_True (P:=k ∈ k :: l)) by left. by destruct (decide _).
      * rewrite lookup_delete_ne by done. by rewrite (decide_ext (k' ∈ k :: l) (k' ∈ l)) by set_solver.
Qed.

Lemma take_level_size l next d d' : take_level l ∅ d = (next, d') → next ≠ ∅ → (size (dependents d') < size (dependents d))%nat.
Proof.
  intros (Hx & Hd & _)%take_level_spec [x Hn]%set_choose_L. apply Hx in Hn as [?%elem_of_empty|(k & Hk & Hkx)]; [done|].
  apply map_subset_size, map_subset_alt. split.
  - apply map_subseteq_spec. intros k' X. rewrite Hd. by destruct (decide _).
  - exists k. rewrite Hd, decide_True by done. unfold depends_on, direct_dependents in Hkx.
    destruct (dependents d !! k); [by split|by apply elem_of_empty in Hkx].
Qed.

(** What the loop keeps: [V] are the transactions it has visited. *)
Record levels_inv (d0 : TransactionDependencies) (h : bytes) (level all V : gset bytes) (d : TransactionDependencies) : Prop := {
  li_deps k : dependents d !! k = if decide (k ∈ V) then None else dependents d0 !! k;
  li_dependencies k : dependencies d !! k = if decide (k ∈ V) then None else dependencies d0 !! k;
  li_reach x : x ∈ all → tc (depends_on d0) h x;
  li_closed k x : k ∈ V → depends_on d0 k x → x ∈ all;
  li_visited k : k ∈ V ∪ level ↔ k = h ∨ k ∈ all }.

Lemma levels_inv_step d0 h level all V d next d' : levels_inv d0 h level all V d →
  take_level (iter_hashes level) ∅ d = (next, d') → levels_inv d0 h next (all ∪ next) (V ∪ level) d'.
Proof.
  intros [Hd Hd1 Hr Hc Hv] (Hx & Hd' & Hd1')%take_level_spec.
  assert (Hdep : ∀ k x, k ∉ V → depends_on d k x ↔ depends_on d0 k x).
  { intros k x Hk. unfold depends_on, direct_dependents. by rewrite Hd, decide_False. }
  assert (Hnone : ∀ k x, k ∈ V → ¬ depends_on d k x).
  { intros k x Hk. unfold depends_on, direct_dependents. rewrite Hd, decide_True by done. apply not_elem_of_empty. }
  split.
  - intros k. rewrite Hd', Hd. destruct (decide (k ∈ iter_hashes level)) as [Hk|Hk]; rewrite elem_of_iter_hashes in Hk.
    + by rewrite decide_True by set_solver.
    + by rewrite (decide_ext (k ∈ V ∪ level) (k ∈ V)) by set_solver.
  - intros k. rewrite Hd1', Hd1. destruct (decide (k ∈ iter_hashes level)) as [Hk|Hk]; rewrite elem_of_iter_hashes in Hk.
    + by rewrite decide_True by set_solver.
    + by rewrite (decide_ext (k ∈ V ∪ level) (k ∈ V)) by set_solver.
  - intros x [?|Hn]%elem_of_union; [by apply Hr|]. apply Hx in Hn as [?%elem_of_empty|(k & Hk & Hkx)]; [done|].
    rewrite elem_of_iter_hashes in Hk. destruct (decide (k ∈ V)) as [HV|HV]; [by destruct (Hnone k x)|]. apply Hdep in Hkx; [|done].
    destruct (proj1 (Hv k)) as [->|Hall]; [set_solver|by apply tc_once|by eapply tc_r; [apply Hr|]].
  - intros k x Hk Hkx. apply elem_of_union. destruct (decide (k ∈ V)) as [HV|HV]; [left; by eapply Hc|].
    right. apply Hx. right. exists k. rewrite elem_of_iter_hashes. split; [set_solver|by apply Hdep].
  - intros k. rewrite (elem_of_union _ next), (elem_of_union all), Hv. tauto.
Qed.

(** The loop ends, and takes the transactions that depend on the first one, directly or
    not, with their entries. *)
Lemma take_levels_spec d0 h fuel : ∀ level all V d, levels_inv d0 h level all V d →
  level = ∅ ∨ (size (dependents d) < fuel)%nat →
  ∃ all' V' d', take_levels fuel level all d = Ret (all', d') ∧ levels_inv d0 h ∅ all' V' d'.
Proof.
  induction fuel as [|fuel IH]; intros level all V d Hi Hf; cbn [take_levels];
    destruct (decide (level = ∅)) as [->|Hne]; [by exists all, V, d|destruct Hf; [done|lia]|by exists all, V, d|].
  destruct (take_level _ _ _) as [next d'] eqn:E. eapply IH; [by eapply levels_inv_step|].
  destruct (decide (next = ∅)) as [->|Hn]; [by left|right]. pose proof (take_level_size _ _ _ _ E Hn). destruct Hf; [done|lia].
Qed.

Lemma remove_all_spec h d : ∃ X d', remove_all h d = Ret (X, d') ∧ (∀ x, x ∈ X ↔ tc (depends_on d) h x) ∧
  (∀ k, dependents d' !! k = if decide (k = h ∨ k ∈ X) then None else dependents d !! k) ∧
  (∀ k, dependencies d' !! k = if decide (k = h ∨ k ∈ X) then None else dependencies d !! k).
Proof.
  destruct (take_levels_spec d h (S (size (dependents d))) {[h]} ∅ ∅ d) as (X & V & d' & E & [Hd Hd1 Hr Hc Hv]).
  { split; [intros k; by rewrite decide_False by set_solver..|set_solver|set_solver|set_solver]. }
  { right. lia. }
  assert (HV : ∀ k, k ∈ V ↔ k = h ∨ k ∈ X) by (intros k; rewrite <- Hv; set_solver).
  exists X, d'. split_and!; [done| |intros k; rewrite Hd; by apply decide_ext
    |intros k; rewrite Hd1; by apply decide_ext].
  intros x. split; [apply Hr|]. intros Ht. assert (Hh : h ∈ V) by (apply HV; by left).
  assert (HX : ∀ k, k ∈ X → k ∈ V) by (intros k Hk; apply HV; by right).
  clear -Ht Hc HX Hh. induction Ht as [a x Hax|a b x Hab Hbx IH]; [by apply (Hc a)|]. apply IH, HX. by apply (Hc a).
Qed.
End levels.

(** ** The verified set *)

Definition set_sum (f : VerifiedUnminedTx → Z) (m : gmap bytes VerifiedUnminedTx) : Z := zsum (map (λ x, f x.2) (map_to_list m)).
Lemma set_sum_insert f m k v : m !! k = None → set_sum f (<[k := v]> m) = f v + set_sum f m.
Proof. intros Hk. unfold set_sum. by rewrite (zsum_perm _ _ (fmap_Permutation _ _ _ (map_to_list_insert m k v Hk))). Qed.
Lemma set_sum_delete f m k v : m !! k = Some v → set_sum f (delete k m) = set_sum f m - f v.
Proof.
  intros Hk. rewrite <- (insert_delete_id m k v Hk) at 2. rewrite set_sum_insert by apply lookup_delete_eq. lia.
Qed.
Lemma set_sum_le f g m : (∀ k v, m !! k = Some v → f v ≤ g v) → set_sum f m ≤ set_sum g m.
Proof. intros Hle. apply zsum_map_le. intros [k v] Hx%elem_of_map_to_list. by eapply Hle. Qed.
Lemma set_sum_nonneg f m : (∀ k v, m !! k = Some v → 0 ≤ f v) → 0 ≤ set_sum f m.
Proof. intros Hle. apply zsum_map_nonneg. intros [k v] Hx%elem_of_map_to_list. by eapply Hle. Qed.

(** A transaction that was read from the network. *)
Definition tx_fits (v : VerifiedUnminedTx) : Prop :=
  0 ≤ v.(transaction).(utx_size) ≤ MAX_BLOCK_BYTES ∧ Z.of_nat (length (outputs (tx_of v))) ≤ 2 ^ 32.

Record set_ok (s : VerifiedSet) : Prop := {
  so_key k v : s.(transactions) !! k = Some v → mined_id (id_of v) = k ∧ tx_fits v;
  so_outputs : outputs_ok s.(transactions) s.(created_outputs);
  so_spent : cache_ok (λ v, spent_outpoints (tx_of v)) s.(transactions) s.(set_spent_outpoints);
  so_sprout : cache_ok (λ v, sprout_nullifiers (tx_of v)) s.(transactions) s.(set_sprout_nullifiers);
  so_sapling : cache_ok (λ v, sapling_nullifiers (tx_of v)) s.(transactions) s.(set_sapling_nullifiers);
  so_orchard : cache_ok (λ v, orchard_nullifiers (tx_of v)) s.(transactions) s.(set_orchard_nullifiers);
  so_size : s.(transactions_serialized_size) = set_sum (λ v, v.(transaction).(utx_size)) s.(transactions);
  so_cost : s.(total_cost) = set_sum cost s.(transactions);
  so_bound : s.(total_cost) < 2 ^ 64 }.

Lemma cost_le v : tx_fits v → 0 ≤ v.(transaction).(utx_size) ≤ cost v ∧ cost v ≤ MAX_BLOCK_BYTES.
Proof. intros [? _]. unfold cost, MEMPOOL_TRANSACTION_COST_THRESHOLD, MAX_BLOCK_BYTES in *. lia. Qed.

Lemma set_ok_size_le s : set_ok s → 0 ≤ s.(transactions_serialized_size) ≤ s.(total_cost).
Proof.
  intros Hs. rewrite (so_size _ Hs), (so_cost _ Hs). split.
  - apply set_sum_nonneg. intros k v [_ Hf%cost_le]%(so_key _ Hs). lia.
  - apply set_sum_le. intros k v [_ Hf%cost_le]%(so_key _ Hs). lia.
Qed.

Lemma empty_set_ok : set_ok empty_set.
Proof.
  assert (Hc : ∀ `{Countable A} (f : VerifiedUnminedTx → list A), cache_ok f ∅ ∅).
  { intros A ?? f. split; [|intros ????? Hk; by rewrite lookup_empty in Hk]. intros x. split; [by intros ?%elem_of_empty|].
    intros (? & ? & Hk & _). by rewrite lookup_empty in Hk. }
  split; try apply Hc; try done. intros o out. cbn. rewrite lookup_empty. split; [done|]. intros (? & ? & Hk & _). by rewrite lookup_empty in Hk.
Qed.

Lemma with_deps_ok s d : set_ok s → set_ok (with_deps s d).
Proof. by intros []. Qed.

Lemma outputs_insert m created created' p p' k v : m !! k = None → outputs_ok m created →
  insert_outputs k 0 (outputs (tx_of v)) created p = Ret (created', p') → outputs_ok (<[k := v]> m) created'.
Proof.
  intros Hk Ho E [h i] out. rewrite (insert_outputs_spec _ _ _ _ _ _ _ E). cbn [fst snd]. split.
  - intros [(j & [= -> ->] & Hj)|[_ (v' & j & Hv & ? & ?)%Ho]]; [exists v, j; by rewrite lookup_insert_eq|].
    cbn in Hv. exists v', j. rewrite lookup_insert_ne; [done|]. intros ->. congruence.
  - intros (v' & j & [[<- <-]|[Hne Hv]]%lookup_insert_Some & -> & Hj); [left; by exists j|right].
    split; [by intros j' _ [= -> _]|]. apply Ho. by exists v', j.
Qed.

Lemma outputs_delete m created k v : m !! k = Some v → tx_fits v → outputs_ok m created →
  ∃ created', delete_outputs k 0 (outputs (tx_of v)) created = Ret created' ∧ outputs_ok (delete k m) created'.
Proof.
  intros Hk [_ Hl] Ho. destruct (delete_outputs_spec k (outputs (tx_of v)) 0 created) as (c' & E & Hc'); [cbn; lia|].
  exists c'. split; [done|]. intros [h i] out. rewrite Hc', (Ho (h, i)). cbn [fst snd]. split.
  - intros [Hn (v' & j & Hv & -> & Hj)]. exists v', j. rewrite lookup_delete_ne; [done|]. intros <-.
    assert (v' = v) as -> by congruence. apply lookup_lt_Some in Hj as Hlt. by apply (Hn j).
  - intros (v' & j & [Hne Hv]%lookup_delete_Some & -> & Hj). split; [|by exists v', j]. by intros j' _ [= <- _].
Qed.

Section set_ops.
Context {P : Profile} {Or : MempoolOrder} {Ol : MempoolOrderLaws Or}.

Lemma insert_verified_ok v spent height p s r s' p' : set_ok s → tx_fits v → s.(transactions) !! mined_id (id_of v) = None →
  s.(total_cost) < 2 ^ 63 → insert_verified v spent height p s = Ret (r, s', p') →
  set_ok s' ∧ match r with
              | inl _ => s' = s ∧ p' = p
              | inr _ => s'.(transactions) = <[mined_id (id_of v) := mk_verified v.(transaction) v.(miner_fee) v.(sigops) v.(unpaid_actions) height]> s.(transactions)
              end.
Proof.
  intros Hs Hf Hk Hb. unfold insert_verified. set (tx_id := mined_id (id_of v)) in *.
  destruct (has_spend_conflicts _ _) eqn:Hc; [by intros [= <- <- <-]|].
  destruct (existsb _ _); [by intros [= <- <- <-]|].
  intros ([created p1] & Ec & E)%bind_Ret_inv. pose proof (cost_le _ Hf). pose proof (set_ok_size_le _ Hs).
  unfold MAX_BLOCK_BYTES in *.
  rewrite arith_ok in E by (unfold is_u; lia). cbn [mbind outcome_bind] in E.
  rewrite arith_ok in E by (unfold is_u; lia). cbn [mbind outcome_bind] in E. injection E as <- <- <-.
  unfold has_spend_conflicts in Hc. rewrite !orb_false_iff in Hc. destruct Hc as [[[Hc1 Hc2] Hc3] Hc4].
  split; [|done]. set (v' := mk_verified _ _ _ _ height). change (tx_of v) with (tx_of v') in *.
  split; cbn [transactions created_outputs set_spent_outpoints set_sprout_nullifiers set_sapling_nullifiers set_orchard_nullifiers
              transactions_serialized_size total_cost].
  - intros k w [[<- <-]|[_ Hw]]%lookup_insert_Some; [done|by apply (so_key _ Hs)].
  - eapply outputs_insert; [done|apply (so_outputs _ Hs)|exact Ec].
  - apply (cache_insert (λ v, spent_outpoints (tx_of v)) _ _ _ v' Hk); [done|apply (so_spent _ Hs)].
  - apply (cache_insert (λ v, sprout_nullifiers (tx_of v)) _ _ _ v' Hk); [done|apply (so_sprout _ Hs)].
  - apply (cache_insert (λ v, sapling_nullifiers (tx_of v)) _ _ _ v' Hk); [done|apply (so_sapling _ Hs)].
  - apply (cache_insert (λ v, orchard_nullifiers (tx_of v)) _ _ _ v' Hk); [done|apply (so_orchard _ Hs)].
  - rewrite set_sum_insert, (so_size _ Hs) by done. cbn. lia.
  - rewrite set_sum_insert, (so_cost _ Hs) by done. unfold cost. cbn. lia.
  - lia.
Qed.

Lemma remove_one_ok s acc k v : set_ok s → s.(transactions) !! k = Some v →
  ∃ s', remove_one (s, acc) k = Ret (s', acc ++ [v]) ∧ set_ok s' ∧ s'.(transactions) = delete k s.(transactions) ∧
    s'.(transaction_dependencies) = s.(transaction_dependencies).
Proof.
  intros Hs Hk. destruct (so_key _ Hs _ _ Hk) as [Hid Hf]. pose proof (cost_le _ Hf). pose proof (set_ok_size_le _ Hs).
  destruct (outputs_delete _ _ _ _ Hk Hf (so_outputs _ Hs)) as (created & Ec & Ho).
  pose proof (set_sum_delete cost _ _ _ Hk) as Hc. pose proof (set_sum_delete (λ v, utx_size (transaction v)) _ _ _ Hk) as Hz. cbn beta in Hz.
  assert (Hn : 0 ≤ set_sum (λ v, utx_size (transaction v)) (delete k s.(transactions)) ≤ set_sum cost (delete k s.(transactions))).
  { split; [apply set_sum_nonneg|apply set_sum_le]; intros k' v' [_ [_ Hf'%cost_le]%(so_key _ Hs)]%lookup_delete_Some; lia. }
  rewrite <- (so_cost _ Hs) in Hc. rewrite <- (so_size _ Hs) in Hz. pose proof (so_bound _ Hs).
  eexists. split; [unfold remove_one; rewrite Hk; cbn [unwrap mbind outcome_bind];
    rewrite arith_ok by (unfold is_u; lia); cbn [mbind outcome_bind]; rewrite arith_ok by (unfold is_u; lia); cbn [mbind outcome_bind];
    rewrite Hid, Ec; cbn [mbind outcome_bind]; reflexivity|].
  split; [|done]. split; cbn [transactions created_outputs set_spent_outpoints set_sprout_nullifiers set_sapling_nullifiers set_orchard_nullifiers
              transactions_serialized_size total_cost]; [|done| | | | | | |].
  - intros k' w [_ Hw]%lookup_delete_Some. by apply (so_key _ Hs).
  - apply (cache_delete (λ v, spent_outpoints (tx_of v)) _ _ _ v Hk), (so_spent _ Hs).
  - apply (cache_delete (λ v, sprout_nullifiers (tx_of v)) _ _ _ v Hk), (so_sprout _ Hs).
  - apply (cache_delete (λ v, sapling_nullifiers (tx_of v)) _ _ _ v Hk), (so_sapling _ Hs).
  - apply (cache_delete (λ v, orchard_nullifiers (tx_of v)) _ _ _ v Hk), (so_orchard _ Hs).
  - lia.
  - lia.
  - lia.
Qed.

Lemma remove_one_missing s acc k : s.(transactions) !! k = None → remove_one (s, acc) k = Panic.
Proof. intros Hk. unfold remove_one. by rewrite Hk. Qed.

(** What is left of the transactions when [l] are removed. *)
Definition removed_from (l : list bytes) (s s' : VerifiedSet) : Prop :=
  ∀ k, s'.(transactions) !! k = if decide (k ∈ l) then None else s.(transactions) !! k.

Lemma remove_keys_ok l : ∀ s acc, set_ok s → NoDup l → (∀ k, k ∈ l → is_Some (s.(transactions) !! k)) →
  ∃ s' vs, for_each remove_one l (s, acc) = Ret (s', acc ++ vs) ∧ set_ok s' ∧ removed_from l s s' ∧
    s'.(transaction_dependencies) = s.(transaction_dependencies) ∧ Forall2 (λ k v, s.(transactions) !! k = Some v) l vs.
Proof.
  induction l as [|k l IH]; intros s acc Hs Hl Hin; cbn [for_each].
  { exists s, []. rewrite app_nil_r. split_and!; [done..|by constructor]. }
  apply NoDup_cons in Hl as [Hk Hl]. destruct (Hin k) as [v Hv]; [by left|].
  destruct (remove_one_ok s acc k v Hs Hv) as (s1 & -> & Hs1 & Ht & Hd). cbn [mbind outcome_bind].
  assert (Hne : ∀ k', k' ∈ l → s1.(transactions) !! k' = s.(transactions) !! k').
  { intros k' Hk'. rewrite Ht, lookup_delete_ne; [done|]. by intros <-. }
  destruct (IH s1 (acc ++ [v]) Hs1 Hl) as (s' & vs & -> & Hs' & Hr & Hd' & Hvs).
  { intros k' Hk'. rewrite Hne by done. apply Hin. by right. }
  exists s', (v :: vs). rewrite <- app_assoc. split_and!; [done|done| |congruence|].
  - intros k'. rewrite Hr, Ht. destruct (decide (k' = k)) as [->|Hnk].
    + rewrite lookup_delete_eq, (decide_True (P:=k ∈ k :: l)) by left. by destruct (decide _).
    + rewrite lookup_delete_ne by done. by rewrite (decide_ext (k' ∈ k :: l) (k' ∈ l)) by set_solver.
  - constructor; [done|]. apply Forall2_same_length_lookup_2; [by apply Forall2_length in Hvs|].
    intros i k' v' Hi Hi'. rewrite <- Hne by (by apply list_elem_of_lookup_2 in Hi).
    by apply (Forall2_lookup_lr _ _ _ _ _ _ Hvs Hi Hi').
Qed.

Lemma remove_keys_inv l : ∀ s acc s' vs, set_ok s → for_each remove_one l (s, acc) = Ret (s', vs) →
  NoDup l ∧ ∀ k, k ∈ l → is_Some (s.(transactions) !! k).
Proof.
  induction l as [|k l IH]; intros s acc s' vs Hs; cbn [for_each]; [intros _; split; [constructor|by intros k ?%elem_of_nil]|].
  intros ([s1 acc1] & E1 & E)%bind_Ret_inv. destruct (s.(transactions) !! k) as [v|] eqn:Hv; [|by rewrite remove_one_missing in E1].
  destruct (remove_one_ok s acc k v Hs Hv) as (s1' & E1' & Hs1 & Ht & _). rewrite E1 in E1'. injection E1' as <- _.
  destruct (IH _ _ _ _ Hs1 E) as [Hl Hin]. rewrite Ht in Hin. split.
  - constructor; [|done]. intros Hk. destruct (Hin _ Hk) as [? Hd]. by rewrite lookup_delete_eq in Hd.
  - intros k' [->|Hk']%elem_of_cons; [done|]. destruct (Hin _ Hk') as [v' [_ Hd]%lookup_delete_Some]. by exists v'.
Qed.

(** The transactions that [remove] takes. *)
Definition family (s : VerifiedSet) (k x : bytes) : Prop := x = k ∨ tc (depends_on s.(transaction_dependencies)) k x.

Lemma remove_inv k s s' vs : set_ok s → remove k s = Ret (s', vs) →
  set_ok s' ∧ (∀ x, family s k x → is_Some (s.(transactions) !! x) ∧ s'.(transactions) !! x = None) ∧
  (∀ x, s'.(transactions) !! x = None → s.(transactions) !! x = None ∨ family s k x) ∧
  (∀ x v, s'.(transactions) !! x = Some v → s.(transactions) !! x = Some v) ∧
  (∀ x, is_Some (s'.(transactions) !! x) → dependents s'.(transaction_dependencies) !! x = dependents s.(transaction_dependencies) !! x) ∧
  ∃ v vs', vs = vs' ++ [v] ∧ s.(transactions) !! k = Some v.
Proof.
  intros Hs. unfold remove. destruct (remove_all_spec k s.(transaction_dependencies)) as (X & d & -> & HX & Hd & _).
  cbn [mbind outcome_bind]. intros E. set (s0 := with_deps s d) in *. pose proof (with_deps_ok s d Hs : set_ok s0) as Hs0.
  destruct (remove_keys_inv _ _ _ _ _ Hs0 E) as [Hl Hin].
  destruct (remove_keys_ok _ s0 [] Hs0 Hl Hin) as (s1 & vs1 & E1 & Hs1 & Hr & Hd1 & Hvs). rewrite E in E1. injection E1 as <- ->.
  assert (Hfam : ∀ x, x ∈ iter_hashes X ++ [k] ↔ family s k x).
  { intros x. rewrite elem_of_app, elem_of_iter_hashes, HX, list_elem_of_singleton. unfold family. tauto. }
  split_and!; [done| | | | |].
  - intros x Hx. apply Hfam in Hx. split; [by apply (Hin x)|]. rewrite Hr. by rewrite decide_True.
  - intros x. rewrite Hr. destruct (decide _) as [?|?]; [right; by apply Hfam|by left].
  - intros x v. rewrite Hr. by destruct (decide _).
  - intros x [v Hv]. rewrite Hr in Hv. destruct (decide _) as [|Hn]; [done|]. rewrite Hfam in Hn. rewrite Hd1. cbn [s0 with_deps transaction_dependencies].
    rewrite Hd, decide_False; [done|]. rewrite HX. exact Hn.
  - apply Forall2_app_inv_l in Hvs as (vs0 & vs2 & _ & H2 & ->). apply Forall2_cons_inv_l in H2 as (v & ? & Hv & ->%Forall2_nil_inv_l & ->).
    by exists v, vs0.
Qed.

Lemma remove_ok k s v : set_ok s → s.(transactions) !! k = Some v →
  (∀ x, tc (depends_on s.(transaction_dependencies)) k x → x ≠ k ∧ is_Some (s.(transactions) !! x)) →
  ∃ s' vs, remove k s = Ret (s', vs ++ [v]).
Proof.
  intros Hs Hk Hx. unfold remove. destruct (remove_all_spec k s.(transaction_dependencies)) as (X & d & -> & HX & _).
  cbn [mbind outcome_bind]. pose proof (with_deps_ok s d Hs) as Hs0.
  destruct (remove_keys_ok (iter_hashes X ++ [k]) (with_deps s d) [] Hs0) as (s1 & vs1 & -> & _ & _ & _ & Hvs).
  - apply NoDup_app. split_and!; [rewrite iter_hashes_perm; apply NoDup_elements| |apply NoDup_singleton].
    intros x Hin ->%list_elem_of_singleton. rewrite elem_of_iter_hashes, HX in Hin. by destruct (Hx _ Hin).
  - intros x [Hin| ->%list_elem_of_singleton]%elem_of_app; [|by exists v]. rewrite elem_of_iter_hashes, HX in Hin. by apply Hx in Hin as [_ ?].
  - apply Forall2_app_inv_l in Hvs as (vs0 & vs2 & _ & H2 & ->). apply Forall2_cons_inv_l in H2 as (v' & ? & Hv & ->%Forall2_nil_inv_l & ->).
    cbn in Hv. assert (v' = v) as -> by congruence. by exists s1, vs0.
Qed.

(** ** What aborts *)

Lemma remove_missing k s : set_ok s → s.(transactions) !! k = None → remove k s = Panic.
Proof.
  intros Hs Hk. destruct (remove k s) as [[s' vs]|] eqn:E; [|done].
  destruct (remove_inv _ _ _ _ Hs E) as (_ & Hf & _). destruct (Hf k) as [[v ?] _]; [by left|congruence].
Qed.

Lemma remove_next_cons k l s acc : for_each remove_next (k :: l) (s, acc) =
  (remove k s ≫= λ y, for_each remove_next l (y.1, acc ∪ list_to_set (map id_of y.2))).
Proof. cbn [for_each]. change (remove_next (s, acc) k) with (remove k s ≫= λ y, Ret (y.1, acc ∪ list_to_set (map id_of y.2))). by destruct (remove k s). Qed.

Lemma remove_next_missing keys k : ∀ s acc, set_ok s → k ∈ keys → s.(transactions) !! k = None → for_each remove_next keys (s, acc) = Panic.
Proof.
  induction keys as [|k0 keys IH]; intros s acc Hs Hin Hk; [by apply elem_of_nil in Hin|]. rewrite remove_next_cons.
  destruct (remove k0 s) as [[s' vs]|] eqn:E; [|done]. cbn [mbind outcome_bind fst].
  destruct (remove_inv _ _ _ _ Hs E) as (Hs' & Hf & _ & Hsub & _). apply elem_of_cons in Hin as [->|Hin].
  - destruct (Hf k0) as [[v ?] _]; [by left|congruence].
  - apply IH; [done|done|]. destruct (s'.(transactions) !! k) eqn:Hk'; [|done]. apply Hsub in Hk'; congruence.
Qed.

(** A dependent that is gone. *)
Lemma remove_next_stale keys p c : ∀ s acc, set_ok s → p ∈ keys → depends_on s.(transaction_dependencies) p c →
  s.(transactions) !! c = None → for_each remove_next keys (s, acc) = Panic.
Proof.
  induction keys as [|k0 keys IH]; intros s acc Hs Hin Hd Hc; [by apply elem_of_nil in Hin|].
  rewrite remove_next_cons.
  destruct (remove k0 s) as [[s' vs]|] eqn:E; [|done]. cbn [mbind outcome_bind fst].
  destruct (remove_inv _ _ _ _ Hs E) as (Hs' & Hf & _ & Hsub & Hdep & _). apply elem_of_cons in Hin as [->|Hin].
  - destruct (Hf c) as [[v ?] _]; [right; by apply tc_once|congruence].
  - destruct (s'.(transactions) !! p) as [v|] eqn:Hp; [|by apply (remove_next_missing keys p)].
    apply IH; [done|done| |].
    + unfold depends_on, direct_dependents. by rewrite Hdep.
    + destruct (s'.(transactions) !! c) eqn:Hc'; [|done]. apply Hsub in Hc'; congruence.
Qed.

Lemma remove_next_family keys p c : ∀ s acc, set_ok s → NoDup keys → p ∈ keys → c ∈ keys →
  depends_on s.(transaction_dependencies) p c → for_each remove_next keys (s, acc) = Panic.
Proof.
  induction keys as [|k0 keys IH]; intros s acc Hs Hnd Hp Hc Hd; [by apply elem_of_nil in Hp|]. apply NoDup_cons in Hnd as [Hk0 Hnd].
  rewrite remove_next_cons.
  destruct (remove k0 s) as [[s' vs]|] eqn:E; [|done]. cbn [mbind outcome_bind fst].
  pose proof E as E'. apply remove_inv in E' as (Hs' & Hf & _ & Hsub & Hdep & _); [|done].
  destruct (decide (c = k0)) as [->|Hck]; [destruct (decide (p = k0)) as [->|Hpk]|].
  - exfalso. unfold remove in E. destruct (remove_all_spec k0 s.(transaction_dependencies)) as (X & d & Ex & HX & _).
    rewrite Ex in E. cbn [mbind outcome_bind] in E.
    destruct (remove_keys_inv _ _ _ _ _ (with_deps_ok s d Hs) E) as [(_ & Hn & _)%NoDup_app _].
    apply (Hn k0); [|by left]. rewrite elem_of_iter_hashes, HX. by apply tc_once.
  - apply elem_of_cons in Hp as [?|Hp]; [done|]. destruct (s'.(transactions) !! p) as [v|] eqn:Hpv; [|by apply (remove_next_missing keys p)].
    eapply remove_next_stale; [done|done| |apply Hf; by left]. unfold depends_on, direct_dependents. by rewrite Hdep.
  - apply elem_of_cons in Hc as [?|Hc]; [done|]. destruct (s'.(transactions) !! c) as [vc|] eqn:Hcv; [|by apply (remove_next_missing keys c)].
    destruct (decide (p = k0)) as [->|Hpk].
    + exfalso. destruct (Hf c) as [_ ?]; [right; by apply tc_once|congruence].
    + apply elem_of_cons in Hp as [?|Hp]; [done|]. destruct (s'.(transactions) !! p) as [v|] eqn:Hpv; [|by apply (remove_next_missing keys p)].
      apply IH; [done..|]. unfold depends_on, direct_dependents. by rewrite Hdep.
Qed.

(** The keys of [remove_all_that]. *)
Definition matching (f : VerifiedUnminedTx → bool) (s : VerifiedSet) : list bytes :=
  map fst (List.filter (λ x, f x.2) (iter_transactions s.(transactions))).

Lemma elem_of_matching f s k : k ∈ matching f s ↔ ∃ v, s.(transactions) !! k = Some v ∧ f v = true.
Proof.
  unfold matching. rewrite list_elem_of_fmap. split.
  - intros ([k' v] & -> & Hx). apply list_elem_of_In, filter_In in Hx as [Hx Hf]. exists v. split; [|done].
    by apply elem_of_map_to_list, (elem_of_Permutation_proper _ _ _ (iter_transactions_perm _)), list_elem_of_In.
  - intros (v & Hk & Hf). exists (k, v). split; [done|]. apply list_elem_of_In, filter_In. split; [|done].
    by apply list_elem_of_In, (elem_of_Permutation_proper _ _ _ (iter_transactions_perm _)), elem_of_map_to_list.
Qed.

Lemma matching_nodup f s : NoDup (matching f s).
Proof.
  assert (Hn : NoDup (map fst (iter_transactions s.(transactions)))).
  { rewrite (fmap_Permutation _ _ _ (iter_transactions_perm _) : map fst _ ≡ₚ _). apply NoDup_fst_map_to_list. }
  unfold matching. induction (iter_transactions s.(transactions)) as [|x l IH]; [constructor|].
  cbn in *. apply NoDup_cons in Hn as [Hx Hl]. destruct (f x.2); [|by apply IH]. cbn. constructor; [|by apply IH].
  intros Hin. apply Hx. apply list_elem_of_fmap in Hin as (y & -> & Hy). apply list_elem_of_fmap. exists y. split; [done|].
  by apply list_elem_of_In, filter_In in Hy as [?%list_elem_of_In _].
Qed.

Lemma remove_all_that_eq f s : remove_all_that f s = for_each remove_next (matching f s) (s, ∅).
Proof. done. Qed.

Lemma remove_next_inv l : ∀ s acc s' acc', set_ok s → for_each remove_next l (s, acc) = Ret (s', acc') →
  set_ok s' ∧ (∀ k v, s'.(transactions) !! k = Some v → s.(transactions) !! k = Some v ∧ (k ∉ l) ∧
    dependents s'.(transaction_dependencies) !! k = dependents s.(transaction_dependencies) !! k).
Proof.
  induction l as [|k l IH]; intros s acc s' acc' Hs; [intros [= <- <-]; split; [done|]; intros; split_and!; [done|apply not_elem_of_nil|done]|].
  rewrite remove_next_cons. intros ([s1 vs] & E1 & E)%bind_Ret_inv. cbn [fst] in E.
  destruct (remove_inv _ _ _ _ Hs E1) as (Hs1 & Hf & _ & Hsub & Hdep & _). apply IH in E as [Hs' Hk]; [|done]. split; [done|].
  intros k' v (Hk1 & Hn & Hd)%Hk. cbn in Hk1. split_and!; [by apply Hsub| |rewrite Hd; by apply Hdep].
  intros [->|?]%elem_of_cons; [|done]. destruct (Hf k) as [_ ?]; [by left|]. congruence.
Qed.

Lemma remove_all_that_inv f s s' ids : set_ok s → remove_all_that f s = Ret (s', ids) →
  set_ok s' ∧ (∀ k v, s'.(transactions) !! k = Some v → s.(transactions) !! k = Some v ∧ f v = false).
Proof.
  intros Hs E. apply remove_next_inv in E as [Hs' Hk]; [|done]. split; [done|]. intros k v (Hv & Hn & _)%Hk. split; [done|].
  destruct (f v) eqn:Hf; [|done]. destruct Hn. apply elem_of_matching. by exists v.
Qed.
End set_ops.

(** ** The storage *)

Definition same_set (s s' : Storage) : Prop := s'.(verified) = s.(verified) ∧ s'.(tx_cost_limit) = s.(tx_cost_limit).

Section storage_ops.
Context {P : Profile} {Or : MempoolOrder} {Ol : MempoolOrderLaws Or} (iter_errors : list SameEffectsChainRejectionError) (now : Z).
Context (iter_ids : gset UnminedTxId → list UnminedTxId) (live : OutPoint → bool).

Lemma metrics_same s s' : update_rejected_metrics iter_errors now s = Ret s' → same_set s s'.
Proof. by intros (c & _ & [= <-])%bind_Ret_inv. Qed.

Lemma reject_same s i e s' : reject iter_errors now s i e = Ret s' → same_set s s'.
Proof.
  intros (s1 & E & [Hv Hl]%metrics_same)%bind_Ret_inv. cbn in Hv, Hl.
  assert (same_set s s1) as [? ?]; [|split; congruence].
  destruct e; [by injection E as <-..|]. by apply bind_Ret_inv in E as (l & _ & [= <-]).
Qed.

Lemma reject_each_same {A} (f : A → UnminedTxId) e l s s' :
  for_each (λ s x, reject iter_errors now s (f x) e) l s = Ret s' → same_set s s'.
Proof.
  apply (for_each_inv (same_set s)); [|done]. intros s1 x s2 _ [H1 H2] [H3 H4]%reject_same. split; congruence.
Qed.

(** What holds between two operations. *)
Definition storage_ok (lim : Z) (s : Storage) : Prop :=
  set_ok s.(verified) ∧ total_cost s.(verified) ≤ lim ∧ s.(tx_cost_limit) = lim ∧ lim < 2 ^ 63.

Lemma set_ok_smaller s s' : set_ok s → set_ok s' → (∀ k v, s'.(transactions) !! k = Some v → s.(transactions) !! k = Some v) →
  s'.(total_cost) ≤ s.(total_cost).
Proof.
  intros Hs Hs' Hsub. rewrite (so_cost _ Hs), (so_cost _ Hs'). assert (s'.(transactions) ⊆ s.(transactions)) as Hm by by apply map_subseteq_spec.
  assert (Hpos : ∀ k v, s.(transactions) !! k = Some v → 0 ≤ cost v) by (intros k v [_ Hf%cost_le]%(so_key _ Hs); lia).
  clear -Hm Hpos. unfold set_sum. apply map_to_list_submseteq in Hm. apply submseteq_Permutation in Hm as [l Hl].
  rewrite (zsum_perm _ _ (Permutation_map (λ x, cost x.2) Hl)), map_app, zsum_app.
  enough (0 ≤ zsum (map (λ x, cost x.2) l)) by lia. apply zsum_map_nonneg. intros [k v] Hx. apply (Hpos k).
  apply elem_of_map_to_list. rewrite Hl. apply elem_of_app. by right.
Qed.

Lemma storage_ok_smaller lim s s' : storage_ok lim s → set_ok s'.(verified) → s'.(tx_cost_limit) = s.(tx_cost_limit) →
  (∀ k v, transactions s'.(verified) !! k = Some v → transactions s.(verified) !! k = Some v) → storage_ok lim s'.
Proof. intros (Hs & Hc & Hl & ?) Hs' Hl' Hsub. pose proof (set_ok_smaller _ _ Hs Hs' Hsub). split_and!; [done|lia|congruence|done]. Qed.

Lemma storage_ok_same lim s s' : storage_ok lim s → same_set s s' → storage_ok lim s'.
Proof. intros (? & ? & ? & ?) [Hv Hl]. unfold storage_ok. by rewrite Hv, Hl. Qed.

Lemma evict_one_inv s s' v : set_ok s → evict_one s = Ret (s', v) → set_ok s' ∧ is_Some v ∧
  (∀ k w, s'.(transactions) !! k = Some w → s.(transactions) !! k = Some w) ∧ (size s'.(transactions) < size s.(transactions))%nat.
Proof.
  intros Hs. unfold evict_one. intros (ws & _ & (_ & _ & (k & _ & ([s1 vs] & E & [= <- <-])%bind_Ret_inv)%bind_Ret_inv)%bind_Ret_inv)%bind_Ret_inv.
  destruct (remove_inv _ _ _ _ Hs E) as (Hs' & Hf & _ & Hsub & _ & v & vs' & -> & Hv). split_and!; [done| |done|].
  - cbn [snd]. rewrite rev_app_distr. by exists v.
  - apply map_subset_size, map_subset_alt. split; [by apply map_subseteq_spec|]. exists k. cbn [fst] in *. split; [by apply Hf; left|by apply Hf; left].
Qed.

Lemma evict_to_limit_inv fuel id : ∀ r s r' s', set_ok s.(verified) → evict_to_limit iter_errors now fuel id r s = Ret (r', s') →
  set_ok s'.(verified) ∧ total_cost s'.(verified) ≤ s'.(tx_cost_limit) ∧ s'.(tx_cost_limit) = s.(tx_cost_limit) ∧
  (∀ k w, transactions s'.(verified) !! k = Some w → transactions s.(verified) !! k = Some w).
Proof.
  induction fuel as [|fuel IH]; intros r s r' s' Hs; cbn [evict_to_limit]; destruct (Z.leb_spec (total_cost s.(verified)) s.(tx_cost_limit));
    try (intros [= <- <-]; by split_and!).
  intros ([s1 o] & E & (v & _ & (s2 & [Hv2 Hl2]%reject_same & E2)%bind_Ret_inv)%bind_Ret_inv)%bind_Ret_inv. cbn [fst snd verified with_verified tx_cost_limit] in *.
  destruct (evict_one_inv _ _ _ Hs E) as (Hs1 & _ & Hsub & _). apply IH in E2 as (? & ? & ? & Hk); [|by rewrite Hv2].
  split_and!; [done|done|congruence|]. intros k w Hw%Hk. rewrite Hv2 in Hw. by apply Hsub.
Qed.

(** The rounds that [insert] allows are enough. *)
Lemma evict_to_limit_enough fuel n id : ∀ r s, set_ok s.(verified) → 0 ≤ s.(tx_cost_limit) → (size (transactions s.(verified)) ≤ fuel)%nat →
  evict_to_limit iter_errors now fuel id r s = evict_to_limit iter_errors now (fuel + n) id r s.
Proof.
  induction fuel as [|fuel IH]; intros r s Hs Hl Hf.
  - assert (total_cost s.(verified) = 0) as H0.
    { rewrite (so_cost _ Hs). assert (transactions s.(verified) = ∅) as -> by (apply map_size_empty_inv; lia). unfold set_sum. by rewrite map_to_list_empty. }
    destruct n; cbn; by rewrite (proj2 (Z.leb_le _ _)) by lia.
  - cbn [evict_to_limit Nat.add]. destruct (_ <=? _); [done|]. destruct (evict_one s.(verified)) as [[s1 o]|] eqn:E; [|done]. cbn [mbind outcome_bind fst snd].
    destruct (evict_one_inv _ _ _ Hs E) as (Hs1 & [v ->] & _ & Hsz). cbn [unwrap mbind outcome_bind].
    destruct (reject _ _ _ _ _) as [s2|] eqn:E2; [|done]. apply reject_same in E2 as [Hv2 Hl2]. cbn [mbind outcome_bind] in *. cbn in Hv2, Hl2.
    apply IH; [by rewrite Hv2|lia|rewrite Hv2; lia].
Qed.

Lemma insert_ok lim v spent height s r s' : storage_ok lim s → tx_fits v → insert iter_errors now v spent height s = Ret (r, s') → storage_ok lim s'.
Proof.
  intros (Hs & Hc & Hl & Hm) Hf. unfold insert. destruct (rejection_error _ _ _ _); [by intros [= <- <-]|].
  case_bool_decide as Hin; [by intros [= <- <-]|]. apply eq_None_not_Some in Hin.
  intros ([[r1 set] p] & E1 & (y & E2 & E)%bind_Ret_inv)%bind_Ret_inv.
  destruct (insert_verified_ok _ _ _ _ _ _ _ _ Hs Hf Hin ltac:(lia) E1) as [Hset _].
  assert (same_set (with_pending (with_verified s set) p) y.2) as [Hy Hyl].
  { destruct r1; [by apply bind_Ret_inv in E2 as (s1 & ?%reject_same & [= <-])|by injection E2 as <-]. }
  cbn in Hy, Hyl. apply evict_to_limit_inv in E as (? & ? & ? & _); [|by rewrite Hy]. split_and!; [done|lia|congruence|done].
Qed.

Lemma remove_that_ok lim f s set ids : storage_ok lim s → remove_all_that f s.(verified) = Ret (set, ids) → storage_ok lim (with_verified s set).
Proof.
  intros Hs E. pose proof (remove_all_that_inv _ _ _ _ (proj1 Hs) E) as [Hset Hk].
  eapply storage_ok_smaller; [exact Hs|done|done|]. intros k v Hv. by apply (Hk k v).
Qed.

Lemma remove_exact_ok lim ids s n s' : storage_ok lim s → remove_exact ids s = Ret (n, s') → storage_ok lim s'.
Proof. intros Hs ([set r] & E & [= _ <-])%bind_Ret_inv. by eapply remove_that_ok. Qed.

Lemma clear_mined_ok lim ids s : storage_ok lim s → storage_ok lim (storage_clear_mined ids s).
Proof. intros (Hs & ? & ? & ?). split_and!; [by apply with_deps_ok|done..]. Qed.

Lemma reject_and_remove_ok lim ids txs s r s' : storage_ok lim s →
  reject_and_remove_same_effects iter_errors now iter_ids live ids txs s = Ret (r, s') → storage_ok lim s'.
Proof.
  intros Hs ([set r1] & E1 & ([set2 r2] & E2 & (s3 & E3 & (s4 & E4 & [= _ <-])%bind_Ret_inv)%bind_Ret_inv)%bind_Ret_inv)%bind_Ret_inv.
  pose proof (remove_that_ok _ _ _ _ _ Hs E1) as Hs1. pose proof (remove_that_ok _ _ (with_verified s set) _ _ Hs1 E2) as Hs2.
  apply (reject_each_same Legacy) in E3. apply (reject_each_same id) in E4.
  apply (storage_ok_same _ s4); [|done]. eapply storage_ok_same; [|exact E4]. by eapply storage_ok_same; [|exact E3].
Qed.

Lemma clear_tip_ok lim s s' : storage_ok lim s → clear_tip_rejections iter_errors now s = Ret s' → storage_ok lim s'.
Proof. intros Hs E%metrics_same. by eapply storage_ok_same. Qed.

Lemma remove_expired_ok lim h s r s' : storage_ok lim s → remove_expired_transactions iter_errors now h s = Ret (r, s') → storage_ok lim s'.
Proof.
  intros Hs ([set r1] & E1 & (s2 & E2 & [= _ <-])%bind_Ret_inv)%bind_Ret_inv. pose proof (remove_that_ok _ _ _ _ _ Hs E1) as Hs1.
  apply (reject_each_same Legacy) in E2. by eapply storage_ok_same.
Qed.

Lemma reject_if_needed_ok lim i e s s' : storage_ok lim s → reject_if_needed iter_errors now i e s = Ret s' → storage_ok lim s'.
Proof. intros Hs. destruct e; cbn [reject_if_needed]; [by intros [= <-]..|]. intros E%reject_same. by eapply storage_ok_same. Qed.

Lemma collect_ok lim best x done x' : storage_ok lim x.(c_storage) → (∀ v sp h, done.2 = Verified v sp h → tx_fits v) →
  collect iter_errors now best x done = Ret x' → storage_ok lim x'.(c_storage).
Proof.
  intros Hs Hf. unfold collect. destruct done as [i [v sp h|e|]]; cbn [fst snd] in *.
  - destruct (decide _); [|by intros [= <-]]. intros ([r s1] & E & [= <-])%bind_Ret_inv. cbn [fst snd].
    pose proof (insert_ok _ _ _ _ _ _ _ Hs (Hf _ _ _ eq_refl) E). by destruct r.
  - intros (s1 & E & [= <-])%bind_Ret_inv. by eapply reject_if_needed_ok.
  - by intros [= <-].
Qed.

Lemma handle_grow_ok lim b x x' ids : storage_ok lim x.(c_storage) →
  handle_grow iter_errors now iter_ids live b x = Ret (x', ids) → storage_ok lim x'.(c_storage).
Proof.
  intros Hs ([[r1 r2] s1] & E1 & (s2 & E2 & [= <- _])%bind_Ret_inv)%bind_Ret_inv. cbn [c_storage].
  eapply clear_tip_ok; [|exact E2]. eapply reject_and_remove_ok; [|exact E1]. by apply clear_mined_ok.
Qed.
End storage_ops.

(** ** Downloads *)

Definition downloads_ok (d : Downloads) : Prop := (length d.(pending) ≤ MAX_INBOUND_CONCURRENCY)%nat.

Lemma drop_task_length i l : (length (drop_task i l) ≤ length l)%nat.
Proof. induction l as [|j l IH]; cbn; [done|]. destruct (decide _); cbn; lia. Qed.

Lemma download_ok g d : downloads_ok d → downloads_ok (download_if_needed_and_verify g d).2.
Proof.
  unfold downloads_ok, download_if_needed_and_verify. intros Hd. case_bool_decide; [done|].
  destruct (Nat.leb_spec MAX_INBOUND_CONCURRENCY (length d.(pending))); [done|]. cbn. rewrite length_app. cbn. lia.
Qed.

Lemma poll_next_ok i r d : downloads_ok d → downloads_ok (poll_next i r d).
Proof. unfold downloads_ok, poll_next. intros Hd. cbn. pose proof (drop_task_length i d.(pending)). lia. Qed.

Lemma retry_ok l : ∀ d, downloads_ok d → downloads_ok (retry d l).
Proof. induction l as [|g l IH]; intros d Hd; [done|]. apply IH. by apply download_ok. Qed.

Lemma collect_downloads_ok `{Profile, MempoolOrder} iter_errors now best x done x' : downloads_ok x.(c_downloads) →
  collect iter_errors now best x done = Ret x' → downloads_ok x'.(c_downloads).
Proof.
  intros Hd. unfold collect. pose proof (poll_next_ok done.1 done.2 _ Hd) as Hp. destruct (done.2) as [v sp h|e|].
  - destruct (decide _); [|intros [= <-]; by apply download_ok]. by intros ([[|] s1] & _ & [= <-])%bind_Ret_inv.
  - by intros (s1 & _ & [= <-])%bind_Ret_inv.
  - by intros [= <-].
Qed.

Lemma queue_one_ok `{Profile} iter_errors now s l : ∀ x, downloads_ok x.1 → downloads_ok (foldl (queue_one iter_errors now s) x l).1.
Proof.
  induction l as [|g l IH]; intros x Hd; [done|]. apply IH. unfold queue_one. destruct (should_download_or_verify _ _ _ _); [done|].
  pose proof (download_ok g _ Hd). by destruct (download_if_needed_and_verify _ _).
Qed.

(** ** The service *)

Definition state_ok (lim : Z) (a : ActiveState) : Prop :=
  match a with Disabled => True | Enabled s d _ => storage_ok lim s ∧ downloads_ok d end.

(** One poll or one request, with any order of the hash maps, any time and any choice
    of the transactions to evict. *)
Inductive mempool_step `{Profile} (c : Config) : ActiveState → ActiveState → Prop :=
| StepPoll {Or : MempoolOrder} {Ol : MempoolOrderLaws Or} iter_errors now iter_ids live iter_handles close tip best done a a' ch :
    (∀ i v sp h, (i, Verified v sp h) ∈ done → tx_fits v) →
    poll_ready iter_errors now iter_ids live iter_handles c close tip best done a = Ret (a', ch) → mempool_step c a a'
| StepCall {Or} {Ol : MempoolOrderLaws Or} iter_errors now iter_ids req a r a' :
    call iter_errors now iter_ids req a = (r, a') → mempool_step c a a'.

Section service_ops.
Context {P : Profile} (c : Config) (Hlim : 0 ≤ c.(config_tx_cost_limit) < 2 ^ 63).

Lemma fresh_ok t h : state_ok c.(config_tx_cost_limit) (Enabled (new_storage t c.(config_tx_cost_limit)) no_downloads h).
Proof. split; [split_and!; [apply empty_set_ok|cbn; lia|done|lia]|cbn; unfold downloads_ok; cbn; lia]. Qed.

Lemma update_state_ok close best tip a : state_ok c.(config_tx_cost_limit) a → state_ok c.(config_tx_cost_limit) (update_state c close best tip a).2.
Proof.
  intros Ha. unfold update_state. destruct (close || _), (is_enabled a); [done| |done|done]. destruct tip; [apply fresh_ok|done].
Qed.

Lemma service_call_ok {Or} {Ol : MempoolOrderLaws Or} iter_errors now iter_ids req a : state_ok c.(config_tx_cost_limit) a →
  state_ok c.(config_tx_cost_limit) (call iter_errors now iter_ids req a).2.
Proof.
  destruct a as [|s d h]; [done|]. intros [Hs Hd]. destruct req; cbn; try done.
  destruct (foldl _ _ _) as [d' rs] eqn:E. split; [done|]. change d' with (d', rs).1. rewrite <- E. by apply queue_one_ok.
Qed.

Lemma poll_enabled_ok {Or} {Ol : MempoolOrderLaws Or} iter_errors now iter_ids live tip best done s d h a' ch :
  (∀ i v sp h, (i, Verified v sp h) ∈ done → tx_fits v) → storage_ok c.(config_tx_cost_limit) s → downloads_ok d →
  poll_enabled iter_errors now iter_ids live tip best done s d h = Ret (a', ch) → state_ok c.(config_tx_cost_limit) a'.
Proof.
  intros Hf Hs Hd (x & E & ([y ids] & E2 & (z & E3 & [= <- <-])%bind_Ret_inv)%bind_Ret_inv)%bind_Ret_inv.
  assert (storage_ok c.(config_tx_cost_limit) x.(c_storage) ∧ downloads_ok x.(c_downloads)) as [Hxs Hxd].
  { revert E. apply (for_each_inv (λ x, storage_ok c.(config_tx_cost_limit) x.(c_storage) ∧ downloads_ok x.(c_downloads))); [|done].
    intros [i r] x1 x2 Hin [H1 H2] E. split; [|by eapply collect_downloads_ok]. eapply collect_ok; [exact H1| |exact E].
    cbn. intros v sp h1 ->. by eapply Hf. }
  assert (storage_ok c.(config_tx_cost_limit) y.(c_storage) ∧ downloads_ok y.(c_downloads)) as [Hys Hyd].
  { destruct tip as [[b|]|]; [|by injection E2 as <- <-..]. split; [by eapply handle_grow_ok|].
    apply bind_Ret_inv in E2 as ([[? ?] ?] & _ & (? & _ & [= <- _])%bind_Ret_inv). done. }
  destruct best as [bh|]; [|by injection E3 as <-]. apply bind_Ret_inv in E3 as ([r s3] & E3 & [= <-]). split; [|done].
  by eapply remove_expired_ok.
Qed.

Lemma poll_ready_ok {Or} {Ol : MempoolOrderLaws Or} iter_errors now iter_ids live iter_handles close tip best done a a' ch :
  (∀ i v sp h, (i, Verified v sp h) ∈ done → tx_fits v) → state_ok c.(config_tx_cost_limit) a →
  poll_ready iter_errors now iter_ids live iter_handles c close tip best done a = Ret (a', ch) → state_ok c.(config_tx_cost_limit) a'.
Proof.
  intros Hf Ha. unfold poll_ready. pose proof (update_state_ok close best tip a Ha) as Hu.
  destruct (update_state c close best tip a) as [ch0 [|s d h]] eqn:Eu; [by intros [= <- <-]|]. destruct Hu as [Hs Hd].
  destruct ch0, tip as [[b|rh rz]|]; try by apply poll_enabled_ok.
  pose proof (update_state_ok close best (Some (Reset_ rh rz)) Disabled I) as Hu.
  destruct (update_state c close best _ Disabled) as [? [|s1 d1 h1]]; intros [= <- <-]; [done|]. destruct Hu. split; [done|]. by apply retry_ok.
Qed.

Lemma reachable_state_ok a : rtc (mempool_step c) Disabled a → state_ok c.(config_tx_cost_limit) a.
Proof.
  apply (rtc_ind_r (state_ok c.(config_tx_cost_limit))); [done|]. intros a1 a2 _ [?? ?????????? ?? Hf E|?????? ? ?? E] Ha.
  - by eapply poll_ready_ok.
  - pose proof (service_call_ok iter_errors now iter_ids req _ Ha) as Hc. by rewrite E in Hc.
Qed.
End service_ops.

(** ** Theorems *)

(** C24: Whatever is downloaded, verified, mined or asked for, in any order, the mempool
    never holds two transactions that spend the same output or reveal the same
    nullifier; a transaction is kept under its own id; the outputs it offers to other
    transactions are exactly those of the transactions it holds; its cost is the sum of
    their costs and never exceeds the limit that is configured, although the transaction
    that exceeds it is inserted before others are evicted; and no more than 25
    transactions are downloaded and verified at once. *)
Theorem mempool_safe `{Profile} (c : Config) s d h : 0 ≤ c.(config_tx_cost_limit) < 2 ^ 63 →
  rtc (mempool_step c) Disabled (Enabled s d h) →
  (∀ k k' v v', transactions s.(verified) !! k = Some v → transactions s.(verified) !! k' = Some v' → k ≠ k' →
     spent_outpoints (tx_of v) ## spent_outpoints (tx_of v') ∧ sprout_nullifiers (tx_of v) ## sprout_nullifiers (tx_of v') ∧
     sapling_nullifiers (tx_of v) ## sapling_nullifiers (tx_of v') ∧ orchard_nullifiers (tx_of v) ## orchard_nullifiers (tx_of v')) ∧
  (∀ k v, transactions s.(verified) !! k = Some v → mined_id (id_of v) = k) ∧
  (∀ o out, created_outputs s.(verified) !! o = Some out ↔
     ∃ v i, transactions s.(verified) !! o.1 = Some v ∧ o.2 = Z.of_nat i ∧ outputs (tx_of v) !! i = Some out) ∧
  total_cost s.(verified) = set_sum cost (transactions s.(verified)) ∧
  total_cost s.(verified) ≤ c.(config_tx_cost_limit) ∧ (length d.(pending) ≤ 25)%nat.
Proof.
  intros Hl Hr. apply reachable_state_ok in Hr as [(Hs & Hc & _ & _) Hd]; [|done]. split_and!; [| | |apply Hs|done|apply Hd].
  - intros k k' v v' Hv Hv' Hne. pose proof (proj2 (so_spent _ Hs) k k' v v') as H1. pose proof (proj2 (so_sprout _ Hs) k k' v v') as H2.
    pose proof (proj2 (so_sapling _ Hs) k k' v v') as H3. pose proof (proj2 (so_orchard _ Hs) k k' v v') as H4.
    split_and!; intros x Hx Hx'; apply Hne; eauto.
  - intros k v Hv. by apply (so_key _ Hs).
  - apply Hs.
Qed.

Section more.
Context {P : Profile} {Or : MempoolOrder} {Ol : MempoolOrderLaws Or}.

(** What a block leaves in the mempool. *)
Lemma reject_and_remove_clears iter_errors now iter_ids live ids txs lim s r s' : storage_ok lim s →
  reject_and_remove_same_effects iter_errors now iter_ids live ids txs s = Ret (r, s') →
  ∀ k v, transactions s'.(verified) !! k = Some v → (k ∉ ids) ∧ spends_any txs v = false.
Proof.
  intros Hs ([set r1] & E1 & ([set2 r2] & E2 & (s3 & E3 & (s4 & E4 & [= _ <-])%bind_Ret_inv)%bind_Ret_inv)%bind_Ret_inv)%bind_Ret_inv k v Hk.
  apply (reject_each_same iter_errors now Legacy) in E3 as [E3 _]. apply (reject_each_same iter_errors now id) in E4 as [E4 _].
  cbn in Hk, E3. rewrite E4, E3 in Hk. destruct (remove_all_that_inv _ _ _ _ (proj1 Hs) E1) as [Hset H1].
  destruct (remove_all_that_inv _ _ _ _ Hset E2) as [_ H2]. apply H2 in Hk as [Hk Hd]. destruct (H1 _ _ Hk) as [_ Hm]. split.
  - apply bool_decide_eq_false in Hm. by rewrite (proj1 (so_key _ Hset _ _ Hk)) in Hm.
  - destruct (spends_any txs v) eqn:Hsp; [|done]. apply bool_decide_eq_false in Hd. destruct Hd. apply elem_of_list_to_set, list_elem_of_fmap.
    exists (k, v). split; [done|]. apply list_elem_of_In, filter_In. split; [|done].
    by apply list_elem_of_In, (elem_of_Permutation_proper _ _ _ (iter_transactions_perm _)), elem_of_map_to_list.
Qed.

Lemma remove_expired_clears iter_errors now h lim s r s' : storage_ok lim s →
  remove_expired_transactions iter_errors now h s = Ret (r, s') →
  ∀ k v, transactions s'.(verified) !! k = Some v → transactions s.(verified) !! k = Some v ∧ is_expired h v = false.
Proof.
  intros Hs ([set r1] & E1 & (s2 & E2 & [= _ <-])%bind_Ret_inv)%bind_Ret_inv k v Hk.
  apply (reject_each_same iter_errors now Legacy) in E2 as [E2 _]. cbn in E2. rewrite E2 in Hk.
  destruct (remove_all_that_inv _ _ _ _ (proj1 Hs) E1) as [_ H1]. apply H1 in Hk as [Hk Hd]. split; [done|].
  destruct (is_expired h v) eqn:He; [|done]. apply bool_decide_eq_false in Hd. destruct Hd. rewrite elem_of_list_to_set.
  rewrite (proj1 (so_key _ (proj1 Hs) _ _ Hk)). change (k ∈ matching (is_expired h) s.(verified)). apply elem_of_matching. by exists v.
Qed.

(** C28: When the tip of the chain grows, what the poll leaves in the mempool fits the
    new tip, whatever was verified meanwhile: no transaction of the block is left, none
    that spends an output or reveals a nullifier that the block spent or revealed, and
    none that has expired at the best height; the block is the last tip seen. *)
Theorem poll_clears_block iter_errors now iter_ids live iter_handles c b best dn s d h s' d' h' ch :
  0 ≤ c.(config_tx_cost_limit) < 2 ^ 63 → storage_ok c.(config_tx_cost_limit) s →
  (∀ i v sp h, (i, Verified v sp h) ∈ dn → tx_fits v) →
  poll_ready iter_errors now iter_ids live iter_handles c true (Some (Grow b)) best dn (Enabled s d h) = Ret (Enabled s' d' h', ch) →
  h' = b.(tip_hash) ∧
  ∀ k v, transactions s'.(verified) !! k = Some v →
    (k ∉ b.(tip_transaction_hashes)) ∧ spends_any b.(tip_transactions) v = false ∧
    match best with Some bh => is_expired bh v = false | None => True end.
Proof.
  intros Hl Hs Hf E. unfold poll_ready in E. cbn [update_state is_enabled orb] in E.
  change (poll_enabled iter_errors now iter_ids live (Some (Grow b)) best dn s d h = Ret (Enabled s' d' h', ch)) in E.
  apply bind_Ret_inv in E as (x & E & ([y ids] & E2 & (z & E3 & [= <- <- <- <-])%bind_Ret_inv)%bind_Ret_inv). split; [done|].
  assert (storage_ok c.(config_tx_cost_limit) x.(c_storage)) as Hx.
  { revert E. apply (for_each_inv (λ x, storage_ok c.(config_tx_cost_limit) x.(c_storage))); [|done].
    intros [i r] x1 x2 Hin H1 E. eapply collect_ok; [exact H1| |exact E]. cbn. intros v sp h1 ->. by eapply Hf. }
  pose proof (handle_grow_ok _ _ _ _ _ _ _ _ _ Hx E2) as Hy.
  apply bind_Ret_inv in E2 as ([[r1 r2] s1] & E1 & (s2 & [E2 _]%metrics_same & [= <- _])%bind_Ret_inv). cbn [c_storage c_downloads] in *. cbn in E2.
  pose proof (reject_and_remove_clears _ _ _ _ _ _ _ _ _ _ (clear_mined_ok _ _ _ Hx) E1) as Hc. rewrite <- E2 in Hc.
  intros k v Hk. destruct best as [bh|].
  - apply bind_Ret_inv in E3 as ([r3 s3] & E3 & [= <-]). cbn [c_storage snd] in *.
    destruct (remove_expired_clears _ _ _ _ _ _ _ Hy E3 _ _ Hk) as [Hk2 He]. destruct (Hc _ _ Hk2) as [Hn Hsp].
    split_and!; [by rewrite elem_of_list_to_set in Hn|done|done].
  - injection E3 as <-. destruct (Hc _ _ Hk) as [Hn Hsp]. split_and!; [by rewrite elem_of_list_to_set in Hn|done|done].
Qed.

(** C30: Removing a transaction from the mempool whose dependents are all in it takes the
    transaction and everything that depends on it, directly or through others, and
    nothing else: the loop that collects them ends, no cache underflows, and the removed
    transaction is the last of those returned. *)
Theorem remove_takes_dependents k s v : set_ok s → s.(transactions) !! k = Some v →
  (∀ x, tc (depends_on s.(transaction_dependencies)) k x → x ≠ k ∧ is_Some (s.(transactions) !! x)) →
  ∃ s' vs, remove k s = Ret (s', vs ++ [v]) ∧ set_ok s' ∧
    ∀ x w, s'.(transactions) !! x = Some w ↔
           s.(transactions) !! x = Some w ∧ x ≠ k ∧ ¬ tc (depends_on s.(transaction_dependencies)) k x.
Proof.
  intros Hs Hk Hx. destruct (remove_ok k s v Hs Hk Hx) as (s' & vs & E). exists s', vs. split; [done|].
  destruct (remove_inv _ _ _ _ Hs E) as (Hs' & Hf & Hn & Hsub & _). split; [done|]. intros x w. split.
  - intros Hw. split; [by apply Hsub|]. split; [intros ->|intros Ht]; [destruct (Hf k) as [_ ?]|destruct (Hf x) as [_ ?]];
      [by left|congruence|by right|congruence].
  - intros (Hw & Hxk & Hnt). destruct (s'.(transactions) !! x) as [w'|] eqn:Hx'; [apply Hsub in Hx'; congruence|].
    apply Hn in Hx' as [?|[?|?]]; [congruence|done|done].
Qed.

(** C39: Two transactions of the mempool, one of which spends an output of the other,
    that expire at the same height abort the node: whatever the order in which the
    expired transactions are removed, the poll that finds both expired panics, since
    removing the parent takes its child with it, and removing the child leaves it a
    dependent of its parent. *)
Theorem expired_family_aborts iter_errors now iter_ids live iter_handles c s d last_seen h lim p ch vp vc :
  storage_ok lim s → transactions s.(verified) !! p = Some vp → transactions s.(verified) !! ch = Some vc →
  depends_on (transaction_dependencies s.(verified)) p ch → is_expired h vp = true → is_expired h vc = true →
  remove_expired_transactions iter_errors now h s = Panic ∧
  poll_ready iter_errors now iter_ids live iter_handles c true None (Some h) [] (Enabled s d last_seen) = Panic.
Proof.
  intros (Hs & _) Hp Hc Hd Hep Hec.
  assert (remove_expired_transactions iter_errors now h s = Panic) as E.
  { assert (Hin : ∀ k v, transactions s.(verified) !! k = Some v → is_expired h v = true → k ∈ matching (is_expired h) s.(verified)).
    { intros k v Hv He. apply elem_of_matching. by exists v. }
    unfold remove_expired_transactions. rewrite remove_all_that_eq. fold (matching (is_expired h) s.(verified)).
    rewrite (remove_next_family _ p ch); [done|done|apply matching_nodup| | |done].
    - apply elem_of_matching. exists vp. split; [done|]. apply bool_decide_eq_true, elem_of_list_to_set.
      rewrite (proj1 (so_key _ Hs _ _ Hp)). by eapply Hin.
    - apply elem_of_matching. exists vc. split; [done|]. apply bool_decide_eq_true, elem_of_list_to_set.
      rewrite (proj1 (so_key _ Hs _ _ Hc)). by eapply Hin. }
  split; [done|]. unfold poll_ready, poll_enabled. cbn. by rewrite E.
Qed.

(** A transaction that was removed on its own is still a dependent of its parent, whose
    removal aborts. *)
Lemma removed_child_aborts lim s n s' ids ids' p ch vp vc : storage_ok lim s →
  transactions s.(verified) !! p = Some vp → transactions s.(verified) !! ch = Some vc →
  depends_on (transaction_dependencies s.(verified)) p ch → id_of vc ∈ ids → remove_exact ids s = Ret (n, s') →
  is_Some (transactions s'.(verified) !! p) → id_of vp ∈ ids' → remove_exact ids' s' = Panic.
Proof.
  intros (Hs & _) Hp Hc Hd Hic ([set r] & E & [= _ <-])%bind_Ret_inv [vp' Hp'] Hip. cbn in Hp' |- *.
  unfold remove_exact. cbn [verified with_verified]. rewrite remove_all_that_eq in E |- *.
  destruct (remove_next_inv _ _ _ _ _ Hs E) as [Hset Hk]. destruct (Hk _ _ Hp') as (Hp1 & _ & Hdp).
  assert (vp' = vp) as -> by (cbn in *; congruence).
  rewrite (remove_next_stale _ p ch); [done|done| | |].
  - apply elem_of_matching. exists vp. split; [done|]. by apply bool_decide_eq_true.
  - unfold depends_on, direct_dependents. by rewrite Hdp.
  - destruct (set.(transactions) !! ch) as [w|] eqn:Hw; [|done]. apply Hk in Hw as (Hw & Hn & _). destruct Hn. apply elem_of_matching.
    exists vc. split; [done|]. by apply bool_decide_eq_true.
Qed.

(** ** Dependencies of mined transactions *)

Lemma clear_dependent_id m t : (∀ k X, m !! k = Some X → k ∉ X) → clear_dependent m t = m.
Proof.
  intros Hm. unfold clear_dependent. destruct (m !! t) as [X|] eqn:Ht; [|done].
  rewrite difference_disjoint_L; [by apply insert_id|]. pose proof (Hm _ _ Ht). set_solver.
Qed.

Lemma clear_mined_dependencies_id ids d : (∀ k X, d.(dependencies) !! k = Some X → k ∉ X) →
  dependencies (clear_mined_dependencies ids d) = d.(dependencies).
Proof.
  intros Hd. unfold clear_mined_dependencies. revert d Hd. induction (iter_hashes ids) as [|i l IH]; intros d Hd; [done|]. cbn.
  assert (E : dependencies (clear_mined d i) = d.(dependencies)).
  { unfold clear_mined. cbn [dependencies]. induction (iter_hashes _) as [|t l' IH']; [done|]. cbn. by rewrite clear_dependent_id. }
  rewrite IH, E by (by rewrite E). done.
Qed.
End more.

(** ** Timeouts *)

(** A poll or a request that neither resets nor disables the mempool, nor mines [t], nor
    completes a task of [t]. *)
Inductive quiet_step `{Profile} (c : Config) (t : UnminedTxId) : ActiveState → ActiveState → Prop :=
| QuietPoll {Or : MempoolOrder} iter_errors now iter_ids live iter_handles tip best done a a' ch :
    match tip with Some (Grow b) => mined_id t ∉ b.(tip_transaction_hashes) | Some (Reset_ _ _) => False | None => True end →
    (∀ i r, (i, r) ∈ done → i ≠ t ∧ ∀ v sp h, r = Verified v sp h → id_of v = i) →
    poll_ready iter_errors now iter_ids live iter_handles c true tip best done a = Ret (a', ch) → quiet_step c t a a'
| QuietCall {Or : MempoolOrder} iter_errors now iter_ids req a r a' :
    call iter_errors now iter_ids req a = (r, a') → quiet_step c t a a'.

Definition handle_held (t : UnminedTxId) (a : ActiveState) : Prop :=
  match a with Enabled _ d _ => is_Some (d.(cancel_handles) !! t) | Disabled => False end.

Lemma download_keeps t g d : is_Some (d.(cancel_handles) !! t) → is_Some ((download_if_needed_and_verify g d).2.(cancel_handles) !! t).
Proof.
  intros Ht. unfold download_if_needed_and_verify. case_bool_decide; [done|]. destruct (_ <=? _)%nat; [done|]. cbn.
  destruct (decide (t = gossip_id g)) as [->|]; [rewrite lookup_insert_eq; by eexists|by rewrite lookup_insert_ne].
Qed.

Lemma collect_keeps `{Profile, MempoolOrder} iter_errors now best t x i r x' :
  i ≠ t → (∀ v sp h, r = Verified v sp h → id_of v = i) → is_Some (x.(c_downloads).(cancel_handles) !! t) →
  collect iter_errors now best x (i, r) = Ret x' → is_Some (x'.(c_downloads).(cancel_handles) !! t).
Proof.
  intros Hi Hv Ht. assert (Hp : is_Some ((poll_next i r x.(c_downloads)).(cancel_handles) !! t)).
  { unfold poll_next. cbn. destruct r as [v sp h|e|]; [rewrite (Hv v sp h eq_refl), lookup_delete_ne by done; done
      |by rewrite lookup_delete_ne by done|done]. }
  unfold collect. cbn [fst snd]. destruct r as [v sp h|e|].
  - destruct (decide _); [|intros [= <-]; by apply download_keeps]. by intros ([[|] s1] & _ & [= <-])%bind_Ret_inv.
  - by intros (s1 & _ & [= <-])%bind_Ret_inv.
  - by intros [= <-].
Qed.

Lemma queue_keeps_handle `{Profile} iter_errors now s t l : ∀ x, is_Some (x.1.(cancel_handles) !! t) →
  is_Some ((foldl (queue_one iter_errors now s) x l).1.(cancel_handles) !! t).
Proof.
  induction l as [|g l IH]; intros x Ht; [done|]. apply IH. unfold queue_one. destruct (should_download_or_verify _ _ _ _); [done|].
  pose proof (download_keeps t g _ Ht). by destruct (download_if_needed_and_verify _ _).
Qed.

Lemma poll_enabled_keeps `{Profile, MempoolOrder} iter_errors now iter_ids live tip best done s d h t a' ch :
  match tip with Some (Grow b) => mined_id t ∉ b.(tip_transaction_hashes) | Some (Reset_ _ _) => False | None => True end →
  (∀ i r, (i, r) ∈ done → i ≠ t ∧ ∀ v sp h, r = Verified v sp h → id_of v = i) → is_Some (d.(cancel_handles) !! t) →
  poll_enabled iter_errors now iter_ids live tip best done s d h = Ret (a', ch) → handle_held t a'.
Proof.
  intros Htip Hdone Ht (x & E & ([y ids] & E2 & (z & E3 & [= <- <-])%bind_Ret_inv)%bind_Ret_inv)%bind_Ret_inv.
  assert (is_Some (x.(c_downloads).(cancel_handles) !! t)) as Hx.
  { revert E. apply (for_each_inv (λ x, is_Some (x.(c_downloads).(cancel_handles) !! t))); [|done].
    intros [i r] x1 x2 [Hi Hv]%Hdone H1. by eapply collect_keeps. }
  assert (is_Some (y.(c_downloads).(cancel_handles) !! t)) as Hy.
  { destruct tip as [[b|]|]; [|by injection E2 as <- <-..]. destruct Hx as [g Hg].
    apply bind_Ret_inv in E2 as ([[? ?] ?] & _ & (? & _ & [= <- _])%bind_Ret_inv). exists g. cbn. apply map_lookup_filter_Some.
    split; [done|]. cbn. by rewrite elem_of_list_to_set. }
  destruct best; [|by injection E3 as <-]. by apply bind_Ret_inv in E3 as ([r s3] & _ & [= <-]).
Qed.

Lemma quiet_step_keeps `{Profile} c t a a' : quiet_step c t a a' → handle_held t a → handle_held t a'.
Proof.
  intros [Or ie now ii live ih tip best dn a0 a1 ch Htip Hdone E|Or ie now ii req a0 r a1 E] Ha; (destruct a0 as [|s d h]; [done|]).
  - unfold poll_ready in E. cbn [update_state is_enabled orb] in E. destruct tip as [[b|]|]; [|done|].
    + exact (poll_enabled_keeps ie now ii live (Some (Grow b)) _ _ _ _ _ _ _ _ Htip Hdone Ha E).
    + exact (poll_enabled_keeps ie now ii live None _ _ _ _ _ _ _ _ Htip Hdone Ha E).
  - destruct req; try (injection E as <- <-; done). cbn in E.
    pose proof (queue_keeps_handle ie now s t gossiped_txs (d, []) Ha) as Hq. destruct (foldl _ _ _) as [d' rs]. by injection E as <- <-.
Qed.

(** A transaction whose download or verification times out is never verified
    again: the timeout does not say which transaction it was about, so its handle stays,
    and every later request to queue it, by its id or in full, is refused, and queues
    nothing, until the mempool is reset or disabled or a block contains the
    transaction. *)
Theorem timed_out_never_retried `{Profile, MempoolOrder} iter_errors now iter_ids c t d s h g a :
  d.(cancel_handles) !! t = Some g → rtc (quiet_step c t) (Enabled s (poll_next t Elapsed d) h) a →
  ∃ s' d' h', a = Enabled s' d' h' ∧ is_Some (d'.(cancel_handles) !! t) ∧
    ∀ g', gossip_id g' = t → ∃ e, call iter_errors now iter_ids (Queue [g']) a = (RQueued [inl e], a).
Proof.
  intros Hg Hr. assert (handle_held t a) as Ha.
  { revert Hr. apply (rtc_ind_r (handle_held t)); [by exists g|]. intros a1 a2 _ Hst. by eapply quiet_step_keeps. }
  destruct a as [|s' d' h']; [done|]. exists s', d', h'. split_and!; [done|done|]. intros g' Hg'. cbn. unfold queue_one. rewrite Hg'.
  destruct (should_download_or_verify _ _ _ _) as [e|]; [by exists e|]. unfold download_if_needed_and_verify. rewrite Hg'.
  cbn in Ha |- *. rewrite bool_decide_eq_true_2 by done. by exists AlreadyQueued.
Qed.
