(* ===== verification/Template.v ===== *)
(** * Template: the transactions of a block template

    Models [zebra-rpc/src/methods/types/get_block_template/zip317.rs]: the choice of the
    transactions of the mempool that a block template contains.

    The random choice, which floating-point weights drive, is a parameter: of a list of
    candidates it yields a position, or none when there are no candidates or their
    weights are not valid.  The coinbase transaction that stands for the real one is its
    size and its signature operations. *)

From stdpp Require Import base list gmap sets countable.
From S2P Require Import Prelude Wire Encoding Bft Roster Amount Staking Transparent Network Subsidy Transaction BlockVerifier Unmined Mempool.

Class Choice := pick : list VerifiedUnminedTx → option nat.
Class ChoiceLaws (C : Choice) : Prop := {
  pick_lt l i : pick l = Some i → (i < length l)%nat;
  pick_nil : pick [] = None }.

(** ** Limits *)

Record Limits := mk_limits {
  remaining_block_bytes : Z;
  remaining_block_sigops : Z;
  remaining_block_unpaid_actions : Z }.

(** [TryUpdateBlockLimits]: what is left when the transaction fits. *)
Definition try_update_block_template_limits (v : VerifiedUnminedTx) (l : Limits) : option Limits :=
  if (v.(transaction).(utx_size) <=? l.(remaining_block_bytes)) && (v.(sigops) <=? l.(remaining_block_sigops))
     && (v.(unpaid_actions) <=? l.(remaining_block_unpaid_actions))
  then Some (mk_limits (l.(remaining_block_bytes) - v.(transaction).(utx_size)) (l.(remaining_block_sigops) - v.(sigops))
               (l.(remaining_block_unpaid_actions) - v.(unpaid_actions)))
  else None.

(** ** Dependencies *)

Definition template_id (v : VerifiedUnminedTx) : bytes := mined_id (id_of v).

Fixpoint count_deps (deps : gset bytes) (n : nat) (selected : list VerifiedUnminedTx) : bool :=
  match selected with
  | [] => false
  | v :: selected =>
      if decide (template_id v ∈ deps) then if decide (S n = size deps) then true else count_deps deps (S n) selected
      else count_deps deps n selected
  end.
Definition has_direct_dependencies (candidate_tx_deps : option (gset bytes)) (selected : list VerifiedUnminedTx) : bool :=
  match candidate_tx_deps with
  | None => true
  | Some deps => if (length selected <? size deps)%nat then false else count_deps deps 0 selected
  end.

(** ** Selection *)

Record Selection := mk_selection {
  selected_txs : list VerifiedUnminedTx;
  dependent_txs : gmap bytes VerifiedUnminedTx;
  limits : Limits }.

(** [Vec::swap_remove] *)
Definition swap_remove {A} (i : nat) (l : list A) : outcome (A * list A) :=
  x ← unwrap (l !! i);
  z ← unwrap (l !! (length l - 1)%nat);
  Ret (x, take (length l - 1) (<[i := z]> l)).

Section select.
Context {P : Profile} {Or : MempoolOrder} {C : Choice} (mempool_tx_deps : TransactionDependencies).

Definition dependents_of (k : bytes) : gset bytes := default ∅ (mempool_tx_deps.(dependents) !! k).

(** One dependent of the current level. *)
Definition add_dependent_tx (x : Selection * gset bytes) (dependent_tx_id : bytes) : Selection * gset bytes :=
  let '(s, next) := x in
  if has_direct_dependencies (mempool_tx_deps.(dependencies) !! dependent_tx_id) s.(selected_txs) then
    match s.(dependent_txs) !! dependent_tx_id with
    | None => x
    | Some candidate_tx =>
        let s := mk_selection s.(selected_txs) (delete dependent_tx_id s.(dependent_txs)) s.(limits) in
        if negb (pays_conventional_fee candidate_tx) then (s, next)
        else match try_update_block_template_limits candidate_tx s.(limits) with
             | None => (s, next)
             | Some l => (mk_selection (s.(selected_txs) ++ [candidate_tx]) s.(dependent_txs) l, next ∪ dependents_of dependent_tx_id)
             end
    end
  else x.
(** [fuel] bounds the levels; every level but the last selects a dependent. *)
Fixpoint add_levels (fuel : nat) (level : gset bytes) (s : Selection) : outcome Selection :=
  if decide (level = ∅) then Ret s
  else match fuel with
       | O => Panic
       | S fuel => let '(s, next) := foldl add_dependent_tx (s, ∅) (iter_hashes level) in add_levels fuel next s
       end.

(** The [debug_assert!] is compiled in the profile that checks overflows. *)
Definition add_candidate (candidate_tx : VerifiedUnminedTx) (s : Selection) : outcome Selection :=
  match try_update_block_template_limits candidate_tx s.(limits) with
  | None => Ret s
  | Some l =>
      _ ← assert_ (negb overflow_checks || bool_decide (mempool_tx_deps.(dependencies) !! template_id candidate_tx = None));
      add_levels (S (size s.(dependent_txs))) (dependents_of (template_id candidate_tx))
        (mk_selection (s.(selected_txs) ++ [candidate_tx]) s.(dependent_txs) l)
  end.
(** The loop over the candidates; every round takes one of them. *)
Fixpoint add_candidates (fuel : nat) (candidate_txs : list VerifiedUnminedTx) (s : Selection) : outcome Selection :=
  match pick candidate_txs with
  | None => Ret s
  | Some i =>
      match fuel with
      | O => Panic
      | S fuel =>
          x ← swap_remove i candidate_txs;
          s ← add_candidate x.1 s;
          add_candidates fuel x.2 s
      end
  end.

Definition by_id (txs : list VerifiedUnminedTx) : gmap bytes VerifiedUnminedTx := foldl (λ m v, <[template_id v := v]> m) ∅ txs.
Definition independent (v : VerifiedUnminedTx) : bool := bool_decide (mempool_tx_deps.(dependencies) !! template_id v = None).

Definition select_mempool_transactions (coinbase_size coinbase_sigops : Z) (mempool_txs : list VerifiedUnminedTx)
    : outcome (list VerifiedUnminedTx) :=
  let independent_mempool_txs := by_id (List.filter independent mempool_txs) in
  let dependent_mempool_txs := by_id (List.filter (λ v, negb (independent v)) mempool_txs) in
  let candidates := map snd (iter_transactions independent_mempool_txs) in
  let conventional_fee_txs := List.filter pays_conventional_fee candidates in
  let low_fee_txs := List.filter (λ v, negb (pays_conventional_fee v)) candidates in
  bytes_left ← arith 64 (MAX_BLOCK_BYTES - coinbase_size);
  sigops_left ← arith 32 (MAX_BLOCK_SIGOPS - coinbase_sigops);
  s ← add_candidates (length conventional_fee_txs) conventional_fee_txs
        (mk_selection [] dependent_mempool_txs (mk_limits bytes_left sigops_left zip317.BLOCK_UNPAID_ACTION_LIMIT));
  s ← add_candidates (length low_fee_txs) low_fee_txs s;
  Ret s.(selected_txs).
End select.
