(* ===== verification/TemplateInv.v ===== *)
(** * TemplateInv: what a block template contains

    - the choice of transactions always ends, within the limits of a block, and a
      transaction comes after those it depends on;
    - a transaction that spent an output of a transaction mined since is in no template:
      its dependency is not cleared. *)

From stdpp Require Import base list gmap sets countable relations.
From S2P Require Import Prelude Wire Encoding Bft Roster Amount Staking Transparent Network Subsidy Transaction ChainTip Unmined Mempool MempoolService MempoolInv Template.

(** ** Lists *)

Lemma swap_remove_spec {A} i (l : list A) : (i < length l)%nat → ∃ x l', swap_remove i l = Ret (x, l') ∧ x :: l' ≡ₚ l.
Proof.
  intros Hi. destruct l as [|a l] using rev_ind; [cbn in Hi; lia|clear IHl]. rewrite length_app in Hi. cbn in Hi.
  unfold swap_remove. rewrite length_app. cbn [length]. replace (length l + 1 - 1)%nat with (length l) by lia.
  rewrite (list_lookup_middle l [] a (length l)) by done. destruct (decide (i = length l)) as [->|Hne].
  - rewrite (list_lookup_middle l [] a (length l)) by done. cbn [unwrap mbind outcome_bind]. exists a, l. split; [|apply Permutation_cons_append].
    rewrite list_insert_id by (by apply list_lookup_middle). by rewrite take_app_length.
  - assert (i < length l)%nat as Hl by lia. destruct (lookup_lt_is_Some_2 l i Hl) as [x Hx].
    rewrite lookup_app_l, Hx by done. cbn [unwrap mbind outcome_bind]. exists x, (<[i := a]> l).
    rewrite insert_app_l by done. rewrite take_app_length' by (by rewrite length_insert). split; [done|].
    rewrite insert_take_drop by done. rewrite <- (take_drop_middle l i x Hx) at 3. rewrite <- app_assoc. cbn.
    rewrite <- (Permutation_middle (take i l) _ x). constructor. apply Permutation_app_head. rewrite Permutation_cons_append. done.
Qed.

(** ** Dependencies *)

Lemma count_deps_le deps l : ∀ n, count_deps deps n l = true → (size deps ≤ n + length (filter (.∈ deps) (map template_id l)))%nat.
Proof.
  induction l as [|v l IH]; intros n; cbn [count_deps]; [done|]. cbn [map]. rewrite filter_cons.
  destruct (decide (template_id v ∈ deps)) as [Hv|Hv]; [|apply IH]. cbn [length].
  destruct (decide (S n = size deps)) as [<-|_]; [lia|]. intros Hc%IH. lia.
Qed.

Lemma has_direct_dependencies_sound deps l : NoDup (map template_id l) → has_direct_dependencies (Some deps) l = true →
  ∀ p, p ∈ deps → p ∈ map template_id l.
Proof.
  intros Hl. unfold has_direct_dependencies. case_match; [done|]. intros Hc%count_deps_le p Hp. cbn in Hc. set (l' := filter (.∈ deps) (map template_id l)) in *.
  assert (NoDup l') as Hn by (by apply list_relations.list.NoDup_filter).
  assert (list_to_set l' = deps) as Heq.
  { apply set_subseteq_size_eq; [|by rewrite size_list_to_set]. intros x Hx. apply elem_of_list_to_set, list_elem_of_filter in Hx as [? _]. done. }
  rewrite <- Heq in Hp. by apply elem_of_list_to_set, list_elem_of_filter in Hp as [_ ?].
Qed.

Section select.
Context {P : Profile} {Or : MempoolOrder} {Ol : MempoolOrderLaws Or} {C : Choice} {Cl : ChoiceLaws C}.
Context (deps : TransactionDependencies) (M : list VerifiedUnminedTx) (L0 : Limits).

(** Every transaction comes after those it depends on. *)
Definition deps_before (l : list VerifiedUnminedTx) : Prop :=
  ∀ i v X p, l !! i = Some v → deps.(dependencies) !! template_id v = Some X → p ∈ X →
    ∃ j w, (j < i)%nat ∧ l !! j = Some w ∧ template_id w = p.

Lemma deps_before_snoc l v : deps_before l →
  (∀ X, deps.(dependencies) !! template_id v = Some X → ∀ p, p ∈ X → p ∈ map template_id l) → deps_before (l ++ [v]).
Proof.
  intros Hl Hv i w X p Hi HX Hp. apply lookup_app_Some in Hi as [Hi|[Hge Hi]].
  - destruct (Hl i w X p Hi HX Hp) as (j & u & Hj & Hu & Hid). exists j, u. split_and!; [done| |done]. by apply lookup_app_l_Some.
  - apply list_lookup_singleton_Some in Hi as [Hi <-]. apply (Hv X HX), list_elem_of_fmap in Hp as (u & -> & [j Hj]%list_elem_of_lookup).
    exists j, u. apply lookup_lt_Some in Hj as Hlt. split_and!; [lia| |done]. by apply lookup_app_l_Some.
Qed.

(** The numbers of a transaction are unsigned. *)
Definition tx_unsigned (v : VerifiedUnminedTx) : Prop := 0 ≤ v.(transaction).(utx_size) ∧ 0 ≤ v.(sigops) ∧ 0 ≤ v.(unpaid_actions).
Definition used (l : list VerifiedUnminedTx) (x : Limits) : Prop :=
  x.(remaining_block_bytes) = L0.(remaining_block_bytes) - zsum (map (λ v, v.(transaction).(utx_size)) l) ∧
  x.(remaining_block_sigops) = L0.(remaining_block_sigops) - zsum (map sigops l) ∧
  x.(remaining_block_unpaid_actions) = L0.(remaining_block_unpaid_actions) - zsum (map unpaid_actions l) ∧
  0 ≤ x.(remaining_block_bytes) ∧ 0 ≤ x.(remaining_block_sigops) ∧ 0 ≤ x.(remaining_block_unpaid_actions).

Lemma used_snoc l v x x' : used l x → try_update_block_template_limits v x = Some x' → used (l ++ [v]) x'.
Proof.
  unfold used, try_update_block_template_limits. intros (H1 & H2 & H3 & H4 & H5 & H6). destruct (_ && _) eqn:E; [|done]. intros [= <-].
  rewrite !andb_true_iff, !Z.leb_le in E. rewrite !map_app, !zsum_app. cbn. lia.
Qed.

(** The state of the choice, with the candidates that are left. *)
Record sel_ok (cands : list VerifiedUnminedTx) (s : Selection) : Prop := {
  se_used : used s.(selected_txs) s.(limits);
  se_nodup : NoDup (map template_id (s.(selected_txs) ++ cands));
  se_from v : v ∈ s.(selected_txs) ++ cands → v ∈ M;
  se_dep k v : s.(dependent_txs) !! k = Some v → template_id v = k ∧ v ∈ M ∧ k ∉ map template_id (s.(selected_txs) ++ cands);
  se_ind v : v ∈ cands → deps.(dependencies) !! template_id v = None;
  se_before : deps_before s.(selected_txs) }.

Lemma sel_ok_perm l l' s : l ≡ₚ l' → sel_ok l s → sel_ok l' s.
Proof.
  intros Hp [H1 H2 H3 H4 H5 H6]. assert (s.(selected_txs) ++ l' ≡ₚ s.(selected_txs) ++ l) as Hq by (by apply Permutation_app_head).
  pose proof (Permutation_map template_id Hq) as Hm. split; [done|by rewrite Hm| | | |done].
  - intros v Hv. apply H3. by rewrite <- Hq.
  - intros k v (? & ? & Hn)%H4. split_and!; [done|done|]. by rewrite Hm.
  - intros v Hv. apply H5. by rewrite Hp.
Qed.

Lemma sel_ok_sub l l' s : sel_ok (l ++ l') s → sel_ok l' s.
Proof.
  intros [H1 H2 H3 H4 H5 H6]. assert (s.(selected_txs) ++ l' ⊆+ s.(selected_txs) ++ (l ++ l')) as Hs
    by (by apply submseteq_skips_l, submseteq_inserts_l).
  split; [done| | | | |done].
  - apply submseteq_Permutation in Hs as [k Hk]. rewrite Hk, map_app in H2. by apply list_relations.list.NoDup_app in H2 as [? _].
  - intros v Hv. apply H3. by eapply elem_of_submseteq.
  - intros k v (? & ? & Hn)%H4. split_and!; [done|done|]. intros Hk. apply Hn. eapply elem_of_submseteq; [exact Hk|]. by apply fmap_submseteq.
  - intros v Hv. apply H5. apply elem_of_app. by right.
Qed.

Lemma sel_ok_push l v s x' : sel_ok (v :: l) s → try_update_block_template_limits v s.(limits) = Some x' →
  sel_ok l (mk_selection (s.(selected_txs) ++ [v]) s.(dependent_txs) x').
Proof.
  intros [H1 H2 H3 H4 H5 H6] Ht. split; cbn [selected_txs dependent_txs limits]; [by eapply used_snoc|..]; rewrite <- ?app_assoc; [done|done|done| |].
  - intros w Hw. apply H5. by right.
  - apply deps_before_snoc; [done|]. intros X HX. rewrite H5 in HX by left. done.
Qed.

Lemma sel_ok_drop k l s : sel_ok l s → sel_ok l (mk_selection s.(selected_txs) (delete k s.(dependent_txs)) s.(limits)).
Proof. intros [H1 H2 H3 H4 H5 H6]. split; try done. cbn. intros k' v [_ Hk]%lookup_delete_Some. by apply H4. Qed.

Lemma add_dependent_tx_ok l s next k s' next' : sel_ok l s → add_dependent_tx deps (s, next) k = (s', next') →
  sel_ok l s' ∧ (size s'.(dependent_txs) ≤ size s.(dependent_txs))%nat ∧
  (next' = next ∨ (size s'.(dependent_txs) < size s.(dependent_txs))%nat).
Proof.
  intros Hs. unfold add_dependent_tx. destruct (has_direct_dependencies _ _) eqn:Hd; [|intros [= <- <-]; by split_and!; [| |left]].
  destruct (s.(dependent_txs) !! k) as [v|] eqn:Hv; [|intros [= <- <-]; by split_and!; [| |left]].
  pose proof (map_size_delete_Some k s.(dependent_txs) (mk_is_Some _ _ Hv)) as Hz.
  assert (size s.(dependent_txs) ≠ 0%nat) as Hnz by (intros Hnz%map_size_empty_inv; by rewrite Hnz, lookup_empty in Hv).
  pose proof (sel_ok_drop k l s Hs) as Hs1. destruct (negb _); [intros [= <- <-]; cbn; split_and!; [done|lia|by left]|].
  destruct (try_update_block_template_limits _ _) as [x|] eqn:Ht; [|intros [= <- <-]; cbn; split_and!; [done|lia|by left]].
  intros [= <- <-]. cbn [dependent_txs]. split_and!; [|lia|right; lia]. destruct (se_dep _ _ Hs _ _ Hv) as (<- & HM & Hn).
  destruct Hs1 as [H1 H2 H3 H4 H5 H6]. cbn [selected_txs dependent_txs limits] in *.
  assert (s.(selected_txs) ++ [v] ++ l ≡ₚ v :: (s.(selected_txs) ++ l)) as Hq by (symmetry; apply Permutation_middle).
  pose proof (Permutation_map template_id Hq) as Hm. cbn [map] in Hm.
  split; cbn [selected_txs dependent_txs limits]; [by eapply used_snoc|..]; rewrite <- ?app_assoc.
  - rewrite Hm. by constructor.
  - intros w Hw. rewrite Hq in Hw. apply elem_of_cons in Hw as [->|?]; [done|by apply H3].
  - intros k' w Hk. destruct (H4 _ _ Hk) as (? & ? & Hn'). split_and!; [done|done|]. rewrite Hm. intros [->|?]%elem_of_cons; [|done].
    by rewrite lookup_delete_eq in Hk.
  - done.
  - apply deps_before_snoc; [done|]. intros X HX p Hp.
    assert (has_direct_dependencies (Some X) s.(selected_txs) = true) as Hd' by (rewrite <- HX; exact Hd).
    eapply has_direct_dependencies_sound; [|exact Hd'|done].
    rewrite map_app in H2. by apply list_relations.list.NoDup_app in H2 as [? _].
Qed.

Lemma add_level_ok l ks : ∀ s next s' next', sel_ok l s → foldl (add_dependent_tx deps) (s, next) ks = (s', next') →
  sel_ok l s' ∧ (size s'.(dependent_txs) ≤ size s.(dependent_txs))%nat ∧
  (next' = next ∨ (size s'.(dependent_txs) < size s.(dependent_txs))%nat).
Proof.
  induction ks as [|k ks IH]; intros s next s' next' Hs; cbn [foldl]; [intros [= <- <-]; by split_and!; [| |left]|].
  destruct (add_dependent_tx deps (s, next) k) as [s1 next1] eqn:E. destruct (add_dependent_tx_ok _ _ _ _ _ _ Hs E) as (Hs1 & Hz1 & Hn1).
  intros (Hs' & Hz' & Hn')%IH; [|done]. split_and!; [done|lia|]. destruct Hn' as [->|]; [destruct Hn1 as [->|]; [by left|right; lia]|right; lia].
Qed.

Lemma add_levels_ok l fuel : ∀ level s, sel_ok l s → level = ∅ ∨ (size s.(dependent_txs) < fuel)%nat →
  ∃ s', add_levels deps fuel level s = Ret s' ∧ sel_ok l s'.
Proof.
  induction fuel as [|fuel IH]; intros level s Hs Hf; cbn [add_levels];
    destruct (decide (level = ∅)) as [->|Hne]; [by exists s|destruct Hf; [done|lia]|by exists s|].
  destruct (foldl _ _ _) as [s1 next] eqn:E. destruct (add_level_ok _ _ _ _ _ _ Hs E) as (Hs1 & Hz & Hn). apply IH; [done|].
  destruct Hn as [->|Hlt]; [by left|right]. destruct Hf; [done|lia].
Qed.

Lemma add_candidate_ok l v s : sel_ok (v :: l) s → ∃ s', add_candidate deps v s = Ret s' ∧ sel_ok l s'.
Proof.
  intros Hs. unfold add_candidate. destruct (try_update_block_template_limits _ _) as [x|] eqn:Ht.
  - rewrite bool_decide_eq_true_2 by (apply (se_ind _ _ Hs); left). rewrite orb_true_r. cbn [assert_ mbind outcome_bind].
    apply add_levels_ok; [by apply sel_ok_push|]. right. cbn. lia.
  - exists s. split; [done|]. by apply (sel_ok_sub [v]).
Qed.

Lemma add_candidates_ok rest fuel : ∀ l s, (length l ≤ fuel)%nat → sel_ok (l ++ rest) s →
  ∃ s', add_candidates deps fuel l s = Ret s' ∧ sel_ok rest s'.
Proof.
  induction fuel as [|fuel IH]; intros l s Hl Hs; cbn [add_candidates].
  - destruct l; [|cbn in Hl; lia]. rewrite pick_nil. by exists s.
  - destruct (pick l) as [i|] eqn:Ei; [|exists s; split; [done|]; by eapply sel_ok_sub].
    destruct (swap_remove_spec i l (pick_lt _ _ Ei)) as (v & l' & -> & Hp). cbn [mbind outcome_bind fst snd].
    destruct (add_candidate_ok (l' ++ rest) v s) as (s1 & -> & Hs1).
    { eapply sel_ok_perm; [|exact Hs]. symmetry. apply (Permutation_app_tail rest Hp). }
    cbn [mbind outcome_bind]. apply IH; [|done]. apply Permutation_length in Hp. cbn in Hp. lia.
Qed.
End select.

(** ** The candidates *)

Lemma by_id_Some l k v : by_id l !! k = Some v → template_id v = k ∧ v ∈ l.
Proof.
  induction l as [|w l IH] using rev_ind; [done|]. unfold by_id in *. rewrite foldl_app. cbn. intros [[<- <-]|[_ Hk]]%lookup_insert_Some.
  - split; [done|]. apply elem_of_app. right. by left.
  - apply IH in Hk as [? ?]. split; [done|]. apply elem_of_app. by left.
Qed.

Lemma filter_split {A} (f : A → bool) l : List.filter f l ++ List.filter (λ x, negb (f x)) l ≡ₚ l.
Proof.
  induction l as [|x l IH]; [done|]. cbn. destruct (f x); cbn; [by constructor|].
  etransitivity; [symmetry; apply Permutation_middle|]. by constructor.
Qed.

Section candidates.
Context {Or : MempoolOrder} {Ol : MempoolOrderLaws Or} (deps : TransactionDependencies) (M : list VerifiedUnminedTx).

Definition candidates_of : list VerifiedUnminedTx := map snd (iter_transactions (by_id (List.filter (independent deps) M))).

Lemma candidates_spec v : v ∈ candidates_of → v ∈ M ∧ deps.(dependencies) !! template_id v = None.
Proof.
  unfold candidates_of. intros ([k w] & -> & Hx)%list_elem_of_fmap. rewrite iter_transactions_perm in Hx.
  apply elem_of_map_to_list, by_id_Some in Hx as [_ Hx]. apply list_elem_of_In, filter_In in Hx as [Hx Hi].
  split; [by apply list_elem_of_In|by apply bool_decide_eq_true in Hi].
Qed.

Lemma candidates_nodup : NoDup (map template_id candidates_of).
Proof.
  unfold candidates_of. set (m := by_id _). rewrite map_map.
  assert (map (λ x, template_id x.2) (iter_transactions m) = map fst (iter_transactions m)) as ->.
  { apply map_ext_in. intros [k v] Hx%list_elem_of_In. rewrite iter_transactions_perm in Hx. by apply elem_of_map_to_list, by_id_Some in Hx as [? _]. }
  eapply NoDup_Permutation_proper; [apply (Permutation_map fst (iter_transactions_perm m))|]. apply NoDup_fst_map_to_list.
Qed.

Lemma first_selection_ok x : 0 ≤ x.(remaining_block_bytes) → 0 ≤ x.(remaining_block_sigops) → 0 ≤ x.(remaining_block_unpaid_actions) →
  sel_ok deps M x candidates_of (mk_selection [] (by_id (List.filter (λ v, negb (independent deps v)) M)) x).
Proof.
  intros H1 H2 H3. split; cbn [selected_txs dependent_txs limits app].
  - unfold used. cbn. lia.
  - apply candidates_nodup.
  - intros v Hv. by apply candidates_spec.
  - intros k v [Hk Hv]%by_id_Some. apply list_elem_of_In, filter_In in Hv as [Hv Hi]. split_and!; [done|by apply list_elem_of_In|].
    intros (w & -> & [_ Hw]%candidates_spec)%list_elem_of_fmap. unfold independent in Hi. rewrite Hk in Hi.
    by rewrite bool_decide_eq_true_2 in Hi by done.
  - intros v Hv. by apply candidates_spec.
  - intros i v X p Hi. by rewrite lookup_nil in Hi.
Qed.
End candidates.

Section select_ops.
Context {P : Profile} {Or : MempoolOrder} {Ol : MempoolOrderLaws Or} {C : Choice} {Cl : ChoiceLaws C}.

Lemma select_ok deps M size ops : is_u 64 (MAX_BLOCK_BYTES - size) → is_u 32 (BlockVerifier.MAX_BLOCK_SIGOPS - ops) →
  ∃ s, select_mempool_transactions deps size ops M = Ret s.(selected_txs) ∧
    sel_ok deps M (mk_limits (MAX_BLOCK_BYTES - size) (BlockVerifier.MAX_BLOCK_SIGOPS - ops) 0) [] s.
Proof.
  intros Hz Ho. unfold select_mempool_transactions. rewrite arith_ok by done. cbn [mbind outcome_bind]. rewrite arith_ok by done. cbn [mbind outcome_bind].
  set (x := mk_limits _ _ _). fold (candidates_of deps M).
  pose proof (first_selection_ok deps M x ltac:(apply Hz) ltac:(apply Ho) ltac:(done)) as Hi.
  apply (sel_ok_perm _ _ _ _ _ _ (Permutation_sym (filter_split pays_conventional_fee (candidates_of deps M)))) in Hi.
  destruct (add_candidates_ok deps M x (List.filter (λ v, negb (pays_conventional_fee v)) (candidates_of deps M)) _ _ _ (le_n _) Hi) as (s1 & -> & Hs1).
  cbn [mbind outcome_bind]. rewrite <- (app_nil_r (List.filter (λ v, negb (pays_conventional_fee v)) _)) in Hs1.
  destruct (add_candidates_ok deps M x [] _ _ _ (le_n _) Hs1) as (s2 & -> & Hs2). exists s2. split; [done|exact Hs2].
Qed.

(** C25: The choice of the transactions of a block template always ends, whatever the
    transactions of the mempool, their dependencies and the random choices, and what it
    chooses fits: with the coinbase transaction the transactions are within the sizes of
    a block and the limit on signature operations, none of them has unpaid actions, none
    is chosen twice, all are in the mempool, and every transaction comes after all those
    it depends on. *)
Theorem template_fits deps mempool_txs coinbase_size coinbase_sigops :
  0 ≤ coinbase_size ≤ MAX_BLOCK_BYTES → 0 ≤ coinbase_sigops ≤ BlockVerifier.MAX_BLOCK_SIGOPS →
  Forall tx_unsigned mempool_txs →
  ∃ sel, select_mempool_transactions deps coinbase_size coinbase_sigops mempool_txs = Ret sel ∧
    coinbase_size + zsum (map (λ v, v.(transaction).(utx_size)) sel) ≤ MAX_BLOCK_BYTES ∧
    coinbase_sigops + zsum (map sigops sel) ≤ BlockVerifier.MAX_BLOCK_SIGOPS ∧
    (∀ v, v ∈ sel → v ∈ mempool_txs ∧ v.(unpaid_actions) = 0) ∧ NoDup (map template_id sel) ∧ deps_before deps sel.
Proof.
  intros Hz Ho Hu. destruct (select_ok deps mempool_txs coinbase_size coinbase_sigops) as (s & E & [(H1 & H2 & H3 & H4 & H5 & H6) Hn Hf _ _ Hb]).
  { unfold is_u, MAX_BLOCK_BYTES in *. lia. }
  { unfold is_u, BlockVerifier.MAX_BLOCK_SIGOPS in *. lia. }
  exists s.(selected_txs). cbn in H1, H2, H3. rewrite app_nil_r in Hn, Hf. split_and!; [done|lia|lia| |done|done].
  intros v Hv. split; [by apply Hf|]. rewrite Forall_forall in Hu. destruct (Hu v (Hf v Hv)) as (_ & _ & Hpos).
  assert (v.(unpaid_actions) ≤ zsum (map unpaid_actions s.(selected_txs))); [|lia].
  apply zsum_elem_le; [|by apply list_elem_of_fmap_2]. apply Forall_forall. intros y (w & -> & Hw)%list_elem_of_fmap. by apply Hu, Hf.
Qed.

(** C40: A transaction that spent an output of another transaction of the mempool is in no
    block template once that one is mined: the dependency on the mined transaction is
    not cleared when the block arrives, and a template takes a transaction only after
    all its dependencies. *)
Theorem mined_parent_blocks_child deps mempool_txs size ops ids p v X :
  (∀ k X, deps.(dependencies) !! k = Some X → k ∉ X) → deps.(dependencies) !! template_id v = Some X → p ∈ X → p ∈ ids →
  (∀ w, w ∈ mempool_txs → template_id w ≠ p) → 0 ≤ size ≤ MAX_BLOCK_BYTES → 0 ≤ ops ≤ BlockVerifier.MAX_BLOCK_SIGOPS →
  ∃ sel, select_mempool_transactions (clear_mined_dependencies ids deps) size ops mempool_txs = Ret sel ∧ v ∉ sel.
Proof.
  intros Hd HX Hp _ Hm Hz Ho. destruct (select_ok (clear_mined_dependencies ids deps) mempool_txs size ops) as (s & E & [_ _ Hf _ _ Hb]).
  { unfold is_u, MAX_BLOCK_BYTES in *. lia. }
  { unfold is_u, BlockVerifier.MAX_BLOCK_SIGOPS in *. lia. }
  exists s.(selected_txs). split; [done|]. intros [i Hi]%list_elem_of_lookup. rewrite app_nil_r in Hf.
  destruct (Hb i v X p Hi) as (j & w & _ & Hw & Hid); [by rewrite clear_mined_dependencies_id|done|].
  apply (Hm w); [|done]. by apply Hf, list_elem_of_lookup_2 with j.
Qed.
End select_ops.
