(* ===== verification/MempoolScenario.v ===== *)
(** * MempoolScenario: a parent and its child in the mempool

    A transaction and one that spends its output are verified and inserted; the theorems
    on the mempool and on block templates hold of them at the concrete inputs below. *)

From stdpp Require Import base list gmap sets countable relations.
From S2P Require Import Prelude Wire Encoding Bft Roster Amount Staking Transparent Network Subsidy Transaction ChainTip Unmined Mempool MempoolService MempoolInv Template TemplateInv.

#[local] Instance mempool_profile : Profile := true.
#[local] Instance mempool_order : MempoolOrder := {|
  iter_hashes := elements;
  iter_transactions := map_to_list;
  sample _ := 0%nat |}.
#[local] Instance mempool_order_laws : MempoolOrderLaws mempool_order.
Proof. split; [done|done|]. intros [|w ws] H; [done|]. cbn. lia. Qed.
#[local] Instance first_choice : Choice := λ l, match l with [] => None | _ => Some 0%nat end.
#[local] Instance first_choice_laws : ChoiceLaws first_choice.
Proof. split; [|done]. intros [|v l] i; [done|]. intros [= <-]. cbn. lia. Qed.

(** ** Transactions *)

(** A transaction is known by a byte, and spends one output. *)
Definition spend (from : byte) (expiry : Z) : Transaction :=
  V5 Nu6 unlocked expiry [PrevOut ([from], 0) 0] [new_coinbase 1000 []] None None.
Definition unmined (name from : byte) (expiry : Z) : VerifiedUnminedTx :=
  mk_verified {| utx_transaction := spend from expiry; utx_id := Witnessed [name] [name]; utx_size := 300; conventional_fee := 10000 |}
    10000 0 0 None.
Definition parent : VerifiedUnminedTx := unmined Byte.x01 Byte.x00 40.
Definition child : VerifiedUnminedTx := unmined Byte.x02 Byte.x01 40.

Definition conf : Config := {| config_tx_cost_limit := 80000000; config_eviction_memory_time := 3600; debug_enable_at_height := None |}.
Definition iter_ids : gset UnminedTxId → list UnminedTxId := elements.
Definition live (o : OutPoint) : bool := true.
Definition iter_handles (m : gmap UnminedTxId Gossip) : list Gossip := map snd (map_to_list m).
Definition poll := poll_ready [Expired; DuplicateSpend; Mined; RandomlyEvicted] 0 iter_ids live iter_handles conf.

(** ** The mempool with both *)

Definition start : ActiveState := Enabled (new_storage 3600 80000000) no_downloads [Byte.x0a].
Definition arrived : list (UnminedTxId * DownloadResult) :=
  [(id_of parent, Verified parent [] (Some 10)); (id_of child, Verified child [([Byte.x01], 0)] (Some 10))].
Definition both : ActiveState := match poll true None (Some 10) arrived start with Ret (a, _) => a | Panic => Disabled end.
Definition storage_of (a : ActiveState) : Storage := match a with Enabled s _ _ => s | Disabled => new_storage 0 0 end.
Definition downloads_of (a : ActiveState) : Downloads := match a with Enabled _ d _ => d | Disabled => no_downloads end.
Definition tip_of (a : ActiveState) : bytes := match a with Enabled _ _ h => h | Disabled => [] end.

Lemma enabled_eq a : is_enabled a = true → a = Enabled (storage_of a) (downloads_of a) (tip_of a).
Proof. by destruct a. Qed.
Lemma polled (x : outcome (ActiveState * MempoolChanges)) : match x with Ret _ => true | Panic => false end = true →
  ∃ ch, x = Ret (match x with Ret (a, _) => a | Panic => Disabled end, ch).
Proof. destruct x as [[a ch]|]; [by exists ch|done]. Qed.
(** Decided without showing the maps. *)
Lemma decided (Q : Prop) `{Decision Q} : bool_decide Q = true → Q.
Proof. by apply bool_decide_eq_true. Qed.

Lemma poll_start : poll true (Some (Reset_ [Byte.x0a] 10)) None [] Disabled = Ret (start, no_changes).
Proof. reflexivity. Qed.
Lemma poll_both : ∃ ch, poll true None (Some 10) arrived start = Ret (both, ch).
Proof. apply polled. vm_compute. reflexivity. Qed.
Lemma both_enabled : both = Enabled (storage_of both) (downloads_of both) (tip_of both).
Proof. apply enabled_eq. vm_compute. reflexivity. Qed.

Lemma both_reachable : rtc (mempool_step conf) Disabled (Enabled (storage_of both) (downloads_of both) (tip_of both)).
Proof.
  destruct poll_both as [ch poll_both]. rewrite <- both_enabled. eapply rtc_l; [refine (StepPoll conf _ _ _ _ _ _ _ _ _ _ _ _ _ poll_start)|eapply rtc_once; refine (StepPoll conf _ _ _ _ _ _ _ _ _ _ _ _ _ poll_both)].
  - intros i v sp h Hin. by apply elem_of_nil in Hin.
  - intros i v sp h Hin. unfold arrived in Hin. rewrite !elem_of_cons in Hin. unfold tx_fits, MAX_BLOCK_BYTES.
    destruct Hin as [[= -> -> -> ->]|[[= -> -> -> ->]|Hin%elem_of_nil]]; [cbn; lia|cbn; lia|done].
Qed.
Lemma both_ok : storage_ok 80000000 (storage_of both).
Proof. pose proof (reachable_state_ok conf ltac:(cbn; lia) _ both_reachable) as Hok. cbn in Hok. apply Hok. Qed.

(** ** Witnesses *)

Lemma mempool_safe_witness : size (transactions (storage_of both).(verified)) = 2%nat ∧
  total_cost (storage_of both).(verified) = set_sum cost (transactions (storage_of both).(verified)) ∧
  total_cost (storage_of both).(verified) ≤ 80000000.
Proof.
  split; [vm_compute; reflexivity|].
  destruct (mempool_safe conf (storage_of both) (downloads_of both) (tip_of both)) as (_ & _ & _ & Hc & Hl & _); [cbn; lia|exact both_reachable|].
  exact (conj Hc Hl).
Defined.

Lemma depends_both : depends_on (transaction_dependencies (storage_of both).(verified)) [Byte.x01] [Byte.x02].
Proof. unfold depends_on. apply (bool_decide_unpack _). vm_compute. exact I. Qed.
Lemma depends_only k x : depends_on (transaction_dependencies (storage_of both).(verified)) k x → k = [Byte.x01] ∧ x = [Byte.x02].
Proof.
  unfold depends_on, direct_dependents.
  assert (dependents (transaction_dependencies (storage_of both).(verified)) = {[ [Byte.x01] := {[ [Byte.x02] ]} ]}) as -> by (apply (decided _); vm_compute; reflexivity).
  destruct (decide (k = [Byte.x01])) as [->|Hne]; [rewrite lookup_singleton_eq|rewrite lookup_singleton_ne by done]; cbn; set_solver.
Qed.
Lemma stored_child : transactions (storage_of both).(verified) !! [Byte.x02] = Some (mk_verified child.(transaction) 10000 0 0 (Some 10)).
Proof. vm_compute. reflexivity. Qed.
Lemma stored_parent : transactions (storage_of both).(verified) !! [Byte.x01] = Some (mk_verified parent.(transaction) 10000 0 0 (Some 10)).
Proof. vm_compute. reflexivity. Qed.

Lemma remove_takes_dependents_witness : ∃ s' vs,
  remove [Byte.x01] (storage_of both).(verified) = Ret (s', vs) ∧ s'.(transactions) !! [Byte.x02] = None.
Proof.
  destruct (remove_takes_dependents [Byte.x01] (storage_of both).(verified) _ (proj1 both_ok) stored_parent) as (s' & vs & E & _ & Hs').
  - intros x Hx. assert (x = [Byte.x02]) as ->; [|split; [done|by exists (mk_verified child.(transaction) 10000 0 0 (Some 10)); exact stored_child]].
    induction Hx as [a b [_ ?]%depends_only|a b c' _ _ IH]; [done|exact IH].
  - eexists _, _. split; [exact E|]. destruct (s'.(transactions) !! [Byte.x02]) as [w|] eqn:Hw; [|done].
    apply Hs' in Hw as (_ & _ & Hn). destruct Hn. apply tc_once, depends_both.
Defined.

Lemma expired_family_aborts_witness :
  poll_ready [] 0 iter_ids live iter_handles conf true None (Some 40) [] (Enabled (storage_of both) no_downloads [Byte.x0a]) = Panic.
Proof.
  exact (proj2 (expired_family_aborts [] 0 iter_ids live iter_handles conf (storage_of both) no_downloads [Byte.x0a] 40 80000000
    [Byte.x01] [Byte.x02] _ _ both_ok stored_parent stored_child depends_both eq_refl eq_refl)).
Defined.

(** A block with the parent. *)
Definition parent_block : ChainTipBlock := {|
  tip_hash := [Byte.x0b]; tip_height := 11; tip_time := 0; tip_transactions := [tx_of parent];
  tip_transaction_hashes := [[Byte.x01]]; tip_previous_block_hash := [Byte.x0a] |}.
Definition grown : ActiveState :=
  match poll true (Some (Grow parent_block)) (Some 11) [] (Enabled (storage_of both) (downloads_of both) (tip_of both)) with
  | Ret (a, _) => a
  | Panic => Disabled
  end.
Lemma poll_grown : ∃ ch, poll true (Some (Grow parent_block)) (Some 11) [] (Enabled (storage_of both) (downloads_of both) (tip_of both))
  = Ret (Enabled (storage_of grown) (downloads_of grown) (tip_of grown), ch).
Proof. rewrite <- (enabled_eq grown) by (vm_compute; reflexivity). apply polled. vm_compute. reflexivity. Qed.

Lemma poll_clears_block_witness : is_Some (transactions (storage_of grown).(verified) !! [Byte.x02]) ∧
  spends_any [tx_of parent] (mk_verified child.(transaction) 10000 0 0 (Some 10)) = false.
Proof.
  assert (transactions (storage_of grown).(verified) !! [Byte.x02] = Some (mk_verified child.(transaction) 10000 0 0 (Some 10))) as Hk
    by (vm_compute; reflexivity).
  split; [eexists; exact Hk|]. destruct poll_grown as [ch poll_grown]. refine (proj1 (proj2 (proj2 (poll_clears_block [Expired; DuplicateSpend; Mined; RandomlyEvicted] 0 iter_ids live iter_handles conf parent_block (Some 11) [] (storage_of both) (downloads_of both)
    (tip_of both) (storage_of grown) (downloads_of grown) (tip_of grown) ch _ both_ok _ poll_grown) _ _ Hk))).
  - cbn. lia.
  - intros i v sp h Hin. apply elem_of_nil in Hin. destruct Hin.
Defined.

(** A transaction that is being verified. *)
Definition queued : Downloads := (download_if_needed_and_verify (GossipTx parent.(transaction)) no_downloads).2.

Lemma timed_out_never_retried_witness : ∃ e,
  call [] 0 iter_ids (Queue [GossipId (id_of parent)]) (Enabled (new_storage 3600 80000000) (poll_next (id_of parent) Elapsed queued) [Byte.x0a])
  = (RQueued [inl e], Enabled (new_storage 3600 80000000) (poll_next (id_of parent) Elapsed queued) [Byte.x0a]).
Proof.
  destruct (timed_out_never_retried [] 0 iter_ids conf (id_of parent) queued (new_storage 3600 80000000) [Byte.x0a]
    (GossipTx parent.(transaction)) (Enabled (new_storage 3600 80000000) (poll_next (id_of parent) Elapsed queued) [Byte.x0a]))
    as (s' & d' & h' & _ & _ & Hq); [vm_compute; reflexivity|apply rtc_refl|]. exact (Hq (GossipId (id_of parent)) eq_refl).
Defined.

Lemma mempool_fee_rule_witness : let D := {| tx_hash _ := [Byte.x01]; tx_auth_digest _ := []; tx_serialized_size _ := 300; input_serialized_size _ := 148 |} in
  ∃ utx, unmined_tx (spend Byte.x00 40) = Ret utx ∧
    verified_unmined_tx utx 9999 0 = Ret (inl zip317.UnpaidActions).
Proof.
  intros D. destruct (mempool_fee_rule (spend Byte.x00 40) 9999 0) as (utx & E & _ & Hv & _).
  - unfold fee_inputs_ok, is_u, MAX_BLOCK_BYTES, Amount.ok. vm_compute. repeat split; discriminate.
  - exists utx. split; [exact E|exact Hv].
Defined.

Lemma both_unsigned : Forall tx_unsigned [child; parent].
Proof. repeat constructor; vm_compute; discriminate. Qed.

Lemma template_fits_witness : ∃ sel,
  select_mempool_transactions (transaction_dependencies (storage_of both).(verified)) 200 0 [child; parent] = Ret sel ∧
  200 + zsum (map (λ v, v.(transaction).(utx_size)) sel) ≤ MAX_BLOCK_BYTES.
Proof.
  destruct (template_fits (transaction_dependencies (storage_of both).(verified)) [child; parent] 200 0) as (sel & E & Hz & _);
    [unfold MAX_BLOCK_BYTES; lia|unfold BlockVerifier.MAX_BLOCK_SIGOPS; lia|exact both_unsigned|]. exact (ex_intro _ sel (conj E Hz)).
Defined.

Lemma no_self_dependency k X : dependencies (transaction_dependencies (storage_of both).(verified)) !! k = Some X → k ∉ X.
Proof.
  assert (dependencies (transaction_dependencies (storage_of both).(verified)) = {[ [Byte.x02] := {[ [Byte.x01] ]} ]}) as -> by (apply (decided _); vm_compute; reflexivity).
  intros [<- <-]%lookup_singleton_Some. set_solver.
Qed.

Lemma mined_parent_blocks_child_witness : ∃ sel,
  select_mempool_transactions (clear_mined_dependencies {[ [Byte.x01] ]} (transaction_dependencies (storage_of both).(verified))) 200 0 [child] = Ret sel ∧
  child ∉ sel.
Proof.
  apply (mined_parent_blocks_child (transaction_dependencies (storage_of both).(verified)) [child] 200 0 {[ [Byte.x01] ]} [Byte.x01] child {[ [Byte.x01] ]}).
  - exact no_self_dependency.
  - vm_compute. reflexivity.
  - set_solver.
  - set_solver.
  - intros w ->%list_elem_of_singleton. discriminate.
  - unfold MAX_BLOCK_BYTES. lia.
  - unfold BlockVerifier.MAX_BLOCK_SIGOPS. lia.
Defined.

(** ** What goes wrong *)

(** The child alone is in the template while its parent is, and in none after that. *)
Example template_takes_family :
  select_mempool_transactions (transaction_dependencies (storage_of both).(verified)) 200 0 [child; parent] = Ret [parent; child] ∧
  select_mempool_transactions (clear_mined_dependencies {[ [Byte.x01] ]} (transaction_dependencies (storage_of both).(verified))) 200 0 [child] = Ret [].
Proof. vm_compute. done. Qed.

(** The transactions and the coinbase transaction can take all the bytes of a block, and
    leave none for its header. *)
Definition large : VerifiedUnminedTx :=
  mk_verified {| utx_transaction := spend Byte.x00 40; utx_id := Witnessed [Byte.x03] []; utx_size := 99800; conventional_fee := 10000 |} 10000 0 0 None.
Example template_leaves_no_header :
  select_mempool_transactions no_deps 200 0 [large] = Ret [large] ∧ 200 + large.(transaction).(utx_size) = MAX_BLOCK_BYTES.
Proof. vm_compute. done. Qed.

(** The last transaction is evicted. *)
Definition evict_last : MempoolOrder := {| iter_hashes := elements; iter_transactions := map_to_list; sample ws := (length ws - 1)%nat |}.

(** With room for one transaction the child is reported as inserted, although its parent
    was evicted, and the child with it. *)
Example inserted_and_gone :
  let s1 := match insert (Or := evict_last) [] 0 parent [] (Some 10) (new_storage 3600 15000) with Ret (_, s) => s | Panic => new_storage 0 0 end in
  match insert (Or := evict_last) [] 0 child [([Byte.x01], 0)] (Some 10) s1 with
  | Ret (r, s) => r = inr (id_of child) ∧ transactions s.(verified) = ∅
  | Panic => False
  end.
Proof. vm_compute. done. Qed.

(** The child is removed on its own, and then its parent cannot be removed. *)
Example child_then_parent :
  match remove_exact {[id_of child]} (storage_of both) with
  | Ret (n, s) => n = 1%nat ∧ remove_exact {[id_of parent]} s = Panic
  | Panic => False
  end.
Proof. vm_compute. done. Qed.

(** Two transactions that withdraw the same bond do not conflict: both are in the
    mempool, and both in a template, of which the state accepts one. *)
Definition withdrawal (name : byte) (lock : Z) : VerifiedUnminedTx :=
  mk_verified {| utx_transaction := VCrosslink Nu6 (LockHeight lock) 40 [] [] None None
                   (Some (StakingAction.mk WithdrawDelegationBond 5 [Byte.x09] [] [] [] [] []));
                 utx_id := Witnessed [name] []; utx_size := 300; conventional_fee := 5000 |} 5000 0 0 None.
Example two_withdrawals_enter :
  match insert [] 0 (withdrawal Byte.x05 0) [] (Some 10) (new_storage 3600 80000000) with
  | Ret (_, s) => match insert [] 0 (withdrawal Byte.x06 1) [] (Some 10) s with
                  | Ret (r, s) => r = inr (Witnessed [Byte.x06] []) ∧ size (transactions s.(verified)) = 2%nat
                  | Panic => False
                  end
  | Panic => False
  end.
Proof. vm_compute. done. Qed.
